(* ===== verification/_CoqProject ===== *)
-Q . S2P
Prelude.v
WrappingIntegers.v
ByteStream.v
StreamReassembler.v
Buffer.v
Parser.v
StdString.v
Util.v
Checksum.v
TCPHeader.v
TCPSegment.v
StreamSegments.v
TCPReceiver.v
TCPConfig.v
TCPSender.v
TCPState.v
TCPConnection.v
InOrder.v
EndToEnd.v
IPv4Header.v
IPv4Datagram.v
EthernetHeader.v
EthernetFrame.v
ARPMessage.v
Address.v
NetworkInterface.v
Router.v
FileDescriptor.v
Tun.v
EventLoop.v
Socket.v
FdAdapter.v
TCPOverIP.v
TunTapAdapter.v
TCPSpongeSocket.v
SocketDelivery.v
SocketPair.v
AdapterDevices.v
AdapterPeers.v
FullStackSocket.v
BidirectionalStreamCopy.v
TCPProcess.v
Printing.v
TCPBenchmark.v
BenchmarkRounds.v
BenchmarkLive.v
NetworkSimulator.v
CString.v
CommandLine.v
UdpTcpdump.v
Programs.v
