(* ===== verification/Prelude.v ===== *)
(** * Sponge: a user-space TCP/IP stack (libsponge)

    libsponge implements TCP on top of IPv4, Ethernet and ARP, in user space.
    This library is a model of it in Rocq, with theorems on what it does.

    ** The program and its model

    An application writes to and reads from byte streams.  A [TCPConnection]
    owns a [TCPSender], which cuts the outgoing stream into segments and sends
    them again until they are acknowledged, and a [TCPReceiver], which puts the
    segments of the peer back in order with a [StreamReassembler].  Segments are
    carried in UDP or IPv4 datagrams by adapters; below IPv4, a
    [NetworkInterface] finds Ethernet addresses with ARP, and a [Router]
    forwards datagrams between interfaces.  A [TCPSpongeSocket] runs a
    connection in a thread of its own: an [EventLoop] around poll(2) moves bytes
    between the connection, an adapter and a socket pair whose other end the
    application holds.

    There is one file per class, in the order of their dependencies.  A class is
    a record with the members of the C++ class, under the same names; a method is
    a function from the object to the new object and the value returned.  A
    queue or output device is a list to which the code appends.

    - [Prelude]: integers at their width ([u8] to [u64], [i32], [i64], wrapping
      written out), exceptions ([result]), byte strings and their lemmas, the
      hint database [sponge] and the tactics [mlia], [slia], [inv_ok] and
      [concrete]; undefined reads ([undefined_read], [or_undefined]).
    - [WrappingIntegers]: wrapping_integers.{hh,cc}.
    - [ByteStream], [StreamReassembler]: byte_stream, stream_reassembler.
    - [Buffer], [Parser], [Checksum]: util/buffer, util/parser and the class
      [InternetChecksum] of util/util.
    - [StdString]: [std::to_string], [std::stoi], [inet_ntoa].
    - [Util]: timestamps, the seeding of the random generator and the texts of
      exceptions, of util/util.
    - [TCPHeader], [TCPSegment]: tcp_helpers/tcp_header, tcp_segment.
    - [StreamSegments]: the contract between sender and receiver: what it means
      that a segment carries a piece of a stream.
    - [TCPReceiver], [TCPSender], [TCPConfig], [TCPState], [TCPConnection]:
      tcp_receiver, tcp_sender, tcp_helpers/tcp_config, tcp_helpers/tcp_state,
      tcp_connection.
    - [InOrder]: what one segment, and one second, do to an endpoint whose peer's
      segments arrive in order.
    - [EndToEnd]: two connections and a network between them, as a transition
      system; this is not code of the repository but the setting it runs in.
    - [IPv4Header], [IPv4Datagram], [EthernetHeader], [EthernetFrame],
      [ARPMessage]: the files of tcp_helpers with these names.
    - [Address]: util/address.
    - [NetworkInterface], [Router]: network_interface, router.
    - [FdAdapter]: tcp_helpers/fd_adapter and lossy_fd_adapter.
    - [TCPOverIP], [TunTapAdapter]: tcp_helpers/tcp_over_ip, tuntap_adapter.
    - [FileDescriptor], [Socket], [Tun]: the files of util with these names, over
      a class [Kernel] of system calls; a file descriptor is its wrapper, since
      duplicates share it.
    - [EventLoop]: util/eventloop.  Callbacks are functions on a state that the
      rules share.
    - [TCPSpongeSocket], [FullStackSocket]: tcp_helpers/tcp_sponge_socket; the
      second file has the classes [CS144TCPSocket] and [FullStackSocket].
    - [AdapterDevices]: the adapters plugged into sockets and devices.
    - [AdapterPeers]: the adapters over UDP sockets and TUN devices, with or
      without random loss, satisfy what the theorems on sockets ask of an
      adapter.
    - [SocketDelivery], [SocketPair]: what a [TCPSpongeSocket] does with the two
      streams, and two of them that are connected.  In the second file the
      thread of a socket is cut into turns, one round of its loop each.
    - [TCPProcess]: the process of tcp_udp, tcp_ipv4 and tcp_ip_ethernet, a main
      thread that connects, copies and waits beside the TCP thread, and two such
      processes that are connected; the destructor of [TCPSpongeSocket].
    - [Printing]: to_string and summary of the headers, and hexdump.
    - [BidirectionalStreamCopy], [TCPBenchmark], [NetworkSimulator],
      [UdpTcpdump]: the programs of apps with these names.
    - [BenchmarkRounds], [BenchmarkLive]: the rounds of the benchmark until the
      stream has arrived, and until both connections have closed.
    - [CString], [CommandLine]: [strncmp], [strtol], [strtof], and the command
      lines of tcp_udp, tcp_ipv4 and tcp_ip_ethernet with their usage messages,
      one [Module] for each.
    - [Programs]: tun, tcp_native, webget, and how the three TCP programs become
      a process.

    ** What is shown

    - Streams.  [ByteStream] is a bounded FIFO queue for every sequence of
      calls; the end of the input does not stop the writer ([write_after_end]).
      A push to the [StreamReassembler] implements insertion into a set of
      received indices; whatever arrives, what is handed on is a prefix of the
      stream, and with enough capacity all of it.
    - Sequence numbers.  [unwrap] finds the number closest to the checkpoint.
    - Receiver.  From segments that carry pieces of a stream, in any order and
      with any repetition, a prefix of the stream is delivered, and everything
      if FIN comes after all the rest has arrived; until FIN the acknowledgment
      number is the first missing one.
    - Sender.  Every segment ever sent carries a piece of the stream and fits the
      wire; the loop of [fill_window] ends and fills the window; outstanding
      segments are contiguous and counted exactly; an acknowledgment removes what
      it covers, and can only stop the program if it covers everything; the
      timer doubles after each expiry and the oldest segment is sent again.
    - Connection.  Reset, answering, giving up after too many attempts,
      lingering and clean closing, for every state.
    - End to end.  Two connections over a network that loses, duplicates and
      reorders segments: each side reads a prefix of what the other has written,
      and no method throws, except that an undefined read can stop the program.
    - Formats.  Parsing what was serialized gives it back, for TCP, IPv4,
      Ethernet and ARP, and the Internet checksum of a message with its checksum
      is zero; parsing a segment ends without an exception on every input.
    - Interface and router.  Address resolution delivers the datagram that waits
      for it; entries expire; a datagram that crosses a router leaves on the
      interface of the longest matching rule with one hop less; routing empties
      every queue.
    - Adapters.  A segment written to a TUN or Ethernet adapter is read by the
      adapter of its peer, ARP included; foreign datagrams are ignored.  Over UDP
      and TUN, whatever is put on the wire for a segment parses as the same
      segment, and what is read was on the wire ([udp_peer], [tun_peer],
      [lossy_peer]).
    - Sockets and event loop.  However poll answers and in whatever order
      segments and bytes arrive, the bytes that a [TCPSpongeSocket] hands to its
      owner are a prefix of the peer's stream, and every segment that it sends
      carries a piece of what the owner has written ([socket_relays]).  Two
      sockets whose threads take turns in any order, over a network that loses,
      repeats and reorders segments, give each owner a prefix of what the other
      writes ([sockets_deliver]); that the turns are the code's own loops is
      [connect_turns] and [listen_turns].  The same
      event loop drives bidirectional_stream_copy, which moves prefixes of the
      two streams and shuts the socket down only at the end of the first
      ([copy_faithful]).  [write_all_complete]: a blocking write
      writes everything, however little each system call takes.
    - Processes.  Two processes of the TCP programs, in which the main threads
      and the TCP threads take turns in any order, over a network that loses,
      repeats and reorders segments: what one prints is a prefix of what the
      other is given to read ([programs_deliver]).  This puts the copy loop, the
      event loop, the sockets, the adapters and the connections together; the
      witness runs two processes of tcp_udp, one of which loses a segment.
      A socket that is destroyed waits for its thread for at most one round
      ([destroy_ends]).
    - Liveness.  The benchmark connects two endpoints with the default
      configuration and exchanges their segments in order.  It delivers every
      string shorter than [2^31], and both connections close
      ([benchmark_delivers]), unless the undefined read in [ack_received] stops
      the program: the handshake of two SYN, flow control with windows that fill
      and close, spurious retransmissions, the end of both streams and the
      lingering are followed round by round.  The invariant between rounds is
      [boundary]; every round advances the position of the receiver.  The
      numbers must not wrap, since the sender compares them as they are ([wrapped_segment_never_acked]).
    - Programs.  Every round of the benchmark, in order or reversed, keeps the
      two connections in agreement with the streams ([benchmark_rounds]).  The
      simulated network is well typed: whatever is drawn, it can be built, and no
      round raises an exception ([network_typed]); a simulation succeeds exactly if every host
      has received what it expected ([simulate_verdict]); the whole program is
      run in [simulator_run].  Command lines are read inside of their bounds
      ([config_defined]) and written options are read back
      ([options_read_back]).  webget prints all that the server sends
      ([fetch_complete]); the packet printers handle every packet
      ([tun_survives]), or skip it, show it, or fail in two ways, as described by
      the headers of the packet ([packet_handled]), and the captured link is
      always one that the program knows ([tcpdump_succeeds]).  Timestamps never decrease
      ([timestamps_sorted]).
    - Printing.  hexdump is equal to its description by rows, up to the size at
      which its counter overflows, and a printed Ethernet address can be read
      back.
    - Some theorems describe behaviour that differs from what the code means to
      do: [ack_all_reads_end], [write_after_end], [eof_one_byte_early],
      [fin_acks_missing_byte], [push_beyond_window_stored], [window_overrun],
      [wrapped_segment_never_acked], [syn_reactivates],
      [short_header_accepted], [bad_checksum_accepted],
      [short_frame_accepted], [bad_version_stops_router],
      [abort_sends_no_rst], [peer_end_cuts_input], [short_udp_ends_program],
      [bad_checksum_shows_default], [missing_loss_misreported], and the last
      branch of [send_datagram_branches].

    ** Exceptions, undefined behaviour, fuel

    A method that can throw returns a [result].  C++ leaves the behaviour of the
    code undefined in some places that are reached in normal use.  For these the
    outcome is a parameter, and the theorems hold for every value of it:
    [rend_index], what the read through [rend()] in [set_eof] yields, and
    [end_header], what the read through [end()] in [ack_received] yields, are
    either a value or [None] if the program does not go on; both are functions
    of the list that is read, and are put together in [Reads].  [shift_oob] is the
    result of a shift by 32 or more in the router.  A program that does not go on
    is [Throw Undefined], and the theorems that say that a call returns say
    when this can happen instead.  No more than this is assumed of what
    undefined behaviour can do: an execution in which such a read corrupts other
    state is outside of the model.  All other undefined behaviour, such as a
    read behind a captured packet or the overflow of an [int], is
    [Throw Undefined] at once.  The loop of [fill_window] runs with fuel, one unit per byte
    in the buffer, since every round takes at least one; [fill_window_fills]
    shows that the fuel is enough.  Folding a checksum takes two rounds at most
    ([fold_loop_total]).  The loops of the router run over lists.  The
    loops around [wait_next_event], which end when the world outside lets them,
    run with fuel that the theorems quantify over: what they state holds after
    any number of rounds.  The loop of a blocking write has one unit of fuel per
    byte, which [write_all_complete] shows to be enough; so does the loop that
    reads a page ([fetch_complete]).  The loops of the benchmark have
    fuel for a number of rounds; one round per byte and twelve more are enough in
    order ([benchmark_delivers]).  The loops over options and over IPv6
    extension headers have one unit per argument and per byte, and both move
    forward by one at least ([config_defined], [packet_handled]).

    Sizes of strings in memory are below [2^63].  Theorems on whole streams ask
    for streams shorter than [2^31] bytes where the code decodes sequence
    numbers relative to the amount received, and say so.

    ** Parameters

    The C library's name functions are the class [Resolver] of [Address], with
    the documented behaviour on numeric addresses as [NumericResolver] and
    [numeric_resolver] as an instance, and the same for hosts that are one
    number ([NumberResolver], [number_resolver]).  The random number generators are
    parameters or arguments, as is what the adapters' sockets and devices
    deliver.  System calls are the operations of the class [Kernel].  What the
    theorems use of them is stated in the classes [StreamPair] (a socket pair
    is two byte streams), [PeerAdapter] (an adapter hands over segments of the
    network), [UdpSocket] and [TunDevice] (datagrams and packets are sent and
    received as a whole), [SocketNetwork] (two sockets that share nothing but the network),
    [CopyKernel] (the standard streams and a socket), [Host] (a process whose
    socket pair joins its two threads), [Hosts] (two of them), [BlockingOutput]
    and [StreamSocket], each with an instance that the witnesses run.  The laws
    are on what is observed of a state of the kernel ([PairView], [CopyView]);
    each call says what it changes and that the rest is as it was or has grown
    ([since], [copy_since]).  The text form of an IPv6 address and the calls of
    libpcap ([Pcap]) are parameters of [UdpTcpdump], the steady clock, the random
    device and the messages of the system parameters of [Util].

    ** Not modelled

    That the Ethernet adapter is a [PeerAdapter]: its interface writes frames of
    its own when it reads, so the theorems on sockets ask more of it than is
    shown ([ethernet_delivers] is about one segment).  The interleaving of threads
    within a round of their loops.  What a program
    does between an exception and its end: the state is lost with the
    exception, so the destructors that run then, and the message that is
    printed, are not followed; the exit status is.  That a connection ends with
    both streams complete is stated for segments in order only, because with
    reordering the code can end a stream one byte early
    ([eof_one_byte_early]).  Progress
    messages and diagnostic output on cerr; overloads and conversions that only
    pass their arguments on; and the tests. *)

From stdpp Require Export base list numbers option decidable tactics.
From stdpp Require Import options.

#[export] Set Default Proof Using "Type".

#[global] Open Scope Z_scope.

(** ** Machine integers *)

(** Unsigned arithmetic at a fixed width is integer arithmetic followed by a
    reduction modulo the width.  [size_t] and [uint64_t] are 64 bits wide. *)
Definition u8 (x : Z) : Z := x mod 0x100.
Definition u16 (x : Z) : Z := x mod 0x10000.
Definition u32 (x : Z) : Z := x mod 0x100000000.
Definition u64 (x : Z) : Z := x mod 0x10000000000000000.

(** Conversion of an unsigned value to the signed type of the same width. *)
Definition i32 (x : Z) : Z := if u32 x <? 0x80000000 then u32 x else u32 x - 0x100000000.
Definition i64 (x : Z) : Z :=
  if u64 x <? 0x8000000000000000 then u64 x else u64 x - 0x10000000000000000.

Definition UINT16_MAX : Z := 0xffff.
Definition UINT32_MAX : Z := 0xffffffff.
Definition UINT64_MAX : Z := 0xffffffffffffffff.
Definition npos : Z := UINT64_MAX.

(** [is_u8 x] and its siblings say that [x] is a value of the type. *)
Definition is_u8 (x : Z) : Prop := 0 <= x < 0x100.
Definition is_u16 (x : Z) : Prop := 0 <= x < 0x10000.
Definition is_u32 (x : Z) : Prop := 0 <= x < 0x100000000.
Definition is_u64 (x : Z) : Prop := 0 <= x < 0x10000000000000000.

(** [mlia] is [lia] on goals with machine-width reductions. *)
Ltac unfold_width :=
  unfold i32, i64, u8, u16, u32, u64, is_u8, is_u16, is_u32, is_u64,
    npos, UINT16_MAX, UINT32_MAX, UINT64_MAX in *.
Ltac mlia := unfold_width; Z.div_mod_to_equations; lia.

Lemma u8_small x : is_u8 x → u8 x = x.
Proof. intros; by apply Z.mod_small. Qed.
Lemma u16_small x : is_u16 x → u16 x = x.
Proof. intros; by apply Z.mod_small. Qed.
Lemma u32_small x : is_u32 x → u32 x = x.
Proof. intros; by apply Z.mod_small. Qed.
Lemma u64_small x : is_u64 x → u64 x = x.
Proof. intros; by apply Z.mod_small. Qed.

Lemma u8_range x : is_u8 (u8 x).
Proof. by apply Z.mod_pos_bound. Qed.
Lemma u16_range x : is_u16 (u16 x).
Proof. by apply Z.mod_pos_bound. Qed.
Lemma u32_range x : is_u32 (u32 x).
Proof. by apply Z.mod_pos_bound. Qed.
Lemma u64_range x : is_u64 (u64 x).
Proof. by apply Z.mod_pos_bound. Qed.

Lemma u64_u64 x : u64 (u64 x) = u64 x.
Proof. apply u64_small, u64_range. Qed.
Lemma i64_small x : - 0x8000000000000000 <= x < 0x8000000000000000 → i64 (u64 x) = x.
Proof.
  intros. unfold i64. rewrite !u64_u64. destruct (decide (0 <= x)).
  - rewrite u64_small by (unfold_width; lia). by case_match; [|lia].
  - assert (u64 x = x + 0x10000000000000000) as ->.
    { unfold u64. rewrite <- (Z.mod_add x 1) by lia. apply Z.mod_small. lia. }
    case_match; lia.
Qed.
Lemma u32_add_l x y : u32 (u32 x + y) = u32 (x + y).
Proof. apply Zplus_mod_idemp_l. Qed.
Lemma u32_add_r x y : u32 (x + u32 y) = u32 (x + y).
Proof. apply Zplus_mod_idemp_r. Qed.
Lemma u32_sub_l x y : u32 (u32 x - y) = u32 (x - y).
Proof. apply Zminus_mod_idemp_l. Qed.
Lemma u32_sub_r x y : u32 (x - u32 y) = u32 (x - y).
Proof. apply Zminus_mod_idemp_r. Qed.
Lemma u32_u32 x : u32 (u32 x) = u32 x.
Proof. apply u32_small, u32_range. Qed.
Lemma u32_add_mid x y z : u32 (x + (u32 y + z)) = u32 (x + (y + z)).
Proof. rewrite <- u32_add_r, u32_add_l. apply u32_add_r. Qed.

(** [u32_norm] removes the inner conversions of a sum. *)
Ltac u32_norm :=
  repeat first [rewrite u32_u32 | rewrite u32_add_l | rewrite u32_add_r
               | rewrite u32_add_mid | rewrite <- Z.add_assoc].

Create HintDb sponge.
Create Rewrite HintDb sponge.
#[export] Hint Resolve u8_range u16_range u32_range u64_range : sponge.
#[export] Hint Resolve u8_small u16_small u32_small u64_small : sponge.

(** ** Exceptions

    A C++ function that may throw returns a [result].  [Undefined] is the
    outcome of an execution whose behaviour the C++ standard leaves
    undefined, where the model does not go on; [ProgramExit] is a call of
    [exit], which no handler catches, after a message; [OutOfFuel] marks the end of
    the fuel of a loop, which the theorems on the loop exclude. *)
Inductive exn :=
| OutOfRange
| InvalidArgument
| RuntimeError
| UnixError (errno : Z)
| LengthError
| BadOptionalAccess
| ProgramExit (status : Z) (message : list Z)
| Undefined
| OutOfFuel.

Inductive result (A : Type) : Type :=
| Ok (a : A)
| Throw (e : exn).
Arguments Ok {A} _.
Arguments Throw {A} _.

#[export] Instance exn_eq_dec : EqDecision exn.
Proof. solve_decision. Defined.
#[export] Instance result_ret : MRet result := λ A a, Ok a.
#[export] Instance result_bind : MBind result := λ A B f m,
  match m with Ok a => f a | Throw e => Throw e end.
#[export] Instance result_fmap : FMap result := λ A B f m,
  match m with Ok a => Ok (f a) | Throw e => Throw e end.
Lemma Ok_inj {A} (a b : A) : Ok a = Ok b → a = b.
Proof. congruence. Qed.
Definition is_ok {A} (r : result A) : Prop := ∃ a, r = Ok a.

Definition EXIT_SUCCESS : Z := 0.
Definition EXIT_FAILURE : Z := 1.

(** The status of a [main] whose handler catches every [exception]; there is
    none for an execution that the model does not follow to its end. *)
Definition exit_status {A} (body : result A) : option Z :=
  match body with
  | Ok _ => Some EXIT_SUCCESS
  | Throw (ProgramExit status _) => Some status
  | Throw (Undefined | OutOfFuel) => None
  | Throw _ => Some EXIT_FAILURE
  end.

Lemma result_bind_ok {A B} (f : A → result B) m b :
  (m ≫= f) = Ok b ↔ ∃ a, m = Ok a ∧ f a = Ok b.
Proof.
  destruct m as [a|e]; simpl; split; try done.
  - intros H. by exists a.
  - by intros (a' & [= ->] & H).
  - by intros (a' & ? & _).
Qed.

(** What a read that C++ leaves undefined does: it yields some value, or the
    program does not go on. *)
Definition undefined_read {A} (outcome : option A) : result A :=
  match outcome with Some a => Ok a | None => Throw Undefined end.

(** The call returns a value with [P], or its behaviour is undefined; it does
    not throw anything else. *)
Definition or_undefined {A} (m : result A) (P : A → Prop) : Prop :=
  match m with Ok a => P a | Throw e => e = Undefined end.

Lemma or_undefined_bind {A B} (m : result A) (f : A → result B) P Q :
  or_undefined m P → (∀ a, P a → or_undefined (f a) Q) → or_undefined (m ≫= f) Q.
Proof. destruct m as [a|e]; simpl; auto. Qed.

Lemma or_undefined_impl {A} (m : result A) (P Q : A → Prop) :
  or_undefined m P → (∀ a, P a → Q a) → or_undefined m Q.
Proof. destruct m; simpl; auto. Qed.

Lemma or_undefined_ok {A} (m : result A) P a : or_undefined m P → m = Ok a → P a.
Proof. by intros H ->. Qed.

Lemma undefined_read_spec {A} (o : option A) : or_undefined (undefined_read o) (λ a, o = Some a).
Proof. by destruct o. Qed.

(** [m] does what [m'] does, unless its behaviour is undefined, which is possible
    only with [P]. *)
Definition follows {A} (P : Prop) (m m' : result A) : Prop := m = m' ∨ (m = Throw Undefined ∧ P).

Lemma follows_refl {A} P (m : result A) : follows P m m.
Proof. by left. Qed.

Lemma follows_bind {A B} P (m m' : result A) (f f' : A → result B) :
  follows P m m' → (∀ a, follows P (f a) (f' a)) → follows P (m ≫= f) (m' ≫= f').
Proof. intros [->|[-> ?]] Hf; [|by right]. destruct m' as [a|e]; [apply Hf|by left]. Qed.

#[export] Hint Resolve follows_refl : sponge.

(** Two calls in a row, and what is seen of the second's result. *)
Lemma result_run {A B C} (m : result A) (f : A → result B) (g : B → C) c :
  (x ← m; y ← f x; Ok (g y)) = Ok c → ∃ x y, m = Ok x ∧ f x = Ok y ∧ g y = c.
Proof. intros (x & Hx & (y & Hy & [= <-])%result_bind_ok)%result_bind_ok. eauto. Qed.

Lemma result_run3 {A B C D} (m : result A) (f : A → result B) (h : A → B → result C) (g : C → D) d :
  (x ← m; y ← f x; z ← h x y; Ok (g z)) = Ok d → ∃ x y z, m = Ok x ∧ f x = Ok y ∧ h x y = Ok z ∧ g z = d.
Proof. intros (x & Hx & (y & z & Hy & Hz & Hg)%result_run)%result_bind_ok. eauto 8. Qed.

(** [inv_ok] splits a hypothesis that a monadic computation returned. *)
Ltac inv_ok :=
  repeat match goal with
  | H : (_ ≫= _) = Ok _ |- _ => apply result_bind_ok in H; destruct H as (? & ? & H)
  | H : Ok _ = Ok _ |- _ => injection H as H
  | H : Throw _ = Ok _ |- _ => discriminate H
  | H : Ok _ = Throw _ |- _ => discriminate H
  | H : mret _ = Ok _ |- _ => injection H as H
  end; simplify_eq.

(** ** Lists *)

Lemma Forall2_same {A} (R : A → A → Prop) `{!Reflexive R} (l : list A) : Forall2 R l l.
Proof. induction l; by constructor. Qed.

Lemma Forall_of_sublist {A} (P : A → Prop) l l' : sublist l' l → Forall P l → Forall P l'.
Proof.
  intros Hs. induction Hs as [|x l1 l2 Hs IH|x l1 l2 Hs IH]; intros Hf; [done|..];
    apply Forall_cons_1 in Hf as [? ?]; [apply Forall_cons_2|]; auto.
Qed.

(** ** Byte strings

    A [std::string] is a list of bytes; sizes and positions are integers. *)
Abbreviation byte := Z (only parsing).
Abbreviation bytes := (list Z) (only parsing).

Definition slen {A} (s : list A) : Z := Z.of_nat (length s).
Definition stake {A} (n : Z) (s : list A) : list A := take (Z.to_nat (Z.min n (slen s))) s.
Definition sdrop {A} (n : Z) (s : list A) : list A := drop (Z.to_nat (Z.min n (slen s))) s.

(** [std::string::substr]: throws [std::out_of_range] when [pos] is past the end. *)
Definition substr (s : bytes) (pos n : Z) : result bytes :=
  if slen s <? pos then Throw OutOfRange else Ok (stake n (sdrop pos s)).

(** [std::string::append(str, pos, n)]. *)
Definition append_sub (s t : bytes) (pos n : Z) : result bytes :=
  t' ← substr t pos n; Ok (s ++ t').

(** [std::string::resize(n)] pads with null characters. *)
Definition sresize (n : Z) (s : bytes) : bytes :=
  stake n s ++ replicate (Z.to_nat (n - slen s)) 0.

Lemma slen_nonneg {A} (s : list A) : 0 <= slen s.
Proof. unfold slen; lia. Qed.
Lemma slen_nil {A} : slen (@nil A) = 0.
Proof. done. Qed.
Lemma slen_cons {A} x (s : list A) : slen (x :: s) = 1 + slen s.
Proof. unfold slen; simpl; lia. Qed.
Lemma slen_one {A} (x : A) : slen [x] = 1.
Proof. done. Qed.
Lemma slen_app {A} (s t : list A) : slen (s ++ t) = slen s + slen t.
Proof. unfold slen; rewrite length_app; lia. Qed.
Lemma slen_zero_nil {A} (s : list A) : slen s = 0 → s = [].
Proof. destruct s; [done|]. rewrite slen_cons. pose proof (slen_nonneg s). lia. Qed.
Lemma slen_stake {A} n (s : list A) : 0 <= n → slen (stake n s) = Z.min n (slen s).
Proof. unfold slen, stake, slen. rewrite length_take. lia. Qed.
Lemma slen_sdrop {A} n (s : list A) : 0 <= n → slen (sdrop n s) = Z.max 0 (slen s - n).
Proof. unfold slen, sdrop, slen. rewrite length_drop. lia. Qed.
Lemma stake_take {A} n (s : list A) : stake n s = take (Z.to_nat n) s.
Proof.
  unfold stake, slen. destruct (decide (n <= Z.of_nat (length s))).
  - by rewrite Z.min_l.
  - rewrite Z.min_r, Nat2Z.id by lia. rewrite firstn_all. symmetry; apply take_ge. lia.
Qed.
Lemma sdrop_drop {A} n (s : list A) : sdrop n s = drop (Z.to_nat n) s.
Proof.
  unfold sdrop, slen. destruct (decide (n <= Z.of_nat (length s))).
  - by rewrite Z.min_l.
  - rewrite Z.min_r, Nat2Z.id by lia. rewrite drop_all. symmetry; apply drop_ge. lia.
Qed.
Lemma stake_sdrop {A} n (s : list A) : stake n s ++ sdrop n s = s.
Proof. apply take_drop. Qed.
Lemma stake_all {A} n (s : list A) : slen s <= n → stake n s = s.
Proof. intros. rewrite stake_take. apply take_ge. unfold slen in *; lia. Qed.
Lemma stake_0 {A} (s : list A) : stake 0 s = [].
Proof. by rewrite stake_take. Qed.
Lemma sdrop_0 {A} (s : list A) : sdrop 0 s = s.
Proof. by rewrite sdrop_drop. Qed.
Lemma sdrop_all {A} n (s : list A) : slen s <= n → sdrop n s = [].
Proof. intros. rewrite sdrop_drop. apply drop_ge. unfold slen in *; lia. Qed.
Lemma sdrop_app_ge {A} n (s t : list A) : slen s <= n → sdrop n (s ++ t) = sdrop (n - slen s) t.
Proof.
  intros. rewrite !sdrop_drop. unfold slen in *.
  rewrite drop_app_ge by lia. f_equal; lia.
Qed.
Lemma stake_app_le {A} n (s t : list A) : n <= slen s → stake n (s ++ t) = stake n s.
Proof. intros. rewrite !stake_take. unfold slen in *. by rewrite take_app_le by lia. Qed.
Lemma sdrop_sdrop {A} n m (s : list A) : 0 <= n → 0 <= m → sdrop n (sdrop m s) = sdrop (m + n) s.
Proof. intros. rewrite !sdrop_drop, drop_drop. f_equal; lia. Qed.

Lemma substr_ok s pos n : pos <= slen s → substr s pos n = Ok (stake n (sdrop pos s)).
Proof. intros. unfold substr. case_match; [lia|done]. Qed.

#[export] Hint Rewrite u32_add_l u32_add_r u32_sub_l u32_sub_r u32_u32 : sponge.
#[export] Hint Rewrite @slen_nil @slen_one @slen_cons @slen_app @stake_0 @sdrop_0 : sponge.
#[export] Hint Rewrite @slen_stake @slen_sdrop using lia : sponge.
#[export] Hint Resolve slen_nonneg : sponge.

Ltac slens := autorewrite with sponge in *.

(** [slia] is [lia] with the knowledge that sizes are not negative. *)
Ltac pose_slen s :=
  lazymatch goal with
  | _ : 0 <= slen s |- _ => fail
  | _ => pose proof (slen_nonneg s)
  end.
Ltac slia :=
  rewrite ?slen_nil in *;
  repeat match goal with
  | |- context [slen ?s] => pose_slen s
  | _ : context [slen ?s] |- _ => pose_slen s
  end;
  unfold_width; lia.

(** [concrete] decides a closed conjunction of arithmetic facts. *)
Ltac concrete := repeat split; vm_compute; solve [done | congruence | discriminate].

(** ** Excerpts of a byte string

    [agree S i s]: the string [s] is what [S] holds from position [i] on. *)
Definition agree (S : bytes) (i : Z) (s : bytes) : Prop :=
  ∀ k, (k < length s)%nat → S !! (Z.to_nat i + k)%nat = s !! k.

Lemma agree_nil S i : agree S i [].
Proof. intros k Hk. simpl in Hk. lia. Qed.

Lemma agree_app S i s t :
  0 <= i → agree S i (s ++ t) ↔ agree S i s ∧ agree S (i + slen s) t.
Proof.
  intros Hi. unfold agree, slen. rewrite length_app. split.
  - intros H. split; intros k Hk.
    + rewrite H by lia. by rewrite lookup_app_l.
    + replace (Z.to_nat (i + Z.of_nat (length s)) + k)%nat
        with (Z.to_nat i + (length s + k))%nat by lia.
      rewrite H by lia. rewrite lookup_app_r by lia. f_equal; lia.
  - intros [H1 H2] k Hk. destruct (decide (k < length s)%nat).
    + rewrite lookup_app_l by lia. by apply H1.
    + rewrite lookup_app_r by lia. rewrite <- H2 by lia. f_equal; lia.
Qed.

Lemma agree_stake S i s n : 0 <= i → agree S i s → agree S i (stake n s).
Proof. intros Hi H. rewrite <- (stake_sdrop n s), agree_app in H by done. by destruct H. Qed.

Lemma agree_sdrop S i s n :
  0 <= i → 0 <= n <= slen s → agree S i s → agree S (i + n) (sdrop n s).
Proof.
  intros Hi Hn H. rewrite <- (stake_sdrop n s), agree_app in H by done.
  rewrite slen_stake, Z.min_l in H by lia. by destruct H.
Qed.

Lemma agree_bound S i s : 0 <= i → s ≠ [] → agree S i s → i + slen s <= slen S.
Proof.
  intros Hi Hs H. destruct s as [|x s]; [done|].
  assert (length s < length (x :: s))%nat as Hk by (simpl; lia).
  specialize (H (length s) Hk). destruct (lookup_lt_is_Some_2 _ _ Hk) as [y Hy].
  rewrite Hy in H. apply lookup_lt_Some in H. unfold slen; simpl. lia.
Qed.

Lemma agree_eq S i s t : slen s = slen t → agree S i s → agree S i t → s = t.
Proof.
  unfold slen. intros Hl Hs Ht. apply list_eq. intros k.
  destruct (decide (k < length s)%nat) as [Hk|Hk].
  - rewrite <- Hs by done. apply Ht. lia.
  - rewrite !lookup_ge_None_2 by lia. done.
Qed.

Lemma agree_prefix S s : agree S 0 s → slen s <= slen S → s = stake (slen s) S.
Proof.
  intros H Hl. apply (agree_eq S 0); [rewrite slen_stake; slia|done|].
  intros k Hk. rewrite stake_take in *. rewrite length_take in Hk. by rewrite lookup_take_lt by lia.
Qed.

Lemma agree_extend S T i s : agree S i s → 0 <= i → i + slen s <= slen S → agree (S ++ T) i s.
Proof. unfold slen. intros H Hi Hb k Hk. rewrite lookup_app_l by lia. by apply H. Qed.

Lemma agree_compute S i s : 0 <= i → stake (slen s) (sdrop i S) = s → agree S i s.
Proof.
  intros Hi H k Hk. rewrite stake_take, sdrop_drop in H. rewrite <- H at 1.
  unfold slen. rewrite Nat2Z.id, lookup_take_lt by done. by rewrite lookup_drop.
Qed.

Lemma agree_forall (P : Z → Prop) S i s : agree S i s → Forall P S → Forall P s.
Proof.
  intros H HS. apply Forall_lookup_2. intros k x Hk. rewrite <- H in Hk by (by eapply lookup_lt_Some).
  by eapply Forall_lookup_1.
Qed.

Lemma agree_self S i : agree S i (sdrop i S).
Proof. intros k Hk. by rewrite sdrop_drop, lookup_drop. Qed.
