(* ===== verification/WrappingIntegers.v ===== *)
(** * 32-bit wrapping sequence numbers (libsponge/wrapping_integers.{hh,cc})

    [WrappingInt32] is the 32-bit value on the wire; [wrap] and [unwrap]
    relate it to 64-bit absolute sequence numbers.  The theorems say that
    [unwrap] returns the absolute number closest to the checkpoint among all
    64-bit numbers that wrap to its argument, and that it inverts [wrap]
    within half of the sequence space. *)

From S2P Require Import Prelude.
From stdpp Require Import options.

(** ** The class [WrappingInt32] and its operators *)

Record WrappingInt32 := mkWrappingInt32 { raw_value : Z }.

#[export] Instance WrappingInt32_eq_dec : EqDecision WrappingInt32.
Proof. solve_decision. Defined.

(** [WrappingInt32{x}] where the argument is converted to [uint32_t]. *)
Definition WrappingInt32_of (x : Z) : WrappingInt32 := mkWrappingInt32 (u32 x).

(** [int32_t operator-(WrappingInt32 a, WrappingInt32 b)]. *)
Definition minus (a b : WrappingInt32) : Z := i32 (u32 (raw_value a - raw_value b)).

Definition eqb (a b : WrappingInt32) : bool := raw_value a =? raw_value b.

Definition neqb (a b : WrappingInt32) : bool := negb (eqb a b).

(** [WrappingInt32 operator+(WrappingInt32 a, uint32_t b)]. *)
Definition plus_u32 (a : WrappingInt32) (b : Z) : WrappingInt32 :=
  mkWrappingInt32 (u32 (raw_value a + b)).

(** [WrappingInt32 operator-(WrappingInt32 a, uint32_t b)]: [a + -b]. *)
Definition minus_u32 (a : WrappingInt32) (b : Z) : WrappingInt32 := plus_u32 a (u32 (- b)).

(** ** [wrap] and [unwrap] *)

(** [static int64_t abs(uint64_t)]. *)
Definition abs (_i : Z) : Z := let i := i64 _i in if 0 <=? i then i else - i.

(** The 64-bit argument is converted to [uint32_t] at the call of [operator+]. *)
Definition wrap (n : Z) (isn : WrappingInt32) : WrappingInt32 := plus_u32 isn (u32 n).

Definition wrapping_boundary : Z := UINT32_MAX + 1.

Definition unwrap (n isn : WrappingInt32) (checkpoint : Z) : Z :=
  let seqno := minus_u32 n (raw_value isn) in
  let offset := u64 (checkpoint - checkpoint mod wrapping_boundary) in
  let center_seqno := u64 (offset + raw_value seqno) in
  let center_diff := abs (u64 (checkpoint - center_seqno)) in
  let left_seqno := u64 (center_seqno - wrapping_boundary) in
  let left_diff := abs (u64 (checkpoint - left_seqno)) in
  let right_seqno := u64 (center_seqno + wrapping_boundary) in
  let right_diff := abs (u64 (checkpoint - right_seqno)) in
  if (UINT32_MAX <? checkpoint) && (left_diff <? center_diff) then left_seqno
  else if (checkpoint <? UINT64_MAX - UINT32_MAX) && (right_diff <? center_diff) then right_seqno
  else center_seqno.

(** ** Well-formedness and helper lemmas *)

Definition wf_WrappingInt32 (a : WrappingInt32) : Prop := is_u32 (raw_value a).

Lemma wrapping_ext (a b : WrappingInt32) : raw_value a = raw_value b → a = b.
Proof. destruct a, b; simpl; congruence. Qed.

Lemma wrap_wf n isn : wf_WrappingInt32 (wrap n isn).
Proof. apply u32_range. Qed.

Lemma wrap_raw n isn : raw_value (wrap n isn) = u32 (raw_value isn + n).
Proof. unfold wrap, plus_u32; simpl. apply u32_add_r. Qed.

Lemma minus_u32_raw n x : raw_value (minus_u32 n x) = u32 (raw_value n - x).
Proof. unfold minus_u32, plus_u32; simpl. apply u32_add_r. Qed.

Lemma abs_small d : - 0x8000000000000000 < d < 0x8000000000000000 → abs (u64 d) = Z.abs d.
Proof. intros. unfold abs. rewrite i64_small by lia. case_match; lia. Qed.

(** A 64-bit number is a block number and an offset in the block. *)
Lemma block_split cp :
  is_u64 cp →
  ∃ q, cp = 0x100000000 * q + cp mod 0x100000000 ∧ 0 <= q < 0x100000000 ∧
       0 <= cp mod 0x100000000 < 0x100000000.
Proof.
  intros Hcp. exists (cp / 0x100000000). split_and!; try by apply Z.mod_pos_bound.
  - by apply Z.div_mod.
  - apply Z.div_pos; unfold_width; lia.
  - apply Z.div_lt_upper_bound; unfold_width; lia.
Qed.

(** The candidates of [unwrap], with the machine arithmetic resolved: the
    block of the checkpoint, and the offset of [n] in a block. *)
Lemma unwrap_unfold n isn cp :
  is_u64 cp →
  let s := u32 (raw_value n - raw_value isn) in
  let c := cp - cp mod 0x100000000 + s in
  unwrap n isn cp =
    if (0xffffffff <? cp) && (Z.abs (cp - (c - 0x100000000)) <? Z.abs (cp - c))
    then c - 0x100000000
    else if (cp <? 0xffffffff00000000) && (Z.abs (cp - (c + 0x100000000)) <? Z.abs (cp - c))
    then c + 0x100000000
    else c.
Proof.
  intros Hcp s c. unfold unwrap, wrapping_boundary. rewrite minus_u32_raw. fold s.
  assert (is_u32 s) as Hs by apply u32_range.
  change (UINT32_MAX + 1) with 0x100000000.
  change (UINT64_MAX - UINT32_MAX) with 0xffffffff00000000.
  change UINT32_MAX with 0xffffffff.
  destruct (block_split cp Hcp) as (q & Hq & Hq' & Hm).
  rewrite (u64_small (cp - cp mod 0x100000000)) by (unfold_width; lia).
  fold c. rewrite (u64_small c) by (unfold c; unfold_width; lia).
  rewrite (abs_small (cp - c)) by (unfold c; unfold_width; lia).
  destruct (0xffffffff <? cp) eqn:El; simpl.
  - rewrite (u64_small (c - 0x100000000)) by (unfold c; unfold_width; lia).
    rewrite (abs_small (cp - (c - 0x100000000))) by (unfold c; unfold_width; lia).
    destruct (cp <? _) eqn:Er; simpl; [|done].
    rewrite (u64_small (c + 0x100000000)) by (unfold c; unfold_width; lia).
    by rewrite (abs_small (cp - (c + 0x100000000))) by (unfold c; unfold_width; lia).
  - destruct (cp <? _) eqn:Er; simpl; [|done].
    rewrite (u64_small (c + 0x100000000)) by (unfold c; unfold_width; lia).
    by rewrite (abs_small (cp - (c + 0x100000000))) by (unfold c; unfold_width; lia).
Qed.

(** A number that wraps to [n] lies in the residue class of [n]. *)
Lemma wrap_class n isn x :
  wf_WrappingInt32 n → wrap x isn = n →
  ∃ j, x = u32 (raw_value n - raw_value isn) + 0x100000000 * j.
Proof.
  intros Hn Hw. apply (f_equal raw_value) in Hw. rewrite wrap_raw in Hw. rewrite <- Hw.
  rewrite u32_sub_l. replace (raw_value isn + x - raw_value isn) with x by lia.
  exists (x / 0x100000000). rewrite Z.add_comm. by apply Z.div_mod.
Qed.

(** The result of [unwrap] is a 64-bit number in the residue class of [n]. *)
Lemma unwrap_class n isn cp :
  is_u64 cp →
  is_u64 (unwrap n isn cp) ∧
  ∃ k, unwrap n isn cp = u32 (raw_value n - raw_value isn) + 0x100000000 * k.
Proof.
  intros Hcp. rewrite unwrap_unfold by done. cbv zeta.
  pose proof (u32_range (raw_value n - raw_value isn)).
  set (s := u32 _) in *. destruct (block_split cp Hcp) as (q & Hq & Hq' & Hm).
  set (m := cp mod 0x100000000) in *.
  unfold_width. case_match; [|case_match];
    (split; [lia|]); [exists (q - 1)|exists (q + 1)|exists q]; lia.
Qed.

(** Within half of the number space the wrapped form determines the number. *)
Lemma unwrap_near (x : Z) (isn : WrappingInt32) (checkpoint : Z) :
  is_u64 x → is_u64 checkpoint → Z.abs (x - checkpoint) < 0x80000000 →
  unwrap (wrap x isn) isn checkpoint = x.
Proof.
  intros Hx Hcp Hd.
  destruct (unwrap_class (wrap x isn) isn checkpoint Hcp) as [H64 [k Hk]].
  destruct (wrap_class (wrap x isn) isn x (wrap_wf x isn) eq_refl) as [j Hj].
  revert Hk. rewrite unwrap_unfold by done. cbv zeta. clear H64.
  pose proof (u32_range (raw_value (wrap x isn) - raw_value isn)). set (s := u32 _) in *.
  destruct (block_split checkpoint Hcp) as (q & Hq & Hq' & Hm).
  set (m := checkpoint mod 0x100000000) in *.
  unfold_width; repeat case_match; lia.
Qed.

(** ** Properties *)

(** C35: [unwrap n isn checkpoint] is a 64-bit absolute sequence number that
    wraps to [n], and no 64-bit number that wraps to [n] is closer to the
    checkpoint. *)
Theorem unwrap_closest (n isn : WrappingInt32) (checkpoint : Z) :
  wf_WrappingInt32 n → wf_WrappingInt32 isn → is_u64 checkpoint →
  is_u64 (unwrap n isn checkpoint) ∧
  wrap (unwrap n isn checkpoint) isn = n ∧
  ∀ x, is_u64 x → wrap x isn = n →
    Z.abs (unwrap n isn checkpoint - checkpoint) <= Z.abs (x - checkpoint).
Proof.
  intros Hn Hisn Hcp. destruct (unwrap_class n isn checkpoint Hcp) as [H64 [k Hk]].
  split; [done|]. split.
  { apply wrapping_ext. rewrite wrap_raw, Hk. unfold wf_WrappingInt32 in *. mlia. }
  intros x Hx Hw. destruct (wrap_class n isn x Hn Hw) as [j Hj].
  clear Hw Hk H64 k. rewrite unwrap_unfold by done. cbv zeta.
  pose proof (u32_range (raw_value n - raw_value isn)). set (s := u32 _) in *.
  destruct (block_split checkpoint Hcp) as (q & Hq & Hq' & Hm).
  set (m := checkpoint mod 0x100000000) in *.
  assert (j <= q - 1 ∨ j = q ∨ q + 1 <= j) as [|[|]] by lia;
    unfold_width; repeat case_match; lia.
Qed.

Lemma unwrap_closest_witness :
  wrap (unwrap (WrappingInt32_of 5) (WrappingInt32_of 7) 0x1ffffffff) (WrappingInt32_of 7)
  = WrappingInt32_of 5.
Proof. apply unwrap_closest; concrete. Defined.

(** Round trip of the sequence-number codec: an absolute number that lies
    within [2^31] of the checkpoint is recovered from its wrapped form. *)
Theorem unwrap_wrap (x : Z) (isn : WrappingInt32) (checkpoint : Z) :
  is_u64 x → is_u64 checkpoint → wf_WrappingInt32 isn →
  Z.abs (x - checkpoint) < 0x80000000 →
  unwrap (wrap x isn) isn checkpoint = x.
Proof. intros. by apply unwrap_near. Qed.

Lemma unwrap_wrap_witness :
  unwrap (wrap 0x1fffffff0 (WrappingInt32_of 0xfffffff0)) (WrappingInt32_of 0xfffffff0) 0x200000010
  = 0x1fffffff0.
Proof. apply unwrap_wrap; concrete. Defined.
