(* ===== verification/ByteStream.v ===== *)
(** * The in-order byte stream (libsponge/byte_stream.{hh,cc})

    State and methods of the class [ByteStream], the equations that the
    methods satisfy (none of them throws), the capacity invariant, and a
    refinement to an unbounded FIFO queue: whatever sequence of calls is made,
    the bytes handed to the reader followed by the bytes still buffered are
    exactly the bytes accepted from the writer. *)

From S2P Require Import Prelude.
From stdpp Require Import options.

(** ** Data *)

Record ByteStream := mkByteStream {
  _capacity : Z;
  _buffer : bytes;
  _eof : bool;
  _bytes_written : Z;
  _bytes_read : Z;
  _error : bool
}.

#[export] Instance ByteStream_eq_dec : EqDecision ByteStream.
Proof. solve_decision. Defined.

Definition ByteStream_new (capacity : Z) : ByteStream :=
  mkByteStream capacity [] false 0 0 false.

(** ** Methods *)

Definition buffer_size (s : ByteStream) : Z := slen (_buffer s).

Definition buffer_empty (s : ByteStream) : bool := buffer_size s =? 0.

Definition input_ended (s : ByteStream) : bool := _eof s.

Definition error (s : ByteStream) : bool := _error s.

Definition eof (s : ByteStream) : bool := _eof s && buffer_empty s.

Definition bytes_written (s : ByteStream) : Z := _bytes_written s.

Definition bytes_read (s : ByteStream) : Z := _bytes_read s.

Definition remaining_capacity (s : ByteStream) : Z := u64 (_capacity s - buffer_size s).

Definition bytes_to_read (s : ByteStream) (len : Z) : Z :=
  if buffer_size s <? len then buffer_size s else len.

Definition write (s : ByteStream) (data : bytes) : result (ByteStream * Z) :=
  let bytes_to_write := slen data in
  let remaining := remaining_capacity s in
  let bytes_to_write := if remaining <? bytes_to_write then remaining else bytes_to_write in
  accepted ← substr data 0 bytes_to_write;
  Ok (mkByteStream (_capacity s) (_buffer s ++ accepted) (_eof s)
        (u64 (_bytes_written s + bytes_to_write)) (_bytes_read s) (_error s),
      bytes_to_write).

Definition peek_output (s : ByteStream) (len : Z) : result bytes :=
  substr (_buffer s) 0 (bytes_to_read s len).

Definition pop_output (s : ByteStream) (len : Z) : result ByteStream :=
  buffer ← substr (_buffer s) (bytes_to_read s len) (slen (_buffer s));
  Ok (mkByteStream (_capacity s) buffer (_eof s)
        (_bytes_written s) (u64 (_bytes_read s + len)) (_error s)).

Definition read (s : ByteStream) (len : Z) : result (ByteStream * bytes) :=
  let n := bytes_to_read s len in
  out ← substr (_buffer s) 0 n;
  buffer ← substr (_buffer s) n (slen (_buffer s));
  Ok (mkByteStream (_capacity s) buffer (_eof s)
        (_bytes_written s) (u64 (_bytes_read s + n)) (_error s), out).

Definition end_input (s : ByteStream) : ByteStream :=
  mkByteStream (_capacity s) (_buffer s) true (_bytes_written s) (_bytes_read s) (_error s).

Definition set_error (s : ByteStream) : ByteStream :=
  mkByteStream (_capacity s) (_buffer s) (_eof s) (_bytes_written s) (_bytes_read s) true.

(** ** Invariant *)

(** The buffer fits in the capacity, and the capacity is a [size_t]. *)
Definition wf (s : ByteStream) : Prop :=
  is_u64 (_capacity s) ∧ slen (_buffer s) <= _capacity s.

(** The counters agree with the buffer. *)
Definition counters_ok (s : ByteStream) : Prop :=
  _bytes_written s = _bytes_read s + slen (_buffer s).

(** The number of bytes that a call of [write] accepts. *)
Definition accepts (s : ByteStream) (data : bytes) : Z :=
  Z.min (slen data) (_capacity s - slen (_buffer s)).

Lemma wf_new c : is_u64 c → wf (ByteStream_new c).
Proof. intros. split; [done|]. unfold_width. simpl. rewrite slen_nil. lia. Qed.

Lemma remaining_capacity_eq s : wf s → remaining_capacity s = _capacity s - slen (_buffer s).
Proof.
  intros [Hc Hb]. apply u64_small. pose proof (slen_nonneg (_buffer s)). unfold_width; lia.
Qed.

Lemma bytes_to_read_eq s len : bytes_to_read s len = Z.min len (slen (_buffer s)).
Proof. unfold bytes_to_read, buffer_size. case_match; lia. Qed.

(** ** Equations of the methods: no call throws *)

Lemma write_eq s data :
  wf s →
  write s data =
    Ok (mkByteStream (_capacity s) (_buffer s ++ stake (accepts s data) data) (_eof s)
          (u64 (_bytes_written s + accepts s data)) (_bytes_read s) (_error s),
        accepts s data).
Proof.
  intros Hwf. unfold write. rewrite remaining_capacity_eq by done.
  assert ((if _capacity s - slen (_buffer s) <? slen data
           then _capacity s - slen (_buffer s) else slen data) = accepts s data) as ->.
  { unfold accepts. case_match; lia. }
  rewrite substr_ok by slia. simpl. by rewrite sdrop_0.
Qed.

Lemma peek_output_eq s len : peek_output s len = Ok (stake len (_buffer s)).
Proof.
  unfold peek_output. rewrite substr_ok by slia. rewrite sdrop_0, bytes_to_read_eq.
  f_equal. unfold stake. do 2 f_equal. lia.
Qed.

Lemma sdrop_min (n : Z) (b : bytes) : sdrop (Z.min n (slen b)) b = sdrop n b.
Proof. unfold sdrop. do 2 f_equal. lia. Qed.

Lemma pop_output_eq s len :
  pop_output s len =
    Ok (mkByteStream (_capacity s) (sdrop len (_buffer s)) (_eof s)
          (_bytes_written s) (u64 (_bytes_read s + len)) (_error s)).
Proof.
  unfold pop_output. rewrite bytes_to_read_eq, substr_ok by lia. simpl.
  rewrite stake_all, sdrop_min; [done|].
  unfold slen at 1, sdrop. rewrite length_drop. unfold slen. lia.
Qed.

Lemma read_eq s len :
  read s len =
    Ok (mkByteStream (_capacity s) (sdrop len (_buffer s)) (_eof s)
          (_bytes_written s) (u64 (_bytes_read s + Z.min len (slen (_buffer s)))) (_error s),
        stake len (_buffer s)).
Proof.
  unfold read. rewrite bytes_to_read_eq.
  rewrite !substr_ok by slia. simpl.
  rewrite sdrop_0, stake_all, sdrop_min.
  - do 2 f_equal. unfold stake. do 2 f_equal. lia.
  - unfold slen at 1, sdrop. rewrite length_drop. unfold slen. lia.
Qed.

Lemma accepts_range s data : wf s → 0 <= accepts s data <= slen data.
Proof. intros [_ H]. unfold accepts. pose proof (slen_nonneg data). lia. Qed.

#[export] Hint Resolve wf_new accepts_range : sponge.

(** ** Sequences of calls *)

Inductive op :=
| OpWrite (data : bytes)
| OpRead (len : Z)
| OpPop (len : Z)
| OpEnd
| OpError.

(** One call; the second component is what the call hands to the reader: the
    bytes removed from the front of the buffer. *)
Definition step (s : ByteStream) (o : op) : result (ByteStream * bytes) :=
  match o with
  | OpWrite data => '(s', _) ← write s data; Ok (s', [])
  | OpRead len => read s len
  | OpPop len => out ← peek_output s len; s' ← pop_output s len; Ok (s', out)
  | OpEnd => Ok (end_input s, [])
  | OpError => Ok (set_error s, [])
  end.

Fixpoint run (s : ByteStream) (ops : list op) : result (ByteStream * bytes) :=
  match ops with
  | [] => Ok (s, [])
  | o :: ops => '(s1, out1) ← step s o; '(s2, out2) ← run s1 ops; Ok (s2, out1 ++ out2)
  end.

(** The abstract queue: the bytes accepted from the writer so far, given the
    calls; the space left decides how much of each write is accepted. *)
Fixpoint accepted (space : Z) (queued : Z) (ops : list op) : bytes :=
  match ops with
  | [] => []
  | OpWrite data :: ops =>
      let n := Z.min (slen data) (space - queued) in
      stake n data ++ accepted space (queued + n) ops
  | OpRead len :: ops | OpPop len :: ops => accepted space (queued - Z.min (Z.max 0 len) queued) ops
  | _ :: ops => accepted space queued ops
  end.

Lemma step_spec s o :
  wf s →
  ∃ s' out, step s o = Ok (s', out) ∧ wf s' ∧ _capacity s' = _capacity s ∧
    out ++ _buffer s' = _buffer s ++ accepted (_capacity s) (slen (_buffer s)) [o] ∧
    ∀ ops, accepted (_capacity s) (slen (_buffer s)) (o :: ops) =
           accepted (_capacity s) (slen (_buffer s)) [o] ++
           accepted (_capacity s) (slen (_buffer s')) ops.
Proof.
  intros Hwf. pose proof (slen_nonneg (_buffer s)) as Hn. destruct Hwf as [Hc Hb].
  destruct o as [data|len|len| |]; simpl.
  - rewrite write_eq by done. eexists _, _. split; [done|]. simpl.
    fold (accepts s data). pose proof (accepts_range s data (conj Hc Hb)).
    split_and!; try done.
    + split; [done|]. simpl. rewrite slen_app, slen_stake by lia. unfold accepts. lia.
    + by rewrite app_nil_r.
    + intros ops. rewrite app_nil_r, slen_app, slen_stake by lia. do 3 f_equal. lia.
  - rewrite read_eq. eexists _, _. split; [done|]. simpl. split_and!; try done.
    + split; [done|]. simpl. unfold slen, sdrop. rewrite length_drop. unfold slen in *. lia.
    + by rewrite stake_sdrop, app_nil_r.
    + intros ops. f_equal. unfold slen, sdrop. rewrite length_drop. unfold slen. lia.
  - rewrite peek_output_eq, pop_output_eq. eexists _, _. split; [done|]. simpl. split_and!; try done.
    + split; [done|]. simpl. unfold slen, sdrop. rewrite length_drop. unfold slen in *. lia.
    + by rewrite stake_sdrop, app_nil_r.
    + intros ops. f_equal. unfold slen, sdrop. rewrite length_drop. unfold slen. lia.
  - eexists _, _. split; [done|]. simpl. rewrite app_nil_r. done.
  - eexists _, _. split; [done|]. simpl. rewrite app_nil_r. done.
Qed.

(** ** Properties *)

(** C36: refinement to a FIFO queue.  From a well-formed stream, no sequence of
    calls throws or overfills the buffer, and the bytes handed to the reader,
    followed by what is still buffered, are the initial buffer followed by the
    bytes accepted from the writer, in order.  A write is accepted as far as
    there is room, also after the input has been ended. *)
Theorem stream_refines_fifo (s : ByteStream) (ops : list op) :
  wf s →
  ∃ s' out, run s ops = Ok (s', out) ∧ wf s' ∧
    out ++ _buffer s' = _buffer s ++ accepted (_capacity s) (slen (_buffer s)) ops.
Proof.
  revert s. induction ops as [|o ops IH]; intros s Hwf.
  { exists s, []. split_and!; try done. by rewrite app_nil_r. }
  destruct (step_spec s o Hwf) as (s1 & out1 & Hs & Hwf1 & Hc1 & Hq1 & Hacc).
  destruct (IH s1 Hwf1) as (s2 & out2 & Hr & Hwf2 & Hq2).
  exists s2, (out1 ++ out2). cbn [run]. rewrite Hs. cbn [mbind result_bind]. rewrite Hr.
  split_and!; try done. rewrite Hc1 in Hq2. by rewrite Hacc, <- app_assoc, Hq2, !app_assoc, Hq1.
Qed.

Lemma stream_refines_fifo_witness :
  ∃ s' out, run (ByteStream_new 4) [OpWrite [1;2;3]; OpRead 2; OpWrite [4;5;6;7]; OpPop 9] = Ok (s', out) ∧
    wf s' ∧ out ++ _buffer s' = [1;2;3;4;5;6].
Proof.
  apply (stream_refines_fifo (ByteStream_new 4) [OpWrite [1;2;3]; OpRead 2; OpWrite [4;5;6;7]; OpPop 9]).
  concrete.
Defined.

(** The end of the input does not stop the writer: whatever fits is taken as
    before, and a stream that had reached its end is no longer at its end. *)
Lemma write_after_end (s : ByteStream) (data : bytes) :
  wf s → _buffer s = [] → data ≠ [] → 0 < _capacity s →
  eof (end_input s) = true ∧
  ∃ s', write (end_input s) data = Ok (s', Z.min (slen data) (_capacity s)) ∧ eof s' = false.
Proof.
  intros Hwf Hb Hd Hc. assert (0 < slen data) as Hl.
  { pose proof (slen_nonneg data). destruct (decide (slen data = 0)) as [Hz|]; [by apply slen_zero_nil in Hz|lia]. }
  split; [unfold eof, buffer_empty, buffer_size; simpl; by rewrite Hb|].
  assert (wf (end_input s)) as Hwf' by exact Hwf. rewrite write_eq by done.
  assert (accepts (end_input s) data = Z.min (slen data) (_capacity s)) as Ha
    by (unfold accepts; simpl; rewrite Hb; unfold slen at 2; simpl; f_equal; lia).
  rewrite Ha. eexists. split; [done|]. unfold eof, buffer_empty, buffer_size. simpl. rewrite Hb. simpl.
  rewrite slen_stake by lia. destruct (_ =? 0) eqn:E; [lia|done].
Qed.
