(* ===== verification/StreamReassembler.v ===== *)
(** * The stream reassembler (libsponge/stream_reassembler.{hh,cc})

    The class keeps a sorted list of substrings that wait for a gap to close
    and an output [ByteStream].  The theorems relate it to the stream [S] that
    the pushed substrings are excerpts of: what reaches the output is a prefix
    of [S] whatever the order, overlap and repetition of the pushes, and the
    index of the next byte is the first byte of [S] not received yet. *)

From S2P Require Import Prelude ByteStream.
From stdpp Require Import options.

(** ** Data *)

Record ByteString := mkByteString { index : Z; str : bytes }.

Record StreamReassembler := mkStreamReassembler {
  _output : ByteStream;
  _capacity : Z;
  _index : Z;
  _eof : Z;
  _eof_set : bool;
  _unassembled_bytes : list ByteString
}.

Definition MAX_EOF : Z := UINT64_MAX.

Definition StreamReassembler_new (capacity : Z) : StreamReassembler :=
  mkStreamReassembler (ByteStream_new capacity) capacity 0 MAX_EOF false [].

Definition set_output (r : StreamReassembler) (o : ByteStream) : StreamReassembler :=
  mkStreamReassembler o (_capacity r) (_index r) (_eof r) (_eof_set r) (_unassembled_bytes r).

Definition set_unassembled (r : StreamReassembler) (l : list ByteString) : StreamReassembler :=
  mkStreamReassembler (_output r) (_capacity r) (_index r) (_eof r) (_eof_set r) l.

Definition stream_out (r : StreamReassembler) : ByteStream := _output r.

Definition empty (r : StreamReassembler) : bool :=
  match _unassembled_bytes r with [] => true | _ => false end.

Definition unassembled_bytes (r : StreamReassembler) : Z :=
  foldl (λ s b, u64 (s + slen (str b))) 0 (_unassembled_bytes r).

(** ** Coalescing two substrings

    [Ok None] is the [false] result, [Ok (Some res)] the [true] result. *)
Definition coalesce (a b : ByteString) : result (option ByteString) :=
  let a_index_right := u64 (index a + slen (str a)) in
  let b_index_right := u64 (index b + slen (str b)) in
  if (index a <=? index b) && (b_index_right <=? a_index_right) then Ok (Some a)
  else if (index b <=? index a) && (a_index_right <=? b_index_right) then Ok (Some b)
  else if (index a <? index b) && (index b <=? a_index_right) then
    s ← append_sub (str a) (str b) (u64 (a_index_right - index b)) npos;
    Ok (Some (mkByteString (index a) s))
  else if (index b <? index a) && (index a <=? b_index_right) then
    s ← append_sub (str b) (str a) (u64 (b_index_right - index a)) npos;
    Ok (Some (mkByteString (index b) s))
  else Ok None.

(** The inner loop: coalesce [res] with the substrings that follow. *)
Fixpoint absorb (res : ByteString) (next : list ByteString) : result (ByteString * list ByteString) :=
  match next with
  | [] => Ok (res, [])
  | n :: next' =>
      c ← coalesce res n;
      match c with
      | Some res' => absorb res' next'
      | None => Ok (res, next)
      end
  end.

(** The outer loop: find the place of [b] in the sorted list. *)
Fixpoint insert_loop (b : ByteString) (l : list ByteString) : result (list ByteString) :=
  match l with
  | [] => Ok [b]
  | it :: rest =>
      if u64 (index b + slen (str b)) <? index it then Ok (b :: l)
      else
        c ← coalesce b it;
        match c with
        | Some res => '(res', rest') ← absorb res rest; Ok (res' :: rest')
        | None => rest' ← insert_loop b rest; Ok (it :: rest')
        end
  end.

Definition push_unassembled_bytes (r : StreamReassembler) (data : bytes) (idx : Z)
    : result StreamReassembler :=
  let begin_index := u64 (_index r - idx) in
  if (idx <? _index r) && negb (begin_index <? slen data) then Ok r
  else
    b ← (if idx <? _index r then
           s ← substr data begin_index npos; Ok (mkByteString (u64 (idx + begin_index)) s)
         else Ok (mkByteString idx data));
    let right_bound :=
      u64 (_index r + _capacity r - ByteStream.buffer_size (_output r) - index b) in
    s ← substr (str b) 0 right_bound;
    l ← insert_loop (mkByteString (index b) s) (_unassembled_bytes r);
    Ok (set_unassembled r l).

Definition write_to_output (r : StreamReassembler) (b : ByteString) : result StreamReassembler :=
  '(out, bytes_written) ← ByteStream.write (_output r) (str b);
  let idx := u64 (_index r + bytes_written) in
  let out := if (idx =? _eof r) && _eof_set r then ByteStream.end_input out else out in
  Ok (mkStreamReassembler out (_capacity r) idx (_eof r) (_eof_set r) (_unassembled_bytes r)).

Definition flush_to_output (r : StreamReassembler) : result StreamReassembler :=
  match _unassembled_bytes r with
  | [] => Ok r
  | b :: rest =>
      if index b =? _index r then
        r' ← write_to_output r b; Ok (set_unassembled r' rest)
      else Ok r
  end.

(** ** Setting the end of the stream

    The loop of [set_eof] dereferences [rend()], which is one place before the
    first element.  C++ leaves this read undefined: [rend_index l] is the value
    that it yields when the list is [l], or [None] if the program does not go
    on.  Nothing is known about it. *)
Section SetEof.
Context (rend_index : list ByteString → option Z).

(** [iter.base()] stays at the first element, so [++iter.base()] is the second
    one; without a second element [erase(end())] is undefined. *)
Fixpoint set_eof_loop (eof : Z) (first : ByteString) (rest : list ByteString)
    : result (list ByteString) :=
  i ← undefined_read (rend_index (first :: rest));
  if eof <=? i then
    match rest with
    | [] => Throw Undefined
    | _ :: rest' => set_eof_loop eof first rest'
    end
  else Ok (first :: rest).

Definition set_eof (r : StreamReassembler) (eof : Z) : result StreamReassembler :=
  let out := if eof <=? u64 (_index r + 1) then ByteStream.end_input (_output r) else _output r in
  l ← match _unassembled_bytes r with
      | [] => Ok []
      | first :: rest => set_eof_loop eof first rest
      end;
  Ok (mkStreamReassembler out (_capacity r) (_index r) eof true l).

Definition push_substring (r : StreamReassembler) (data : bytes) (idx : Z) (eof : bool)
    : result StreamReassembler :=
  let size := slen data in
  let last_index := u64 (idx + size) in
  r ← (if eof then set_eof r last_index else Ok r);
  if (last_index <=? _index r) || (u64 (_index r + _capacity r) <? idx) || (size =? 0) then Ok r
  else
    r ← push_unassembled_bytes r data idx;
    flush_to_output r.

End SetEof.

(** ** The intervals that substrings occupy *)

Definition right (b : ByteString) : Z := index b + slen (str b).
Definition covers (b : ByteString) (i : Z) : Prop := index b <= i < right b.
Definition covered (l : list ByteString) (i : Z) : Prop := ∃ b, b ∈ l ∧ covers b i.

Lemma covered_nil i : covered [] i ↔ False.
Proof. unfold covered. split; [|done]. intros (b & Hb & _). by apply elem_of_nil in Hb. Qed.
Lemma covered_cons b l i : covered (b :: l) i ↔ covers b i ∨ covered l i.
Proof.
  unfold covered. setoid_rewrite elem_of_cons. split.
  - intros (c & [->|Hc] & Hi); eauto.
  - intros [Hi|(c & Hc & Hi)]; eauto.
Qed.

Section Excerpts.
Context (S : bytes) (HS : is_u64 (slen S)).

(** [b] is an excerpt of [S] that starts inside [S]; it may be empty. *)
Definition excerpt (b : ByteString) : Prop :=
  0 <= index b < slen S ∧ right b <= slen S ∧ agree S (index b) (str b).

(** The list is sorted, with a gap of at least one byte after [lo] and between
    any two substrings. *)
Fixpoint chain (lo : Z) (l : list ByteString) : Prop :=
  match l with
  | [] => True
  | b :: l => lo < index b ∧ excerpt b ∧ chain (right b) l
  end.

Lemma right_u64 b : excerpt b → u64 (index b + slen (str b)) = right b.
Proof using HS. intros (? & ? & _). apply u64_small. unfold right in *. slia. Qed.

Lemma chain_weaken lo lo' l : lo' <= lo → chain lo l → chain lo' l.
Proof. destruct l; simpl; [done|]. intros ? (? & ? & ?). split_and!; [lia|done|done]. Qed.

Lemma chain_covered_lt lo l i : chain lo l → covered l i → lo < i.
Proof.
  revert lo. induction l as [|b l IH]; intros lo; [by rewrite covered_nil|].
  simpl. rewrite covered_cons. intros (Hlt & (Hi & Hr & _) & Hc) [[H1 H2]|H]; [lia|].
  specialize (IH _ Hc H). unfold right in IH. slia.
Qed.

(** Appending the part of the right substring past the end of the left one. *)
Lemma append_overlap a b :
  excerpt a → excerpt b → index a <= index b <= right a → right a <= right b →
  ∃ s, append_sub (str a) (str b) (u64 (right a - index b)) npos = Ok s ∧
       excerpt (mkByteString (index a) s) ∧ right (mkByteString (index a) s) = right b.
Proof using HS.
  intros (Ha & Har & Hag) (Hb & Hbr & Hbg) Hab Hr. unfold append_sub.
  assert (u64 (right a - index b) = right a - index b) as ->.
  { apply u64_small. unfold right in *. slia. }
  unfold right in *. rewrite substr_ok by slia. eexists. split; [done|].
  rewrite stake_all by (rewrite slen_sdrop; slia).
  set (n := index a + slen (str a) - index b) in *.
  assert (slen (str a ++ sdrop n (str b)) = index b + slen (str b) - index a) as Hl.
  { rewrite slen_app, slen_sdrop by slia. unfold n. slia. }
  split; [|cbn [index str]; lia].
  split; [done|]. split; [unfold right; cbn [index str]; lia|]. cbn [index str].
  rewrite agree_app by lia. split; [done|].
  replace (index a + slen (str a)) with (index b + n) by (unfold n; lia).
  apply agree_sdrop; [lia|unfold n; slia|done].
Qed.

(** [coalesce] merges exactly the substrings that touch or overlap, and the
    result is the excerpt of [S] over the union of their intervals. *)
Lemma coalesce_spec a b :
  excerpt a → excerpt b →
  if decide (right a < index b ∨ right b < index a) then coalesce a b = Ok None
  else ∃ res, coalesce a b = Ok (Some res) ∧ excerpt res ∧
         index res = Z.min (index a) (index b) ∧ right res = Z.max (right a) (right b).
Proof using HS.
  intros Ha Hb. unfold coalesce. rewrite !right_u64 by done.
  pose proof (slen_nonneg (str a)). pose proof (slen_nonneg (str b)).
  case_decide as Hd.
  { repeat case_match; unfold right in *; done || lia. }
  case_match eqn:E1; [exists a; split_and!; done || lia|].
  case_match eqn:E2; [exists b; split_and!; done || lia|].
  case_match eqn:E3.
  { destruct (append_overlap a b) as (s & -> & Hs & Hr); [done|done|lia|lia|].
    eexists. split; [done|]. rewrite Hr. simpl. split_and!; done || lia. }
  case_match eqn:E4.
  { destruct (append_overlap b a) as (s & -> & Hs & Hr); [done|done|lia|lia|].
    eexists. split; [done|]. rewrite Hr. simpl. split_and!; done || lia. }
  unfold right in *. lia.
Qed.

Lemma absorb_spec res lo l :
  excerpt res → chain lo l → index res <= lo →
  ∃ res' l', absorb res l = Ok (res', l') ∧ excerpt res' ∧ index res' = index res ∧
    chain (right res') l' ∧
    ∀ i, covers res' i ∨ covered l' i ↔ covers res i ∨ covered l i.
Proof using HS.
  revert res lo. induction l as [|n l IH]; intros res lo Hres Hch Hlo.
  { exists res, []. split_and!; try done. }
  destruct Hch as (Hn & Hen & Hch). cbn [absorb].
  pose proof (coalesce_spec res n Hres Hen) as Hc. case_decide as Hd.
  - rewrite Hc. simpl. exists res, (n :: l). split_and!; try done.
    destruct Hd as [Hd|Hd]; [done|]. unfold right in Hd. slia.
  - destruct Hc as (res1 & -> & Hres1 & Hi1 & Hr1). simpl.
    destruct (IH res1 (right n)) as (res' & l' & -> & Hres' & Hi' & Hch' & Hcov); try done.
    { unfold right. slia. }
    exists res', l'. split_and!; try done; [lia|].
    intros i. rewrite Hcov, covered_cons. unfold covers. rewrite Hi1, Hr1.
    assert (right n <= right res ∨ right res < right n) as [] by lia; intuition lia.
Qed.

Lemma insert_loop_spec b lo l :
  excerpt b → chain lo l → lo < index b →
  ∃ l', insert_loop b l = Ok l' ∧ chain lo l' ∧ ∀ i, covered l' i ↔ covers b i ∨ covered l i.
Proof using HS.
  revert lo. induction l as [|it l IH]; intros lo Hb Hch Hlo.
  { exists [b]. split; [done|]. split; [done|]. intros i. by rewrite covered_cons. }
  destruct Hch as (Hit & Heit & Hch). cbn [insert_loop].
  rewrite right_u64 by done. case_match eqn:Elt.
  { exists (b :: it :: l). split; [done|]. split; [simpl; split_and!; done || lia|].
    intros i. by rewrite !covered_cons. }
  pose proof (coalesce_spec b it Hb Heit) as Hc. case_decide as Hd.
  - rewrite Hc. simpl. destruct Hd as [Hd|Hd]; [lia|].
    destruct (IH (right it)) as (l' & -> & Hch' & Hcov); try done.
    exists (it :: l'). split; [done|]. split; [done|].
    intros i. rewrite !covered_cons, Hcov. tauto.
  - destruct Hc as (res & -> & Hres & Hi & Hr). simpl.
    destruct (absorb_spec res (right it) l Hres Hch) as (res' & l' & -> & Hres' & Hi' & Hch' & Hcov).
    { unfold right in *. slia. }
    exists (res' :: l'). split; [done|]. split.
    { simpl. split_and!; done || lia. }
    intros i. rewrite !covered_cons, Hcov. unfold covers. rewrite Hi, Hr.
    unfold right in *. intuition lia.
Qed.

End Excerpts.

(** ** The invariant *)

(** The first index past the window: bytes from here on exceed the capacity. *)
Definition window_end (r : StreamReassembler) : Z :=
  _index r + _capacity r - ByteStream.buffer_size (_output r).

(** The indices that have been received: assembled or waiting. *)
Definition have (r : StreamReassembler) (i : Z) : Prop :=
  0 <= i < _index r ∨ covered (_unassembled_bytes r) i.

(** No byte waits outside of the window. *)
Definition in_window (r : StreamReassembler) : Prop :=
  ∀ i, covered (_unassembled_bytes r) i → i < window_end r.

Record out_inv (S : bytes) (r : StreamReassembler) : Prop := {
  out_wf : ByteStream.wf (_output r);
  out_cap : ByteStream._capacity (_output r) = _capacity r;
  out_written : ByteStream.bytes_written (_output r) = _index r;
  out_index : slen (ByteStream._buffer (_output r)) <= _index r <= slen S;
  out_agree : agree S (_index r - slen (ByteStream._buffer (_output r)))
                (ByteStream._buffer (_output r))
}.

(** The output holds the bytes of [S] just before [_index], and the waiting
    substrings are excerpts of [S] beyond [_index], with gaps between them. *)
Definition inv (S : bytes) (r : StreamReassembler) : Prop :=
  is_u64 (slen S + _capacity r + 1) ∧ out_inv S r ∧ chain S (_index r) (_unassembled_bytes r).

Lemma inv_new S c : is_u64 c → is_u64 (slen S + c + 1) → inv S (StreamReassembler_new c).
Proof.
  intros Hc Hb. split_and!; [done| |done].
  split; simpl; [by apply ByteStream.wf_new|done|done|slia|apply agree_nil].
Qed.

Lemma window_end_ge S r : out_inv S r → _index r <= window_end r.
Proof.
  intros [[_ Hwf] Hc _ _ _]. unfold window_end, ByteStream.buffer_size. lia.
Qed.

Section Refinement.
Context (S : bytes).

Lemma write_to_output_spec r b :
  is_u64 (slen S + _capacity r + 1) → out_inv S r → excerpt S b → index b = _index r →
  ∃ r', write_to_output r b = Ok r' ∧ out_inv S r' ∧
    _capacity r' = _capacity r ∧ _unassembled_bytes r' = _unassembled_bytes r ∧
    _eof r' = _eof r ∧ _eof_set r' = _eof_set r ∧
    window_end r' = window_end r ∧ _index r' = Z.min (right b) (window_end r) ∧
    ByteStream.input_ended (_output r') =
      ByteStream.input_ended (_output r) || ((_index r' =? _eof r) && _eof_set r).
Proof.
  intros Hu [Hwf Hc Hw Hi Ha] (Hb & Hr & Hag) Hidx.
  unfold write_to_output. rewrite ByteStream.write_eq by done. cbn [mbind result_bind].
  pose proof (ByteStream.accepts_range (_output r) (str b) Hwf) as Hacc.
  unfold right, window_end, ByteStream.buffer_size in *.
  unfold ByteStream.bytes_written in *.
  rewrite Hw. assert (u64 (_index r + accepts (_output r) (str b)) =
    _index r + accepts (_output r) (str b)) as ->.
  { apply u64_small. destruct Hwf. slia. }
  assert (slen (ByteStream._buffer (_output r) ++ stake (accepts (_output r) (str b)) (str b)) =
    slen (ByteStream._buffer (_output r)) + accepts (_output r) (str b)) as Hl.
  { rewrite slen_app, slen_stake by lia. lia. }
  eexists. split; [done|].
  assert (agree S (_index r - slen (ByteStream._buffer (_output r)))
    (ByteStream._buffer (_output r) ++ stake (accepts (_output r) (str b)) (str b))) as Hag'.
  { rewrite agree_app by lia. split; [done|].
    replace (_ - _ + _) with (index b) by lia. apply agree_stake; [lia|done]. }
  destruct Hwf as [Hwf1 Hwf2].
  split; [split|]; cbn [_output _capacity _index _eof _eof_set _unassembled_bytes];
    destruct (_ && _); cbn -[accepts slen stake]; rewrite ?Hl; try done.
  - split; [done|]. cbn -[accepts slen stake]. rewrite Hl. unfold accepts. lia.
  - split; [done|]. cbn -[accepts slen stake]. rewrite Hl. unfold accepts. lia.
  - unfold accepts in *. lia.
  - unfold accepts in *. lia.
  - by replace (_ + _ - _) with (_index r - slen (ByteStream._buffer (_output r))) by lia.
  - by replace (_ + _ - _) with (_index r - slen (ByteStream._buffer (_output r))) by lia.
  - split_and!; try done; [lia| |by rewrite orb_true_r]. unfold accepts. lia.
  - split_and!; try done; [lia| |by rewrite orb_false_r]. unfold accepts. lia.
Qed.

(** How an operation may change the end-of-input flag of the output. *)
Definition ended_step (r r' : StreamReassembler) : Prop :=
  (ByteStream.input_ended (_output r) = true → ByteStream.input_ended (_output r') = true) ∧
  (ByteStream.input_ended (_output r') = true →
   ByteStream.input_ended (_output r) = true ∨ (_eof_set r = true ∧ _index r' = _eof r)) ∧
  (_index r < _index r' → _eof_set r = true → _index r' = _eof r →
   ByteStream.input_ended (_output r') = true).

(** [flush_to_output] keeps every received byte, as long as the waiting bytes
    are in the window, and moves [_index] past the front substring. *)
Lemma flush_to_output_spec r :
  is_u64 (slen S + _capacity r + 1) → out_inv S r → chain S (_index r - 1) (_unassembled_bytes r) →
  ∃ r', flush_to_output r = Ok r' ∧ inv S r' ∧ _capacity r' = _capacity r ∧
    _eof r' = _eof r ∧ _eof_set r' = _eof_set r ∧
    _index r <= _index r' ∧ window_end r' = window_end r ∧ ended_step r r' ∧
    (in_window r → in_window r' ∧ ∀ i, have r' i ↔ have r i).
Proof.
  intros Hu Ho Hch. pose proof (window_end_ge S r Ho) as Hwe.
  unfold flush_to_output, ended_step. destruct (_unassembled_bytes r) as [|b rest] eqn:El.
  { exists r. unfold inv. rewrite El. split_and!; try done || tauto || lia. }
  destruct Hch as (Hb & Hbe & Hch). case_match eqn:Eb.
  - apply Z.eqb_eq in Eb.
    destruct (write_to_output_spec r b Hu Ho Hbe Eb)
      as (r' & -> & Ho' & Hc' & Hl' & He' & Hs' & Hw' & Hi' & Hend).
    cbn [mbind result_bind]. eexists. split; [done|].
    assert (_index r <= _index r' <= right b) as Hir by (unfold right in *; slia).
    assert (chain S (_index r') rest) as Hch' by (eapply chain_weaken; [|done]; lia).
    cbn [set_unassembled _output _capacity _index _eof _eof_set _unassembled_bytes].
    rewrite Hend. split_and!; try done.
    + unfold inv. simpl. rewrite Hc'. split_and!; [done| |done]. by destruct Ho'.
    + apply Hir.
    + intros ->. done.
    + rewrite orb_true_iff, andb_true_iff, Z.eqb_eq. simpl. tauto.
    + simpl. intros _ -> Heq. rewrite andb_true_r, orb_true_iff, Z.eqb_eq. by right.
    + intros Hin. assert (covers b (right b - 1) ∨ right b = _index r) as Hlast.
      { unfold covers, right in *. slia. }
      assert (_index r' = right b) as Hir'.
      { rewrite Hi'. destruct Hlast as [Hlast|]; [|lia].
        assert (right b - 1 < window_end r); [|lia]. apply Hin. rewrite El, covered_cons. by left. }
      unfold in_window, have in *. change (window_end (set_unassembled r' rest)) with (window_end r').
      cbn [set_unassembled _index _unassembled_bytes]. rewrite Hw'. rewrite El in *.
      setoid_rewrite covered_cons in Hin. split.
      * intros i Hi. apply Hin. by right.
      * intros i. rewrite covered_cons, Hir'. unfold covers. destruct Ho' as [_ _ _ Hx _].
        destruct Ho as [_ _ _ Hy _]. rewrite Eb. intuition slia.
  - apply Z.eqb_neq in Eb. exists r. unfold inv. rewrite El.
    split_and!; try done || tauto || lia. simpl. split_and!; done || lia.
Qed.

(** The substring that [push_unassembled_bytes] stores: the part of the data
    from [_index] on, cut at the end of the window. *)
Lemma push_unassembled_bytes_spec r data idx :
  inv S r → agree S idx data → 0 <= idx → 0 < slen data → idx + slen data <= slen S →
  idx <= _index r + _capacity r → _index r < idx + slen data →
  ∃ l, push_unassembled_bytes r data idx = Ok (set_unassembled r l) ∧
    chain S (_index r - 1) l ∧
    (idx <= window_end r → ∀ i, covered l i ↔
       (Z.max idx (_index r) <= i < idx + slen data ∧ i < window_end r) ∨
       covered (_unassembled_bytes r) i).
Proof.
  intros (Hu & Ho & Hch) Hag Hidx Hpos Hlen Hwin Hnew.
  pose proof (window_end_ge S r Ho) as Hwe.
  destruct Ho as [[Hcap Hwf] Hc Hw [Hi Hi'] Ha].
  assert (is_u64 (slen S)) as HS by slia.
  unfold push_unassembled_bytes. set (st := Z.max idx (_index r)).
  set (data' := sdrop (st - idx) data).
  assert (slen data' = idx + slen data - st) as Hl by (unfold data'; rewrite slen_sdrop; slia).
  assert (agree S st data') as Hag'.
  { unfold data'. replace st with (idx + (st - idx)) at 1 by lia. apply agree_sdrop; slia || done. }
  assert ((idx <? _index r) && negb (u64 (_index r - idx) <? slen data) = false) as ->.
  { destruct (idx <? _index r) eqn:E; [|done]. rewrite u64_small by slia. simpl.
    apply negb_false_iff. slia. }
  assert ((if idx <? _index r then s ← substr data (u64 (_index r - idx)) npos;
             Ok (mkByteString (u64 (idx + u64 (_index r - idx))) s)
           else Ok (mkByteString idx data)) = Ok (mkByteString st data')) as ->.
  { unfold data', st. case_match eqn:E.
    - rewrite !(u64_small (_index r - idx)) by slia. rewrite u64_small by slia.
      rewrite substr_ok by slia. cbn [mbind result_bind]. rewrite stake_all.
      + do 3 f_equal; lia || (f_equal; lia).
      + rewrite slen_sdrop by slia. slia.
    - rewrite Z.max_l by lia. by rewrite Z.sub_diag, sdrop_0. }
  cbn [mbind result_bind index str]. rewrite substr_ok by slia. cbn [mbind result_bind].
  rewrite sdrop_0. set (rb := u64 _).
  assert (0 <= rb) as Hrb by apply u64_range.
  destruct (insert_loop_spec S HS (mkByteString st (stake rb data')) (_index r - 1)
              (_unassembled_bytes r)) as (l & -> & Hch' & Hcov).
  - split; [|split]; cbn [index str]; unfold right; cbn [index str].
    + slia.
    + rewrite slen_stake by done. slia.
    + apply agree_stake; [slia|done].
  - eapply chain_weaken; [|done]. lia.
  - cbn [index]. lia.
  - exists l. split; [done|]. split; [done|]. intros Hidx' i. rewrite Hcov.
    unfold covers, right. cbn [index str]. rewrite slen_stake by done.
    assert (rb = window_end r - st) as ->.
    { unfold rb, window_end. rewrite u64_small; unfold window_end, ByteStream.buffer_size in *; slia. }
    rewrite Hl. assert (st + Z.min (window_end r - st) (idx + slen data - st) =
      Z.min (window_end r) (idx + slen data)) as -> by lia.
    split; (intros [?|?]; [left; lia|by right]).
Qed.

(** A push adds the indices of the data that lie in the window. *)
Definition push_adds (r r' : StreamReassembler) (data : bytes) (idx : Z) : Prop :=
  in_window r → idx <= window_end r →
  in_window r' ∧
  ∀ i, have r' i ↔ have r i ∨ (idx <= i < idx + slen data ∧ i < window_end r).

(** [push_substring] after the end of the stream has been recorded. *)
Definition push_data (r : StreamReassembler) (data : bytes) (idx : Z) : result StreamReassembler :=
  push_substring (λ _, None) r data idx false.

Lemma push_substring_unfold rend r data idx eof :
  push_substring rend r data idx eof =
    (r1 ← (if eof then set_eof rend r (u64 (idx + slen data)) else Ok r); push_data r1 data idx).
Proof. by destruct eof. Qed.

Lemma ended_step_refl r :
  ended_step r r.
Proof. split_and!; [done|by left|lia]. Qed.

Lemma push_data_spec r data idx :
  inv S r → agree S idx data → 0 <= idx → idx + slen data <= slen S →
  ∃ r', push_data r data idx = Ok r' ∧ inv S r' ∧ _capacity r' = _capacity r ∧
    _eof r' = _eof r ∧ _eof_set r' = _eof_set r ∧ _index r <= _index r' ∧
    window_end r' = window_end r ∧ ended_step r r' ∧ push_adds r r' data idx.
Proof.
  intros Hinv Hag Hidx Hlen. assert (Hinv' := Hinv). destruct Hinv' as (Hu & Ho & Hch).
  pose proof (window_end_ge S r Ho) as Hwe.
  assert (window_end r <= _index r + _capacity r) as Hwe'.
  { unfold window_end, ByteStream.buffer_size. slia. }
  destruct Ho as [Hwf Hc Hw [Hi Hi'] Ha]. unfold push_data, push_substring.
  cbn [mbind result_bind].
  rewrite u64_small by slia. rewrite u64_small by (destruct Hwf; slia).
  case_match eqn:E.
  { exists r. split_and!; try done; [apply ended_step_refl|].
    intros Hin Hiw. split; [done|]. intros i. unfold have. split; [by left|].
    intros [|?]; [done|]. left. lia. }
  destruct (push_unassembled_bytes_spec r data idx) as (l & -> & Hch' & Hcov);
    [done|done|done|slia|done|slia|slia|].
  cbn [mbind result_bind].
  destruct (flush_to_output_spec (set_unassembled r l)) as
    (r' & -> & Hinv' & Hc' & He' & Hs' & Hi'' & Hw' & Hend & Hhave); [done|by split|done|].
  exists r'. split_and!; try done. intros Hin Hiw. specialize (Hcov Hiw).
  change (window_end (set_unassembled r l)) with (window_end r) in *.
  assert (in_window (set_unassembled r l)) as Hin'.
  { intros i Hi0. apply Hcov in Hi0 as [|]; [|by apply Hin].
    change (window_end (set_unassembled r l)) with (window_end r). lia. }
  destruct (Hhave Hin') as [Hin'' Hh]. split; [done|]. intros i. rewrite Hh. unfold have.
  cbn [set_unassembled _index _unassembled_bytes]. rewrite Hcov.
  split; [intuition lia|]. intros [[|]|[? ?]]; [by left|by right; right|].
  destruct (decide (i < _index r)); [left; lia|right; left; lia].
Qed.

(** The state that [set_eof] leaves, with the waiting substrings [l]. *)
Definition with_eof (r : StreamReassembler) (eof : Z) (l : list ByteString) : StreamReassembler :=
  mkStreamReassembler
    (if eof <=? u64 (_index r + 1) then ByteStream.end_input (_output r) else _output r)
    (_capacity r) (_index r) eof true l.

Lemma set_eof_spec rend r eof : _unassembled_bytes r = [] → set_eof rend r eof = Ok (with_eof r eof []).
Proof. intros Hl. unfold set_eof. by rewrite Hl. Qed.

(** Whatever the read of [rend()] yields, substrings are only removed. *)
Lemma set_eof_loop_chain rend eof first rest : ∀ lo,
  chain S lo (first :: rest) →
  or_undefined (set_eof_loop rend eof first rest)
    (λ l, chain S lo l ∧ ∀ i, covered l i → covered (first :: rest) i).
Proof.
  induction rest as [|x rest IH]; intros lo (Hlo & Hf & Hch); cbn [set_eof_loop];
    (eapply or_undefined_bind; [apply undefined_read_spec|]; intros i _; destruct (eof <=? i);
     [|by split]); [done|].
  destruct Hch as (Hx & Hxe & Hch). eapply or_undefined_impl; [apply (IH lo)|].
  - split_and!; [done|done|]. eapply chain_weaken; [|done]. unfold right in *. slia.
  - intros l [Hl Hc]. split; [done|]. intros j Hj%Hc. rewrite !covered_cons in *. tauto.
Qed.

Lemma set_eof_any rend r eof :
  chain S (_index r) (_unassembled_bytes r) →
  or_undefined (set_eof rend r eof) (λ r', ∃ l, r' = with_eof r eof l ∧ chain S (_index r) l ∧
    ∀ i, covered l i → covered (_unassembled_bytes r) i).
Proof.
  intros Hch. unfold set_eof.
  apply (or_undefined_bind _ _ (λ l, chain S (_index r) l ∧ ∀ i, covered l i → covered (_unassembled_bytes r) i)).
  - destruct (_unassembled_bytes r); [done|]. by apply set_eof_loop_chain.
  - intros l [Hl Hc]. by exists l.
Qed.

Lemma inv_output r o :
  inv S r → ByteStream._buffer o = ByteStream._buffer (_output r) →
  ByteStream._capacity o = ByteStream._capacity (_output r) →
  ByteStream._bytes_written o = ByteStream._bytes_written (_output r) → inv S (set_output r o).
Proof.
  intros (Hu & [Hwf Hc Hw Hi Ha] & Hch) Hb Hcp Hwr. split_and!; [done| |done].
  split; simpl; rewrite ?Hb, ?Hcp, ?Hwr; try done.
  - unfold ByteStream.wf in *. by rewrite Hb, Hcp.
  - unfold ByteStream.bytes_written in *. by rewrite Hwr.
Qed.

Lemma with_eof_buffer r eof l : ByteStream._buffer (_output (with_eof r eof l)) = ByteStream._buffer (_output r).
Proof. unfold with_eof. simpl. by case_match. Qed.

Lemma with_eof_window r eof l : window_end (with_eof r eof l) = window_end r.
Proof. unfold window_end, ByteStream.buffer_size. by rewrite with_eof_buffer. Qed.

Lemma with_eof_inv r eof l : inv S r → chain S (_index r) l → inv S (with_eof r eof l).
Proof.
  intros (Hu & [Hwf Hc Hw Hi Ha] & _) Hch. split_and!; [done| |done].
  split; rewrite ?with_eof_buffer; try done; unfold with_eof; simpl; by case_match.
Qed.

(** [push_substring] as a whole, for every outcome of the undefined read: it
    keeps the invariant, and what is held afterwards was held before or has
    been pushed. *)
Lemma push_substring_any rend r data idx eof :
  inv S r → agree S idx data → 0 <= idx → idx + slen data <= slen S →
  or_undefined (push_substring rend r data idx eof) (λ r', inv S r' ∧ _capacity r' = _capacity r ∧
    _index r <= _index r' ∧ window_end r' = window_end r ∧
    (in_window r → idx <= window_end r → in_window r' ∧
     ∀ i, have r' i → have r i ∨ (idx <= i < idx + slen data ∧ i < window_end r))).
Proof.
  intros Hinv Hag Hidx Hlen. rewrite push_substring_unfold.
  apply (or_undefined_bind _ _ (λ r1, inv S r1 ∧ _capacity r1 = _capacity r ∧ _index r1 = _index r ∧
    window_end r1 = window_end r ∧ ∀ i, covered (_unassembled_bytes r1) i → covered (_unassembled_bytes r) i)).
  { destruct eof; [|done]. eapply or_undefined_impl; [apply set_eof_any, Hinv|].
    intros r1 (l & -> & Hch & Hc). split_and!; [by apply with_eof_inv|done|done|apply with_eof_window|done]. }
  intros r1 (Hinv1 & Hc1 & Hi1 & Hw1 & Hcov).
  destruct (push_data_spec r1 data idx Hinv1 Hag Hidx Hlen) as (r' & -> & ? & Hc & _ & _ & ? & Hw & _ & Hadd).
  simpl. split_and!; [done|congruence|lia|congruence|]. intros Hin Hiw.
  destruct Hadd as [Hin' Hh]; [intros i Hi; rewrite Hw1; auto|by rewrite Hw1|]. split; [done|].
  intros i. rewrite Hh, Hw1. unfold have. rewrite Hi1. intuition auto.
Qed.

(** As long as no substring waits when the end is announced, there is no
    undefined read, and all that was pushed into the window is held. *)
Lemma push_substring_spec rend r data idx eof :
  inv S r → agree S idx data → 0 <= idx → idx + slen data <= slen S →
  (eof = true → _unassembled_bytes r = []) →
  ∃ r', push_substring rend r data idx eof = Ok r' ∧ inv S r' ∧ _capacity r' = _capacity r ∧
    _index r <= _index r' ∧ window_end r' = window_end r ∧ push_adds r r' data idx.
Proof.
  intros Hinv Hag Hidx Hlen Hnone. rewrite push_substring_unfold.
  destruct eof.
  - specialize (Hnone eq_refl). rewrite set_eof_spec by done. cbn [mbind result_bind].
    set (r1 := with_eof r _ []). assert (inv S r1) as Hinv1 by (by apply with_eof_inv).
    destruct (push_data_spec r1 data idx Hinv1 Hag Hidx Hlen)
      as (r' & -> & ? & ? & ? & ? & ? & Hw & ? & Hadd).
    assert (window_end r1 = window_end r) as Hw1 by apply with_eof_window.
    exists r'. split_and!; try done; [by rewrite Hw|].
    intros Hin Hiw. unfold push_adds, in_window, have in *. rewrite Hw1 in Hadd. rewrite Hnone in *. by apply Hadd.
  - cbn [mbind result_bind]. destruct (push_data_spec r data idx Hinv Hag Hidx Hlen)
      as (r' & -> & ? & ? & ? & ? & ? & ? & ? & ?). exists r'. by split_and!.
Qed.

End Refinement.

(** ** The reader's side *)

(** [stream_out().read(len)]. *)
Definition read_out (r : StreamReassembler) (len : Z) : result (StreamReassembler * bytes) :=
  '(o, out) ← ByteStream.read (stream_out r) len; Ok (set_output r o, out).

Lemma read_out_spec S r len :
  inv S r → 0 <= len →
  ∃ r' out, read_out r len = Ok (r', out) ∧ inv S r' ∧
    _index r' = _index r ∧ _capacity r' = _capacity r ∧
    _unassembled_bytes r' = _unassembled_bytes r ∧
    out ++ ByteStream._buffer (_output r') = ByteStream._buffer (_output r) ∧
    window_end r <= window_end r' ∧
    ByteStream.input_ended (_output r') = ByteStream.input_ended (_output r) ∧
    _eof r' = _eof r ∧ _eof_set r' = _eof_set r.
Proof.
  intros (Hu & [[Hcap Hwf] Hc Hw [Hi Hi'] Ha] & Hch) Hlen. unfold read_out, stream_out.
  rewrite ByteStream.read_eq. cbn [mbind result_bind]. eexists _, _. split; [done|].
  set (buf := ByteStream._buffer (_output r)) in *.
  assert (slen (sdrop len buf) = Z.max 0 (slen buf - len)) as Hl by (by apply slen_sdrop).
  split; [split_and!; [done| |done]; split|]; cbn [set_output _output _capacity _index
    _unassembled_bytes ByteStream._buffer ByteStream._capacity]; try done.
  - split; cbn; [done|]. fold buf. slia.
  - slia.
  - destruct (decide (len <= slen buf)).
    + replace (_index r - slen (sdrop len buf)) with (_index r - slen buf + len) by lia.
      apply agree_sdrop; slia || done.
    + rewrite sdrop_all by lia. apply agree_nil.
  - split_and!; try done; [apply stake_sdrop|].
    unfold window_end, ByteStream.buffer_size. cbn. fold buf. slia.
Qed.

(** ** Sequences of pushes and reads *)

Inductive op :=
| Push (data : bytes) (idx : Z) (eof : bool)
| Read (len : Z).

(** The push is an excerpt of [S], marked as the last one only at the end of [S]. *)
Definition consistent (S : bytes) (o : op) : Prop :=
  match o with
  | Push data idx eof =>
      agree S idx data ∧ 0 <= idx ∧ idx + slen data <= slen S ∧
      (eof = true → idx + slen data = slen S)
  | Read len => 0 <= len
  end.

Definition pushes (o : op) (i : Z) : Prop :=
  match o with Push data idx _ => idx <= i < idx + slen data | Read _ => False end.

(** The push that announces the end. *)
Definition ends (o : op) : bool := match o with Push _ _ eof => eof | Read _ => false end.

Definition buffered (r : StreamReassembler) : bytes := ByteStream._buffer (_output r).

(** The index of the first byte that the reader has not taken. *)
Definition start (r : StreamReassembler) : Z := _index r - slen (buffered r).

Lemma start_window r : window_end r = start r + _capacity r.
Proof. unfold window_end, start, buffered, ByteStream.buffer_size. lia. Qed.

Lemma start_nonneg S r : inv S r → 0 <= start r.
Proof. intros (_ & [_ _ _ ? _] & _). unfold start, buffered. lia. Qed.

Section Run.
Context (rend_index : list ByteString → option Z).

Definition step (r : StreamReassembler) (o : op) : result (StreamReassembler * bytes) :=
  match o with
  | Push data idx eof => r' ← push_substring rend_index r data idx eof; Ok (r', [])
  | Read len => read_out r len
  end.

Fixpoint run (r : StreamReassembler) (ops : list op) : result (StreamReassembler * bytes) :=
  match ops with
  | [] => Ok (r, [])
  | o :: ops => '(r1, out1) ← step r o; '(r2, out2) ← run r1 ops; Ok (r2, out1 ++ out2)
  end.

(** What an operation, or a sequence of them, does from [r] on: [out] is read
    from the stream where the reader stands.  With room for the whole stream,
    what is held afterwards was held before or was pushed. *)
Definition reads_on (S : bytes) (r : StreamReassembler) (pushed : Z → Prop) (x : StreamReassembler * bytes) : Prop :=
  let '(r', out) := x in
  inv S r' ∧ _capacity r' = _capacity r ∧ start r' = start r + slen out ∧ agree S (start r) out ∧
  (slen S <= _capacity r → in_window r → in_window r' ∧ ∀ i, have r' i → have r i ∨ pushed i).

Lemma read_reads_on S r len :
  inv S r → 0 <= len →
  ∃ r' out, read_out r len = Ok (r', out) ∧ reads_on S r (λ _, False) (r', out) ∧
    _index r' = _index r ∧ _unassembled_bytes r' = _unassembled_bytes r.
Proof.
  intros Hinv Hlen. destruct (read_out_spec S r len Hinv Hlen)
    as (r' & out & Hr & Hinv' & Hi' & Hc' & Hl' & Hb & Hw & _).
  exists r', out. split; [done|]. split; [|done]. unfold reads_on. split_and!; try done.
  - unfold start, buffered. rewrite <- Hb, slen_app. lia.
  - destruct Hinv as (_ & [_ _ _ ? Ha] & _). unfold start, buffered.
    rewrite <- Hb, agree_app in Ha by (rewrite Hb; lia). rewrite <- Hb. apply Ha.
  - intros _ Hin. unfold in_window, have. rewrite Hl', Hi'. split; [|tauto]. intros i Hi. specialize (Hin i Hi). lia.
Qed.

(** The whole stream is in the window when there is room for it. *)
Lemma window_roomy S r : inv S r → slen S <= _capacity r → slen S <= window_end r.
Proof. intros Hinv ?. pose proof (start_nonneg S r Hinv). rewrite start_window. lia. Qed.

Lemma reassembler_step_any S r o :
  inv S r → consistent S o → or_undefined (step r o) (reads_on S r (pushes o)).
Proof.
  intros Hinv Hc. destruct o as [data idx eof|len]; cbn [step].
  - destruct Hc as (Hag & Hidx & Hlen & _).
    eapply or_undefined_bind; [by apply (push_substring_any S rend_index r data idx eof)|].
    intros r' (Hinv' & Hc' & _ & Hw' & Hadd). rewrite !start_window in Hw'. simpl.
    split_and!; [done|done|rewrite slen_nil; lia|apply agree_nil|].
    intros Hcap Hin. pose proof (window_roomy S r Hinv Hcap).
    destruct (Hadd Hin) as [Hin' Hh]; [slia|]. split; [done|]. intros i [?|[? _]]%Hh; auto.
  - destruct (read_reads_on S r len Hinv Hc) as (r' & out & -> & Hr & _). exact Hr.
Qed.

(** Without an announcement of the end there is no undefined read. *)
Lemma reassembler_step_spec S r o :
  inv S r → consistent S o → (ends o = true → _unassembled_bytes r = []) →
  slen S <= _capacity r → in_window r →
  ∃ r' out, step r o = Ok (r', out) ∧ ∀ i, have r' i ↔ have r i ∨ pushes o i.
Proof.
  intros Hinv Hc Hend Hcap Hin. pose proof (window_roomy S r Hinv Hcap).
  destruct o as [data idx eof|len]; cbn [step].
  - destruct Hc as (Hag & Hidx & Hlen & _).
    destruct (push_substring_spec S rend_index r data idx eof Hinv Hag Hidx Hlen Hend) as (r' & -> & _ & _ & _ & _ & Hadd).
    destruct (Hadd Hin) as [_ Hh]; [slia|]. exists r', []. split; [done|]. intros i. rewrite Hh. simpl. intuition lia.
  - destruct (read_reads_on S r len Hinv Hc) as (r' & out & -> & _ & Hi & Hl). exists r', out. split; [done|].
    intros i. unfold have. rewrite Hi, Hl. simpl. tauto.
Qed.

Lemma reads_on_trans S r P Q r1 out1 r2 out2 :
  inv S r → reads_on S r P (r1, out1) → reads_on S r1 Q (r2, out2) →
  reads_on S r (λ i, P i ∨ Q i) (r2, out1 ++ out2).
Proof.
  intros Hinv (_ & Hc1 & Hst1 & Ha1 & Hh1) (Hinv2 & Hc2 & Hst2 & Ha2 & Hh2). pose proof (start_nonneg S r Hinv).
  unfold reads_on. rewrite slen_app, agree_app, <- Hst1 by done. split_and!; [done|congruence|lia|done|done|].
  intros Hcap Hin. destruct (Hh1 Hcap Hin) as [Hin1 Hs1]. destruct (Hh2 ltac:(by rewrite Hc1) Hin1) as [Hin2 Hs2].
  split; [done|]. intros i [[?|?]%Hs1|?]%Hs2; auto.
Qed.

Lemma reads_on_refl S r P : inv S r → reads_on S r P (r, []).
Proof. intros. unfold reads_on. split_and!; [done|done|rewrite slen_nil; lia|apply agree_nil|auto]. Qed.

Lemma reads_on_impl S r (P Q : Z → Prop) x : (∀ i, P i → Q i) → reads_on S r P x → reads_on S r Q x.
Proof.
  destruct x as [r' out]. intros HPQ (? & ? & ? & ? & Hh). split_and!; try done.
  intros Hc Hin. destruct (Hh Hc Hin) as [? Hh']. split; [done|]. intros i [?|?]%Hh'; auto.
Qed.

Lemma run_any S ops : ∀ r,
  inv S r → Forall (consistent S) ops →
  or_undefined (run r ops) (reads_on S r (λ i, Exists (λ o, pushes o i) ops)).
Proof.
  induction ops as [|o ops IH]; intros r Hinv Hops; cbn [run]; [by apply reads_on_refl|].
  apply Forall_cons_1 in Hops as [Ho Hops].
  eapply or_undefined_bind; [by apply (reassembler_step_any S)|]. intros [r1 out1] H1.
  eapply or_undefined_bind; [apply (IH r1); [apply H1|done]|]. intros [r2 out2] H2.
  eapply reads_on_impl; [|by eapply (reads_on_trans S)]. intros i. rewrite Exists_cons. done.
Qed.

(** With room for the whole stream, nothing that was pushed is lost before the
    end is announced. *)
Lemma run_have S ops : ∀ r,
  inv S r → in_window r → slen S <= _capacity r → Forall (consistent S) ops →
  Forall (λ o, ends o = false) ops →
  ∃ r' out, run r ops = Ok (r', out) ∧ reads_on S r (λ i, Exists (λ o, pushes o i) ops) (r', out) ∧
    ∀ i, have r' i ↔ have r i ∨ Exists (λ o, pushes o i) ops.
Proof.
  induction ops as [|o ops IH]; intros r Hinv Hin Hcap Hops Hends; cbn [run].
  { exists r, []. split_and!; [done|by apply reads_on_refl|]. intros i. rewrite Exists_nil. tauto. }
  apply Forall_cons_1 in Hops as [Ho Hops]. apply Forall_cons_1 in Hends as [Hend Hends].
  destruct (reassembler_step_spec S r o Hinv Ho) as (r1 & out1 & Hs & Hh1); [congruence|done|done|].
  pose proof (or_undefined_ok _ _ _ (reassembler_step_any S r o Hinv Ho) Hs) as H1.
  rewrite Hs. cbn [mbind result_bind]. pose proof H1 as (Hinv1 & Hc1 & _ & _ & Hw1).
  destruct (IH r1 Hinv1) as (r2 & out2 & Hr & H2 & Hh2); [by apply Hw1|lia|done|done|]. rewrite Hr.
  exists r2, (out1 ++ out2). split_and!; [done| |].
  - eapply reads_on_impl; [|by eapply (reads_on_trans S)]. intros i. rewrite Exists_cons. done.
  - intros i. rewrite Hh2, Hh1, Exists_cons. tauto.
Qed.

End Run.

(** What has been read and what is buffered make up the assembled prefix. *)
Lemma delivered_prefix S r out :
  inv S r → start r = slen out → agree S 0 out → out ++ buffered r = stake (_index r) S.
Proof.
  intros (_ & [_ _ _ Hi Ha] & _) Hst Hag. unfold start, buffered in *.
  set (buf := ByteStream._buffer (_output r)) in *.
  assert (slen (out ++ buf) = _index r) as <- by (rewrite slen_app; lia).
  apply agree_prefix; [|rewrite slen_app; lia].
  rewrite agree_app by lia. split; [done|]. by replace (0 + slen out) with (_index r - slen buf) by lia.
Qed.

Lemma next_missing S r : inv S r → ¬ have r (_index r).
Proof.
  intros (_ & _ & Hch) [H|H]; [lia|]. apply (chain_covered_lt S (_index r)) in H; [lia|done].
Qed.

Lemma assembled_all S r : inv S r → (∀ i, 0 <= i < slen S → have r i) → _index r = slen S.
Proof.
  intros Hinv Hall. assert (Hinv' := Hinv). destruct Hinv' as (_ & [_ _ _ Hi _] & _).
  destruct (decide (_index r < slen S)); [|lia]. destruct (next_missing S r Hinv). apply Hall. slia.
Qed.

Lemma delivered_all S r out :
  inv S r → start r = slen out → agree S 0 out → (∀ i, 0 <= i < slen S → have r i) →
  out ++ buffered r = S.
Proof.
  intros Hinv Hst Hag Hall. rewrite (delivered_prefix S) by done. apply stake_all.
  by rewrite (assembled_all S).
Qed.

(** ** The end of the stream *)

(** The end-of-input flag is raised exactly when the end of [S] is known and
    all of [S] has been written to the output. *)
Definition eof_exact (S : bytes) (r : StreamReassembler) : Prop :=
  (_eof_set r = true → _eof r = slen S) ∧
  (ByteStream.input_ended (_output r) = true ↔ _eof_set r = true ∧ _index r = slen S).

Lemma ended_step_eof S r r' :
  inv S r → inv S r' → eof_exact S r → _eof r' = _eof r → _eof_set r' = _eof_set r →
  _index r <= _index r' → ended_step r r' → eof_exact S r'.
Proof.
  intros (_ & [_ _ _ Hi _] & _) (_ & [_ _ _ Hi' _] & _) [H1 H2] He Hs Hidx (K1 & K2 & K3).
  split; [rewrite Hs, He; done|]. rewrite Hs. split.
  - intros [H|[Hset Heq]]%K2.
    + apply H2 in H as [? ?]. split; [done|lia].
    + split; [done|]. rewrite Heq. auto.
  - intros [Hset Heq]. destruct (decide (_index r = _index r')).
    + apply K1, H2. split; [done|lia].
    + apply K3; [lia|done|]. rewrite H1; done.
Qed.

(** Once everything has been delivered, an announcement of the end makes no
    undefined read and ends the input. *)
Lemma push_end rend S r data idx :
  inv S r → _index r = slen S → consistent S (Push data idx true) →
  push_substring rend r data idx true = Ok (with_eof r (slen S) []) ∧
  ByteStream.input_ended (_output (with_eof r (slen S) [])) = true.
Proof.
  intros (Hu & [[? ?] ? ? ? ?] & Hch) Hi (Hag & Hidx & Hlen & Heof). specialize (Heof eq_refl).
  assert (_unassembled_bytes r = []) as Hnone.
  { destruct (_unassembled_bytes r) as [|b l]; [done|]. destruct Hch as (? & (? & _) & _). lia. }
  rewrite push_substring_unfold, Heof, set_eof_spec, u64_small by (done || slia). cbn [mbind result_bind].
  unfold push_data, push_substring. cbn [mbind result_bind]. rewrite Heof, u64_small by slia. split.
  - cbn [with_eof _index]. by rewrite Hi, Z.leb_refl.
  - unfold with_eof. simpl. rewrite Hi, u64_small by (unfold_width; slia). case_match; [done|lia].
Qed.

(** The end of the input is not set before the end is announced. *)
Definition open_ended (r : StreamReassembler) : Prop :=
  _eof_set r = false ∧ ByteStream.input_ended (_output r) = false.

Lemma step_open_ended rend S r o r' out :
  inv S r → consistent S o → ends o = false → step rend r o = Ok (r', out) → open_ended r → open_ended r'.
Proof.
  intros Hinv Hc He. destruct o as [data idx eof|len]; cbn [step ends] in *.
  - subst eof. destruct Hc as (Hag & Hidx & Hlen & _). rewrite push_substring_unfold. cbn [mbind result_bind].
    destruct (push_data_spec S r data idx Hinv Hag Hidx Hlen) as (r1 & -> & _ & _ & _ & Hs & _ & _ & (_ & Hend & _) & _).
    intros [= <- <-] [H1 H2]. split; [congruence|].
    destruct (ByteStream.input_ended (_output r1)) eqn:E; [|done]. destruct (Hend eq_refl) as [?|[? _]]; congruence.
  - intros Hr [H1 H2]. destruct (read_out_spec S r len Hinv Hc) as (r1 & out1 & Hr1 & H). rewrite Hr in Hr1.
    injection Hr1 as <- <-. destruct H as (_ & _ & _ & _ & _ & _ & Hin & _ & Hs). split; congruence.
Qed.

Lemma run_open_ended rend S ops : ∀ r r' out,
  inv S r → Forall (consistent S) ops → Forall (λ o, ends o = false) ops →
  run rend r ops = Ok (r', out) → open_ended r → open_ended r'.
Proof.
  induction ops as [|o ops IH]; intros r r' out Hinv Hops Hends; cbn [run]; [by intros [= <- <-]|].
  apply Forall_cons_1 in Hops as [Ho Hops]. apply Forall_cons_1 in Hends as [Hend Hends].
  intros ([r1 o1] & H1 & ([r2 o2] & H2 & [= <- <-])%result_bind_ok)%result_bind_ok Hop.
  destruct (or_undefined_ok _ _ _ (reassembler_step_any rend S r o Hinv Ho) H1) as [Hinv1 _].
  apply (IH r1 r2 o2 Hinv1 Hops Hends H2). by apply (step_open_ended rend S r o r1 o1).
Qed.

(** ** Memory *)

Lemma chain_total S lo w l :
  chain S lo l → (∀ i, covered l i → i < w) →
  foldr (λ b n, slen (str b) + n) 0 l <= Z.max 0 (w - lo).
Proof.
  revert lo. induction l as [|b l IH]; intros lo Hch Hw; [simpl; lia|].
  destruct Hch as (Hlo & Hb & Hch). cbn [foldr].
  assert (∀ i, covered l i → i < w) as Hw' by (intros i Hi; apply Hw; rewrite covered_cons; by right).
  specialize (IH _ Hch Hw').
  assert (right b <= w ∨ slen (str b) = 0) as [?|?]; [|unfold right in *; slia..].
  destruct (decide (slen (str b) = 0)); [by right|left].
  assert (right b - 1 < w); [|lia]. apply Hw. rewrite covered_cons. left.
  unfold covers, right. slia.
Qed.

Lemma unassembled_bytes_eq S r lo :
  is_u64 (slen S) → 0 <= lo → chain S lo (_unassembled_bytes r) →
  unassembled_bytes r = foldr (λ b n, slen (str b) + n) 0 (_unassembled_bytes r).
Proof.
  intros HS Hlo Hch. unfold unassembled_bytes.
  assert (∀ l acc lo, 0 <= acc <= lo → chain S lo l →
    foldl (λ s b, u64 (s + slen (str b))) acc l = acc + foldr (λ b n, slen (str b) + n) 0 l) as H.
  { clear r lo Hlo Hch. induction l as [|b l IH]; intros acc lo Hacc Hch; simpl; [lia|].
    destruct Hch as (Hb & (? & Hr & _) & Hch).
    rewrite u64_small by (unfold right in *; slia).
    rewrite (IH _ (right b)); [lia|unfold right; slia|done]. }
  apply (H _ 0 lo); [lia|done].
Qed.

(** ** Properties *)

(** C9: refinement of one push.  The abstract reassembler is the set of indices
    held so far.  A push of an excerpt of the stream, shorter than [2^64] with
    the capacity, that starts in the window adds the indices of the excerpt that
    lie in the window, and nothing else.  If it announces the end while
    substrings are waiting, [set_eof] makes an undefined read: whatever this
    yields, either the program does not go on, or no index is invented.  In all
    other cases the call returns; the new next index is the first one that is
    not in the set, and exactly the indices of the set beyond it are waiting. *)
Theorem push_substring_refines (rend_index : list ByteString → option Z) (S : bytes)
    (r : StreamReassembler) (data : bytes) (idx : Z) (eof : bool) :
  let held i := have r i ∨ (idx <= i < idx + slen data ∧ i < window_end r) in
  inv S r → in_window r → consistent S (Push data idx eof) → idx <= window_end r →
  or_undefined (push_substring rend_index r data idx eof)
    (λ r', inv S r' ∧ in_window r' ∧ (∀ i, 0 <= i < _index r' → held i) ∧
       ∀ i, covered (_unassembled_bytes r') i → held i) ∧
  ((eof = true → _unassembled_bytes r = []) →
   ∃ r', push_substring rend_index r data idx eof = Ok r' ∧
     (∀ i, 0 <= i < _index r' → held i) ∧ ¬ held (_index r') ∧
     ∀ i, covered (_unassembled_bytes r') i ↔ _index r' < i ∧ held i).
Proof.
  intros held Hinv Hin (Hag & Hidx & Hlen & _) Hw. split.
  - eapply or_undefined_impl; [by apply (push_substring_any S)|]. intros r' (Hinv' & _ & _ & _ & Hadd).
    destruct (Hadd Hin Hw) as [Hin' Hh]. split_and!; [done|done|intros i Hi; apply Hh; by left|].
    intros i Hi. apply Hh. by right.
  - intros Hend. destruct (push_substring_spec S rend_index r data idx eof Hinv Hag Hidx Hlen Hend)
      as (r' & -> & Hinv' & _ & _ & _ & Hadd).
    destruct (Hadd Hin Hw) as [_ Hh]. pose proof (next_missing S r' Hinv') as Hm. rewrite Hh in Hm.
    exists r'. split_and!; [done|intros i Hi; apply Hh; by left|done|]. intros i. split.
    + intros Hi. split; [|apply Hh; by right]. by eapply (chain_covered_lt S); [apply Hinv'|].
    + intros [Hi [?|?]%Hh]; [lia|done].
Qed.

(** The value that libstdc++ stores in the place of [rend()]: the list size. *)
Definition libstdcxx_rend_index (l : list ByteString) : option Z := Some (slen l).

Lemma push_substring_refines_witness :
  ∃ r', push_substring libstdcxx_rend_index (StreamReassembler_new 8) [12; 13] 2 true = Ok r' ∧
    ∀ i, covered (_unassembled_bytes r') i ↔
      _index r' < i ∧ (have (StreamReassembler_new 8) i ∨ (2 <= i < 4 ∧ i < 8)).
Proof.
  destruct (push_substring_refines libstdcxx_rend_index [10; 11; 12; 13] (StreamReassembler_new 8) [12; 13] 2 true)
    as [_ Hr].
  - apply inv_new; concrete.
  - intros i Hi. by apply covered_nil in Hi.
  - split_and!; concrete.
  - concrete.
  - destruct (Hr ltac:(done)) as (r' & ? & _ & _ & ?). by exists r'.
Defined.

(** Safety of reassembly.  Whatever the order, overlap and repetition of the
    pushed excerpts of [S], whatever the capacity, and however the reader
    interleaves its reads, no call throws, and unless the undefined read of
    [set_eof] stops the program, what the reader has got, followed by what is
    buffered for it, is a prefix of [S]. *)
Theorem reassembled_is_prefix (rend_index : list ByteString → option Z) (S : bytes) (capacity : Z)
    (ops : list op) :
  is_u64 capacity → is_u64 (slen S + capacity + 1) → Forall (consistent S) ops →
  or_undefined (run rend_index (StreamReassembler_new capacity) ops)
    (λ '(r', out), out ++ buffered r' = stake (_index r') S).
Proof.
  intros Hc Hu Hops. eapply or_undefined_impl; [apply (run_any rend_index S); [by apply inv_new|done]|].
  intros [r' out] (Hinv & _ & Hst & Hag & _). by apply delivered_prefix.
Qed.

Lemma reassembled_is_prefix_witness :
  or_undefined (run libstdcxx_rend_index (StreamReassembler_new 3)
      [Push [12; 13] 2 true; Push [10; 11; 12] 0 false; Read 2; Push [13] 3 true])
    (λ '(r', out), out ++ buffered r' = stake (_index r') [10; 11; 12; 13]).
Proof.
  apply (reassembled_is_prefix libstdcxx_rend_index [10; 11; 12; 13] 3); try concrete.
  repeat constructor; try concrete; intros k Hk; simpl in Hk; repeat (destruct k as [|k]; [done|]); lia.
Defined.

(** Completeness of reassembly.  With a capacity for the whole stream, and
    until the end is announced, the number of bytes delivered to the output
    after any sequence of pushes and reads is the index of the first byte that
    no push contained; when every byte was pushed the whole stream has been
    delivered. *)
Theorem reassembly_complete (rend_index : list ByteString → option Z) (S : bytes) (capacity : Z)
    (ops : list op) :
  is_u64 capacity → is_u64 (slen S + capacity + 1) → slen S <= capacity →
  Forall (consistent S) ops → Forall (λ o, ends o = false) ops →
  ∃ r' out, run rend_index (StreamReassembler_new capacity) ops = Ok (r', out) ∧
    (∀ i, 0 <= i < _index r' → Exists (λ o, pushes o i) ops) ∧
    ¬ Exists (λ o, pushes o (_index r')) ops ∧
    ((∀ i, 0 <= i < slen S → Exists (λ o, pushes o i) ops) → out ++ buffered r' = S).
Proof.
  intros Hc Hu Hcap Hops Hends.
  destruct (run_have rend_index S ops (StreamReassembler_new capacity) (inv_new S capacity Hc Hu))
    as (r1 & out & Hr & (Hinv & _ & Hst & Hag & _) & Hh); try done.
  { intros i Hi. by apply covered_nil in Hi. }
  assert (∀ i, have r1 i ↔ Exists (λ o, pushes o i) ops) as Hh'.
  { intros i. rewrite Hh. unfold have at 1. simpl. rewrite covered_nil. intuition lia. }
  pose proof (next_missing S r1 Hinv) as Hm. rewrite Hh' in Hm.
  exists r1, out. split_and!; try done.
  - intros i Hi. apply Hh'. by left.
  - intros Hall. apply delivered_all; try done. intros i Hi. by apply Hh', Hall.
Qed.

Lemma reassembly_complete_witness :
  let ops := [Push [12; 13] 2 false; Push [10; 11; 12] 0 false] in
  ∃ r' out, run libstdcxx_rend_index (StreamReassembler_new 4) ops = Ok (r', out) ∧
    (∀ i, 0 <= i < _index r' → Exists (λ o, pushes o i) ops) ∧
    ¬ Exists (λ o, pushes o (_index r')) ops ∧
    ((∀ i, 0 <= i < 4 → Exists (λ o, pushes o i) ops) → out ++ buffered r' = [10; 11; 12; 13]).
Proof.
  apply (reassembly_complete libstdcxx_rend_index [10; 11; 12; 13] 4); try concrete.
  - repeat constructor; try concrete; intros k Hk; simpl in Hk;
      repeat (destruct k as [|k]; [done|]); lia.
  - by repeat constructor.
Defined.

(** The end of the stream.  A push keeps the end-of-input flag exact (raised
    if and only if the end is known and everything has been delivered),
    unless it announces the end one byte past the next expected byte without
    bringing that byte into the window; no substring waits when the end is
    announced. *)
Theorem push_eof_exact (rend_index : list ByteString → option Z) (S : bytes)
    (r : StreamReassembler) (data : bytes) (idx : Z) (eof : bool) :
  inv S r → in_window r → eof_exact S r → (eof = true → _unassembled_bytes r = []) →
  consistent S (Push data idx eof) → idx <= window_end r →
  (eof = true → slen S = _index r + 1 → data ≠ [] ∧ _index r < window_end r) →
  ∃ r', push_substring rend_index r data idx eof = Ok r' ∧ eof_exact S r'.
Proof.
  intros Hinv Hin Hex Hnone (Hag & Hidx & Hlen & Heof) Hiw Hlast.
  rewrite push_substring_unfold. assert (Hinv' := Hinv). destruct Hinv' as (Hu & [[? ?] ? ? Hi ?] & Hch).
  destruct eof.
  2: { destruct (push_data_spec S r data idx Hinv Hag Hidx Hlen)
         as (r' & Hp & Hinv' & _ & He & Hs & Hi' & _ & Hend & _).
       exists r'. split; [done|]. by apply (ended_step_eof S r r'). }
  specialize (Heof eq_refl). specialize (Hlast eq_refl). rewrite Heof, (u64_small (slen S)) by slia.
  specialize (Hnone eq_refl). rewrite set_eof_spec by done. cbn [mbind result_bind].
  set (r1' := with_eof r (slen S) []). assert (inv S r1') as Hinv1 by (by apply with_eof_inv).
  destruct (push_data_spec S r1' data idx Hinv1 Hag Hidx Hlen)
    as (r' & Hp & Hinv' & _ & He & Hs & Hi' & Hw' & Hend & Hadd).
  exists r'. split; [done|]. destruct (decide (slen S = _index r + 1)) as [Heq|Hne].
  - destruct (Hlast Heq) as [Hd Hw]. assert (window_end r1' = window_end r) as Hw1 by apply with_eof_window.
    unfold push_adds, in_window in Hadd, Hin. rewrite Hw1 in Hadd. rewrite Hnone in Hin.
    destruct (Hadd Hin Hiw) as [_ Hh].
    assert (have r' (_index r)) as Hhave.
    { apply Hh. right. destruct data; [done|]. rewrite slen_cons in *. slia. }
    pose proof (next_missing S r' Hinv') as Hm.
    assert (_index r' = slen S) as Hfull.
    { destruct Hinv' as (_ & [_ _ _ ? _] & _). simpl in Hi'.
      destruct (decide (_index r' = _index r)) as [E|E]; [by rewrite E in Hm|lia]. }
    split; [by rewrite Hs, He|]. rewrite Hs. split; [done|]. intros _.
    destruct Hend as (K & _ & _). apply K. unfold r1'. simpl. rewrite u64_small by (unfold_width; slia).
    case_match; [done|lia].
  - apply (ended_step_eof S r1' r'); try done. split; [done|]. unfold r1'. simpl.
    destruct Hex as [_ Hex]. rewrite u64_small by (unfold_width; slia). case_match eqn:E; simpl; [split; [|done]; intros _; split; [done|lia]|].
    rewrite Hex. intuition lia.
Qed.

Lemma push_eof_exact_witness :
  ∃ r', push_substring libstdcxx_rend_index (StreamReassembler_new 8) [10; 11] 0 true = Ok r' ∧
    eof_exact [10; 11] r'.
Proof.
  apply (push_eof_exact libstdcxx_rend_index [10; 11]).
  - apply inv_new; concrete.
  - intros i Hi. by apply covered_nil in Hi.
  - split; [done|]. simpl. split; [done|]. by intros [? _].
  - done.
  - split_and!; concrete.
  - concrete.
  - intros _ H. vm_compute in H. discriminate.
Defined.

Lemma push_last_early rend r :
  is_u64 (_index r + 1) → _unassembled_bytes r = [] →
  push_substring rend r [] (_index r + 1) true =
    Ok (mkStreamReassembler (ByteStream.end_input (_output r)) (_capacity r) (_index r)
          (_index r + 1) true []).
Proof.
  intros Hu Hl. rewrite push_substring_unfold, slen_nil, Z.add_0_r, !u64_small by done.
  rewrite set_eof_spec by done. unfold with_eof. rewrite u64_small, Z.leb_refl by done.
  cbn [mbind result_bind]. unfold push_data, push_substring. cbn [mbind result_bind].
  by rewrite slen_nil, orb_true_r.
Qed.

(** The end is announced one byte early.  [set_eof] compares the end with
    [_index + 1]: an empty last substring that starts one past the next
    expected byte ends the input although that byte is missing. *)
Theorem eof_one_byte_early (rend_index : list ByteString → option Z) (r : StreamReassembler) :
  is_u64 (_index r + 1) → _unassembled_bytes r = [] →
  ∃ r', push_substring rend_index r [] (_index r + 1) true = Ok r' ∧
    ByteStream.input_ended (stream_out r') = true ∧
    _index r' = _index r ∧ _eof r' = _index r' + 1 ∧
    ByteStream.bytes_written (stream_out r') = ByteStream.bytes_written (stream_out r).
Proof.
  intros Hu Hl. rewrite push_last_early by done. eexists. split; [done|]. done.
Qed.

Lemma eof_one_byte_early_witness :
  ∃ r', push_substring libstdcxx_rend_index (StreamReassembler_new 8) [] 1 true = Ok r' ∧
    ByteStream.input_ended (stream_out r') = true ∧ _index r' = 0 ∧ _eof r' = _index r' + 1 ∧
    ByteStream.bytes_written (stream_out r') = 0.
Proof. apply (eof_one_byte_early libstdcxx_rend_index (StreamReassembler_new 8)); concrete. Defined.

(** Memory.  As long as no byte waits outside of the window, the bytes in
    the output buffer and the waiting bytes together fit in the capacity, and
    no index is counted twice. *)
Theorem reassembler_memory (S : bytes) (r : StreamReassembler) :
  inv S r → in_window r →
  0 <= unassembled_bytes r ∧
  ByteStream.buffer_size (stream_out r) + unassembled_bytes r <= _capacity r.
Proof.
  intros (Hu & Ho & Hch) Hin. pose proof (window_end_ge S r Ho) as Hwe.
  destruct Ho as [[? ?] ? ? [? ?] ?].
  rewrite (unassembled_bytes_eq S r (_index r)) by (done || slia).
  pose proof (chain_total S (_index r) (window_end r) _ Hch Hin) as Ht.
  unfold window_end, stream_out, ByteStream.buffer_size in *. split; [|lia].
  clear. induction (_unassembled_bytes r); simpl; slia.
Qed.

Lemma reassembler_memory_witness :
  0 <= unassembled_bytes (StreamReassembler_new 8) ∧
  ByteStream.buffer_size (stream_out (StreamReassembler_new 8)) +
    unassembled_bytes (StreamReassembler_new 8) <= 8.
Proof.
  apply (reassembler_memory [] (StreamReassembler_new 8)).
  - apply inv_new; concrete.
  - intros i Hi. by apply covered_nil in Hi.
Defined.

(** Beyond the window.  The guard of [push_substring] compares the start of
    the data with [_index + _capacity], not with the end of the window.  Data
    that starts past the window but within the guard makes the length limit
    wrap around, and all of it is stored, whatever its length. *)
Theorem push_beyond_window_stored (rend_index : list ByteString → option Z) (S : bytes)
    (r : StreamReassembler) (data : bytes) (idx : Z) :
  inv S r → _unassembled_bytes r = [] →
  window_end r < idx <= _index r + _capacity r → 0 < slen data → idx + slen data <= slen S →
  ∃ r', push_substring rend_index r data idx false = Ok r' ∧
    _unassembled_bytes r' = [mkByteString idx data] ∧ unassembled_bytes r' = slen data.
Proof.
  intros (Hu & Ho & _) Hl Hidx Hd Hlen. pose proof (window_end_ge S r Ho) as Hwe.
  destruct Ho as [[? ?] Hc ? [? ?] ?]. unfold push_substring. cbn [mbind result_bind].
  unfold window_end, ByteStream.buffer_size in *.
  rewrite !u64_small by slia.
  destruct (_ || _) eqn:E; [slia|]. unfold push_unassembled_bytes.
  assert ((idx <? _index r) = false) as -> by lia. cbn [andb mbind result_bind index str].
  rewrite substr_ok by slia. cbn [mbind result_bind]. rewrite Hl, sdrop_0. unfold ByteStream.buffer_size.
  rewrite stake_all.
  2:{ assert (u64 (_index r + _capacity r - slen (_buffer (_output r)) - idx) =
        0x10000000000000000 + (_index r + _capacity r - slen (_buffer (_output r)) - idx)) as ->.
      { unfold u64. rewrite <- (Z.mod_add _ 1) by lia. rewrite Z.mod_small; slia. }
      slia. }
  cbn [insert_loop mbind result_bind]. unfold flush_to_output.
  cbn [set_unassembled _unassembled_bytes _index index].
  assert ((idx =? _index r) = false) as -> by lia. eexists. split; [done|]. split; [done|].
  unfold unassembled_bytes. simpl. apply u64_small. slia.
Qed.

Lemma push_beyond_window_stored_witness :
  ∃ r', push_substring libstdcxx_rend_index
      (mkStreamReassembler (mkByteStream 2 [1; 2] false 2 0 false) 2 2 MAX_EOF false [])
      [4; 5; 6] 3 false = Ok r' ∧
    _unassembled_bytes r' = [mkByteString 3 [4; 5; 6]] ∧ unassembled_bytes r' = 3.
Proof.
  apply (push_beyond_window_stored libstdcxx_rend_index [1; 2; 3; 4; 5; 6]); try concrete.
  split; [concrete|]. split; [|done]. split; try concrete.
  intros [|[|k]] Hk; [done|done|simpl in Hk; lia].
Defined.
