(* ===== verification/Buffer.v ===== *)
(** * Buffers (libsponge/util/buffer.{hh,cc})

    [Buffer] is a shared string with a starting offset, [BufferList] a queue of
    buffers, [BufferViewList] a queue of string views.  Removing a prefix is
    shown to be [drop] on the contents for all three, with the exception
    raised exactly when the prefix is longer than the contents. *)

From S2P Require Import Prelude.
From stdpp Require Import options.

(** ** [Buffer] *)

Record Buffer := mkBuffer { _storage : option bytes; _starting_offset : Z }.

#[export] Instance Buffer_eq_dec : EqDecision Buffer.
Proof. solve_decision. Defined.

Definition Buffer_default : Buffer := mkBuffer None 0.

Definition Buffer_of (s : bytes) : Buffer := mkBuffer (Some s) 0.

Definition str (b : Buffer) : bytes :=
  match _storage b with
  | None => []
  | Some s => sdrop (_starting_offset b) s
  end.

Definition at_ (b : Buffer) (n : Z) : result Z :=
  match str b !! Z.to_nat n with
  | Some x => Ok (u8 x)
  | None => Throw OutOfRange
  end.

Definition size (b : Buffer) : Z := slen (str b).

Definition copy (b : Buffer) : bytes := str b.

Definition remove_prefix (b : Buffer) (n : Z) : result Buffer :=
  if size b <? n then Throw OutOfRange
  else
    let off := u64 (_starting_offset b + n) in
    match _storage b with
    | Some s => if off =? slen s then Ok (mkBuffer None off) else Ok (mkBuffer (Some s) off)
    | None => Ok (mkBuffer None off)
    end.

(** The offset lies inside of the string, which has a [size_t] size. *)
Definition wf (b : Buffer) : Prop :=
  match _storage b with
  | None => True
  | Some s => 0 <= _starting_offset b <= slen s ∧ is_u64 (slen s)
  end.

Lemma wf_of s : is_u64 (slen s) → wf (Buffer_of s).
Proof. intros. split; simpl; [slia|done]. Qed.

Lemma str_of s : str (Buffer_of s) = s.
Proof. apply sdrop_0. Qed.

Lemma remove_prefix_spec b n :
  wf b → 0 <= n →
  if decide (n <= slen (str b))
  then ∃ b', remove_prefix b n = Ok b' ∧ wf b' ∧ str b' = sdrop n (str b)
  else remove_prefix b n = Throw OutOfRange.
Proof.
  intros Hwf Hn. unfold remove_prefix, size, str, wf in *. destruct b as [[s|] off]; simpl in *.
  - destruct Hwf as [Hoff Hu]. rewrite slen_sdrop by lia.
    case_decide; destruct (_ <? n) eqn:E; try lia; [|done].
    rewrite u64_small by slia. case_match eqn:E2; eexists; (split; [done|]).
    + split; [done|]. rewrite sdrop_all; [done|]. rewrite slen_sdrop by lia. lia.
    + split; [simpl; split; [lia|done]|]. simpl. by rewrite sdrop_sdrop by lia.
  - rewrite slen_nil. case_decide; destruct (0 <? n) eqn:E; try lia; [|done].
    eexists. split; [done|]. split; [done|]. by rewrite sdrop_drop, drop_nil.
Qed.

(** ** [BufferList] *)

Abbreviation BufferList := (list Buffer) (only parsing).

Definition BufferList_of_buffer (b : Buffer) : BufferList := [b].

Definition BufferList_of_string (s : bytes) : BufferList := [Buffer_of s].

Definition append (l other : BufferList) : BufferList := l ++ other.

(** [operator Buffer()]: only a list of at most one buffer is contiguous. *)
Definition to_Buffer (l : BufferList) : result Buffer :=
  match l with
  | [] => Ok Buffer_default
  | [b] => Ok b
  | _ => Throw RuntimeError
  end.

Definition concatenate (l : BufferList) : bytes := foldl (λ ret b, ret ++ str b) [] l.

Definition list_size (l : BufferList) : Z := foldl (λ ret b, u64 (ret + size b)) 0 l.

(** The loop of [BufferList::remove_prefix]; the front buffer is dropped or
    shortened in each round. *)
Fixpoint list_remove_prefix (l : BufferList) (n : Z) : result BufferList :=
  if 0 <? n then
    match l with
    | [] => Throw OutOfRange
    | b :: l' =>
        if n <? slen (str b) then b' ← remove_prefix b n; Ok (b' :: l')
        else list_remove_prefix l' (u64 (n - slen (str b)))
    end
  else Ok l.

(** ** [BufferViewList] *)

Abbreviation BufferViewList := (list bytes) (only parsing).

Definition BufferViewList_of_string (s : bytes) : BufferViewList := [s].

Definition BufferViewList_of_list (l : BufferList) : BufferViewList := map str l.

Definition view_size (v : BufferViewList) : Z := foldl (λ ret s, u64 (ret + slen s)) 0 v.

Fixpoint view_remove_prefix (v : BufferViewList) (n : Z) : result BufferViewList :=
  if 0 <? n then
    match v with
    | [] => Throw OutOfRange
    | s :: v' =>
        if n <? slen s then Ok (sdrop n s :: v')
        else view_remove_prefix v' (u64 (n - slen s))
    end
  else Ok v.

(** The [iovec]s: base and length of each view, here the bytes they denote. *)
Definition as_iovecs (v : BufferViewList) : list (bytes * Z) := map (λ s, (s, slen s)) v.

(** ** Contents *)

Lemma concatenate_concat l : concatenate l = concat (map str l).
Proof.
  unfold concatenate. assert (∀ acc, foldl (λ ret b, ret ++ str b) acc l = acc ++ concat (map str l)) as H.
  { induction l as [|b l IH]; intros acc; simpl; [by rewrite app_nil_r|]. by rewrite IH, app_assoc. }
  apply H.
Qed.

Lemma concatenate_cons b l : concatenate (b :: l) = str b ++ concatenate l.
Proof. by rewrite !concatenate_concat. Qed.

Lemma concatenate_app l l' : concatenate (append l l') = concatenate l ++ concatenate l'.
Proof. unfold append. by rewrite !concatenate_concat, map_app, concat_app. Qed.

Lemma concatenate_one b : concatenate [b] = str b.
Proof. rewrite concatenate_cons. change (concatenate []) with (@nil Z). apply app_nil_r. Qed.

Lemma list_size_eq l : is_u64 (slen (concatenate l)) → list_size l = slen (concatenate l).
Proof.
  intros Hu. unfold list_size.
  assert (∀ acc, 0 <= acc → is_u64 (acc + slen (concatenate l)) →
    foldl (λ ret b, u64 (ret + size b)) acc l = acc + slen (concatenate l)) as H; [|by apply H].
  clear Hu. induction l as [|b l IH]; intros acc Hacc Hu.
  { change (concatenate []) with (@nil Z). simpl. slia. }
  rewrite concatenate_cons, slen_app in *. cbn [foldl]. unfold size.
  rewrite u64_small by slia. rewrite IH; [lia|slia|]. by rewrite <- Z.add_assoc.
Qed.

(** The views of a list denote the same bytes, and removing a prefix commutes
    with taking the views. *)
Lemma view_remove_prefix_of_list l n :
  Forall wf l → 0 <= n → is_u64 n →
  view_remove_prefix (BufferViewList_of_list l) n =
    (l' ← list_remove_prefix l n; Ok (BufferViewList_of_list l')).
Proof.
  intros Hwf. revert n. induction Hwf as [|b l Hb Hl IH]; intros n Hn Hu; simpl.
  { by case_match. }
  case_match; [|done]. case_match eqn:E.
  - pose proof (remove_prefix_spec b n Hb Hn) as Hr. rewrite decide_True in Hr by lia.
    destruct Hr as (b' & -> & _ & Hs). simpl. by rewrite Hs.
  - apply IH; [|by apply u64_range]. apply u64_range.
Qed.

(** ** Properties *)

(** [BufferList::remove_prefix] drops exactly the first [n] bytes of the
    contents when there are that many, and throws [out_of_range] otherwise. *)
Theorem list_remove_prefix_drops (l : BufferList) (n : Z) :
  Forall wf l → is_u64 n →
  if decide (n <= slen (concatenate l))
  then ∃ l', list_remove_prefix l n = Ok l' ∧ Forall wf l' ∧ concatenate l' = sdrop n (concatenate l)
  else list_remove_prefix l n = Throw OutOfRange.
Proof.
  intros Hwf. revert n. induction Hwf as [|b l Hb Hl IH]; intros n Hu.
  { simpl. case_decide; destruct (0 <? n) eqn:E; unfold concatenate, slen in *; simpl in *;
      unfold_width; try lia; [|done].
    exists []. split; [done|]. split; [done|]. by rewrite sdrop_drop, drop_nil. }
  rewrite concatenate_cons, slen_app. cbn [list_remove_prefix]. destruct (0 <? n) eqn:En.
  2: { assert (n = 0) as -> by (unfold_width; lia). rewrite decide_True by slia.
       exists (b :: l). split; [done|]. split; [by constructor|].
       by rewrite sdrop_0, concatenate_cons. }
  destruct (n <? slen (str b)) eqn:E.
  - rewrite decide_True by slia. pose proof (remove_prefix_spec b n Hb ltac:(lia)) as Hr.
    rewrite decide_True in Hr by lia. destruct Hr as (b' & -> & Hwf' & Hs).
    exists (b' :: l). split; [done|]. split; [by constructor|]. rewrite concatenate_cons, Hs.
    rewrite !sdrop_drop. unfold slen in *. by rewrite drop_app_le by lia.
  - assert (is_u64 (n - slen (str b))) as Hu' by slia. rewrite (u64_small _ Hu').
    specialize (IH _ Hu'). destruct (decide (n - slen (str b) <= slen (concatenate l))).
    + rewrite decide_True by lia. destruct IH as (l' & -> & Hwf' & Hc).
      exists l'. split; [done|]. split; [done|]. by rewrite Hc, sdrop_app_ge by lia.
    + by rewrite decide_False by lia.
Qed.

Lemma list_remove_prefix_drops_witness :
  ∃ l', list_remove_prefix [Buffer_of [1; 2]; Buffer_of []; Buffer_of [3; 4; 5]] 3 = Ok l' ∧
    Forall wf l' ∧ concatenate l' = [4; 5].
Proof.
  apply (list_remove_prefix_drops [Buffer_of [1; 2]; Buffer_of []; Buffer_of [3; 4; 5]] 3);
    [repeat constructor; concrete|concrete].
Defined.
