(* ===== verification/Parser.v ===== *)
(** * Network-order parsing and unparsing (libsponge/util/parser.{hh,cc})

    [NetParser] reads big-endian integers from a buffer and records the first
    shortage in an error field instead of throwing; [NetUnparser] appends
    big-endian integers to a string.  The lemmas give the value that a read
    yields on every input, and that reading inverts writing. *)

From S2P Require Import Prelude Buffer.
From stdpp Require Import strings options.
Local Open Scope Z_scope.

Inductive ParseResult :=
| NoError
| BadChecksum
| PacketTooShort
| WrongIPVersion
| HeaderTooShort
| TruncatedPacket
| Unsupported.

#[export] Instance ParseResult_eq_dec : EqDecision ParseResult.
Proof. solve_decision. Defined.

(** [static_cast<size_t>(r)]. *)
Definition ParseResult_to_nat (r : ParseResult) : nat :=
  match r with
  | NoError => 0 | BadChecksum => 1 | PacketTooShort => 2 | WrongIPVersion => 3
  | HeaderTooShort => 4 | TruncatedPacket => 5 | Unsupported => 6
  end%nat.

Definition _names : list string :=
  ["NoError"; "BadChecksum"; "PacketTooShort"; "WrongIPVersion"; "HeaderTooShort";
   "TruncatedPacket"]%string.

(** Indexing the array past its end is undefined. *)
Definition as_string (r : ParseResult) : result string :=
  match _names !! ParseResult_to_nat r with
  | Some s => Ok s
  | None => Throw Undefined
  end.

(** ** [NetParser] *)

Record NetParser := mkNetParser { _buffer : Buffer; _error : ParseResult }.

Definition NetParser_of (b : Buffer) : NetParser := mkNetParser b NoError.

Definition buffer (p : NetParser) : Buffer := _buffer p.

Definition get_error (p : NetParser) : ParseResult := _error p.

Definition set_error (p : NetParser) (res : ParseResult) : NetParser := mkNetParser (_buffer p) res.

Definition error (p : NetParser) : bool := bool_decide (get_error p ≠ NoError).

Definition _check_size (p : NetParser) (sz : Z) : NetParser :=
  if Buffer.size (_buffer p) <? sz then set_error p PacketTooShort else p.

(** Values of the [len]-byte unsigned type. *)
Definition trunc (len : nat) (x : Z) : Z := x mod 2 ^ (8 * Z.of_nat len).

(** The loop of [_parse_int]: [k] more bytes from position [i]. *)
Fixpoint parse_loop (len : nat) (b : Buffer) (i : Z) (k : nat) (ret : Z) : result Z :=
  match k with
  | O => Ok ret
  | S k =>
      x ← Buffer.at_ b i;
      parse_loop len b (i + 1) k (trunc len (trunc len (Z.shiftl ret 8) + x))
  end.

Definition _parse_int (len : nat) (p : NetParser) : result (NetParser * Z) :=
  let p := _check_size p (Z.of_nat len) in
  if error p then Ok (p, 0)
  else
    ret ← parse_loop len (_buffer p) 0 len 0;
    b ← Buffer.remove_prefix (_buffer p) (Z.of_nat len);
    Ok (mkNetParser b (_error p), ret).

Definition parse_u32 : NetParser → result (NetParser * Z) := _parse_int 4.

Definition parse_u16 : NetParser → result (NetParser * Z) := _parse_int 2.

Definition parse_u8 : NetParser → result (NetParser * Z) := _parse_int 1.

Definition remove_prefix (p : NetParser) (n : Z) : result NetParser :=
  let p := _check_size p n in
  if error p then Ok p
  else b ← Buffer.remove_prefix (_buffer p) n; Ok (mkNetParser b (_error p)).

(** [for (auto &byte : array) byte = p.u8();] over an array of [n] bytes. *)
Fixpoint parse_bytes (n : nat) (p : NetParser) : result (NetParser * bytes) :=
  match n with
  | O => Ok (p, [])
  | S n => '(p, x) ← parse_u8 p; '(p, xs) ← parse_bytes n p; Ok (p, x :: xs)
  end.

(** ** [NetUnparser] *)

(** The bytes that [_unparse_int] pushes, most significant first. *)
Definition be_bytes (len : nat) (val : Z) : bytes :=
  map (λ i, Z.land (Z.shiftr val ((Z.of_nat len - Z.of_nat i - 1) * 8)) 0xff) (seq 0 len).

Definition _unparse_int (len : nat) (s : bytes) (val : Z) : bytes := s ++ be_bytes len val.

Definition unparse_u32 (s : bytes) (val : Z) : bytes := _unparse_int 4 s val.

Definition unparse_u16 (s : bytes) (val : Z) : bytes := _unparse_int 2 s val.

Definition unparse_u8 (s : bytes) (val : Z) : bytes := _unparse_int 1 s val.

(** [for (auto &byte : array) NetUnparser::u8(ret, byte);] *)
Definition unparse_bytes (s : bytes) (array : bytes) : bytes := foldl unparse_u8 s array.

(** ** Big-endian numbers *)

Definition be_combine (bs : bytes) : Z := foldl (λ acc x, acc * 256 + x) 0 bs.

Lemma be_bytes_S n val :
  be_bytes (S n) val = be_bytes n (Z.shiftr val 8) ++ [Z.land val 0xff].
Proof.
  unfold be_bytes. rewrite seq_S, map_app. f_equal.
  - apply map_ext_in. intros i Hi%in_seq. rewrite Z.shiftr_shiftr by lia. do 2 f_equal. lia.
  - simpl. do 2 f_equal. replace (Z.of_nat (S n) - Z.of_nat n - 1) with 0 by lia. done.
Qed.

Lemma be_bytes_length n val : length (be_bytes n val) = n.
Proof. unfold be_bytes. by rewrite length_map, length_seq. Qed.

Lemma be_bytes_slen n val : slen (be_bytes n val) = Z.of_nat n.
Proof. unfold slen. by rewrite be_bytes_length. Qed.

Lemma land_0xff x : Z.land x 0xff = x mod 256.
Proof. apply (Z.land_ones x 8). lia. Qed.

Lemma land_0xffff x : Z.land x 0xffff = x mod 0x10000.
Proof. apply (Z.land_ones x 16). lia. Qed.

Lemma be_bytes_range n val : Forall is_u8 (be_bytes n val).
Proof.
  unfold be_bytes. apply Forall_forall. intros x Hx.
  apply list_elem_of_fmap in Hx as (i & -> & _). rewrite land_0xff.
  by apply Z.mod_pos_bound.
Qed.

Lemma be_combine_bytes n val : 0 <= val < 2 ^ (8 * Z.of_nat n) → be_combine (be_bytes n val) = val.
Proof.
  revert val. induction n as [|n IH]; intros val Hv.
  { simpl in *. unfold be_combine. simpl. lia. }
  rewrite be_bytes_S. unfold be_combine in *. rewrite foldl_app, IH.
  - simpl. rewrite land_0xff, Z.shiftr_div_pow2 by lia.
    change (2 ^ 8) with 256. pose proof (Z.div_mod val 256). lia.
  - rewrite Z.shiftr_div_pow2 by lia. split; [apply Z.div_pos; lia|].
    apply Z.div_lt_upper_bound; [lia|]. rewrite <- Z.pow_add_r by lia.
    replace (8 + 8 * Z.of_nat n) with (8 * Z.of_nat (S n)) by lia. lia.
Qed.

Lemma be_combine_snoc bs x : be_combine (bs ++ [x]) = be_combine bs * 256 + x.
Proof. unfold be_combine. by rewrite foldl_app. Qed.

Lemma be_combine_range bs : Forall is_u8 bs → 0 <= be_combine bs < 2 ^ (8 * slen bs).
Proof.
  induction bs as [|x bs IH] using rev_ind; intros Hf; [done|].
  apply Forall_app in Hf as [Hf [Hx _]%Forall_cons]. specialize (IH Hf).
  rewrite be_combine_snoc, slen_app, slen_one.
  replace (8 * (slen bs + 1)) with (8 * slen bs + 8) by lia.
  rewrite Z.pow_add_r by slia. unfold_width. change (2 ^ 8) with 256. nia.
Qed.

(** Printing the number that a byte string denotes gives the string back. *)
Lemma be_bytes_combine bs : Forall is_u8 bs → be_bytes (length bs) (be_combine bs) = bs.
Proof.
  induction bs as [|x bs IH] using rev_ind; intros Hf; [done|].
  apply Forall_app in Hf as [Hf [Hx _]%Forall_cons].
  rewrite length_app, Nat.add_1_r, be_bytes_S, be_combine_snoc.
  rewrite land_0xff, Z.shiftr_div_pow2 by lia. change (2 ^ 8) with 256. unfold_width.
  f_equal.
  - rewrite Z.div_add_l, (Z.div_small x), Z.add_0_r by lia. auto.
  - rewrite Z.add_comm, Z.mod_add, Z.mod_small by lia. done.
Qed.

(** ** Reads *)

(** [parser_at p s]: no error so far and [s] is what is left to parse. *)
Definition parser_at (p : NetParser) (s : bytes) : Prop :=
  _error p = NoError ∧ Buffer.wf (_buffer p) ∧ str (_buffer p) = s.

Lemma parser_at_of b : Buffer.wf b → parser_at (NetParser_of b) (str b).
Proof. done. Qed.

Lemma parser_at_error p s : parser_at p s → error p = false.
Proof. intros [He _]. unfold error, get_error. rewrite He. done. Qed.

Lemma check_size_ok p s n : parser_at p s → n <= slen s → _check_size p n = p.
Proof. intros (_ & _ & Hs) Hn. unfold _check_size, Buffer.size. rewrite Hs. case_match; [lia|done]. Qed.

Lemma check_size_short p s n :
  parser_at p s → slen s < n → _check_size p n = set_error p PacketTooShort.
Proof. intros (_ & _ & Hs) Hn. unfold _check_size, Buffer.size. rewrite Hs. case_match; [done|lia]. Qed.

Lemma check_size_error p n : error p = true → error (_check_size p n) = true.
Proof. unfold _check_size. by case_match. Qed.

Lemma check_size_buffer p n : _buffer (_check_size p n) = _buffer p.
Proof. unfold _check_size. by case_match. Qed.

Lemma parse_loop_spec len b done todo rest :
  str b = done ++ todo ++ rest → Forall is_u8 (done ++ todo) → length (done ++ todo) = len →
  parse_loop len b (slen done) (length todo) (be_combine done) = Ok (be_combine (done ++ todo)).
Proof.
  revert done. induction todo as [|x todo IH]; intros done Hs Hf Hl; simpl.
  { by rewrite app_nil_r. }
  assert (Buffer.at_ b (slen done) = Ok x) as ->.
  { unfold Buffer.at_. rewrite Hs. unfold slen. rewrite Nat2Z.id.
    rewrite lookup_app_r, Nat.sub_diag by lia. simpl. f_equal. apply u8_small.
    apply Forall_app in Hf as [_ [Hx _]%Forall_cons]. done. }
  cbn [mbind result_bind].
  assert (Forall is_u8 (done ++ [x])) as Hf'.
  { apply Forall_app in Hf as [? [? ?]%Forall_cons]. apply Forall_app; auto. }
  assert (trunc len (trunc len (Z.shiftl (be_combine done) 8) + x) = be_combine (done ++ [x])) as ->.
  { unfold trunc. rewrite Zplus_mod_idemp_l, Z.shiftl_mul_pow2, <- be_combine_snoc by lia.
    apply Z.mod_small. pose proof (be_combine_range _ Hf') as Hr. split; [apply Hr|].
    eapply Z.lt_le_trans; [apply Hr|]. apply Z.pow_le_mono_r; [lia|].
    rewrite slen_app, slen_one. rewrite length_app in Hl. simpl in Hl. unfold slen. lia. }
  replace (slen done + 1) with (slen (done ++ [x])) by (rewrite slen_app, slen_one; lia).
  rewrite IH; rewrite <- ?app_assoc; done.
Qed.

(** What a read yields when enough bytes are left. *)
Lemma parse_int_spec len p bs rest :
  parser_at p (bs ++ rest) → Forall is_u8 bs → length bs = len →
  ∃ p', _parse_int len p = Ok (p', be_combine bs) ∧ parser_at p' rest.
Proof.
  intros Hp Hf <-. unfold _parse_int.
  rewrite (check_size_ok p _ _ Hp) by (rewrite slen_app; unfold slen; lia).
  rewrite (parser_at_error p _ Hp). destruct Hp as (He & Hwf & Hs).
  pose proof (parse_loop_spec (length bs) (_buffer p) [] bs rest Hs Hf eq_refl) as Hloop.
  change (parse_loop (length bs) (_buffer p) 0 (length bs) 0 = Ok (be_combine bs)) in Hloop.
  rewrite Hloop. cbn [mbind result_bind].
  pose proof (remove_prefix_spec (_buffer p) (slen bs) Hwf ltac:(slia)) as Hr.
  rewrite Hs, slen_app, decide_True in Hr by slia. unfold slen in Hr.
  destruct Hr as (b' & -> & Hwf' & Hs'). eexists. split; [done|]. split_and!; [done|done|].
  simpl. rewrite Hs', sdrop_app_ge, Z.sub_diag, sdrop_0 by (unfold slen; lia). done.
Qed.

(** ... and when too few are left: the error is recorded and the value is 0. *)
Lemma parse_int_short len p s :
  parser_at p s → slen s < Z.of_nat len →
  _parse_int len p = Ok (set_error p PacketTooShort, 0).
Proof. intros Hp Hl. unfold _parse_int. by rewrite (check_size_short p s). Qed.

(** After an error every read yields 0 and the parser stays in error. *)
Lemma parse_int_error len p :
  error p = true →
  ∃ p', _parse_int len p = Ok (p', 0) ∧ error p' = true ∧ _buffer p' = _buffer p.
Proof.
  intros He. unfold _parse_int. rewrite check_size_error by done.
  eexists. split; [done|]. split; [by apply check_size_error|apply check_size_buffer].
Qed.

(** Reading back what was written. *)
Lemma parse_int_unparse len p val rest :
  parser_at p (be_bytes len val ++ rest) → 0 <= val < 2 ^ (8 * Z.of_nat len) →
  ∃ p', _parse_int len p = Ok (p', val) ∧ parser_at p' rest.
Proof.
  intros Hp Hv. destruct (parse_int_spec len p _ rest Hp) as (p' & H & Hp').
  - apply be_bytes_range.
  - apply be_bytes_length.
  - exists p'. by rewrite H, be_combine_bytes.
Qed.

Lemma be_bytes_1 x : is_u8 x → be_bytes 1 x = [x].
Proof. intros. unfold be_bytes. simpl. rewrite land_0xff. f_equal. by apply Z.mod_small. Qed.

Lemma parse_bytes_spec n p bs rest :
  parser_at p (bs ++ rest) → Forall is_u8 bs → length bs = n →
  ∃ p', parse_bytes n p = Ok (p', bs) ∧ parser_at p' rest.
Proof.
  revert p bs. induction n as [|n IH]; intros p bs Hp Hf Hl.
  { destruct bs; [|done]. exists p. done. }
  destruct bs as [|x bs]; [done|]. apply Forall_cons in Hf as [Hx Hf]. injection Hl as Hl. simpl.
  destruct (parse_int_spec 1 p [x] (bs ++ rest) Hp) as (p1 & H1 & Hp1); [by constructor|done|].
  unfold parse_u8. rewrite H1. cbn [mbind result_bind].
  destruct (IH p1 bs Hp1 Hf Hl) as (p2 & -> & Hp2). exists p2. done.
Qed.

Lemma unparse_bytes_eq s array : Forall is_u8 array → unparse_bytes s array = s ++ array.
Proof.
  intros Hf. revert s. induction Hf as [|x array Hx Hf IH]; intros s; simpl; [by rewrite app_nil_r|].
  unfold unparse_bytes in IH. rewrite IH. unfold unparse_u8, _unparse_int.
  by rewrite be_bytes_1, <- app_assoc.
Qed.

Lemma parser_remove_prefix_spec p n s rest :
  parser_at p (s ++ rest) → slen s = n →
  ∃ p', remove_prefix p n = Ok p' ∧ parser_at p' rest.
Proof.
  intros Hp Hl. unfold remove_prefix. rewrite (check_size_ok p _ _ Hp) by (rewrite slen_app; slia).
  rewrite (parser_at_error p _ Hp). destruct Hp as (He & Hwf & Hs).
  pose proof (Buffer.remove_prefix_spec (_buffer p) n Hwf ltac:(slia)) as Hr.
  rewrite Hs, slen_app, decide_True in Hr by slia. destruct Hr as (b' & -> & Hwf' & Hs').
  eexists. split; [done|]. split_and!; [done|done|].
  simpl. by rewrite Hs', sdrop_app_ge, Hl, Z.sub_diag, sdrop_0 by lia.
Qed.

(** ** Automation for the header codecs *)

Lemma u8_pow x : is_u8 x → 0 <= x < 2 ^ (8 * Z.of_nat 1).
Proof. done. Qed.
Lemma u16_pow x : is_u16 x → 0 <= x < 2 ^ (8 * Z.of_nat 2).
Proof. done. Qed.
Lemma u32_pow x : is_u32 x → 0 <= x < 2 ^ (8 * Z.of_nat 4).
Proof. done. Qed.
#[export] Hint Resolve u8_pow u16_pow u32_pow : sponge.

(** [net_read] executes the next read of a parser on what an unparser wrote. *)
Ltac net_read :=
  match goal with
  | Hp : parser_at ?p (be_bytes ?n ?v ++ ?rest) |- context [_parse_int ?n ?p] =>
      let p' := fresh "p" in
      destruct (parse_int_unparse n p v rest Hp) as (p' & -> & ?);
        [by auto with sponge | cbn [mbind result_bind]; clear Hp]
  | Hp : parser_at ?p (?bs ++ ?rest) |- context [parse_bytes ?n ?p] =>
      let p' := fresh "p" in
      destruct (parse_bytes_spec n p bs rest Hp) as (p' & -> & ?);
        [done | done | cbn [mbind result_bind]; clear Hp]
  end.

(** ** Reads on arbitrary input *)

(** [parser_ok p n]: the buffer is sound, and either an error was recorded or
    at most [n] bytes are left. *)
Definition parser_ok (p : NetParser) (n : Z) : Prop :=
  Buffer.wf (_buffer p) ∧ Forall is_u8 (str (_buffer p)) ∧
  (error p = true ∨ slen (str (_buffer p)) <= n).

Lemma parser_ok_at p : error p = false → Buffer.wf (_buffer p) → parser_at p (str (_buffer p)).
Proof.
  intros He Hwf. split_and!; try done. unfold error, get_error in He.
  apply bool_decide_eq_false_1 in He. destruct (decide (_error p = NoError)); [done|by destruct He].
Qed.

Lemma parse_int_ok len p n :
  parser_ok p n → ∃ p' v, _parse_int len p = Ok (p', v) ∧ parser_ok p' (n - Z.of_nat len).
Proof.
  intros (Hwf & Hf & Hb). destruct (error p) eqn:He.
  { destruct (parse_int_error len p He) as (p' & H & He' & Hbuf). exists p', 0. split; [done|].
    unfold parser_ok. rewrite Hbuf. split_and!; auto. }
  destruct Hb as [|Hb]; [done|].
  pose proof (parser_ok_at p He Hwf) as Hp.
  destruct (decide (slen (str (_buffer p)) < Z.of_nat len)) as [Hl|Hl].
  { rewrite (parse_int_short len p _ Hp Hl). eexists _, _. split; [done|]. split_and!; try done.
    by left. }
  rewrite <- (take_drop len (str (_buffer p))) in Hp, Hf. apply Forall_app in Hf as [Hf1 Hf2].
  destruct (parse_int_spec len p _ _ Hp Hf1) as (p' & -> & Hp').
  { rewrite length_take. unfold slen in Hl. lia. }
  eexists _, _. split; [done|]. destruct Hp' as (_ & Hwf' & Hs'). split_and!; [done|by rewrite Hs'|].
  right. rewrite Hs'. unfold slen in *. rewrite length_drop. lia.
Qed.

Lemma parse_bytes_ok k p n :
  parser_ok p n → ∃ p' v, parse_bytes k p = Ok (p', v) ∧ parser_ok p' (n - Z.of_nat k).
Proof.
  revert p n. induction k as [|k IH]; intros p n Hp; cbn [parse_bytes].
  { exists p, []. split; [done|]. by replace (n - Z.of_nat 0) with n by lia. }
  destruct (parse_int_ok 1 p n Hp) as (p1 & v & H & Hp1). unfold parse_u8. rewrite H.
  cbn [mbind result_bind]. destruct (IH p1 _ Hp1) as (p2 & vs & -> & Hp2).
  exists p2, (v :: vs). split; [done|]. by replace (n - Z.of_nat (S k)) with (n - Z.of_nat 1 - Z.of_nat k) by lia.
Qed.

Lemma parser_remove_prefix_ok k p n :
  parser_ok p n → 0 <= k → ∃ p', remove_prefix p k = Ok p' ∧ parser_ok p' (n - k).
Proof.
  intros (Hwf & Hf & Hb) Hk. unfold remove_prefix.
  destruct (error (_check_size p k)) eqn:He.
  { eexists. split; [done|]. unfold parser_ok. rewrite He.
    unfold _check_size. case_match; split_and!; auto. }
  assert (error p = false ∧ k <= slen (str (_buffer p))) as [He' Hl].
  { unfold _check_size, Buffer.size in He. destruct (_ <? k) eqn:E; [done|]. split; [done|lia]. }
  destruct Hb as [|Hb]; [congruence|].
  assert (_check_size p k = p) as -> by (unfold _check_size, Buffer.size; case_match; [lia|done]).
  pose proof (Buffer.remove_prefix_spec (_buffer p) k Hwf Hk) as Hr. rewrite decide_True in Hr by lia.
  destruct Hr as (b' & -> & Hwf' & Hs'). eexists. split; [done|]. split_and!; simpl; [done| |].
  - rewrite Hs', sdrop_drop. by apply Forall_drop.
  - right. rewrite Hs', slen_sdrop by lia. lia.
Qed.

(** [net_read_any] executes the next read of a parser on arbitrary input. *)
Ltac net_read_any :=
  match goal with
  | Hp : parser_ok ?p ?n |- context [_parse_int ?k ?p] =>
      let p' := fresh "p" in let v := fresh "v" in
      destruct (parse_int_ok k p n Hp) as (p' & v & -> & ?); cbn [mbind result_bind]; clear Hp
  | Hp : parser_ok ?p ?n |- context [parse_bytes ?k ?p] =>
      let p' := fresh "p" in let v := fresh "v" in
      destruct (parse_bytes_ok k p n Hp) as (p' & v & -> & ?); cbn [mbind result_bind]; clear Hp
  end.

(** A read at any point of the input. *)
Lemma parse_int_at len p s :
  parser_at p s → Forall is_u8 s → Z.of_nat len <= slen s →
  ∃ p', _parse_int len p = Ok (p', be_combine (take len s)) ∧ parser_at p' (drop len s).
Proof.
  intros Hp Hf Hl. rewrite <- (take_drop len s) in Hp. apply parse_int_spec; [done|by apply Forall_take|].
  rewrite length_take. unfold slen in Hl. lia.
Qed.

(** [net_read_at] executes the next read of a parser that has the input for it. *)
Ltac net_read_at :=
  match goal with
  | Hp : parser_at ?p ?s |- context [_parse_int ?n ?p] =>
      let p' := fresh "p" in
      destruct (parse_int_at n p s Hp) as (p' & -> & ?);
        [by repeat apply Forall_drop
        |unfold slen in *; rewrite ?length_drop; lia
        |cbn [mbind result_bind]; clear Hp]
  end.

(** What the parser reads is in the range of its type, whatever the input. *)
Lemma parse_loop_range len b k : ∀ i ret r,
  parse_loop len b i k ret = Ok r → 0 <= ret < 2 ^ (8 * Z.of_nat len) → 0 <= r < 2 ^ (8 * Z.of_nat len).
Proof.
  induction k as [|k IH]; intros i ret r; cbn [parse_loop]; [by intros [= ->]|].
  intros (x & _ & H)%result_bind_ok _. apply (IH _ _ _ H). apply Z.mod_pos_bound. lia.
Qed.

Lemma parse_int_range len p p' v :
  _parse_int len p = Ok (p', v) → 0 <= v < 2 ^ (8 * Z.of_nat len).
Proof.
  unfold _parse_int. destruct (error _); [intros [= _ <-]; lia|].
  intros (r & Hr & (b & _ & [= _ <-])%result_bind_ok)%result_bind_ok.
  eapply parse_loop_range; [exact Hr|]. lia.
Qed.
