(* ===== verification/StdString.v ===== *)
(** * Strings of the standard library

    What the sources use of [std::to_string], [std::stoi] and [inet_ntoa], on
    strings as lists of character codes. *)

From stdpp Require Import strings.
From S2P Require Import Prelude Parser.
From stdpp Require Import options.

Local Open Scope Z_scope.

(** The characters of a literal. *)
Definition lit (s : string) : bytes := map (λ c, Z.of_N (Ascii.N_of_ascii c)) (String.list_ascii_of_string s).
Arguments lit s%_string.

(** ** Numbers *)

Definition is_digit (c : Z) : bool := (48 <=? c) && (c <=? 57).

Definition is_space (c : Z) : bool := (c =? 32) || ((9 <=? c) && (c <=? 13)).

Fixpoint digits (fuel : nat) (n : Z) : bytes :=
  match fuel with
  | O => []
  | S fuel => if n <? 10 then [48 + n] else digits fuel (n / 10) ++ [48 + n mod 10]
  end.

(** [std::to_string] of an unsigned number: 20 digits are enough for 64 bits. *)
Definition to_string (n : Z) : bytes := digits 20 n.

Fixpoint take_digits (s : bytes) : bytes :=
  match s with
  | [] => []
  | c :: s => if is_digit c then c :: take_digits s else []
  end.

Fixpoint skip_spaces (s : bytes) : bytes :=
  match s with
  | [] => []
  | c :: t => if is_space c then skip_spaces t else s
  end.

Definition digits_value (s : bytes) : Z := foldl (λ a c, 10 * a + (c - 48)) 0 s.

Definition INT_MAX : Z := 0x7fffffff.

Definition read_sign (s : bytes) : Z * bytes :=
  match s with
  | [] => (1, [])
  | c :: t => if c =? 45 then (-1, t) else if c =? 43 then (1, t) else (1, s)
  end.

(** [std::stoi] in base 10: spaces, a sign, digits; what follows is ignored. *)
Definition stoi (s : bytes) : result Z :=
  let '(sign, s) := read_sign (skip_spaces s) in
  let ds := take_digits s in
  if bool_decide (ds = []) then Throw InvalidArgument
  else
    let v := sign * digits_value ds in
    if (- INT_MAX - 1 <=? v) && (v <=? INT_MAX) then Ok v else Throw OutOfRange.

(** [inet_ntoa] of the four bytes of an address: the dotted quad. *)
Definition inet_ntoa (addr : bytes) : bytes :=
  match addr with
  | [a; b; c; d] => to_string a ++ [46] ++ to_string b ++ [46] ++ to_string c ++ [46] ++ to_string d
  | _ => []
  end.

(** ** Lemmas *)

Lemma digits_digit fuel n : 0 <= n → Forall (λ c, is_digit c = true) (digits fuel n).
Proof.
  revert n. induction fuel as [|fuel IH]; intros n Hn; cbn [digits]; [by constructor|].
  destruct (n <? 10) eqn:E.
  - apply Forall_singleton. unfold is_digit. lia.
  - apply Forall_app. split; [apply IH; mlia|]. apply Forall_singleton. unfold is_digit. mlia.
Qed.

Lemma digits_slen fuel n : slen (digits fuel n) <= Z.of_nat fuel.
Proof.
  revert n. induction fuel as [|fuel IH]; intros n; cbn [digits]; [done|].
  destruct (n <? 10); [rewrite slen_one; lia|]. rewrite slen_app, slen_one. specialize (IH (n / 10)). lia.
Qed.

Lemma to_string_slen n : 0 <= slen (to_string n) <= 20.
Proof. split; [apply slen_nonneg|apply (digits_slen 20)]. Qed.

Lemma digits_value_snoc s c : digits_value (s ++ [c]) = 10 * digits_value s + (c - 48).
Proof. unfold digits_value. by rewrite foldl_app. Qed.

Lemma digits_value_digits fuel n : 0 <= n < 10 ^ Z.of_nat fuel → digits_value (digits fuel n) = n.
Proof.
  revert n. induction fuel as [|fuel IH]; intros n Hn; cbn [digits]; [simpl in *; unfold digits_value; simpl; lia|].
  destruct (n <? 10) eqn:E; [unfold digits_value; simpl; lia|].
  rewrite digits_value_snoc, IH; [mlia|]. rewrite Nat2Z.inj_succ, Z.pow_succ_r in Hn by lia.
  split; [mlia|]. apply Z.div_lt_upper_bound; lia.
Qed.

Lemma digits_nonempty fuel n : (0 < fuel)%nat → digits fuel n ≠ [].
Proof.
  destruct fuel as [|fuel]; [lia|]. intros _. cbn [digits]. destruct (n <? 10); [done|].
  intros H%app_nil. by destruct H.
Qed.

Lemma take_digits_app s t :
  Forall (λ c, is_digit c = true) s → match t with [] => True | c :: _ => is_digit c = false end →
  take_digits (s ++ t) = s.
Proof.
  intros Hs Ht. induction Hs as [|c s Hc Hs IH]; simpl.
  - destruct t as [|c t]; simpl; [done|]. by rewrite Ht.
  - by rewrite Hc, IH.
Qed.

(** Reading a number followed by something else than a digit. *)
Lemma stoi_digits fuel n t :
  (0 < fuel)%nat → 0 <= n <= INT_MAX → n < 10 ^ Z.of_nat fuel →
  match t with [] => True | c :: _ => is_digit c = false end →
  stoi (digits fuel n ++ t) = Ok n.
Proof.
  intros Hf Hn Hp Ht. pose proof (digits_digit fuel n ltac:(lia)) as Hd.
  pose proof (digits_nonempty fuel n Hf) as Hne. pose proof (digits_value_digits fuel n ltac:(lia)) as Hv.
  unfold stoi. destruct (digits fuel n) as [|c s] eqn:E; [done|]. apply Forall_cons_1 in Hd as [Hc Hd].
  assert (skip_spaces ((c :: s) ++ t) = (c :: s) ++ t) as ->.
  { simpl. assert (is_space c = false) as ->; [|done]. unfold is_space, is_digit in *. lia. }
  assert (read_sign ((c :: s) ++ t) = (1, (c :: s) ++ t)) as ->.
  { simpl. unfold is_digit in Hc. destruct (c =? 45) eqn:?; [lia|]. destruct (c =? 43) eqn:?; [lia|done]. }
  rewrite take_digits_app by (done || by apply Forall_cons_2). rewrite bool_decide_eq_false_2 by done.
  rewrite Z.mul_1_l, Hv. destruct (_ && _) eqn:E'; [done|]. unfold INT_MAX in *. lia.
Qed.

Lemma stoi_to_string n : 0 <= n <= INT_MAX → stoi (to_string n) = Ok n.
Proof.
  intros Hn. unfold to_string. rewrite <- (app_nil_r (digits 20 n)). apply stoi_digits; [lia|done| |done].
  unfold INT_MAX in Hn. change (10 ^ Z.of_nat 20) with 100000000000000000000. lia.
Qed.
