(* ===== verification/Util.v ===== *)
(** * Helpers of libsponge/util/util.{hh,cc}

    The clock, the seeding of the random generator and the text of an
    exception.  The checksum is in Checksum, hexdump in Printing and the
    system-call wrapper in FileDescriptor.  The steady clock, the random device,
    the generator and the messages of the system are parameters. *)

From stdpp Require Import sorting strings.
From S2P Require Import Prelude StdString.
From stdpp Require Import options.

Local Open Scope Z_scope.

(** ** Timestamps *)

Section Clock.
(** A reading of the steady clock, in nanoseconds. *)
Context {K : Type} (now : K → K * Z).

(** [program_start] is the static variable, which the first call sets. *)
Definition timestamp_ms (k : K) (program_start : option Z) : K * option Z * Z :=
  let '(k, start) := match program_start with Some start => (k, start) | None => now k end in
  let '(k, t) := now k in
  (k, Some start, u64 (Z.quot (t - start) 1000000)).

(** The timestamps of [n] calls. *)
Fixpoint timestamps (n : nat) (k : K) (program_start : option Z) : list Z :=
  match n with
  | O => []
  | S n => let '(k, program_start, t) := timestamp_ms k program_start in t :: timestamps n k program_start
  end.

(** The clock is steady: [at_least] bounds every later reading from below. *)
Context (at_least : K → Z → Prop).
Hypothesis now_steady : ∀ k low k' t, at_least k low → now k = (k', t) → low <= t ∧ at_least k' t.

(** The readings stay below what 64 bits of milliseconds hold. *)
Hypothesis now_bounded : ∀ k k' t, now k = (k', t) → 0 <= t < 2 ^ 64.

(** Once the start is known, timestamps do not decrease. *)
Lemma timestamps_from n : ∀ k start low, at_least k low → 0 <= start <= low →
  Forall (λ t, (low - start) `quot` 1000000 <= t) (timestamps n k (Some start)) ∧
  StronglySorted Z.le (timestamps n k (Some start)).
Proof using Type*.
  induction n as [|n IH]; intros k start low Hl Hs; cbn [timestamps timestamp_ms]; [by split; constructor|].
  destruct (now k) as [k1 t] eqn:E. pose proof (now_steady _ _ _ _ Hl E) as [Ht Hl1]. pose proof (now_bounded _ _ _ E) as Hb.
  destruct (IH k1 start t Hl1 ltac:(lia)) as [IH1 IH2].
  rewrite u64_small by (unfold_width; split; [apply Z.quot_pos; lia|]; eapply Z.le_lt_trans; [apply Z.quot_le_upper_bound with (q := t - start); lia|lia]).
  assert ((low - start) `quot` 1000000 <= (t - start) `quot` 1000000) as Hq by (apply Z.quot_le_mono; lia).
  split; constructor; [done| |done|done].
  eapply Forall_impl; [|exact IH1]. intros x Hx. simpl in Hx. lia.
Qed.

(** The timestamps of a program never decrease, and start at the first call. *)
Theorem timestamps_sorted n k low : at_least k low → StronglySorted Z.le (timestamps n k None).
Proof using Type*.
  destruct n as [|n]; intros Hl; cbn [timestamps]; [constructor|]. unfold timestamp_ms.
  destruct (now k) as [k0 start] eqn:E0. destruct (now k0) as [k1 t] eqn:E1.
  pose proof (now_steady _ _ _ _ Hl E0) as [H0 Hl0]. pose proof (now_bounded _ _ _ E0) as Hb0.
  destruct (timestamps_from (S n) k0 start start Hl0 ltac:(lia)) as [_ H]. cbn [timestamps timestamp_ms] in H.
  rewrite E1 in *. exact H.
Qed.

End Clock.

(** ** The random generator *)

(** [mt19937::state_size] *)
Definition state_size : nat := 624.

(** The generator is seeded with as many draws of the device as it has state. *)
Definition get_random_generator {mt19937 : Type} (seeded : list Z → mt19937) (rd : nat → Z) : mt19937 :=
  seeded (map (λ i, u32 (rd i)) (seq 0 state_size)).

(** ** The text of an exception *)

Section Errors.
(** The message of a code in a category, and in the system's. *)
Context {category : Type} (message : category → Z → bytes) (system_category : category).

Definition tagged_error_what (c : category) (attempt : bytes) (error_code : Z) : bytes :=
  attempt ++ lit ": " ++ message c error_code.

Definition unix_error_what (attempt : bytes) (error : Z) : bytes := tagged_error_what system_category attempt error.

End Errors.
