(* ===== verification/Checksum.v ===== *)
(** * The Internet checksum (class [InternetChecksum] of libsponge/util/util.{hh,cc})

    The accumulator adds bytes as 16-bit big-endian words, across calls of
    [add]; [value] folds the carries and complements.  The theorems say that
    the folding loop ends after two rounds, that [value] is the complement of
    the one's complement sum of RFC 1071, and that a message that contains its
    own checksum in a 16-bit field at an even offset checks to zero. *)

From S2P Require Import Prelude Parser.
From stdpp Require Import options.

Record InternetChecksum := mkInternetChecksum { _sum : Z; _parity : bool }.

Definition InternetChecksum_new (initial_sum : Z) : InternetChecksum :=
  mkInternetChecksum initial_sum false.

Definition add_byte (c : InternetChecksum) (x : Z) : InternetChecksum :=
  let val := u8 x in
  let val := if _parity c then val else u16 (Z.shiftl val 8) in
  mkInternetChecksum (u32 (_sum c + val)) (negb (_parity c)).

Definition add (c : InternetChecksum) (data : bytes) : InternetChecksum := foldl add_byte c data.

(** The loop [while (ret > 0xffff)]; [fuel] bounds the number of rounds. *)
Fixpoint fold_loop (fuel : nat) (ret : Z) : option Z :=
  if 0xffff <? ret then
    match fuel with
    | O => None
    | S fuel => fold_loop fuel (u32 (Z.shiftr ret 16 + Z.land ret 0xffff))
    end
  else Some ret.

(** Two rounds are enough for any 32-bit sum, see [fold_loop_total]. *)
Definition value (c : InternetChecksum) : Z := u16 (Z.lnot (default 0 (fold_loop 2 (_sum c)))).

(** ** The one's complement sum *)

(** The sum of a byte string as 16-bit words; [par] is true in the middle of a word. *)
Fixpoint word_sum (par : bool) (data : bytes) : Z :=
  match data with
  | [] => 0
  | x :: data => (if par then x else x * 256) + word_sum (negb par) data
  end.

(** The representative of a sum modulo [2^16 - 1] in one's complement: zero
    only for zero. *)
Definition ones_fold (x : Z) : Z := if x =? 0 then 0 else 1 + (x - 1) mod 0xffff.

Fixpoint odd_len (data : bytes) : bool :=
  match data with [] => false | _ :: data => negb (odd_len data) end.

Lemma word_sum_app par a b :
  word_sum par (a ++ b) = word_sum par a + word_sum (xorb par (odd_len a)) b.
Proof.
  revert par. induction a as [|x a IH]; intros par; simpl; [by rewrite xorb_false_r|].
  rewrite IH, Z.add_assoc. do 2 f_equal. destruct par, (odd_len a); done.
Qed.

Lemma odd_len_app a b : odd_len (a ++ b) = xorb (odd_len a) (odd_len b).
Proof.
  induction a as [|x a IH]; simpl; [by destruct (odd_len b)|].
  rewrite IH. by destruct (odd_len a), (odd_len b).
Qed.

Lemma odd_len_even a : odd_len a = Z.odd (slen a).
Proof.
  induction a as [|x a IH]; [done|]. cbn [odd_len]. rewrite IH, slen_cons, Z.odd_add.
  by destruct (Z.odd (slen a)).
Qed.

Lemma word_sum_bound par data :
  Forall is_u8 data → 0 <= word_sum par data <= 0xff00 * slen data.
Proof.
  intros Hf. revert par. induction Hf as [|x data Hx Hf IH]; intros par; simpl; [slia|].
  specialize (IH (negb par)). rewrite slen_cons. unfold_width. destruct par; lia.
Qed.

(** Two bytes share a word: the sum is at most [0xffff] per word. *)
Lemma word_sum_bound_even data :
  Forall is_u8 data →
  0 <= word_sum false data ∧ 2 * word_sum false data <= 0xffff * (slen data + 1) ∧
  0 <= word_sum true data ∧ 2 * word_sum true data <= 0xffff * (slen data + 1).
Proof.
  intros Hf.
  enough (0 <= word_sum false data ∧ 0 <= word_sum true data ∧
    (if odd_len data
     then 2 * word_sum false data <= 0xffff * slen data + 0xfe01 ∧ 2 * word_sum true data <= 0xffff * slen data - 0xfe01
     else 2 * word_sum false data <= 0xffff * slen data ∧ 2 * word_sum true data <= 0xffff * slen data)) as H.
  { destruct (odd_len data); unfold_width; lia. }
  induction Hf as [|x data Hx Hf IH]; simpl.
  { split_and!; slia. }
  rewrite slen_cons. unfold_width. destruct IH as (H1 & H2 & IH).
  destruct (odd_len data); simpl; (split_and!; lia).
Qed.

Lemma add_spec c data :
  Forall is_u8 data → 0 <= _sum c → is_u32 (_sum c + word_sum (_parity c) data) →
  add c data = mkInternetChecksum (_sum c + word_sum (_parity c) data)
                 (xorb (_parity c) (odd_len data)).
Proof.
  intros Hf. revert c. induction Hf as [|x data Hx Hf IH]; intros [s par] Hs Hu; simpl in *.
  { by rewrite Z.add_0_r, xorb_false_r. }
  pose proof (word_sum_bound (negb par) data Hf) as Hb.
  assert (add_byte (mkInternetChecksum s par) x =
    mkInternetChecksum (s + (if par then x else x * 256)) (negb par)) as ->.
  { unfold add_byte. simpl. rewrite (u8_small x) by done. unfold_width.
    destruct par; f_equal.
    - apply Z.mod_small. lia.
    - rewrite Z.shiftl_mul_pow2 by lia. change (2 ^ 8) with 256.
      rewrite (Z.mod_small (x * 256)) by lia. apply Z.mod_small. lia. }
  rewrite IH; simpl.
  - f_equal; [lia|]. by destruct par, (odd_len data).
  - unfold_width. destruct par; lia.
  - by rewrite <- Z.add_assoc.
Qed.

(** One round of the folding loop keeps the residue modulo [2^16 - 1]. *)
Lemma fold_round x :
  is_u32 x → 0xffff < x →
  let x' := u32 (Z.shiftr x 16 + Z.land x 0xffff) in
  0 < x' ∧ x' < x ∧ x' <= 0x1fffe ∧ (x < 0x1ffff → x' <= 0xffff) ∧ ones_fold x' = ones_fold x.
Proof.
  intros Hu Hx. cbv zeta. rewrite land_0xffff, Z.shiftr_div_pow2 by lia.
  change (2 ^ 16) with 0x10000. unfold_width.
  assert (∃ q m, x = 0x10000 * q + m ∧ 0 <= m < 0x10000 ∧ x / 0x10000 = q ∧ x mod 0x10000 = m)
    as (q & m & Hq & Hm & -> & ->).
  { exists (x / 0x10000), (x mod 0x10000). split_and!; try done; try by apply Z.mod_pos_bound.
    by apply Z.div_mod. }
  rewrite Z.mod_small by lia. split_and!; try lia.
  unfold ones_fold. destruct (q + m =? 0) eqn:E1, (x =? 0) eqn:E2; try lia.
  f_equal. replace (x - 1) with (q + m - 1 + q * 0xffff) by lia. by rewrite Z.mod_add.
Qed.

Lemma ones_fold_small x : 0 <= x <= 0xffff → ones_fold x = x.
Proof. intros. unfold ones_fold. case_match; [lia|]. rewrite Z.mod_small; lia. Qed.

Lemma ones_fold_range x : 0 <= x → 0 <= ones_fold x <= 0xffff.
Proof.
  intros. unfold ones_fold. case_match; [lia|].
  pose proof (Z.mod_pos_bound (x - 1) 0xffff). lia.
Qed.

Lemma fold_loop_total x : is_u32 x → fold_loop 2 x = Some (ones_fold x).
Proof.
  intros Hu. cbn [fold_loop]. case_match eqn:E1.
  2: { rewrite ones_fold_small; [done|]. unfold_width. lia. }
  destruct (fold_round x Hu) as (H1 & H2 & H3 & H4 & <-); [lia|].
  set (x1 := u32 _) in *. case_match eqn:E2.
  2: { by rewrite ones_fold_small by lia. }
  destruct (fold_round x1) as (K1 & K2 & K3 & K4 & <-); [apply u32_range|lia|].
  set (x2 := u32 (Z.shiftr x1 16 + _)) in *. case_match eqn:E3; [lia|].
  by rewrite ones_fold_small by lia.
Qed.

(** ** Properties *)

(** The folding loop of [value] ends for every 32-bit sum, and the result is
    the 16-bit complement of the one's complement sum. *)
Theorem value_is_complement (c : InternetChecksum) :
  is_u32 (_sum c) →
  fold_loop 2 (_sum c) = Some (ones_fold (_sum c)) ∧
  value c = 0xffff - ones_fold (_sum c) ∧ is_u16 (value c).
Proof.
  intros Hu. pose proof (fold_loop_total _ Hu) as Hf.
  pose proof (ones_fold_range (_sum c)) as Hr. unfold value. rewrite Hf. simpl.
  assert (u16 (Z.lnot (ones_fold (_sum c))) = 0xffff - ones_fold (_sum c)) as ->.
  { unfold u16. rewrite <- (Z.mod_add _ 1) by lia. rewrite Z.mod_small; unfold Z.lnot; unfold_width; lia. }
  split_and!; try done; unfold_width; lia.
Qed.

Lemma value_is_complement_witness :
  fold_loop 2 0xfffeffff = Some (ones_fold 0xfffeffff) ∧
  value (mkInternetChecksum 0xfffeffff true) = 0xffff - ones_fold 0xfffeffff ∧
  is_u16 (value (mkInternetChecksum 0xfffeffff true)).
Proof. apply (value_is_complement (mkInternetChecksum 0xfffeffff true)). concrete. Defined.

Lemma value_eq c : is_u32 (_sum c) → value c = 0xffff - ones_fold (_sum c).
Proof.
  intros Hu. pose proof (ones_fold_range (_sum c)) as Hr.
  unfold value. rewrite fold_loop_total by done. simpl.
  unfold u16. rewrite <- (Z.mod_add _ 1) by lia. rewrite Z.mod_small; unfold Z.lnot; unfold_width; lia.
Qed.

Lemma value_zero c : is_u32 (_sum c) → value c = 0 ↔ ones_fold (_sum c) = 0xffff.
Proof. intros Hu. rewrite value_eq by done. lia. Qed.

(** Adding the complement of a sum to it gives a sum that folds to all ones. *)
Lemma ones_fold_complement x : 0 <= x → ones_fold (x + (0xffff - ones_fold x)) = 0xffff.
Proof.
  intros Hx. pose proof (ones_fold_range x Hx). unfold ones_fold at 1.
  case_match eqn:E.
  { unfold ones_fold in *. destruct (x =? 0) eqn:E2; lia. }
  enough ((x + (0xffff - ones_fold x) - 1) mod 0xffff = 0xfffe) by lia.
  unfold ones_fold in *. destruct (x =? 0) eqn:E2; [by assert (x = 0) as -> by lia|].
  pose proof (Z.div_mod (x - 1) 0xffff ltac:(lia)) as Hd.
  replace (x + (0xffff - (1 + (x - 1) mod 0xffff)) - 1)
    with (0xfffe + ((x - 1) / 0xffff) * 0xffff) by lia.
  by rewrite Z.mod_add.
Qed.

Lemma word_sum_be16 v : is_u16 v → word_sum false (be_bytes 2 v) = v.
Proof.
  intros Hv. rewrite be_bytes_S. change (be_bytes 1 (Z.shiftr v 8)) with [Z.land (Z.shiftr v 8) 0xff].
  simpl. rewrite !land_0xff, Z.shiftr_div_pow2 by lia. change (2 ^ 8) with 256.
  unfold_width. rewrite (Z.mod_small (v / 256)) by (Z.div_mod_to_equations; lia).
  pose proof (Z.div_mod v 256). lia.
Qed.

Lemma checksum_zero (initial : Z) (before after : bytes) :
  Forall is_u8 before → Forall is_u8 after → odd_len before = false → 0 <= initial →
  is_u32 (initial + word_sum false before + word_sum false after + 0xffff) →
  let cksum := value (add (InternetChecksum_new initial) (before ++ be_bytes 2 0 ++ after)) in
  value (add (InternetChecksum_new initial) (before ++ be_bytes 2 cksum ++ after)) = 0.
Proof.
  intros Hb Ha He Hi Hu cksum.
  pose proof (word_sum_bound false before Hb) as Hwb. pose proof (word_sum_bound false after Ha) as Hwa.
  assert (∀ v, is_u16 v → word_sum false (before ++ be_bytes 2 v ++ after) =
    word_sum false before + v + word_sum false after) as Hsum.
  { intros v Hv. rewrite !word_sum_app, He. change (odd_len (be_bytes 2 v)) with false.
    simpl xorb. rewrite word_sum_be16 by done. lia. }
  assert (∀ v, Forall is_u8 (before ++ be_bytes 2 v ++ after)) as Hf.
  { intros v. rewrite !Forall_app. split_and!; [done|apply be_bytes_range|done]. }
  assert (cksum = 0xffff - ones_fold (initial + word_sum false before + word_sum false after)) as Hc.
  { unfold cksum. rewrite add_spec; cbn [InternetChecksum_new _sum _parity]; [|apply Hf|done|];
      rewrite ?Hsum by (unfold_width; lia).
    - rewrite value_eq; cbn [_sum]; [do 2 f_equal; lia|unfold_width; lia].
    - unfold_width; lia. }
  pose proof (ones_fold_range (initial + word_sum false before + word_sum false after) ltac:(lia)) as Hr.
  assert (is_u16 cksum) as Hu16 by (rewrite Hc; unfold_width; lia).
  rewrite add_spec; cbn [InternetChecksum_new _sum _parity]; [|apply Hf|done|]; rewrite ?Hsum by done.
  - rewrite value_zero; cbn [_sum]; [|unfold_width; lia].
    replace (initial + _) with ((initial + word_sum false before + word_sum false after) + cksum) by lia.
    rewrite Hc. apply ones_fold_complement. lia.
  - unfold_width; lia.
Qed.

(** C39: a message checks.  Take a message with a 16-bit checksum field at an
    even offset, filled with the [value] computed over the message with a zero
    in the field (and with the pseudo-header sum as initial sum): the [value]
    over the whole message is then zero. *)
Theorem checksum_verifies (initial : Z) (before after : bytes) :
  Forall is_u8 before → Forall is_u8 after → odd_len before = false → 0 <= initial →
  is_u32 (initial + word_sum false before + word_sum false after + 0xffff) →
  let cksum := value (add (InternetChecksum_new initial) (before ++ be_bytes 2 0 ++ after)) in
  value (add (InternetChecksum_new initial) (before ++ be_bytes 2 cksum ++ after)) = 0.
Proof. apply checksum_zero. Qed.

Lemma checksum_verifies_witness :
  let cksum := value (add (InternetChecksum_new 7) ([0x45; 0; 0; 20] ++ be_bytes 2 0 ++ [1; 2; 3])) in
  value (add (InternetChecksum_new 7) ([0x45; 0; 0; 20] ++ be_bytes 2 cksum ++ [1; 2; 3])) = 0.
Proof.
  apply (checksum_verifies 7 [0x45; 0; 0; 20] [1; 2; 3]); try concrete; repeat constructor; concrete.
Defined.
