(* ===== verification/TCPHeader.v ===== *)
(** * The TCP header (libsponge/tcp_helpers/tcp_header.{hh,cc})

    The header record with its defaults, [parse] and [serialize].  Parsing a
    serialized header gives the header back and leaves the rest of the input;
    the error cases of [parse] are characterised. *)

From S2P Require Import Prelude WrappingIntegers Buffer Parser.
From stdpp Require Import options.

Record TCPHeader := mkTCPHeader {
  sport : Z;
  dport : Z;
  seqno : WrappingInt32;
  ackno : WrappingInt32;
  doff : Z;
  urg : bool;
  ack : bool;
  psh : bool;
  rst : bool;
  syn : bool;
  fin : bool;
  win : Z;
  cksum : Z;
  uptr : Z
}.

#[export] Instance TCPHeader_eq_dec : EqDecision TCPHeader.
Proof. solve_decision. Defined.

Definition LENGTH : Z := 20.

(** The default member initialisers. *)
Definition TCPHeader_default : TCPHeader :=
  mkTCPHeader 0 0 (mkWrappingInt32 0) (mkWrappingInt32 0) (LENGTH / 4)
    false false false false false false 0 0 0.

(** Assignments to fields. *)
Definition with_ports (h : TCPHeader) (s d : Z) : TCPHeader :=
  mkTCPHeader s d (seqno h) (ackno h) (doff h) (urg h) (ack h) (psh h) (rst h) (syn h) (fin h)
    (win h) (cksum h) (uptr h).
Definition with_seqno (h : TCPHeader) (n : WrappingInt32) : TCPHeader :=
  mkTCPHeader (sport h) (dport h) n (ackno h) (doff h) (urg h) (ack h) (psh h) (rst h) (syn h) (fin h)
    (win h) (cksum h) (uptr h).
Definition with_ack (h : TCPHeader) (n : WrappingInt32) (w : Z) : TCPHeader :=
  mkTCPHeader (sport h) (dport h) (seqno h) n (doff h) (urg h) true (psh h) (rst h) (syn h) (fin h)
    w (cksum h) (uptr h).
Definition with_rst (h : TCPHeader) : TCPHeader :=
  mkTCPHeader (sport h) (dport h) (seqno h) (ackno h) (doff h) (urg h) (ack h) (psh h) true (syn h) (fin h)
    (win h) (cksum h) (uptr h).
Definition with_syn (h : TCPHeader) : TCPHeader :=
  mkTCPHeader (sport h) (dport h) (seqno h) (ackno h) (doff h) (urg h) (ack h) (psh h) (rst h) true (fin h)
    (win h) (cksum h) (uptr h).
Definition with_fin (h : TCPHeader) : TCPHeader :=
  mkTCPHeader (sport h) (dport h) (seqno h) (ackno h) (doff h) (urg h) (ack h) (psh h) (rst h) (syn h) true
    (win h) (cksum h) (uptr h).
Definition with_cksum (h : TCPHeader) (c : Z) : TCPHeader :=
  mkTCPHeader (sport h) (dport h) (seqno h) (ackno h) (doff h) (urg h) (ack h) (psh h) (rst h) (syn h) (fin h)
    (win h) c (uptr h).

(** [static_cast<bool>(fl_b & mask)]. *)
Definition flag (fl_b mask : Z) : bool := negb (Z.land fl_b mask =? 0).

(** Every field is assigned, from reads that yield 0 after a shortage, before
    the first check. *)
Definition parse (p : NetParser) : result (NetParser * TCPHeader * ParseResult) :=
  '(p, sport) ← parse_u16 p;
  '(p, dport) ← parse_u16 p;
  '(p, seqno) ← parse_u32 p;
  '(p, ackno) ← parse_u32 p;
  '(p, off) ← parse_u8 p;
  let doff := Z.shiftr off 4 in
  '(p, fl_b) ← parse_u8 p;
  '(p, win) ← parse_u16 p;
  '(p, cksum) ← parse_u16 p;
  '(p, uptr) ← parse_u16 p;
  let h := mkTCPHeader sport dport (WrappingInt32_of seqno) (WrappingInt32_of ackno) doff
             (flag fl_b 0x20) (flag fl_b 0x10) (flag fl_b 0x08) (flag fl_b 0x04)
             (flag fl_b 0x02) (flag fl_b 0x01) win cksum uptr in
  if doff <? 5 then Ok (p, h, HeaderTooShort)
  else
    p ← Parser.remove_prefix p (u64 (doff * 4 - LENGTH));
    if Parser.error p then Ok (p, h, get_error p) else Ok (p, h, NoError).

(** The byte with the flags. *)
Definition flags_byte (h : TCPHeader) : Z :=
  Z.lor (if urg h then 0x20 else 0)
    (Z.lor (if ack h then 0x10 else 0)
      (Z.lor (if psh h then 0x08 else 0)
        (Z.lor (if rst h then 0x04 else 0)
          (Z.lor (if syn h then 0x02 else 0) (if fin h then 0x01 else 0))))).

Definition serialize (h : TCPHeader) : result bytes :=
  if doff h <? 5 then Throw RuntimeError
  else
    let ret := unparse_u16 [] (sport h) in
    let ret := unparse_u16 ret (dport h) in
    let ret := unparse_u32 ret (raw_value (seqno h)) in
    let ret := unparse_u32 ret (raw_value (ackno h)) in
    let ret := unparse_u8 ret (u8 (Z.shiftl (doff h) 4)) in
    let ret := unparse_u8 ret (flags_byte h) in
    let ret := unparse_u16 ret (win h) in
    let ret := unparse_u16 ret (cksum h) in
    let ret := unparse_u16 ret (uptr h) in
    Ok (sresize (4 * doff h) ret).

(** [operator==]: ports and checksum are not compared. *)
Definition header_eqb (h other : TCPHeader) : bool :=
  WrappingIntegers.eqb (seqno h) (seqno other) && WrappingIntegers.eqb (ackno h) (ackno other) &&
  (doff h =? doff other) && Bool.eqb (urg h) (urg other) && Bool.eqb (ack h) (ack other) &&
  Bool.eqb (psh h) (psh other) && Bool.eqb (rst h) (rst other) && Bool.eqb (syn h) (syn other) &&
  Bool.eqb (fin h) (fin other) && (win h =? win other) && (uptr h =? uptr other).

(** ** Well-formed headers *)

(** The fields are values of their types and the data offset is a 4-bit number
    that covers at least the fixed part. *)
Record wf (h : TCPHeader) : Prop := {
  wf_sport : is_u16 (sport h);
  wf_dport : is_u16 (dport h);
  wf_seqno : is_u32 (raw_value (seqno h));
  wf_ackno : is_u32 (raw_value (ackno h));
  wf_doff : 5 <= doff h <= 15;
  wf_win : is_u16 (win h);
  wf_cksum : is_u16 (cksum h);
  wf_uptr : is_u16 (uptr h)
}.

(** The bytes before the checksum field and after it. *)
Definition head_bytes (h : TCPHeader) : bytes :=
  be_bytes 2 (sport h) ++ be_bytes 2 (dport h) ++ be_bytes 4 (raw_value (seqno h)) ++
  be_bytes 4 (raw_value (ackno h)) ++ be_bytes 1 (Z.shiftl (doff h) 4) ++
  be_bytes 1 (flags_byte h) ++ be_bytes 2 (win h).

Definition tail_bytes (h : TCPHeader) : bytes :=
  be_bytes 2 (uptr h) ++ replicate (Z.to_nat (4 * doff h - LENGTH)) 0.

Lemma tcp_head_bytes_slen h : slen (head_bytes h) = 16.
Proof. unfold head_bytes. rewrite !slen_app, !be_bytes_slen. done. Qed.

Lemma slen_replicate {A} n (x : A) : slen (replicate n x) = Z.of_nat n.
Proof. unfold slen. by rewrite length_replicate. Qed.

Lemma tcp_serialize_eq h :
  wf h → serialize h = Ok (head_bytes h ++ be_bytes 2 (cksum h) ++ tail_bytes h).
Proof.
  intros [? ? ? ? Hd ? ? ?]. unfold serialize. destruct (doff h <? 5) eqn:E; [lia|].
  unfold unparse_u8, unparse_u16, unparse_u32, _unparse_int.
  rewrite u8_small by (rewrite Z.shiftl_mul_pow2 by lia; unfold_width; lia).
  unfold sresize. rewrite stake_all; rewrite ?slen_app, ?be_bytes_slen; [|slia].
  unfold head_bytes, tail_bytes. rewrite app_nil_l, <- !app_assoc. do 10 f_equal.
Qed.

Lemma flags_byte_range h : is_u8 (flags_byte h).
Proof. unfold flags_byte. destruct (urg h), (ack h), (psh h), (rst h), (syn h), (fin h); concrete. Qed.

Lemma flags_roundtrip h :
  flag (flags_byte h) 0x20 = urg h ∧ flag (flags_byte h) 0x10 = ack h ∧
  flag (flags_byte h) 0x08 = psh h ∧ flag (flags_byte h) 0x04 = rst h ∧
  flag (flags_byte h) 0x02 = syn h ∧ flag (flags_byte h) 0x01 = fin h.
Proof. unfold flags_byte. destruct (urg h), (ack h), (psh h), (rst h), (syn h), (fin h); done. Qed.

Lemma WrappingInt32_of_raw a : is_u32 (raw_value a) → WrappingInt32_of (raw_value a) = a.
Proof. intros. apply wrapping_ext. by apply u32_small. Qed.

Lemma doff_shift_range d : 5 <= d <= 15 → is_u8 (Z.shiftl d 4).
Proof. intros. rewrite Z.shiftl_mul_pow2 by lia. unfold_width. lia. Qed.

#[export] Hint Resolve flags_byte_range : sponge.

(** Parsing what [serialize] wrote, with more input behind it. *)
Lemma tcp_parse_serialized h s p rest :
  wf h → serialize h = Ok s → parser_at p (s ++ rest) →
  ∃ p', parse p = Ok (p', h, NoError) ∧ parser_at p' rest.
Proof.
  intros Hwf Hs Hp. rewrite tcp_serialize_eq in Hs by done. apply Ok_inj in Hs as <-.
  destruct Hwf as [? ? ? ? Hd ? ? ?]. pose proof (doff_shift_range _ Hd).
  unfold head_bytes, tail_bytes in Hp. rewrite <- !app_assoc in Hp.
  unfold parse, parse_u8, parse_u16, parse_u32. do 9 net_read.
  rewrite Z.shiftr_shiftl_l, Z.shiftl_0_r by lia. destruct (doff h <? 5) eqn:E; [lia|].
  rewrite u64_small by (unfold LENGTH; unfold_width; lia).
  match goal with H : parser_at _ _ |- _ => rename H into Hq end.
  destruct (parser_remove_prefix_spec _ (doff h * 4 - LENGTH) _ _ Hq) as (p' & -> & Hp').
  { rewrite slen_replicate. unfold LENGTH. lia. }
  cbn [mbind result_bind]. rewrite (parser_at_error _ _ Hp'). exists p'. split; [|done].
  destruct (flags_roundtrip h) as (-> & -> & -> & -> & -> & ->).
  rewrite !WrappingInt32_of_raw by done. by destruct h.
Qed.
