(* ===== verification/TCPSegment.v ===== *)
(** * The TCP segment (libsponge/tcp_helpers/tcp_segment.{hh,cc})

    A header and a payload buffer; [parse] with the checksum check,
    [serialize] with the checksum computation. *)

From S2P Require Import Prelude WrappingIntegers Buffer Parser Checksum TCPHeader.
From stdpp Require Import options.

Record TCPSegment := mkTCPSegment { _header : TCPHeader; _payload : Buffer }.

#[export] Instance TCPSegment_eq_dec : EqDecision TCPSegment.
Proof. solve_decision. Defined.

Definition TCPSegment_default : TCPSegment := mkTCPSegment TCPHeader_default Buffer_default.

Definition header (s : TCPSegment) : TCPHeader := _header s.

Definition payload (s : TCPSegment) : Buffer := _payload s.

Definition set_header (s : TCPSegment) (h : TCPHeader) : TCPSegment := mkTCPSegment h (_payload s).

Definition set_payload (s : TCPSegment) (b : Buffer) : TCPSegment := mkTCPSegment (_header s) b.

(** String sizes stay below [2^63], so the additions do not wrap. *)
Definition length_in_sequence_space (s : TCPSegment) : Z :=
  slen (str (payload s)) + (if syn (header s) then 1 else 0) + (if fin (header s) then 1 else 0).

(** The result of [_header.parse(p)] is not used: only the parser's own error is. *)
Definition parse (this : TCPSegment) (buffer : Buffer) (datagram_layer_checksum : Z)
    : result (TCPSegment * ParseResult) :=
  let check := Checksum.add (InternetChecksum_new datagram_layer_checksum) (str buffer) in
  if negb (value check =? 0) then Ok (this, BadChecksum)
  else
    '(p, h, _) ← TCPHeader.parse (NetParser_of buffer);
    Ok (mkTCPSegment h (Parser.buffer p), get_error p).

Definition serialize (s : TCPSegment) (datagram_layer_checksum : Z) : result (list Buffer) :=
  let header_out := with_cksum (_header s) 0 in
  h0 ← TCPHeader.serialize header_out;
  let check := InternetChecksum_new datagram_layer_checksum in
  let check := Checksum.add check h0 in
  let check := Checksum.add check (str (_payload s)) in
  let header_out := with_cksum header_out (value check) in
  h1 ← TCPHeader.serialize header_out;
  Ok (append (append [] (BufferList_of_string h1)) (BufferList_of_buffer (_payload s))).

(** ** Lemmas *)

Lemma checksum_add_app c a b : Checksum.add (Checksum.add c a) b = Checksum.add c (a ++ b).
Proof. unfold Checksum.add. by rewrite foldl_app. Qed.

Lemma tcp_with_cksum_wf h c : TCPHeader.wf h → is_u16 c → TCPHeader.wf (with_cksum h c).
Proof. intros [] ?. by split. Qed.

Lemma head_bytes_cksum h c : head_bytes (with_cksum h c) = head_bytes h.
Proof. done. Qed.

Lemma tail_bytes_cksum h c : tail_bytes (with_cksum h c) = tail_bytes h.
Proof. done. Qed.

Lemma tcp_head_bytes_range h : Forall is_u8 (head_bytes h).
Proof. unfold head_bytes. rewrite !Forall_app. split_and!; apply be_bytes_range. Qed.

Lemma tcp_tail_bytes_range h : Forall is_u8 (tail_bytes h).
Proof.
  unfold tail_bytes. rewrite Forall_app. split; [apply be_bytes_range|].
  apply Forall_replicate. concrete.
Qed.

(** The checksum that [serialize] writes. *)
Definition segment_cksum (s : TCPSegment) (ck : Z) : Z :=
  value (Checksum.add (InternetChecksum_new ck)
           (head_bytes (_header s) ++ be_bytes 2 0 ++ tail_bytes (_header s) ++ str (_payload s))).

(** The 32-bit accumulator does not overflow on the segment. *)
Definition cksum_fits (s : TCPSegment) (ck : Z) : Prop :=
  0 <= ck ∧
  is_u32 (ck + word_sum false (head_bytes (_header s)) +
          word_sum false (tail_bytes (_header s) ++ str (_payload s)) + 0xffff).

Lemma serialize_segment_eq s ck :
  TCPHeader.wf (_header s) →
  serialize s ck =
    Ok [Buffer_of (head_bytes (_header s) ++ be_bytes 2 (segment_cksum s ck) ++ tail_bytes (_header s));
        _payload s].
Proof.
  intros Hwf. unfold serialize. rewrite tcp_serialize_eq by (apply tcp_with_cksum_wf; [done|concrete]).
  cbn [mbind result_bind]. rewrite checksum_add_app. cbn [with_cksum cksum].
  rewrite <- !app_assoc, head_bytes_cksum, tail_bytes_cksum. fold (segment_cksum s ck).
  rewrite tcp_serialize_eq by (repeat apply tcp_with_cksum_wf; first [done|by apply u16_range]). done.
Qed.

(** Parsing never throws, and fewer bytes than a header are rejected. *)
Lemma header_parse_ok p n :
  parser_ok p n → ∃ p' h r, TCPHeader.parse p = Ok (p', h, r) ∧ parser_ok p' (n - 20).
Proof.
  intros Hp. unfold TCPHeader.parse, parse_u8, parse_u16, parse_u32. do 9 net_read_any.
  match goal with H : parser_ok _ ?m |- _ => replace m with (n - 20) in H by lia end.
  destruct (_ <? 5) eqn:E; [by eexists _, _, _|].
  match goal with H : parser_ok ?q _ |- context [Parser.remove_prefix ?q ?k] =>
    destruct (parser_remove_prefix_ok k q _ H) as (p' & -> & Hp') end.
  { apply u64_range. }
  cbn [mbind result_bind]. exists p'.
  assert (parser_ok p' (n - 20)) as Hok.
  { destruct Hp' as (? & ? & Hb). split_and!; try done. destruct Hb as [|Hb]; [by left|right].
    pose proof (u64_range (Z.shiftr v3 4 * 4 - LENGTH)). unfold_width. lia. }
  destruct (Parser.error p'); by eexists _, _.
Qed.

Lemma segment_parse_ok this b ck : Buffer.wf b → Forall is_u8 (str b) → ∃ s r, parse this b ck = Ok (s, r).
Proof.
  intros Hwf Hf. unfold parse. destruct (negb _); [by eexists _, _|].
  assert (parser_ok (NetParser_of b) (slen (str b))) as Hp by (split_and!; [done|done|by right]).
  destruct (header_parse_ok _ _ Hp) as (p' & h & r & -> & _). by eexists _, _.
Qed.

(** Parsing the bytes of a serialized segment. *)
Lemma segment_reparse s this ck b :
  TCPHeader.wf (_header s) → Forall is_u8 (str (_payload s)) → cksum_fits s ck → Buffer.wf b →
  str b = (head_bytes (_header s) ++ be_bytes 2 (segment_cksum s ck) ++ tail_bytes (_header s)) ++ str (_payload s) →
  ∃ s', parse this b ck = Ok (s', NoError) ∧
    header s' = with_cksum (header s) (segment_cksum s ck) ∧
    str (payload s') = str (payload s) ∧ Buffer.wf (payload s').
Proof.
  intros Hwf Hpl [Hck Hfit] Hb Hstr.
  set (c := segment_cksum s ck) in *. assert (is_u16 c) as Hc by apply u16_range.
  pose proof (tcp_with_cksum_wf _ c Hwf Hc) as Hwf'.
  pose proof (tcp_serialize_eq _ Hwf') as Hser. cbn [with_cksum cksum] in Hser.
  rewrite head_bytes_cksum, tail_bytes_cksum in Hser.
  destruct (tcp_parse_serialized _ _ (NetParser_of b) (str (_payload s)) Hwf' Hser) as (p' & Hparse & (He & Hwfb & Hs')).
  { rewrite <- Hstr. by apply parser_at_of. }
  exists (mkTCPSegment (with_cksum (_header s) c) (Parser.buffer p')). unfold parse. rewrite Hstr.
  assert (value (Checksum.add (InternetChecksum_new ck)
    ((head_bytes (_header s) ++ be_bytes 2 c ++ tail_bytes (_header s)) ++ str (_payload s))) = 0) as ->.
  { rewrite <- !app_assoc. apply checksum_zero; try done; [apply tcp_head_bytes_range|].
    rewrite Forall_app. split; [apply tcp_tail_bytes_range|done]. }
  change (negb (0 =? 0)) with false. cbv iota. rewrite Hparse. cbn [mbind result_bind].
  unfold get_error. rewrite He. split_and!; done.
Qed.

(** The ports of a parsed segment are 16-bit numbers. *)
Lemma segment_parse_ports this b ck s :
  parse this b ck = Ok (s, NoError) → is_u16 (sport (header s)) ∧ is_u16 (dport (header s)).
Proof.
  unfold parse. destruct (negb _); [done|].
  intros ([[p h] r] & Hh & [= <- _])%result_bind_ok. cbn [header _header]. unfold TCPHeader.parse, parse_u16 in Hh.
  apply result_bind_ok in Hh as ([p1 v1] & H1%parse_int_range & Hh).
  apply result_bind_ok in Hh as ([p2 v2] & H2%parse_int_range & Hh).
  do 7 (apply result_bind_ok in Hh as ([? ?] & _ & Hh)).
  assert (sport h = v1 ∧ dport h = v2) as [-> ->]; [|done].
  destruct (_ <? 5); [by injection Hh as _ <- _|].
  apply result_bind_ok in Hh as (p3 & _ & Hh). destruct (Parser.error p3); by injection Hh as _ <- _.
Qed.

(** ** Properties *)

(** C37: round trip.  Parsing a serialized segment, with the same pseudo-header
    sum, succeeds and gives back the payload and the header, with the checksum
    field filled in. *)
Theorem segment_roundtrip (s this : TCPSegment) (ck : Z) :
  TCPHeader.wf (_header s) → Forall is_u8 (str (_payload s)) → cksum_fits s ck →
  slen (str (_payload s)) < 0x100000000 →
  ∃ l s', serialize s ck = Ok l ∧
    parse this (Buffer_of (concatenate l)) ck = Ok (s', NoError) ∧
    header s' = with_cksum (header s) (segment_cksum s ck) ∧
    str (payload s') = str (payload s).
Proof.
  intros Hwf Hpl Hfit Hlen.
  set (hb := head_bytes (_header s) ++ be_bytes 2 (segment_cksum s ck) ++ tail_bytes (_header s)).
  assert (slen hb <= 60) as Hhb.
  { unfold hb, tail_bytes. rewrite !slen_app, tcp_head_bytes_slen, !be_bytes_slen, slen_replicate.
    destruct Hwf. unfold LENGTH. lia. }
  assert (concatenate [Buffer_of hb; _payload s] = hb ++ str (_payload s)) as Hcat.
  { rewrite !concatenate_cons, str_of. change (concatenate []) with (@nil Z). by rewrite app_nil_r. }
  destruct (segment_reparse s this ck (Buffer_of (hb ++ str (_payload s)))) as (s' & ? & ? & ? & _); try done.
  - apply wf_of. rewrite slen_app. slia.
  - exists [Buffer_of hb; _payload s], s'. rewrite Hcat. split_and!; [by apply serialize_segment_eq|done..].
Qed.

Definition sample_segment : TCPSegment :=
  mkTCPSegment
    (mkTCPHeader 80 4000 (mkWrappingInt32 0xfffffff0) (mkWrappingInt32 7) 6
       false true false false false true 1000 0 0)
    (Buffer_of [104; 105]).

Lemma segment_roundtrip_witness :
  ∃ l s', serialize sample_segment 0x1234 = Ok l ∧
    parse TCPSegment_default (Buffer_of (concatenate l)) 0x1234 = Ok (s', NoError) ∧
    header s' = with_cksum (header sample_segment) (segment_cksum sample_segment 0x1234) ∧
    str (payload s') = [104; 105].
Proof.
  apply (segment_roundtrip sample_segment TCPSegment_default 0x1234).
  - split; concrete.
  - repeat constructor; concrete.
  - split; concrete.
  - concrete.
Defined.

(** Parsing is total.  On every byte string [parse] returns without an
    exception, and it reports success only for a string that is at least as
    long as a header and whose checksum is correct. *)
Theorem segment_parse_total (this : TCPSegment) (b : Buffer) (ck : Z) :
  Buffer.wf b → Forall is_u8 (str b) →
  ∃ s r, parse this b ck = Ok (s, r) ∧
    (r = NoError →
     20 <= slen (str b) ∧ value (Checksum.add (InternetChecksum_new ck) (str b)) = 0).
Proof.
  intros Hwf Hf. unfold parse. destruct (value _ =? 0) eqn:E; cbn [negb].
  2: { by eexists _, _. }
  assert (parser_ok (NetParser_of b) (slen (str b))) as Hp by (split_and!; [done|done|by right]).
  destruct (header_parse_ok _ _ Hp) as (p' & h & r & -> & (_ & _ & Hb)). cbn [mbind result_bind].
  eexists _, _. split; [done|]. intros Hr. split; [|lia].
  destruct Hb as [Hb|Hb].
  - unfold Parser.error in Hb. by rewrite Hr in Hb.
  - pose proof (slen_nonneg (str (_buffer p'))). lia.
Qed.

Lemma segment_parse_total_witness :
  ∃ s r, parse TCPSegment_default (Buffer_of [1; 2; 3]) 5 = Ok (s, r) ∧
    (r = NoError → 20 <= 3 ∧ value (Checksum.add (InternetChecksum_new 5) [1; 2; 3]) = 0).
Proof.
  apply (segment_parse_total TCPSegment_default (Buffer_of [1; 2; 3]) 5).
  - concrete.
  - repeat constructor; concrete.
Defined.

(** An error of the header is lost.  [TCPHeader::parse] answers
    [HeaderTooShort] when the data offset is below five words, but [parse]
    discards that answer: a segment with such an offset and a correct checksum
    is accepted, with the bytes after the fixed header as payload. *)
Theorem short_header_accepted (this : TCPSegment) (b : Buffer) (off ck : Z) :
  Buffer.wf b → Forall is_u8 (str b) →
  20 <= slen (str b) → str b !! 12%nat = Some off → off < 0x50 →
  value (Checksum.add (InternetChecksum_new ck) (str b)) = 0 →
  ∃ p' s, TCPHeader.parse (NetParser_of b) = Ok (p', header s, HeaderTooShort) ∧
    parse this b ck = Ok (s, NoError) ∧ str (payload s) = sdrop 20 (str b).
Proof.
  intros Hwf Hf Hlen Hoff Hlt Hck.
  pose proof (parser_at_of b Hwf) as Hp. unfold parse. rewrite Hck.
  change (negb (0 =? 0)) with false. cbv iota.
  assert (∃ p' h, TCPHeader.parse (NetParser_of b) = Ok (p', h, HeaderTooShort) ∧
    parser_at p' (drop 20 (str b))) as (p' & h & -> & He & _ & Hs).
  { unfold TCPHeader.parse, parse_u8, parse_u16, parse_u32. do 9 net_read_at.
    rewrite !drop_drop in *. simpl Nat.add in *.
    rewrite (drop_S (str b) off 12 Hoff). cbn [take]. rewrite take_0.
    assert (is_u8 off) by (by eapply Forall_lookup_1).
    assert (Z.shiftr (be_combine [off]) 4 < 5) as Hd.
    { rewrite Z.shiftr_div_pow2 by lia. unfold be_combine. simpl. change (2 ^ 4) with 16. apply Z.div_lt_upper_bound; lia. }
    apply Z.ltb_lt in Hd. rewrite Hd. by eexists _, _. }
  cbn [mbind result_bind]. eexists p', (mkTCPSegment h _). split_and!; [done| |].
  - unfold get_error. by rewrite He.
  - unfold payload, buffer. simpl. rewrite Hs. by rewrite sdrop_drop by lia.
Qed.

Definition short_header_bytes : bytes :=
  [0; 80; 1; 0; 0; 0; 0; 1; 0; 0; 0; 2; 0x40; 0; 0; 9; 0x9d; 0xa3; 0; 0; 33].

Lemma short_header_accepted_witness :
  ∃ p' s, TCPHeader.parse (NetParser_of (Buffer_of short_header_bytes)) = Ok (p', header s, HeaderTooShort) ∧
    parse TCPSegment_default (Buffer_of short_header_bytes) 0 = Ok (s, NoError) ∧ str (payload s) = [33].
Proof.
  apply (short_header_accepted TCPSegment_default (Buffer_of short_header_bytes) 0x40 0).
  - concrete.
  - repeat constructor; concrete.
  - concrete.
  - concrete.
  - lia.
  - concrete.
Defined.
