(* ===== verification/StreamSegments.v ===== *)
(** * Segments and the stream they carry

    The contract between a sender and a receiver, of which each proves its
    side: the sender emits only segments that [carries] relates to its stream,
    and the receiver reassembles the stream from such segments. *)

From S2P Require Import Prelude WrappingIntegers StreamReassembler Buffer TCPHeader TCPSegment.
From stdpp Require Import options.

(** [seg] was sent for the stream [S] from the initial sequence number [isn]:
    a SYN has the number [isn] and no data; data starts at [isn + 1 + i] for
    its index [i] in [S]; FIN marks the end of [S].  Segments without data,
    such as pure acknowledgments, may have any number.  The window is a
    [uint16_t]. *)
Definition carries (S : bytes) (isn : WrappingInt32) (seg : TCPSegment) : Prop :=
  (syn (header seg) = true →
     seqno (header seg) = isn ∧ str (payload seg) = [] ∧ fin (header seg) = false) ∧
  (syn (header seg) = false →
     (str (payload seg) = [] ∧ fin (header seg) = false) ∨
     ∃ i, 0 <= i ∧ seqno (header seg) = wrap (1 + i) isn ∧
       consistent S (Push (str (payload seg)) i (fin (header seg)))) ∧
  is_u16 (win (header seg)).

(** Numbers relative to [isn + 1] are stream indices. *)
Lemma wrap_succ i isn : wrap (1 + i) isn = wrap i (WrappingInt32_of (u32 (raw_value isn + 1))).
Proof.
  apply wrapping_ext. rewrite !wrap_raw. simpl. rewrite u32_u32, u32_add_l. f_equal. lia.
Qed.

Lemma wrap_of_raw i isn : WrappingInt32_of (raw_value (wrap i isn)) = wrap i isn.
Proof. apply wrapping_ext. simpl. rewrite !u32_u32. done. Qed.

Lemma wrap_inj_near i j isn :
  0 <= i < 0x80000000 → 0 <= j < 0x80000000 → wrap (1 + i) isn = wrap (1 + j) isn → i = j.
Proof.
  intros Hi Hj H. rewrite !wrap_succ in H.
  rewrite <- (unwrap_near i (WrappingInt32_of (u32 (raw_value isn + 1))) 0), H, unwrap_near;
    unfold_width; lia.
Qed.
