(* ===== verification/TCPReceiver.v ===== *)
(** * The TCP receiver (libsponge/tcp_receiver.{hh,cc})

    The receiver decodes sequence numbers, hands payloads to the reassembler
    and computes the acknowledgment number and the window.  The theorems take
    segments that carry excerpts of a stream [S], sent from an initial sequence
    number [isn], and relate the receiver to [S]. *)

From S2P Require Import Prelude WrappingIntegers ByteStream StreamReassembler.
From S2P Require Import Buffer TCPHeader TCPSegment StreamSegments.
From stdpp Require Import options.

(** ** Data *)

Record TCPReceiver := mkTCPReceiver {
  _reassembler : StreamReassembler;
  _capacity : Z;
  _syn_recv : bool;
  _isn : Z;
  _ack_bytes : Z
}.

Definition TCPReceiver_new (capacity : Z) : TCPReceiver :=
  mkTCPReceiver (StreamReassembler_new capacity) capacity false 0 0.

Definition set_reassembler (t : TCPReceiver) (r : StreamReassembler) : TCPReceiver :=
  mkTCPReceiver r (_capacity t) (_syn_recv t) (_isn t) (_ack_bytes t).

(** ** Methods *)

Definition stream_out (t : TCPReceiver) : ByteStream := StreamReassembler.stream_out (_reassembler t).

Definition unassembled_bytes (t : TCPReceiver) : Z :=
  StreamReassembler.unassembled_bytes (_reassembler t).

(** The increments are those of a [uint32_t]. *)
Definition ackno (t : TCPReceiver) : option WrappingInt32 :=
  if negb (_syn_recv t) then None
  else
    let ack_bytes := u32 (bytes_written (stream_out t)) in
    let ack_bytes := if _syn_recv t then u32 (ack_bytes + 1) else ack_bytes in
    let ack_bytes := if input_ended (stream_out t) then u32 (ack_bytes + 1) else ack_bytes in
    Some (WrappingInt32_of (u32 (_isn t + ack_bytes))).

Definition window_size (t : TCPReceiver) : Z := u64 (_capacity t - buffer_size (stream_out t)).

Section Receive.
Context (rend_index : list ByteString → option Z).

Definition segment_received (t : TCPReceiver) (seg : TCPSegment) : result TCPReceiver :=
  let h := header seg in
  let seqno := raw_value (TCPHeader.seqno h) in
  if negb (_syn_recv t) && negb (syn h) then Ok t
  else
    let '(t, seqno) :=
      if negb (_syn_recv t)
      then (mkTCPReceiver (_reassembler t) (_capacity t) true seqno (_ack_bytes t), u32 (seqno + 1))
      else (t, seqno) in
    let reassembler_relative_index := seqno in
    let unwrapped_index :=
      unwrap (WrappingInt32_of reassembler_relative_index) (WrappingInt32_of (u32 (_isn t + 1)))
        (bytes_written (stream_out t)) in
    r ← push_substring rend_index (_reassembler t) (copy (payload seg)) unwrapped_index (fin h);
    Ok (set_reassembler t r).

(** Reading [len] bytes from [stream_out()], as the owner of the receiver does. *)
Definition read_stream (t : TCPReceiver) (len : Z) : result (TCPReceiver * bytes) :=
  '(r, out) ← read_out (_reassembler t) len; Ok (set_reassembler t r, out).

End Receive.

(** ** The receiver and a stream *)

(** The receiver's invariant for the stream [S] and the peer's [isn]. *)
Record rinv (S : bytes) (isn : WrappingInt32) (t : TCPReceiver) : Prop := {
  rinv_r : inv S (_reassembler t);
  rinv_cap : StreamReassembler._capacity (_reassembler t) = _capacity t;
  rinv_isn : _syn_recv t = true → _isn t = raw_value isn
}.

Lemma push_empty rend r idx : push_substring rend r [] idx false = Ok r.
Proof.
  unfold push_substring. cbn [mbind result_bind]. rewrite slen_nil. simpl.
  by rewrite orb_true_r.
Qed.

Lemma segment_received_data rend t seg isn i :
  _syn_recv t = true → _isn t = raw_value isn → seqno (header seg) = wrap (1 + i) isn →
  is_u64 i → is_u64 (bytes_written (stream_out t)) →
  Z.abs (i - bytes_written (stream_out t)) < 0x80000000 →
  segment_received rend t seg =
    (r ← push_substring rend (_reassembler t) (str (payload seg)) i (fin (header seg));
     Ok (set_reassembler t r)).
Proof.
  intros Hsyn Hisn Hseq Hi Hbw Hd. unfold segment_received. rewrite Hsyn. cbn [negb andb].
  by rewrite Hseq, Hisn, wrap_of_raw, wrap_succ, unwrap_near.
Qed.

(** The state after a segment without data. *)
Definition note_syn (t : TCPReceiver) (seg : TCPSegment) : TCPReceiver :=
  if negb (_syn_recv t) && syn (header seg)
  then mkTCPReceiver (_reassembler t) (_capacity t) true (raw_value (seqno (header seg))) (_ack_bytes t)
  else t.

Lemma segment_received_empty rend t seg :
  str (payload seg) = [] → fin (header seg) = false →
  segment_received rend t seg = Ok (note_syn t seg).
Proof.
  intros Hp Hf. unfold segment_received, note_syn, copy. rewrite Hp, Hf.
  destruct t as [r c [] n a]; simpl; [by rewrite push_empty|].
  destruct (syn (header seg)); [|done]. simpl. by rewrite push_empty.
Qed.

Section Theory.
Context (rend_index : list ByteString → option Z) (S : bytes) (isn : WrappingInt32).
Context (Hisn : wf_WrappingInt32 isn).

Lemma bytes_written_index t : rinv S isn t →
  bytes_written (stream_out t) = _index (_reassembler t) ∧ 0 <= _index (_reassembler t) <= slen S ∧
  is_u64 (slen S).
Proof using Type.
  intros [(Hb & [[Hc Hl] Hcap Hw Hi _] & _) _ _]. split; [done|].
  pose proof (slen_nonneg (ByteStream._buffer (_output (_reassembler t)))).
  rewrite Hcap in *. unfold_width. lia.
Qed.

(** The number acknowledged and the window, in terms of the stream. *)
Lemma ackno_eq t :
  rinv S isn t → _syn_recv t = true →
  ackno t = Some (wrap (1 + _index (_reassembler t) + (if input_ended (stream_out t) then 1 else 0)) isn).
Proof using Type.
  intros Ht Hsyn. destruct (bytes_written_index t Ht) as (Hw & _).
  unfold ackno. rewrite Hsyn, Hw, (rinv_isn _ _ _ Ht Hsyn). cbn [negb]. f_equal. apply wrapping_ext.
  rewrite wrap_raw. cbn [raw_value WrappingInt32_of].
  destruct (input_ended _); u32_norm; f_equal; lia.
Qed.

Lemma window_size_eq t :
  rinv S isn t → window_size t = window_end (_reassembler t) - _index (_reassembler t).
Proof using Type.
  intros [(Hb & [[Hc Hl] Hc' _ _ _] & _) Hcap _]. unfold window_size, window_end. rewrite <- Hcap.
  unfold stream_out, StreamReassembler.stream_out. rewrite u64_small; [lia|].
  unfold buffer_size. rewrite Hc' in *. unfold_width. slia.
Qed.

(** A segment that carries an excerpt of [S] becomes a push of this excerpt. *)
Lemma segment_received_spec t seg :
  rinv S isn t → carries S isn seg → slen S < 0x80000000 →
  (∃ i, _syn_recv t = true ∧ syn (header seg) = false ∧ seqno (header seg) = wrap (1 + i) isn ∧
     consistent S (Push (str (payload seg)) i (fin (header seg))) ∧
     segment_received rend_index t seg =
       (r ← push_substring rend_index (_reassembler t) (str (payload seg)) i (fin (header seg));
        Ok (set_reassembler t r))) ∨
  (∃ t', segment_received rend_index t seg = Ok t' ∧ rinv S isn t' ∧
     _reassembler t' = _reassembler t ∧
     (_syn_recv t = true → _syn_recv t' = true ∧ str (payload seg) = [] ∧ fin (header seg) = false)).
Proof using Hisn.
  intros Ht (Hsyn & Hdata & _) HS. destruct (bytes_written_index t Ht) as (Hw & Hi & Hu).
  assert (str (payload seg) = [] → fin (header seg) = false →
    (syn (header seg) = true → seqno (header seg) = isn) →
    rinv S isn (note_syn t seg) ∧ _reassembler (note_syn t seg) = _reassembler t ∧
    (_syn_recv t = true → _syn_recv (note_syn t seg) = true ∧ str (payload seg) = [] ∧ fin (header seg) = false)) as Hnote.
  { intros Hp Hf Hs. unfold note_syn. destruct (_ && _) eqn:E; [|by split_and!].
    apply andb_prop in E as [_ E]. destruct Ht. split; [|by split_and!].
    split; simpl; [done|done|]. intros _. by rewrite Hs. }
  destruct (syn (header seg)) eqn:Esyn.
  { destruct (Hsyn eq_refl) as (Hs & Hp & Hf). right. exists (note_syn t seg).
    rewrite segment_received_empty by done. split; [done|]. by apply Hnote. }
  destruct (Hdata eq_refl) as [[Hp Hf]|(i & Hi0 & Hseq & Hc)].
  { right. exists (note_syn t seg). rewrite segment_received_empty by done. split; [done|]. by apply Hnote. }
  destruct (_syn_recv t) eqn:Et.
  2: { right. exists t. unfold segment_received. rewrite Et, Esyn. by split_and!. }
  left. exists i. do 4 (split; [done|]). assert (i <= slen S) by (destruct Hc; slia).
  apply (segment_received_data _ _ _ isn); rewrite ?Hw; [done|by apply Ht|done| | |]; unfold_width; lia.
Qed.

End Theory.

(** ** Runs: segments arrive and the application reads *)

Inductive rop :=
| Segment (seg : TCPSegment)
| ReadOut (len : Z).

Definition rop_ok (S : bytes) (isn : WrappingInt32) (o : rop) : Prop :=
  match o with Segment seg => carries S isn seg | ReadOut len => 0 <= len end.

Definition rstep (rend_index : list ByteString → option Z) (t : TCPReceiver) (o : rop)
    : result (TCPReceiver * bytes) :=
  match o with
  | Segment seg => t' ← segment_received rend_index t seg; Ok (t', [])
  | ReadOut len => read_stream t len
  end.

Fixpoint rrun (rend_index : list ByteString → option Z) (t : TCPReceiver) (ops : list rop)
    : result (TCPReceiver * bytes) :=
  match ops with
  | [] => Ok (t, [])
  | o :: ops =>
      '(t1, out1) ← rstep rend_index t o; '(t2, out2) ← rrun rend_index t1 ops; Ok (t2, out1 ++ out2)
  end.

(** The bytes of [S] that an operation brings. *)
Definition brings (S : bytes) (isn : WrappingInt32) (o : rop) (i : Z) : Prop :=
  match o with
  | Segment seg =>
      syn (header seg) = false ∧
      ∃ j, 0 <= j ∧ j + slen (str (payload seg)) <= slen S ∧ seqno (header seg) = wrap (1 + j) isn ∧
        j <= i < j + slen (str (payload seg))
  | ReadOut _ => False
  end.

(** Does the operation bring a FIN? *)
Definition brings_fin (o : rop) : bool :=
  match o with Segment seg => fin (header seg) | ReadOut _ => false end.

Section Simulation.
Context (rend_index : list ByteString → option Z) (S : bytes) (isn : WrappingInt32).
Context (Hisn : wf_WrappingInt32 isn).
Context (HS : slen S < 0x80000000).

(** What operations of the receiver do is what pushes and reads of the
    reassembler do, which push exactly what the segments bring. *)
Definition simulates (t : TCPReceiver) (brought : Z → Prop) (quiet : Prop) (x : TCPReceiver * bytes) : Prop :=
  let '(t', out) := x in
  rinv S isn t' ∧
  ∃ ops', Forall (consistent S) ops' ∧ run rend_index (_reassembler t) ops' = Ok (_reassembler t', out) ∧
    (∀ i, Exists (λ o, pushes o i) ops' → brought i) ∧
    (quiet → Forall (λ o, ends o = false) ops') ∧
    (_syn_recv t = true → _syn_recv t' = true ∧ ∀ i, brought i → Exists (λ o, pushes o i) ops').

(** One operation is at most one of the reassembler. *)
Lemma rstep_one t o' :
  rinv S isn t → consistent S o' →
  or_undefined (step rend_index (_reassembler t) o') (λ '(r', out),
    run rend_index (_reassembler t) [o'] = Ok (r', out) ∧ rinv S isn (set_reassembler t r')).
Proof using Type.
  intros Ht Hc. pose proof (reassembler_step_any rend_index S (_reassembler t) o' (rinv_r _ _ _ Ht) Hc) as Hs.
  cbn [run]. destruct (step rend_index (_reassembler t) o') as [[r' out]|]; [|done].
  cbn [mbind result_bind]. rewrite app_nil_r. split; [done|]. destruct Hs as (Hinv & Hcap & _).
  destruct Ht. split; simpl; [done|congruence|done].
Qed.

Lemma rstep_sim t o :
  rinv S isn t → rop_ok S isn o →
  or_undefined (rstep rend_index t o) (simulates t (brings S isn o) (brings_fin o = false)).
Proof using Hisn HS.
  intros Ht Ho. destruct o as [seg|len]; cbn [rstep brings_fin].
  2: { pose proof (rstep_one t (Read len) Ht Ho) as Hs. cbn [step] in Hs. unfold read_stream.
    destruct (read_out _ len) as [[r' out]|]; [|done]. destruct Hs as [Hr Hinv].
    split; [done|]. exists [Read len]. split; [by apply Forall_singleton|]. split; [done|].
    split; [intros i Hi; by apply Exists_cons in Hi as [?|?%Exists_nil]|]. split; [by repeat constructor|].
    intros ?. by split; [|intros i []]. }
  destruct (segment_received_spec rend_index S isn Hisn t seg Ht Ho HS)
    as [(i & Hsyn & Hns & Hseq & Hc & ->)|(t' & -> & Hinv & Hr & Hs)].
  - pose proof (rstep_one t _ Ht Hc) as Hs. cbn [step] in Hs.
    destruct (push_substring _ _ _ _ _) as [r1|]; [|done]. destruct Hs as [Hr Hinv]. split; [done|].
    eexists [_]. split; [by apply Forall_singleton|]. split; [exact Hr|]. destruct Hc as (_ & Hi & Hi' & _). split_and!.
    + intros k Hk. apply Exists_cons in Hk as [Hk|?%Exists_nil]; [|done]. split; [done|]. by exists i.
    + intros Hf. by repeat constructor.
    + intros _. split; [done|]. intros k (_ & j & Hj & Hlen & Hseq' & Hk). apply Exists_cons. left. simpl. rewrite Hseq in Hseq'.
      by rewrite (wrap_inj_near i j isn) by (try done; slia).
  - split; [done|]. exists []. rewrite Hr. split; [done|]. split; [done|].
    split; [by intros i ?%Exists_nil|]. split; [done|]. intros Hsyn. destruct (Hs Hsyn) as (? & He & _).
    split; [done|]. intros k (_ & j & _ & _ & _ & Hk). rewrite He, slen_nil in Hk. lia.
Qed.

(** There is no undefined read unless a FIN arrives while substrings wait. *)
Lemma rstep_defined t o :
  rinv S isn t → rop_ok S isn o →
  (brings_fin o = true → _unassembled_bytes (_reassembler t) = []) → ∃ t' out, rstep rend_index t o = Ok (t', out).
Proof using Hisn HS.
  intros Ht Ho Hf. destruct o as [seg|len]; cbn [rstep].
  - destruct (segment_received_spec rend_index S isn Hisn t seg Ht Ho HS)
      as [(i & _ & _ & _ & (Hag & Hi & Hlen & _) & ->)|(t' & -> & _)]; [|by eexists _, _].
    destruct (push_substring_spec S rend_index (_reassembler t) _ i (fin (header seg)) (rinv_r _ _ _ Ht) Hag Hi Hlen Hf)
      as (r & -> & _). by eexists _, _.
  - destruct (read_out_spec S (_reassembler t) len (rinv_r _ _ _ Ht) Ho) as (r' & out & Hr & _).
    unfold read_stream. rewrite Hr. by eexists _, _.
Qed.

Lemma run_app r a b r1 o1 r2 o2 :
  run rend_index r a = Ok (r1, o1) → run rend_index r1 b = Ok (r2, o2) →
  run rend_index r (a ++ b) = Ok (r2, o1 ++ o2).
Proof using Type.
  revert r o1. induction a as [|o a IH]; intros r o1 Ha Hb; cbn [run app] in *.
  { apply Ok_inj in Ha as [= -> <-]. by rewrite Hb. }
  destruct (step rend_index r o) as [[r' o']|]; [|done]. cbn [mbind result_bind] in *.
  destruct (run rend_index r' a) as [[r'' o'']|] eqn:E; [|done]. cbn [mbind result_bind] in *.
  apply Ok_inj in Ha as [= -> <-]. erewrite IH by done. cbn [mbind result_bind]. by rewrite app_assoc.
Qed.

Lemma simulates_trans t P p Q q t1 out1 t2 out2 :
  simulates t P p (t1, out1) → simulates t1 Q q (t2, out2) →
  simulates t (λ i, P i ∨ Q i) (p ∧ q) (t2, out1 ++ out2).
Proof using Type.
  intros (_ & p1 & Hc1 & Hr1 & Hp1 & Hq1 & Hb1) (Ht2 & p2 & Hc2 & Hr2 & Hp2 & Hq2 & Hb2).
  split; [done|]. exists (p1 ++ p2). split; [by apply Forall_app|]. split; [by eapply run_app|]. split_and!.
  - intros i [?|?]%Exists_app; auto.
  - intros [??]. apply Forall_app. auto.
  - intros Hsyn. destruct (Hb1 Hsyn) as [Hsyn1 Hi1]. destruct (Hb2 Hsyn1) as [Hsyn2 Hi2].
    split; [done|]. intros i. rewrite Exists_app. intros [?|?]; auto.
Qed.

Lemma simulates_impl t (P Q : Z → Prop) (p q : Prop) x :
  (∀ i, P i ↔ Q i) → (q → p) → simulates t P p x → simulates t Q q x.
Proof using Type.
  destruct x as [t' out]. intros HPQ Hqp (Ht & ops & Hc & Hr & Hp & Hq & Hb). split; [done|]. exists ops. split_and!; auto.
  - intros i Hi. by apply HPQ, Hp.
  - intros Hsyn. destruct (Hb Hsyn) as [? Hi]. split; [done|]. intros i ?%HPQ. auto.
Qed.

Lemma rrun_sim ops : ∀ t,
  rinv S isn t → Forall (rop_ok S isn) ops →
  or_undefined (rrun rend_index t ops)
    (simulates t (λ i, Exists (λ o, brings S isn o i) ops) (Forall (λ o, brings_fin o = false) ops)).
Proof using Hisn HS.
  induction ops as [|o ops IH]; intros t Ht Hops; cbn [rrun].
  { split; [done|]. exists []. split_and!; [done|done|by intros i ?%Exists_nil|done|].
    intros ?. split; [done|]. by intros i ?%Exists_nil. }
  apply Forall_cons_1 in Hops as [Ho Hops].
  eapply or_undefined_bind; [by apply rstep_sim|]. intros [t1 o1] H1.
  eapply or_undefined_bind; [apply (IH t1); [apply H1|done]|]. intros [t2 o2] H2.
  eapply simulates_impl; [| |exact (simulates_trans _ _ _ _ _ _ _ _ _ H1 H2)].
  - intros i. by rewrite Exists_cons.
  - by intros [??]%Forall_cons_1.
Qed.

(** One step keeps the invariant and hands over the next bytes of [S]. *)
Lemma rstep_spec t o :
  rinv S isn t → rop_ok S isn o →
  or_undefined (rstep rend_index t o) (λ '(t', out), rinv S isn t' ∧
    start (_reassembler t') = start (_reassembler t) + slen out ∧ agree S (start (_reassembler t)) out).
Proof using Hisn HS.
  intros Ht Ho. eapply or_undefined_impl; [by apply rstep_sim|]. intros [t' out] (Ht' & ops' & Hc & Hr & _).
  destruct (or_undefined_ok _ _ _ (run_any rend_index S ops' _ (rinv_r _ _ _ Ht) Hc) Hr) as (_ & _ & ? & ? & _). done.
Qed.

(** Until a FIN arrives every operation returns. *)
Lemma rrun_defined ops : ∀ t,
  rinv S isn t → Forall (rop_ok S isn) ops → Forall (λ o, brings_fin o = false) ops →
  ∃ t' out, rrun rend_index t ops = Ok (t', out).
Proof using Hisn HS.
  induction ops as [|o ops IH]; intros t Ht Hops Hq; cbn [rrun]; [by eexists _, _|].
  apply Forall_cons_1 in Hops as [Ho Hops]. apply Forall_cons_1 in Hq as [Hqo Hq].
  destruct (rstep_defined t o Ht Ho) as (t1 & out1 & Hs); [congruence|].
  destruct (or_undefined_ok _ _ _ (rstep_spec t o Ht Ho) Hs) as [Ht1 _].
  destruct (IH t1 Ht1 Hops Hq) as (t2 & out2 & Hr). rewrite Hs. cbn [mbind result_bind]. rewrite Hr. by eexists _, _.
Qed.

End Simulation.

Lemma rinv_new S isn capacity :
  is_u64 capacity → is_u64 (slen S + capacity + 1) → rinv S isn (TCPReceiver_new capacity).
Proof. intros. split; simpl; [by apply inv_new|done|done]. Qed.

(** ** Properties *)

(** Sequence numbers are decoded.  After the SYN, a segment whose sequence
    number stands for the stream index [i] is pushed at exactly [i], for
    streams of any length, while [i] is within [2^31] of what was received. *)
Theorem segment_decoded (rend_index : list ByteString → option Z) (t : TCPReceiver) (seg : TCPSegment)
    (isn : WrappingInt32) (i : Z) :
  _syn_recv t = true → _isn t = raw_value isn → seqno (header seg) = wrap (1 + i) isn →
  is_u64 i → is_u64 (bytes_written (stream_out t)) →
  Z.abs (i - bytes_written (stream_out t)) < 0x80000000 →
  segment_received rend_index t seg =
    (r ← push_substring rend_index (_reassembler t) (str (payload seg)) i (fin (header seg));
     Ok (set_reassembler t r)).
Proof. apply segment_received_data. Qed.

Definition wrapped_segment : TCPSegment :=
  mkTCPSegment (with_seqno TCPHeader_default (mkWrappingInt32 1)) (Buffer_of [7]).

Lemma segment_decoded_witness :
  segment_received libstdcxx_rend_index
    (mkTCPReceiver (StreamReassembler_new 8) 8 true 0xffffffff 0) wrapped_segment =
  (r ← push_substring libstdcxx_rend_index (StreamReassembler_new 8) [7] 1 false;
   Ok (mkTCPReceiver r 8 true 0xffffffff 0)).
Proof.
  apply (segment_decoded libstdcxx_rend_index
           (mkTCPReceiver (StreamReassembler_new 8) 8 true 0xffffffff 0) wrapped_segment
           (mkWrappingInt32 0xffffffff) 1); concrete.
Defined.

(** The operations of [rrun] in two parts. *)
Lemma rrun_app rend ops1 ops2 : ∀ t,
  rrun rend t (ops1 ++ ops2) =
    ('(t1, out1) ← rrun rend t ops1; '(t2, out2) ← rrun rend t1 ops2; Ok (t2, out1 ++ out2)).
Proof.
  induction ops1 as [|o ops1 IH]; intros t; cbn [rrun app mbind result_bind].
  { by destruct (rrun rend t ops2) as [[t2 out2]|]. }
  destruct (rstep rend t o) as [[t1 out1]|]; [|done]. cbn [mbind result_bind]. rewrite IH.
  destruct (rrun rend t1 ops1) as [[t2 out2]|]; [|done]. cbn [mbind result_bind].
  destruct (rrun rend t2 ops2) as [[t3 out3]|]; [|done]. cbn [mbind result_bind]. by rewrite app_assoc.
Qed.

(** The receiver after the SYN. *)
Lemma first_received rend S isn capacity first :
  is_u64 capacity → is_u64 (slen S + capacity + 1) → carries S isn first → syn (header first) = true →
  let t1 := note_syn (TCPReceiver_new capacity) first in
  rstep rend (TCPReceiver_new capacity) (Segment first) = Ok (t1, []) ∧ rinv S isn t1 ∧ _syn_recv t1 = true ∧
  _capacity t1 = capacity ∧ _reassembler t1 = StreamReassembler_new capacity.
Proof.
  intros Hc Hu (Hsyn & _) Hs t1. destruct (Hsyn Hs) as (Hseq & Hp & Hf). cbn [rstep].
  rewrite segment_received_empty by done. unfold t1, note_syn. rewrite Hs. cbn [negb andb TCPReceiver_new].
  split_and!; try done. split; simpl; [by apply inv_new|done|]. intros _. by rewrite Hseq.
Qed.

(** After the SYN and any operations. *)
Lemma rrun_synced rend S isn capacity first ops :
  wf_WrappingInt32 isn → is_u64 capacity → is_u64 (slen S + capacity + 1) →
  slen S < 0x80000000 → carries S isn first → syn (header first) = true → Forall (rop_ok S isn) ops →
  or_undefined (rrun rend (TCPReceiver_new capacity) (Segment first :: ops)) (λ '(t', out),
    rinv S isn t' ∧ _syn_recv t' = true ∧ start (_reassembler t') = slen out ∧ agree S 0 out ∧
    _capacity t' = capacity ∧
    (slen S <= capacity → ∀ i, have (_reassembler t') i → Exists (λ o, brings S isn o i) ops) ∧
    (slen S <= capacity → Forall (λ o, brings_fin o = false) ops →
     open_ended (_reassembler t') ∧ ∀ i, have (_reassembler t') i ↔ Exists (λ o, brings S isn o i) ops)).
Proof.
  intros Hisn Hc Hu HS Hfirst Hsyn Hops. cbn [rrun].
  destruct (first_received rend S isn capacity first Hc Hu Hfirst Hsyn) as (-> & Ht1 & Hs1 & Hc1 & Hr1).
  cbn [mbind result_bind]. set (t1 := note_syn _ _) in *.
  eapply or_undefined_bind; [by apply (rrun_sim rend S isn Hisn HS ops t1)|].
  intros [t' out] (Ht' & ops' & Hcons & Hrun & Hp & Hq & Hb). rewrite Hr1 in Hrun.
  pose proof (inv_new S capacity Hc Hu) as Hnew.
  destruct (or_undefined_ok _ _ _ (run_any rend S ops' _ Hnew Hcons) Hrun) as (_ & Hcap & Hst & Hag & Hh).
  destruct (Hb Hs1) as [Hs' Hb']. assert (in_window (StreamReassembler_new capacity)) as Hin0
    by (intros i Hi; by apply covered_nil in Hi).
  assert (∀ i, ¬ have (StreamReassembler_new capacity) i) as Hnone
    by (intros i [?|?%covered_nil]; [simpl in *; lia|done]).
  simpl. split_and!; try done.
  - rewrite <- (rinv_cap _ _ _ Ht'). exact Hcap.
  - intros Hroom i Hi. destruct (Hh Hroom Hin0) as [_ Hh']. destruct (Hh' i Hi) as [?|?]; [by destruct (Hnone i)|auto].
  - intros Hroom Hquiet. specialize (Hq Hquiet). split; [by eapply (run_open_ended rend S)|].
    destruct (run_have rend S ops' _ Hnew Hin0 Hroom Hcons Hq) as (r2 & out2 & Hr2 & _ & Hh2).
    rewrite Hrun in Hr2. injection Hr2 as <- <-. intros i. rewrite Hh2. split.
    + intros [?|?]; [by destruct (Hnone i)|auto].
    + right. by apply Hb'.
Qed.

(** C6: safety of the receiver.  For a stream [S] shorter than [2^31], whatever
    segments of [S] arrive, in whatever order and however often, and whatever
    the application reads in between, no call throws: unless a FIN arrives
    while substrings are waiting and the undefined read that this causes stops
    the program, every call returns, and what the application has got followed
    by what is buffered for it is a prefix of [S].  This holds whatever the
    undefined read yields; without a FIN there is none. *)
Theorem receiver_delivers_prefix (rend_index : list ByteString → option Z) (S : bytes)
    (isn : WrappingInt32) (capacity : Z) (ops : list rop) :
  wf_WrappingInt32 isn → is_u64 capacity → is_u64 (slen S + capacity + 1) →
  slen S < 0x80000000 → Forall (rop_ok S isn) ops →
  or_undefined (rrun rend_index (TCPReceiver_new capacity) ops) (λ '(t', out),
    out ++ ByteStream._buffer (stream_out t') = stake (bytes_written (stream_out t')) S ∧
    ∀ o, rop_ok S isn o → (brings_fin o = true → _unassembled_bytes (_reassembler t') = []) →
      ∃ t'' out', rstep rend_index t' o = Ok (t'', out')) ∧
  (Forall (λ o, brings_fin o = false) ops → is_ok (rrun rend_index (TCPReceiver_new capacity) ops)).
Proof.
  intros Hisn Hc Hu HS Hops. pose proof (rinv_new S isn capacity Hc Hu) as Hnew. split.
  - eapply or_undefined_impl; [by apply (rrun_sim rend_index S isn Hisn HS)|].
    intros [t' out] (Ht' & ops' & Hops' & Hrun & _). split; [|intros; by apply (rstep_defined rend_index S isn)].
    destruct (or_undefined_ok _ _ _ (run_any rend_index S ops' _ (inv_new S capacity Hc Hu) Hops') Hrun)
      as (Hinv & _ & Hst & Hag & _).
    destruct (bytes_written_index S isn t' Ht') as (-> & _). by apply delivered_prefix.
  - intros Hq. destruct (rrun_defined rend_index S isn Hisn HS ops _ Hnew Hops Hq) as (t' & out & Hr). by exists (t', out).
Qed.

Definition syn_segment (isn : WrappingInt32) : TCPSegment :=
  mkTCPSegment (with_syn (with_seqno TCPHeader_default isn)) (Buffer_of []).

Definition data_segment (isn : WrappingInt32) (i : Z) (data : bytes) (last : bool) : TCPSegment :=
  let h := with_seqno TCPHeader_default (wrap (1 + i) isn) in
  mkTCPSegment (if last then with_fin h else h) (Buffer_of data).

Lemma syn_segment_carries S isn : carries S isn (syn_segment isn).
Proof. split_and!; [by intros _|done|done]. Qed.

Lemma data_segment_carries S isn i data last :
  consistent S (Push data i last) → carries S isn (data_segment isn i data last).
Proof.
  intros Hc. split_and!; [by destruct last| |by destruct last]. intros _. right. exists i. split; [apply Hc|]. split; [by destruct last|].
  unfold payload. cbn [_payload data_segment]. rewrite str_of. by destruct last.
Qed.

Definition wrapping_isn : WrappingInt32 := mkWrappingInt32 0xfffffffe.
Definition received_segments : list rop :=
  [Segment (data_segment wrapping_isn 0 [10; 11] false);
   Segment (syn_segment wrapping_isn);
   Segment (data_segment wrapping_isn 1 [11; 12] true);
   Segment (data_segment wrapping_isn 0 [10; 11] false); ReadOut 2].

Lemma receiver_delivers_prefix_witness :
  ∃ t', rrun libstdcxx_rend_index (TCPReceiver_new 4) received_segments = Ok (t', [10; 11]) ∧
    [10; 11] ++ ByteStream._buffer (stream_out t') = stake (bytes_written (stream_out t')) [10; 11; 12].
Proof.
  destruct (receiver_delivers_prefix libstdcxx_rend_index [10; 11; 12] wrapping_isn 4 received_segments) as [H _];
    [concrete|concrete|concrete|concrete| |].
  - repeat apply Forall_cons_2; [| | | |done|by apply Forall_nil].
    + apply data_segment_carries. split; [by apply agree_compute|concrete].
    + apply syn_segment_carries.
    + apply data_segment_carries. split; [by apply agree_compute|concrete].
    + apply data_segment_carries. split; [by apply agree_compute|concrete].
  - assert (∃ t', rrun libstdcxx_rend_index (TCPReceiver_new 4) received_segments = Ok (t', [10; 11])) as (t' & Hr)
      by (eexists; vm_compute; reflexivity).
    exists t'. split; [exact Hr|]. rewrite Hr in H. apply H.
Defined.

(** C7: completeness of the receiver.  The stream [S] is shorter than [2^31] and
    the capacity has room for all of it.  After the SYN, any sequence of
    segments without FIN that brings every byte of [S] at least once, in
    whatever order and with reads in between, followed by a segment with the
    FIN: every call returns, the application has got [S], or finds the rest of
    it in its buffer, the stream has ended, and all of it, with the SYN and the
    FIN, is acknowledged. *)
Theorem receiver_complete (rend_index : list ByteString → option Z) (S : bytes) (isn : WrappingInt32)
    (capacity : Z) (first last : TCPSegment) (ops : list rop) :
  wf_WrappingInt32 isn → is_u64 (slen S + capacity + 1) → slen S <= capacity → slen S < 0x80000000 →
  carries S isn first → syn (header first) = true →
  Forall (rop_ok S isn) ops → Forall (λ o, brings_fin o = false) ops →
  (∀ i, 0 <= i < slen S → Exists (λ o, brings S isn o i) ops) →
  carries S isn last → fin (header last) = true →
  ∃ t' out, rrun rend_index (TCPReceiver_new capacity) (Segment first :: ops ++ [Segment last]) = Ok (t', out) ∧
    out ++ ByteStream._buffer (stream_out t') = S ∧ input_ended (stream_out t') = true ∧
    ackno t' = Some (wrap (slen S + 2) isn).
Proof.
  intros Hisn Hu Hcap HS Hfirst Hsyn Hops Hq Hall Hlast Hfin.
  assert (is_u64 capacity) as Hc by (pose proof (slen_nonneg S); unfold_width; lia).
  pose proof (rrun_synced rend_index S isn capacity first ops Hisn Hc Hu HS Hfirst Hsyn Hops) as Hsim.
  assert (∃ t1 out, rrun rend_index (TCPReceiver_new capacity) (Segment first :: ops) = Ok (t1, out)) as (t1 & out & Hr).
  { cbn [rrun]. destruct (first_received rend_index S isn capacity first Hc Hu Hfirst Hsyn) as (-> & Ht1 & _).
    destruct (rrun_defined rend_index S isn Hisn HS ops _ Ht1 Hops Hq) as (t1 & out & Hr). cbn [mbind result_bind].
    rewrite Hr. by eexists _, _. }
  destruct (or_undefined_ok _ _ _ Hsim Hr) as (Ht1 & Hs1 & Hst & Hag & Hc1 & _ & Hh). destruct (Hh Hcap Hq) as [_ Hhave].
  pose proof (rinv_r _ _ _ Ht1) as Hinv.
  assert (∀ i, 0 <= i < slen S → have (_reassembler t1) i) as Hhas by (intros i Hi; by apply Hhave, Hall).
  pose proof (delivered_all S _ out Hinv Hst Hag Hhas) as Hd. pose proof (assembled_all S _ Hinv Hhas) as Hi.
  change (Segment first :: ops ++ [Segment last]) with ((Segment first :: ops) ++ [Segment last]).
  rewrite rrun_app, Hr. cbn [mbind result_bind rrun rstep].
  destruct (segment_received_spec rend_index S isn Hisn t1 last Ht1 Hlast HS)
    as [(i & _ & _ & _ & Hcons & ->)|(t' & Heq & _ & Hre & Hss)].
  - rewrite Hfin in *. destruct (push_end rend_index S _ _ _ Hinv Hi Hcons) as [-> Hended]. cbn [mbind result_bind].
    eexists _, _. split; [done|]. rewrite !app_nil_r.
    assert (rinv S isn (set_reassembler t1 (with_eof (_reassembler t1) (slen S) []))) as Ht2.
    { destruct Ht1. split; simpl; [by apply with_eof_inv|done|done]. }
    split_and!; [|done|].
    + unfold stream_out, StreamReassembler.stream_out. cbn [set_reassembler _reassembler]. by rewrite with_eof_buffer.
    + rewrite (ackno_eq S isn _ Ht2) by done. unfold stream_out. cbn [set_reassembler _reassembler].
      unfold StreamReassembler.stream_out. rewrite Hended. cbn [with_eof _index]. rewrite Hi. do 2 f_equal. lia.
  - destruct (Hss Hs1) as (_ & _ & ?). congruence.
Qed.

Lemma receiver_complete_witness :
  ∃ t' out, rrun libstdcxx_rend_index (TCPReceiver_new 4)
      [Segment (syn_segment wrapping_isn);
       Segment (data_segment wrapping_isn 1 [11; 12] false); ReadOut 9;
       Segment (data_segment wrapping_isn 0 [10; 11] false);
       Segment (data_segment wrapping_isn 2 [12] true)] = Ok (t', out) ∧
    out ++ ByteStream._buffer (stream_out t') = [10; 11; 12] ∧ input_ended (stream_out t') = true ∧
    ackno t' = Some (wrap 5 wrapping_isn).
Proof.
  apply (receiver_complete libstdcxx_rend_index [10; 11; 12] wrapping_isn 4 (syn_segment wrapping_isn)
    (data_segment wrapping_isn 2 [12] true)
    [Segment (data_segment wrapping_isn 1 [11; 12] false); ReadOut 9;
     Segment (data_segment wrapping_isn 0 [10; 11] false)]);
    [concrete|concrete|concrete|concrete|apply syn_segment_carries|done| |by repeat constructor| | |done].
  - repeat apply Forall_cons_2; [|done| |by apply Forall_nil].
    + apply data_segment_carries. split; [by apply agree_compute|concrete].
    + apply data_segment_carries. split; [by apply agree_compute|concrete].
  - intros i Hi. destruct (decide (1 <= i)) as [H|H].
    + apply Exists_cons. left. split; [done|]. exists 1.
      split; [concrete|]. split; [concrete|]. split; [concrete|]. change (1 <= i < 3).
      change (0 <= i < 3) in Hi. lia.
    + do 2 (apply Exists_cons; right). apply Exists_cons. left. split; [done|]. exists 0.
      split; [concrete|]. split; [concrete|]. split; [concrete|]. change (0 <= i < 2). lia.
  - apply data_segment_carries. split; [by apply agree_compute|concrete].
Defined.

(** Nothing is acknowledged before the SYN. *)
Definition brings_syn (o : rop) : bool :=
  match o with Segment seg => syn (header seg) | ReadOut _ => false end.

Lemma rrun_unsynced rend ops : ∀ t t' out,
  Forall (λ o, brings_syn o = false) ops → _syn_recv t = false → rrun rend t ops = Ok (t', out) →
  _syn_recv t' = false.
Proof.
  induction ops as [|o ops IH]; intros t t' out Hops Ht; cbn [rrun]; [by intros [= <- <-]|].
  apply Forall_cons_1 in Hops as [Ho Hops].
  intros ([t1 out1] & H1 & ([t2 out2] & H2 & [= <- <-])%result_bind_ok)%result_bind_ok.
  apply (IH t1 t2 out2); [done| |done]. destruct o as [seg|len]; cbn [rstep brings_syn] in *.
  - unfold segment_received in H1. rewrite Ht, Ho in H1. by injection H1 as <- _.
  - unfold read_stream in H1. by apply result_bind_ok in H1 as ([r o] & _ & [= <- _]).
Qed.

(** C26: what is acknowledged.  Segments of a stream shorter than [2^31] arrive,
    in any order and number, at a receiver with room for the whole stream.
    Before a SYN there is no acknowledgment number.  After it, and unless an
    undefined read stops the program, the number stands for an index [k] of the
    stream such that every byte before [k] was brought by some segment (for one
    more, once the stream has been taken for ended); the window is the capacity
    less what the application has not read.  As long as no FIN has arrived every
    call returns, and [k] is the first byte that no segment has brought. *)
Theorem ackno_first_missing (rend_index : list ByteString → option Z) (S : bytes) (isn : WrappingInt32)
    (capacity : Z) (before : list rop) (first : TCPSegment) (ops : list rop) :
  wf_WrappingInt32 isn → is_u64 (slen S + capacity + 1) → slen S <= capacity → slen S < 0x80000000 →
  Forall (λ o, brings_syn o = false) before →
  carries S isn first → syn (header first) = true → Forall (rop_ok S isn) ops →
  (∀ t out, rrun rend_index (TCPReceiver_new capacity) before = Ok (t, out) → ackno t = None) ∧
  or_undefined (rrun rend_index (TCPReceiver_new capacity) (Segment first :: ops)) (λ '(t, out),
    let k := bytes_written (stream_out t) in
    ackno t = Some (wrap (1 + k + (if input_ended (stream_out t) then 1 else 0)) isn) ∧
    window_size t = capacity - (k - slen out) ∧
    (∀ i, 0 <= i < k → Exists (λ o, brings S isn o i) ops) ∧
    (Forall (λ o, brings_fin o = false) ops →
     input_ended (stream_out t) = false ∧ ¬ Exists (λ o, brings S isn o k) ops)) ∧
  (Forall (λ o, brings_fin o = false) ops →
   is_ok (rrun rend_index (TCPReceiver_new capacity) (Segment first :: ops))).
Proof.
  intros Hisn Hu Hcap HS Hbefore Hfirst Hsyn Hops.
  assert (is_u64 capacity) as Hc by (pose proof (slen_nonneg S); unfold_width; lia). split_and!.
  - intros t out Hr. unfold ackno. by rewrite (rrun_unsynced rend_index before (TCPReceiver_new capacity) t out Hbefore eq_refl Hr).
  - eapply or_undefined_impl; [by apply (rrun_synced rend_index S isn capacity first ops)|].
    intros [t out] (Ht & Hs & Hst & _ & Hct & Hsound & Hexact).
    destruct (bytes_written_index S isn t Ht) as (Hw & _). rewrite Hw. cbn zeta. split_and!.
    + by apply (ackno_eq S).
    + rewrite (window_size_eq S isn t Ht), start_window, Hst, (rinv_cap _ _ _ Ht), Hct. lia.
    + intros i Hi. apply Hsound; [done|]. by left.
    + intros Hq. destruct (Hexact Hcap Hq) as [[_ He] Hh]. split; [done|]. rewrite <- Hh. apply (next_missing S), Ht.
  - intros Hq. cbn [rrun].
    destruct (first_received rend_index S isn capacity first Hc Hu Hfirst Hsyn) as (-> & Ht1 & _).
    destruct (rrun_defined rend_index S isn Hisn HS ops _ Ht1 Hops Hq) as (t1 & out & Hr). cbn [mbind result_bind].
    rewrite Hr. by eexists.
Qed.

Lemma ackno_first_missing_witness :
  ∃ t, rrun libstdcxx_rend_index (TCPReceiver_new 8)
      [Segment (syn_segment wrapping_isn); Segment (data_segment wrapping_isn 2 [12] false);
       Segment (data_segment wrapping_isn 0 [10] false)] = Ok (t, []) ∧
    ackno t = Some (wrap 2 wrapping_isn) ∧ window_size t = 7.
Proof.
  set (ops := [Segment (data_segment wrapping_isn 2 [12] false); Segment (data_segment wrapping_isn 0 [10] false)]).
  destruct (ackno_first_missing libstdcxx_rend_index [10; 11; 12] wrapping_isn 8 [] (syn_segment wrapping_isn) ops)
    as (_ & H & _); [concrete|concrete|concrete|concrete|by constructor|apply syn_segment_carries|done| |].
  - repeat apply Forall_cons_2; [| |by apply Forall_nil].
    + apply data_segment_carries. split; [by apply agree_compute|concrete].
    + apply data_segment_carries. split; [by apply agree_compute|concrete].
  - assert (∃ t, rrun libstdcxx_rend_index (TCPReceiver_new 8) (Segment (syn_segment wrapping_isn) :: ops) = Ok (t, []) ∧
      bytes_written (stream_out t) = 1 ∧ input_ended (stream_out t) = false) as (t & Hr & Hk & He)
      by (eexists; split; [vm_compute; reflexivity|by split]).
    exists t. split; [exact Hr|]. rewrite Hr in H. destruct H as (Ha & Hw & _). rewrite Hk, ?He in *. by split.
Defined.

(** A byte that never arrived is acknowledged.  When a FIN without data
    arrives before the last byte of the stream, the stream ends without this
    byte and the acknowledgment number covers it. *)
Theorem fin_acks_missing_byte (rend_index : list ByteString → option Z) (isn : WrappingInt32)
    (t : TCPReceiver) (seg : TCPSegment) :
  let k := bytes_written (stream_out t) in
  _syn_recv t = true → _isn t = raw_value isn →
  _index (_reassembler t) = k → is_u64 k → is_u64 (k + 1) →
  StreamReassembler._unassembled_bytes (_reassembler t) = [] →
  seqno (header seg) = wrap (1 + (k + 1)) isn → str (payload seg) = [] → fin (header seg) = true →
  ∃ t', segment_received rend_index t seg = Ok t' ∧
    input_ended (stream_out t') = true ∧ bytes_written (stream_out t') = k ∧
    ackno t' = Some (wrap (1 + (k + 1)) isn).
Proof.
  intros k Hsyn Hisn Hk Hu Hu1 Hl Hseq Hp Hf.
  rewrite (segment_received_data _ t seg isn (k + 1)) by (try done; fold k; lia).
  rewrite Hp, Hf, <- Hk, push_last_early by (by rewrite ?Hk). cbn [mbind result_bind].
  eexists. split; [done|]. split_and!; [done|done|].
  unfold ackno. cbn. rewrite Hsyn, Hisn. cbn [negb]. f_equal. apply wrapping_ext.
  rewrite wrap_raw. cbn [raw_value WrappingInt32_of].
  change (ByteStream._bytes_written _) with k.
  u32_norm. f_equal. lia.
Qed.

Lemma fin_acks_missing_byte_witness :
  ∃ t', segment_received libstdcxx_rend_index (mkTCPReceiver (StreamReassembler_new 8) 8 true 7 0)
          (data_segment (mkWrappingInt32 7) 1 [] true) = Ok t' ∧
    input_ended (stream_out t') = true ∧ bytes_written (stream_out t') = 0 ∧
    ackno t' = Some (wrap 2 (mkWrappingInt32 7)).
Proof.
  apply (fin_acks_missing_byte libstdcxx_rend_index (mkWrappingInt32 7)
           (mkTCPReceiver (StreamReassembler_new 8) 8 true 7 0)); concrete.
Defined.
