(* ===== verification/TCPConfig.v ===== *)
(** * The TCP configuration (libsponge/tcp_helpers/tcp_config.hh) *)

From S2P Require Import Prelude WrappingIntegers.
From stdpp Require Import options.

Definition DEFAULT_CAPACITY : Z := 64000.
Definition MAX_PAYLOAD_SIZE : Z := 1452.
Definition TIMEOUT_DFLT : Z := 1000.
Definition MAX_RETX_ATTEMPTS : Z := 8.

Record TCPConfig := mkTCPConfig {
  rt_timeout : Z;
  recv_capacity : Z;
  send_capacity : Z;
  fixed_isn : option WrappingInt32
}.

Definition TCPConfig_default : TCPConfig :=
  mkTCPConfig TIMEOUT_DFLT DEFAULT_CAPACITY DEFAULT_CAPACITY None.

(** Assignments to the members. *)
Definition with_rt_timeout (c : TCPConfig) (t : Z) : TCPConfig :=
  mkTCPConfig t (recv_capacity c) (send_capacity c) (fixed_isn c).
Definition with_recv_capacity (c : TCPConfig) (n : Z) : TCPConfig :=
  mkTCPConfig (rt_timeout c) n (send_capacity c) (fixed_isn c).
