(* ===== verification/TCPSender.v ===== *)
(** * The TCP sender (libsponge/tcp_sender.{hh,cc})

    The sender cuts the outbound stream into segments, keeps those that are not
    acknowledged, and retransmits the oldest one when its timer expires.  The
    theorems are about every state that a program using the sender can reach
    while it writes a stream [S]. *)

From S2P Require Import Prelude WrappingIntegers ByteStream StreamReassembler Buffer TCPHeader.
From S2P Require Import TCPSegment TCPConfig StreamSegments.
From stdpp Require Import options.

(** ** Data *)

Record TCPSender := mkTCPSender {
  _isn : WrappingInt32;
  _segments_out : list TCPSegment;
  _outstanding_segments : list TCPSegment;
  _initial_retransmission_timeout : Z;
  _retransmission_timeout : Z;
  _stream : ByteStream;
  _next_seqno : Z;
  _window_size : Z;
  _retransmission_timer_on : bool;
  _retransmission_timer : Z;
  _consecutive_retransmissions : Z;
  _highest_ackno : Z;
  _highest_ackno_right : Z;
  _fin_sent : bool;
  _window_empty : bool
}.

(** Assignments to the members. *)
Definition set_segments_out (s : TCPSender) (q : list TCPSegment) : TCPSender :=
  mkTCPSender (_isn s) q (_outstanding_segments s) (_initial_retransmission_timeout s)
    (_retransmission_timeout s) (_stream s) (_next_seqno s) (_window_size s)
    (_retransmission_timer_on s) (_retransmission_timer s) (_consecutive_retransmissions s)
    (_highest_ackno s) (_highest_ackno_right s) (_fin_sent s) (_window_empty s).

Definition set_outstanding (s : TCPSender) (l : list TCPSegment) : TCPSender :=
  mkTCPSender (_isn s) (_segments_out s) l (_initial_retransmission_timeout s)
    (_retransmission_timeout s) (_stream s) (_next_seqno s) (_window_size s)
    (_retransmission_timer_on s) (_retransmission_timer s) (_consecutive_retransmissions s)
    (_highest_ackno s) (_highest_ackno_right s) (_fin_sent s) (_window_empty s).

Definition set_stream (s : TCPSender) (b : ByteStream) : TCPSender :=
  mkTCPSender (_isn s) (_segments_out s) (_outstanding_segments s) (_initial_retransmission_timeout s)
    (_retransmission_timeout s) b (_next_seqno s) (_window_size s)
    (_retransmission_timer_on s) (_retransmission_timer s) (_consecutive_retransmissions s)
    (_highest_ackno s) (_highest_ackno_right s) (_fin_sent s) (_window_empty s).

Definition set_next_seqno (s : TCPSender) (n : Z) : TCPSender :=
  mkTCPSender (_isn s) (_segments_out s) (_outstanding_segments s) (_initial_retransmission_timeout s)
    (_retransmission_timeout s) (_stream s) n (_window_size s)
    (_retransmission_timer_on s) (_retransmission_timer s) (_consecutive_retransmissions s)
    (_highest_ackno s) (_highest_ackno_right s) (_fin_sent s) (_window_empty s).

Definition set_window (s : TCPSender) (w : Z) (empty : bool) : TCPSender :=
  mkTCPSender (_isn s) (_segments_out s) (_outstanding_segments s) (_initial_retransmission_timeout s)
    (_retransmission_timeout s) (_stream s) (_next_seqno s) w
    (_retransmission_timer_on s) (_retransmission_timer s) (_consecutive_retransmissions s)
    (_highest_ackno s) (_highest_ackno_right s) (_fin_sent s) empty.

Definition set_timer (s : TCPSender) (on : bool) (t : Z) : TCPSender :=
  mkTCPSender (_isn s) (_segments_out s) (_outstanding_segments s) (_initial_retransmission_timeout s)
    (_retransmission_timeout s) (_stream s) (_next_seqno s) (_window_size s)
    on t (_consecutive_retransmissions s)
    (_highest_ackno s) (_highest_ackno_right s) (_fin_sent s) (_window_empty s).

Definition set_backoff (s : TCPSender) (timeout consecutive : Z) : TCPSender :=
  mkTCPSender (_isn s) (_segments_out s) (_outstanding_segments s) (_initial_retransmission_timeout s)
    timeout (_stream s) (_next_seqno s) (_window_size s)
    (_retransmission_timer_on s) (_retransmission_timer s) consecutive
    (_highest_ackno s) (_highest_ackno_right s) (_fin_sent s) (_window_empty s).

Definition set_highest (s : TCPSender) (left right : Z) : TCPSender :=
  mkTCPSender (_isn s) (_segments_out s) (_outstanding_segments s) (_initial_retransmission_timeout s)
    (_retransmission_timeout s) (_stream s) (_next_seqno s) (_window_size s)
    (_retransmission_timer_on s) (_retransmission_timer s) (_consecutive_retransmissions s)
    left right (_fin_sent s) (_window_empty s).

Definition set_fin_sent (s : TCPSender) : TCPSender :=
  mkTCPSender (_isn s) (_segments_out s) (_outstanding_segments s) (_initial_retransmission_timeout s)
    (_retransmission_timeout s) (_stream s) (_next_seqno s) (_window_size s)
    (_retransmission_timer_on s) (_retransmission_timer s) (_consecutive_retransmissions s)
    (_highest_ackno s) (_highest_ackno_right s) true (_window_empty s).

(** ** Methods *)

(** [random] is what [random_device()()] yields. *)
Definition TCPSender_new (capacity retx_timeout : Z) (fixed_isn : option WrappingInt32) (random : Z)
    : TCPSender :=
  mkTCPSender (default (WrappingInt32_of random) fixed_isn) [] [] retx_timeout retx_timeout
    (ByteStream_new capacity) 0 1 false 0 0 (-1) (-1) false false.

Definition stream_in (s : TCPSender) : ByteStream := _stream s.

Definition segments_out (s : TCPSender) : list TCPSegment := _segments_out s.

Definition next_seqno_absolute (s : TCPSender) : Z := _next_seqno s.

Definition next_seqno (s : TCPSender) : WrappingInt32 := wrap (_next_seqno s) (_isn s).

Definition consecutive_retransmissions (s : TCPSender) : Z := _consecutive_retransmissions s.

Definition bytes_in_flight (s : TCPSender) : Z :=
  foldl (λ bytes seg, u64 (bytes + length_in_sequence_space seg)) 0 (_outstanding_segments s).

(** The loop that looks for the place of a segment in the sorted list. *)
Fixpoint insert_outstanding (segment : TCPSegment) (l : list TCPSegment) : list TCPSegment :=
  match l with
  | [] => [segment]
  | it :: rest =>
      if raw_value (seqno (header segment)) <? raw_value (seqno (header it)) then segment :: l
      else it :: insert_outstanding segment rest
  end.

Definition send_segment (s : TCPSender) (segment : TCPSegment) : TCPSender :=
  let length := u16 (length_in_sequence_space segment) in
  if length =? 0 then s
  else
    let s := set_segments_out s (_segments_out s ++ [segment]) in
    let s := set_window s (if _window_size s <? length then 0 else _window_size s - length)
               (_window_empty s) in
    let s := if negb (_retransmission_timer_on s) then set_timer s true 0 else s in
    set_outstanding s (insert_outstanding segment (_outstanding_segments s)).

Definition send_new_segment (s : TCPSender) (segment : TCPSegment) : TCPSender :=
  let segment := set_header segment (with_seqno (header segment) (next_seqno s)) in
  let s := set_next_seqno s (u64 (_next_seqno s + length_in_sequence_space segment)) in
  send_segment s segment.

Definition syn_segment : TCPSegment := set_header TCPSegment_default (with_syn TCPHeader_default).

Definition fin_segment : TCPSegment := set_header TCPSegment_default (with_fin TCPHeader_default).

(** The body of the loop of [fill_window]. *)
Definition fill_once (s : TCPSender) : result TCPSender :=
  let bytes_to_read :=
    u16 (if _window_size s <? MAX_PAYLOAD_SIZE then _window_size s else MAX_PAYLOAD_SIZE) in
  '(b, data) ← ByteStream.read (_stream s) bytes_to_read;
  let s := set_stream s b in
  let segment := set_payload TCPSegment_default (Buffer_of data) in
  let '(s, segment) :=
    if eof (_stream s) && negb (_fin_sent s) && (size (payload segment) <? _window_size s)
    then (set_fin_sent s, set_header segment (with_fin (header segment)))
    else (s, segment) in
  Ok (send_new_segment s segment).

Fixpoint fill_loop (fuel : nat) (s : TCPSender) : result TCPSender :=
  if (0 <? _window_size s) && negb (buffer_empty (_stream s)) then
    match fuel with
    | O => Throw OutOfFuel
    | S fuel => s ← fill_once s; fill_loop fuel s
    end
  else Ok s.

(** Every round reads at least one byte, so the size of the buffer is enough fuel. *)
Definition fill_window (s : TCPSender) : result TCPSender :=
  let s := if _next_seqno s =? 0 then send_new_segment s syn_segment else s in
  if _window_size s =? 0 then Ok s
  else
    s ← fill_loop (length (ByteStream._buffer (_stream s))) s;
    Ok (if eof (_stream s) && negb (_fin_sent s) && (0 <? _window_size s)
        then send_new_segment (set_fin_sent s) fin_segment else s).

Section AckReceived.
(** The code reads [iter->header()] before it compares [iter] with the end of the
    list.  C++ leaves this read undefined when [iter] is the end: [end_header l]
    is the header that it yields when the list is [l], or [None] if the program
    does not go on.  Nothing is known about it. *)
Context (end_header : list TCPSegment → option TCPHeader).

(** [iter->header()], where the list is [l] and [rest] is what remains from
    [iter] on. *)
Definition header_at (l rest : list TCPSegment) : result TCPHeader :=
  match rest with
  | [] => undefined_read (end_header l)
  | it :: _ => Ok (header it)
  end.

(** The loop that removes acknowledged segments; the list starts with [iter]. *)
Fixpoint remove_acked (ackno_val : Z) (iter_header : TCPHeader) (l : list TCPSegment)
    : result (list TCPSegment) :=
  match l with
  | [] => Ok []
  | it :: rest =>
      if u64 (raw_value (seqno iter_header) + length_in_sequence_space it - 1) <? ackno_val
      then
        iter_header ← header_at l rest;
        remove_acked ackno_val iter_header rest
      else Ok l
  end.

(** What an acceptable acknowledgment changes between the loop and
    [fill_window]. *)
Definition ack_window (s : TCPSender) (ackno_val window_size : Z) : TCPSender :=
  let ackno_right := u32 (ackno_val + window_size) in
  let s :=
    if window_size =? 0 then set_window s 1 true
    else if _highest_ackno_right s <? ackno_right
    then set_window (set_highest s (_highest_ackno s) ackno_right) window_size false
    else s in
  if _highest_ackno s <? ackno_val then
    let s := set_backoff s (_initial_retransmission_timeout s) 0 in
    let s := set_timer s (match _outstanding_segments s with [] => false | _ => true end) 0 in
    set_highest s ackno_val (_highest_ackno_right s)
  else s.

Definition ack_received (s : TCPSender) (ackno : WrappingInt32) (window_size : Z) : result TCPSender :=
  let ackno_val := raw_value ackno in
  let next_seqno_val := raw_value (next_seqno s) in
  if (next_seqno_val <? ackno_val) || (ackno_val <? _highest_ackno s) then Ok s
  else
    let l := _outstanding_segments s in
    iter_header ← header_at l l;
    l ← remove_acked ackno_val iter_header l;
    fill_window (ack_window (set_outstanding s l) ackno_val window_size).

End AckReceived.

Definition tick (s : TCPSender) (ms_since_last_tick : Z) : TCPSender :=
  if negb (_retransmission_timer_on s) || (MAX_RETX_ATTEMPTS <? _consecutive_retransmissions s) then s
  else
    let s := set_timer s true (u32 (_retransmission_timer s + ms_since_last_tick)) in
    match _outstanding_segments s with
    | [] => s
    | segment :: _ =>
        if _retransmission_timeout s <=? _retransmission_timer s then
          let s := set_segments_out s (_segments_out s ++ [segment]) in
          let s := set_timer s true 0 in
          if negb (_window_empty s)
          then set_backoff s (u64 (_retransmission_timeout s * 2)) (u32 (_consecutive_retransmissions s + 1))
          else s
        else s
    end.

Definition send_empty_segment (s : TCPSender) : TCPSender :=
  let segment := set_header TCPSegment_default (with_seqno TCPHeader_default (next_seqno s)) in
  let segment := set_payload segment (Buffer_of []) in
  set_segments_out s (_segments_out s ++ [segment]).

(** ** The sender and a stream *)

(** A segment that an adapter can put on the wire as it stands: its fields fit,
    it has no options, and its payload is at most the maximum. *)
Definition sendable (seg : TCPSegment) : Prop :=
  TCPHeader.wf (header seg) ∧ doff (header seg) = 5 ∧ slen (str (payload seg)) <= MAX_PAYLOAD_SIZE.

Definition emits (S : bytes) (isn : WrappingInt32) (seg : TCPSegment) : Prop :=
  carries S isn seg ∧ sendable seg.

Lemma emits_carries S isn l : Forall (emits S isn) l → Forall (carries S isn) l.
Proof. apply Forall_impl. by intros seg [? _]. Qed.

(** The sender's invariant while the application writes [S]: the bytes read
    from the stream and those in it are the beginning of [S], the next
    sequence number counts SYN, the bytes read and FIN, and every segment,
    queued or outstanding, carries [S] and is fit to be sent. *)
Record sbase (S : bytes) (s : TCPSender) : Prop := {
  si_isn : wf_WrappingInt32 (_isn s);
  si_size : slen S + 2 < 0x10000000000000000;
  si_wf : ByteStream.wf (_stream s);
  si_read : 0 <= bytes_read (_stream s);
  si_count : bytes_written (_stream s) = bytes_read (_stream s) + slen (ByteStream._buffer (_stream s));
  si_bound : bytes_written (_stream s) <= slen S;
  si_agree : agree S (bytes_read (_stream s)) (ByteStream._buffer (_stream s));
  si_eof : input_ended (_stream s) = true → bytes_written (_stream s) = slen S;
  si_fin : _fin_sent s = true → eof (_stream s) = true;
  si_window : is_u16 (_window_size s);
  si_out : Forall (emits S (_isn s)) (_segments_out s);
  si_outstanding : Forall (emits S (_isn s)) (_outstanding_segments s)
}.

Definition sinv (S : bytes) (s : TCPSender) : Prop :=
  sbase S s ∧
  ((_next_seqno s = 0 ∧ bytes_read (_stream s) = 0 ∧ _fin_sent s = false) ∨
   _next_seqno s = 1 + bytes_read (_stream s) + (if _fin_sent s then 1 else 0)).

Lemma insert_outstanding_forall (P : TCPSegment → Prop) seg l :
  P seg → Forall P l → Forall P (insert_outstanding seg l).
Proof.
  intros Hseg Hl. induction Hl as [|it l Hit Hl IH]; simpl; [by repeat constructor|].
  case_match; by repeat constructor.
Qed.

Lemma elem_of_insert_outstanding x seg l : x ∈ insert_outstanding seg l ↔ x = seg ∨ x ∈ l.
Proof.
  induction l as [|it l IH]; simpl; [by rewrite list_elem_of_singleton, elem_of_nil; tauto|].
  case_match; rewrite !elem_of_cons; [done|]. rewrite IH. tauto.
Qed.

Lemma insert_outstanding_nonempty seg l : insert_outstanding seg l ≠ [].
Proof. destruct l; simpl; [done|]. by case_match. Qed.

(** The segments that an acknowledgment does not cover. *)
Fixpoint unacked (ackno_val : Z) (l : list TCPSegment) : list TCPSegment :=
  match l with
  | [] => []
  | it :: rest =>
      if u64 (raw_value (seqno (header it)) + length_in_sequence_space it - 1) <? ackno_val
      then unacked ackno_val rest
      else l
  end.

Lemma unacked_suffix a l : ∃ pre, l = pre ++ unacked a l.
Proof.
  induction l as [|it l [pre IH]]; simpl; [by exists []|]. case_match.
  - exists (it :: pre). simpl. by f_equal.
  - by exists [].
Qed.

Lemma unacked_forall (P : TCPSegment → Prop) a l : Forall P l → Forall P (unacked a l).
Proof. destruct (unacked_suffix a l) as [pre Heq]. rewrite Heq at 1. by intros [_ ?]%Forall_app. Qed.

(** The sender after an acceptable acknowledgment, before the window is filled,
    and the effect of [ack_received] where its behaviour is defined. *)
Definition ack_update (s : TCPSender) (ackno_val window_size : Z) : TCPSender :=
  ack_window (set_outstanding s (unacked ackno_val (_outstanding_segments s))) ackno_val window_size.

Definition ack_effect (s : TCPSender) (ackno : WrappingInt32) (window_size : Z) : result TCPSender :=
  if (raw_value (next_seqno s) <? raw_value ackno) || (raw_value ackno <? _highest_ackno s) then Ok s
  else fill_window (ack_update s (raw_value ackno) window_size).

Section EndHeader.
Context (end_header : list TCPSegment → option TCPHeader).

(** The headers that are compared are those of the segments: the one read
    through the end is not used.  The read stops the program only if the
    acknowledgment covers everything. *)
Lemma remove_acked_cases a l :
  (h ← header_at end_header l l; remove_acked end_header a h l) = Ok (unacked a l) ∨
  ((h ← header_at end_header l l; remove_acked end_header a h l) = Throw Undefined ∧
   unacked a l = [] ∧ ∃ l', end_header l' = None).
Proof.
  assert (∀ l rest, (h ← header_at end_header l rest; remove_acked end_header a h rest) = Ok (unacked a rest) ∨
    ((h ← header_at end_header l rest; remove_acked end_header a h rest) = Throw Undefined ∧
     unacked a rest = [] ∧ ∃ l', end_header l' = None)) as H; [|apply H].
  clear l. intros l rest. revert l. induction rest as [|it rest IH]; intros l; cbn [header_at].
  - destruct (end_header l) eqn:E; [by left|]. right. split_and!; [done|done|by exists l].
  - cbn [mbind result_bind remove_acked unacked]. case_match; [apply IH|by left].
Qed.

Lemma ack_received_cases s ackno w :
  ack_received end_header s ackno w = ack_effect s ackno w ∨
  (ack_received end_header s ackno w = Throw Undefined ∧
   unacked (raw_value ackno) (_outstanding_segments s) = [] ∧ ∃ l, end_header l = None).
Proof.
  unfold ack_received, ack_effect. destruct (_ || _); [by left|]. cbn zeta.
  destruct (remove_acked_cases (raw_value ackno) (_outstanding_segments s)) as [H|[H Hn]].
  - left. apply result_bind_ok in H as (h & -> & H). cbn [mbind result_bind]. by rewrite H.
  - right. split; [|done]. destruct (header_at _ _ _) as [h|e]; cbn [mbind result_bind] in *; [by rewrite H|congruence].
Qed.

Lemma ack_received_ok s ackno w s' : ack_received end_header s ackno w = Ok s' → ack_effect s ackno w = Ok s'.
Proof. destruct (ack_received_cases s ackno w) as [->|[-> _]]; done. Qed.

(** And it does stop the program then, if an undefined read does. *)
Lemma ack_all_reads_end s ackno w :
  (∀ l, end_header l = None) → raw_value ackno <= raw_value (next_seqno s) → _highest_ackno s <= raw_value ackno →
  unacked (raw_value ackno) (_outstanding_segments s) = [] → ack_received end_header s ackno w = Throw Undefined.
Proof.
  intros He H1 H2 Hu. unfold ack_received. cbn zeta.
  destruct (raw_value (next_seqno s) <? raw_value ackno) eqn:E1, (raw_value ackno <? _highest_ackno s) eqn:E2; try lia. cbn [orb].
  assert (∀ l rest, unacked (raw_value ackno) rest = [] →
    (h ← header_at end_header l rest; remove_acked end_header (raw_value ackno) h rest) = Throw Undefined) as Hr.
  { intros l rest. revert l. induction rest as [|it rest IH]; intros l; cbn [header_at unacked].
    - intros _. by rewrite He.
    - cbn [mbind result_bind remove_acked]. case_match; [apply IH|done]. }
  specialize (Hr (_outstanding_segments s) _ Hu). destruct (header_at _ _ _) as [h|e]; cbn [mbind result_bind] in *; [by rewrite Hr|congruence].
Qed.

(** It is defined if the read past the end yields anything at all. *)
Lemma ack_received_defined s ackno w :
  (∀ l, end_header l ≠ None) → ack_received end_header s ackno w = ack_effect s ackno w.
Proof. intros He. destruct (ack_received_cases s ackno w) as [?|(_ & _ & l & Hl)]; [done|by destruct (He l)]. Qed.

End EndHeader.

(** The segment as [send_new_segment] queues it. *)
Definition numbered (s : TCPSender) (seg : TCPSegment) : TCPSegment :=
  set_header seg (with_seqno (header seg) (next_seqno s)).

Lemma sendable_numbered s seg : sendable seg → sendable (numbered s seg).
Proof. intros ([] & ? & ?). split; [|done]. split; try done. apply wrap_wf. Qed.

Lemma numbered_length s seg :
  length_in_sequence_space (numbered s seg) = length_in_sequence_space seg.
Proof. done. Qed.

Lemma send_new_segment_eq s seg :
  0 < length_in_sequence_space seg < 0x10000 →
  0 <= _next_seqno s + length_in_sequence_space seg < 0x10000000000000000 →
  send_new_segment s seg =
    mkTCPSender (_isn s) (_segments_out s ++ [numbered s seg])
      (insert_outstanding (numbered s seg) (_outstanding_segments s))
      (_initial_retransmission_timeout s) (_retransmission_timeout s) (_stream s)
      (_next_seqno s + length_in_sequence_space seg)
      (Z.max 0 (_window_size s - length_in_sequence_space seg))
      true (if _retransmission_timer_on s then _retransmission_timer s else 0)
      (_consecutive_retransmissions s) (_highest_ackno s) (_highest_ackno_right s)
      (_fin_sent s) (_window_empty s).
Proof.
  intros Hl Hn. unfold send_new_segment. fold (numbered s seg). rewrite numbered_length.
  unfold send_segment. rewrite numbered_length, u16_small, u64_small by (unfold_width; lia).
  destruct (_ =? 0) eqn:E; [lia|]. cbn.
  replace (if _window_size s <? length_in_sequence_space seg then 0
           else _window_size s - length_in_sequence_space seg)
    with (Z.max 0 (_window_size s - length_in_sequence_space seg)) by (case_match; lia).
  destruct (_retransmission_timer_on s) eqn:Et; [|done].
  unfold set_outstanding, set_window, set_segments_out, set_next_seqno. cbn. by rewrite Et.
Qed.

(** Sending the next piece of [S]: what a segment must be for the invariant. *)
Lemma carries_numbered S s seg :
  wf_WrappingInt32 (_isn s) →
  (syn (header seg) = true → _next_seqno s = 0 ∧ str (payload seg) = [] ∧ fin (header seg) = false) →
  (syn (header seg) = false → 1 <= _next_seqno s ∧
     consistent S (Push (str (payload seg)) (_next_seqno s - 1) (fin (header seg)))) →
  is_u16 (win (header seg)) → carries S (_isn s) (numbered s seg).
Proof.
  intros Hisn Hs Hd Hw. split_and!; [..|done].
  - intros Hsyn. destruct (Hs Hsyn) as (Hn & ? & ?). split_and!; [|done|done].
    unfold numbered, next_seqno. simpl. rewrite Hn. apply wrapping_ext. rewrite wrap_raw, Z.add_0_r.
    by apply u32_small.
  - intros Hsyn. destruct (Hd Hsyn) as (Hn & Hc). right. exists (_next_seqno s - 1).
    split; [lia|]. split; [|done]. unfold numbered, next_seqno. simpl. f_equal. lia.
Qed.

Lemma send_new_segment_spec S s seg :
  sbase S s → 0 < length_in_sequence_space seg < 0x10000 → 0 <= _next_seqno s →
  _next_seqno s + length_in_sequence_space seg =
    1 + bytes_read (_stream s) + (if _fin_sent s then 1 else 0) →
  carries S (_isn s) (numbered s seg) → sendable seg → sinv S (send_new_segment s seg).
Proof.
  intros [] Hl Hn Heq Hc Hsd%(sendable_numbered s). pose proof (slen_nonneg (ByteStream._buffer (_stream s))).
  rewrite send_new_segment_eq by (try done; destruct (_fin_sent s); lia).
  split; [|by right]. split; simpl; try done.
  - unfold_width. lia.
  - by apply Forall_app_2; [|apply Forall_singleton].
  - by apply insert_outstanding_forall.
Qed.

Lemma sinv_syn S s :
  sinv S s → _next_seqno s = 0 → sinv S (send_new_segment s syn_segment).
Proof.
  intros [Hb Hn] H0. pose proof (si_read _ _ Hb).
  assert (bytes_read (_stream s) = 0 ∧ _fin_sent s = false) as [Hr Hf]
    by (destruct Hn as [?|Hn]; [tauto|destruct (_fin_sent s); lia]).
  apply send_new_segment_spec; [done|concrete|lia|rewrite H0, Hr, Hf; done| |done].
  apply carries_numbered; [apply Hb|done|done|done].
Qed.

(** The segments of [l], none of which is a reset, follow each other without
    gaps, from the absolute number [lo] to [hi]. *)
Fixpoint contiguous (isn : WrappingInt32) (lo : Z) (l : list TCPSegment) (hi : Z) : Prop :=
  match l with
  | [] => lo = hi
  | seg :: l =>
      (seqno (header seg) = wrap lo isn ∧ rst (header seg) = false) ∧ 0 < length_in_sequence_space seg ∧
      contiguous isn (lo + length_in_sequence_space seg) l hi
  end.

(** The outstanding segments are those from [lo] on. *)
Definition flight (lo : Z) (s : TCPSender) : Prop :=
  contiguous (_isn s) lo (_outstanding_segments s) (_next_seqno s).

(** The numbers up to [hi] do not pass the end of the 32-bit space. *)
Definition no_wrap (isn : WrappingInt32) (hi : Z) : Prop :=
  0 <= raw_value isn ∧ raw_value isn + hi < 0x100000000.

Lemma wrap_no_wrap isn k hi : no_wrap isn hi → 0 <= k <= hi → raw_value (wrap k isn) = raw_value isn + k.
Proof. intros [? ?] ?. rewrite wrap_raw. apply u32_small. unfold_width. lia. Qed.

Lemma contiguous_le isn lo l hi : contiguous isn lo l hi → lo <= hi.
Proof.
  revert lo. induction l as [|seg l IH]; intros lo; simpl; [lia|]. intros (_ & ? & H). specialize (IH _ H). lia.
Qed.

Lemma contiguous_app isn lo l mid l' hi :
  contiguous isn lo l mid → contiguous isn mid l' hi → contiguous isn lo (l ++ l') hi.
Proof.
  revert lo. induction l as [|seg l IH]; intros lo; simpl; [by intros ->|]. intros (? & ? & Hl) Hl'. split; auto.
Qed.

(** A new segment has the highest number and goes to the end. *)
Lemma contiguous_insert isn lo l hi seg :
  0 <= lo → contiguous isn lo l hi → seqno (header seg) = wrap hi isn →
  rst (header seg) = false → 0 < length_in_sequence_space seg → no_wrap isn (hi + length_in_sequence_space seg) →
  contiguous isn lo (insert_outstanding seg l) (hi + length_in_sequence_space seg).
Proof.
  intros Hlo Hl Hs Hr Hlen Hw. revert lo Hlo Hl.
  induction l as [|it l IH]; intros lo Hlo; cbn [contiguous insert_outstanding]; [intros ->; done|].
  intros ([Hit ?] & Hlt & Hl). pose proof (contiguous_le _ _ _ _ Hl).
  rewrite Hs, Hit, !(wrap_no_wrap isn _ _ Hw) by lia.
  destruct (_ <? _) eqn:E; [lia|]. cbn [contiguous]. split_and!; try done. apply IH; [lia|done].
Qed.

(** The retransmission timer runs while segments are outstanding. *)
Definition timer_live (s : TCPSender) : Prop :=
  _outstanding_segments s ≠ [] → _retransmission_timer_on s = true.

(** What a run of sends leaves unchanged, and what it adds. *)
Record sends (s s' : TCPSender) : Prop := {
  sends_isn : _isn s' = _isn s;
  sends_space : _next_seqno s' + _window_size s' = _next_seqno s + _window_size s;
  sends_next : _next_seqno s <= _next_seqno s';
  sends_new : ∃ new, _segments_out s' = _segments_out s ++ new ∧
    Forall (λ seg, slen (str (payload seg)) <= MAX_PAYLOAD_SIZE ∧ 0 < length_in_sequence_space seg) new ∧
    contiguous (_isn s) (_next_seqno s) new (_next_seqno s');
  sends_written : bytes_written (_stream s') = bytes_written (_stream s);
  sends_ended : input_ended (_stream s') = input_ended (_stream s);
  sends_capacity : ByteStream._capacity (_stream s') = ByteStream._capacity (_stream s);
  sends_timeout : _initial_retransmission_timeout s' = _initial_retransmission_timeout s ∧
    _retransmission_timeout s' = _retransmission_timeout s ∧
    _consecutive_retransmissions s' = _consecutive_retransmissions s;
  sends_highest : _highest_ackno s' = _highest_ackno s ∧ _highest_ackno_right s' = _highest_ackno_right s;
  sends_timer : timer_live s → timer_live s';
  sends_keeps : ∀ seg, seg ∈ _outstanding_segments s → seg ∈ _outstanding_segments s';
  sends_flight : ∀ lo, 0 <= lo → no_wrap (_isn s) (_next_seqno s') → flight lo s → flight lo s'
}.

#[export] Instance sends_preorder : PreOrder sends.
Proof.
  split.
  - intros s. split; try done. exists []. by rewrite app_nil_r.
  - intros s1 s2 s3 [? ? ? (n1 & Hn1 & F1 & C1) ? ? ? (?&?&?) (?&?) ? ? Hf1]
      [? ? ? (n2 & Hn2 & F2 & C2) ? ? ? (?&?&?) (?&?) ? ? Hf2].
    split; try congruence; try lia; try (split_and!; congruence); auto.
    + exists (n1 ++ n2). rewrite Hn2, Hn1, <- app_assoc. split; [done|]. split; [by apply Forall_app_2|].
      eapply contiguous_app; [done|congruence].
    + intros lo Hlo Hw Hfl. apply Hf2; [done|congruence|]. apply Hf1; [done| |done].
      destruct Hw. split; lia.
Qed.

Lemma send_new_segment_live s seg :
  0 < length_in_sequence_space seg < 0x10000 → timer_live (send_new_segment s seg).
Proof.
  intros Hl _. unfold send_new_segment, send_segment. fold (numbered s seg).
  rewrite numbered_length, u16_small by (unfold_width; lia). destruct (_ =? 0) eqn:E; [lia|].
  simpl. by destruct (_retransmission_timer_on s) eqn:Et.
Qed.

Lemma send_new_segment_sends s seg :
  0 < length_in_sequence_space seg <= _window_size s → is_u16 (_window_size s) →
  0 <= _next_seqno s → _next_seqno s + length_in_sequence_space seg < 0x10000000000000000 →
  slen (str (payload seg)) <= MAX_PAYLOAD_SIZE → rst (header seg) = false →
  sends s (send_new_segment s seg).
Proof.
  intros. rewrite send_new_segment_eq by (unfold_width; lia). split; simpl; try done; try lia.
  - eexists. split; [done|]. split; [|simpl; rewrite numbered_length; split_and!; [done|done|lia|done]].
    apply Forall_singleton. split; [done|]. rewrite numbered_length. lia.
  - intros seg' Hs. by apply elem_of_insert_outstanding; right.
  - intros lo Hlo Hw Hfl. unfold flight. simpl. rewrite <- (numbered_length s seg) in *.
    apply contiguous_insert; try done. lia.
Qed.

Lemma sends_set_stream s b :
  bytes_written b = bytes_written (_stream s) → input_ended b = input_ended (_stream s) →
  ByteStream._capacity b = ByteStream._capacity (_stream s) →
  sends s (set_stream s b).
Proof. split; simpl; try done. exists []. by rewrite app_nil_r. Qed.

Lemma sends_set_fin_sent s : sends s (set_fin_sent s).
Proof. split; simpl; try done. exists []. by rewrite app_nil_r. Qed.

(** The stream after [fill_once] has read [n] bytes of it. *)
Definition after_read (b : ByteStream) (n : Z) : ByteStream :=
  mkByteStream (ByteStream._capacity b) (sdrop n (ByteStream._buffer b)) (ByteStream._eof b)
    (ByteStream._bytes_written b) (bytes_read b + Z.min n (slen (ByteStream._buffer b)))
    (ByteStream._error b).

Lemma after_read_base S s n :
  sbase S s → 0 <= n → _fin_sent s = false → sbase S (set_stream s (after_read (_stream s) n)).
Proof.
  intros [] Hn Hf. pose proof (slen_nonneg (ByteStream._buffer (_stream s))).
  split; simpl; try done; rewrite ?slen_sdrop by done.
  - destruct si_wf0 as [? ?]. split; simpl; [done|]. rewrite slen_sdrop by done. lia.
  - lia.
  - unfold bytes_written, bytes_read in *. simpl. lia.
  - intros. rewrite <- sdrop_min. apply agree_sdrop; [done|lia|done].
  - congruence.
Qed.

Lemma fill_read S s n :
  sbase S s → 0 <= n →
  ByteStream.read (_stream s) n = Ok (after_read (_stream s) n, stake n (ByteStream._buffer (_stream s))).
Proof.
  intros [] Hn. pose proof (slen_nonneg (ByteStream._buffer (_stream s))). rewrite read_eq.
  unfold after_read, bytes_read in *. by rewrite u64_small by (unfold_width; lia).
Qed.

(** A piece of the stream, taken out of a stream that still has bytes. *)
Lemma fill_piece S s n :
  sbase S s → _next_seqno s = 1 + bytes_read (_stream s) → _fin_sent s = false → 0 <= n →
  let b := after_read (_stream s) n in
  agree S (_next_seqno s - 1) (stake n (ByteStream._buffer (_stream s))) ∧
  _next_seqno s - 1 + slen (stake n (ByteStream._buffer (_stream s))) <= slen S ∧
  (eof b = true → _next_seqno s - 1 + slen (stake n (ByteStream._buffer (_stream s))) = slen S).
Proof.
  intros [] Hn Hf Hn0 b. pose proof (slen_nonneg (ByteStream._buffer (_stream s))).
  rewrite slen_stake by done. replace (_next_seqno s - 1) with (bytes_read (_stream s)) by lia.
  split_and!; [by apply agree_stake|lia|]. unfold eof, buffer_empty, buffer_size, b.
  cbn [ByteStream._eof ByteStream._buffer after_read]. rewrite slen_sdrop by done.
  intros [He Hz]%andb_prop. specialize (si_eof0 He). lia.
Qed.

Lemma sbase_set_fin_sent S s : sbase S s → eof (_stream s) = true → sbase S (set_fin_sent s).
Proof. intros [] He. by split. Qed.

Lemma send_new_segment_stream s seg : _stream (send_new_segment s seg) = _stream s.
Proof. unfold send_new_segment, send_segment. case_match; [done|]. by case_match. Qed.

(** Sending a piece that has been read, with or without FIN. *)
Lemma send_piece S s b (data : bytes) (last : bool) :
  let s1 := set_stream s b in
  let s2 := if last then set_fin_sent s1 else s1 in
  let seg := set_payload TCPSegment_default (Buffer_of data) in
  let seg := if last then set_header seg (with_fin (header seg)) else seg in
  sbase S s1 → _fin_sent s = false → 1 <= _next_seqno s →
  bytes_written b = bytes_written (_stream s) → input_ended b = input_ended (_stream s) →
  ByteStream._capacity b = ByteStream._capacity (_stream s) →
  bytes_read b = _next_seqno s - 1 + slen data →
  agree S (_next_seqno s - 1) data → (last = true → eof b = true) → slen data <= MAX_PAYLOAD_SIZE →
  0 < slen data + (if last then 1 else 0) <= _window_size s →
  sinv S (send_new_segment s2 seg) ∧ sends s (send_new_segment s2 seg).
Proof.
  intros s1 s2 seg0 seg Hb Hf Hn Hbw Hie Hcp Hbr Hag Hl Hmax Hlen.
  assert (sbase S s2) as Hb2 by (unfold s2; destruct last; [apply sbase_set_fin_sent; auto|done]).
  assert (length_in_sequence_space seg = slen data + (if last then 1 else 0)) as Hls.
  { unfold seg, seg0, length_in_sequence_space, payload. destruct last; simpl; rewrite str_of; lia. }
  assert (str (payload seg) = data) as Hpl by (unfold seg, seg0, payload; destruct last; apply str_of).
  assert (fin (header seg) = last) as Hfin by (by unfold seg, seg0; destruct last).
  assert (syn (header seg) = false) as Hsyn by (by unfold seg, seg0; destruct last).
  assert (win (header seg) = 0) as Hwin by (by unfold seg, seg0; destruct last).
  assert (rst (header seg) = false) as Hrst by (by unfold seg, seg0; destruct last).
  assert (_next_seqno s2 = _next_seqno s ∧ _window_size s2 = _window_size s ∧ _stream s2 = b ∧
    _fin_sent s2 = last ∧ _isn s2 = _isn s) as (E1 & E2 & E3 & E4 & E5)
    by (unfold s2; destruct last; done).
  pose proof (si_window _ _ Hb2) as Hw. pose proof (si_size _ _ Hb2). pose proof (si_bound _ _ Hb2).
  pose proof (si_count _ _ Hb2) as Hc. pose proof (si_eof _ _ Hb2) as He. rewrite E2 in Hw. rewrite E3 in *.
  pose proof (slen_nonneg (ByteStream._buffer b)).
  split.
  - apply send_new_segment_spec; rewrite ?Hls, ?E1, ?E3, ?E4; try done; [unfold_width; lia|lia|lia| |].
    2: { split; [|by rewrite Hpl; unfold seg, seg0; destruct last]. by unfold seg, seg0; destruct last. }
    apply carries_numbered; [apply Hb2|by rewrite Hsyn| |by rewrite Hwin]. intros _.
    rewrite E1, Hpl, Hfin. split; [done|]. split_and!; [done|lia|lia|].
    intros ->. specialize (Hl eq_refl). apply andb_prop in Hl as [Hl1 Hl2].
    specialize (He Hl1). unfold buffer_empty, buffer_size in Hl2. lia.
  - transitivity s1; [by apply sends_set_stream|].
    transitivity s2; [unfold s2; destruct last; [apply sends_set_fin_sent|done]|].
    apply send_new_segment_sends; rewrite ?Hls, ?E1, ?E2, ?Hpl; try done; destruct last; lia.
Qed.

Lemma fill_once_spec S s :
  sinv S s → _next_seqno s ≠ 0 → 0 < _window_size s → buffer_empty (_stream s) = false →
  ∃ s', fill_once s = Ok s' ∧ sinv S s' ∧ sends s s' ∧
    (length (ByteStream._buffer (_stream s')) < length (ByteStream._buffer (_stream s)))%nat.
Proof.
  intros [Hb Hn] Hn0 Hw Hbe. pose proof (si_window _ _ Hb) as Hwin. pose proof (si_read _ _ Hb).
  assert (_fin_sent s = false) as Hf.
  { destruct (_fin_sent s) eqn:E; [|done]. apply (si_fin _ _ Hb), andb_prop in E as [_ E]. congruence. }
  rewrite Hf in Hn. assert (_next_seqno s = 1 + bytes_read (_stream s)) as Hn' by lia.
  unfold fill_once. set (n := if _window_size s <? MAX_PAYLOAD_SIZE then _window_size s else MAX_PAYLOAD_SIZE).
  assert (0 < n <= MAX_PAYLOAD_SIZE ∧ n <= _window_size s) as [Hn1 Hn2]
    by (unfold n, MAX_PAYLOAD_SIZE; case_match; lia).
  rewrite u16_small by (unfold MAX_PAYLOAD_SIZE in *; unfold_width; lia).
  rewrite (fill_read S) by (done || lia). cbn [mbind result_bind].
  set (buf := ByteStream._buffer (_stream s)) in *. set (b := after_read (_stream s) n).
  assert (0 < slen buf) as Hbuf.
  { unfold buffer_empty, buffer_size in Hbe. fold buf in Hbe. pose proof (slen_nonneg buf). lia. }
  destruct (fill_piece S s n Hb Hn' Hf ltac:(lia)) as (Hag & Hlen & Hend). fold b buf in Hag, Hlen, Hend.
  pose proof (after_read_base S s n Hb ltac:(lia) Hf) as Hb1. fold b in Hb1.
  assert (slen (stake n buf) = Z.min n (slen buf)) as Hsl by (apply slen_stake; lia).
  assert (length (ByteStream._buffer b) < length buf)%nat as Hdec.
  { change (ByteStream._buffer b) with (sdrop n buf). rewrite sdrop_drop, length_drop.
    unfold slen in Hbuf. lia. }
  cbn [_stream _fin_sent _window_size set_stream payload set_payload _payload]. rewrite Hf. cbn [negb].
  unfold size. rewrite str_of, Hsl, andb_true_r.
  set (last := eof b && (Z.min n (slen buf) <? _window_size s)).
  destruct (send_piece S s b (stake n buf) last) as [Hi Hs]; try done; try lia.
  - change (bytes_read b) with (bytes_read (_stream s) + Z.min n (slen buf)). lia.
  - unfold last. by intros [? _]%andb_prop.
  - rewrite Hsl. unfold last. destruct (eof b); simpl; [|lia].
    destruct (Z.min n (slen buf) <? _window_size s) eqn:E; lia.
  - exists (send_new_segment (if last then set_fin_sent (set_stream s b) else set_stream s b)
        (let seg := set_payload TCPSegment_default (Buffer_of (stake n buf)) in
         if last then set_header seg (with_fin (header seg)) else seg)).
    split; [by destruct last|]. split; [done|]. split; [done|].
    rewrite send_new_segment_stream. by destruct last.
Qed.

Lemma fill_loop_spec S s fuel :
  sinv S s → _next_seqno s ≠ 0 → (length (ByteStream._buffer (_stream s)) <= fuel)%nat →
  ∃ s', fill_loop fuel s = Ok s' ∧ sinv S s' ∧ sends s s' ∧
    (_window_size s' = 0 ∨ buffer_empty (_stream s') = true).
Proof.
  revert s. induction fuel as [|fuel IH]; intros s Hs Hn Hf; cbn [fill_loop].
  all: pose proof (si_window _ _ (proj1 Hs)).
  all: destruct ((0 <? _window_size s) && negb (buffer_empty (_stream s))) eqn:E.
  all: try (exists s; split_and!; try done; destruct (buffer_empty (_stream s)); [by right|left];
            rewrite andb_true_r in E; unfold_width; lia).
  all: apply andb_prop in E as [Hw Hb]; rewrite negb_true_iff in Hb.
  - unfold buffer_empty, buffer_size, slen in Hb. lia.
  - destruct (fill_once_spec S s Hs Hn ltac:(lia) Hb) as (s1 & -> & Hs1 & Hsent & Hdec).
    cbn [mbind result_bind]. pose proof (sends_next _ _ Hsent). destruct Hs as [Hb0 Hnx].
    pose proof (si_read _ _ Hb0).
    destruct (IH s1 Hs1) as (s2 & -> & Hs2 & Hsent2 & Hend).
    + destruct Hnx as [?|Hnx]; [lia|destruct (_fin_sent s); lia].
    + lia.
    + exists s2. split_and!; try done. by transitivity s1.
Qed.

Lemma sinv_fin S s :
  sinv S s → 0 < _next_seqno s → eof (_stream s) = true → _fin_sent s = false → 0 < _window_size s →
  sinv S (send_new_segment (set_fin_sent s) fin_segment) ∧
  sends s (send_new_segment (set_fin_sent s) fin_segment).
Proof.
  intros [Hb Hn] Hpos He Hf Hw. pose proof (sbase_set_fin_sent S s Hb He) as Hb'.
  pose proof (si_size _ _ Hb). pose proof (si_bound _ _ Hb). pose proof (si_window _ _ Hb).
  pose proof (si_count _ _ Hb) as Hc. pose proof (slen_nonneg (ByteStream._buffer (_stream s))).
  rewrite Hf in Hn. assert (_next_seqno s = 1 + bytes_read (_stream s)) as Hn' by lia.
  assert (bytes_read (_stream s) = slen S) as Hr.
  { apply andb_prop in He as [He1 He2]. pose proof (si_eof _ _ Hb He1).
    unfold buffer_empty, buffer_size in He2. lia. }
  split.
  - apply send_new_segment_spec; [done|concrete|simpl; lia|simpl; change (length_in_sequence_space fin_segment) with 1; lia| |done].
    apply carries_numbered; [apply Hb|done| |done]. intros _. split; [simpl; lia|].
    split_and!; [apply agree_nil|simpl; lia| |]; change (slen (str (payload fin_segment))) with 0; simpl; lia.
  - transitivity (set_fin_sent s); [apply sends_set_fin_sent|].
    apply send_new_segment_sends; change (length_in_sequence_space fin_segment) with 1; simpl; try done; lia.
Qed.

(** Nothing that may be sent is left behind. *)
Definition filled (s : TCPSender) : Prop :=
  _window_size s = 0 ∨
  (buffer_empty (_stream s) = true ∧ (input_ended (_stream s) = true → _fin_sent s = true)).

Lemma send_new_segment_fin_sent s seg : _fin_sent (send_new_segment s seg) = _fin_sent s.
Proof. unfold send_new_segment, send_segment. case_match; [done|]. by case_match. Qed.

(** The state in which [fill_window] starts its loop. *)
Definition after_syn (s : TCPSender) : TCPSender :=
  if _next_seqno s =? 0 then send_new_segment s syn_segment else s.

Lemma after_syn_isn s : _isn (after_syn s) = _isn s.
Proof.
  unfold after_syn. case_match; [|done]. unfold send_new_segment, send_segment.
  case_match; [done|]. by case_match.
Qed.

Lemma after_syn_keeps s seg :
  seg ∈ _outstanding_segments s → seg ∈ _outstanding_segments (after_syn s).
Proof.
  intros Hs. unfold after_syn. case_match; [|done]. unfold send_new_segment, send_segment.
  case_match; [done|]. case_match; apply elem_of_insert_outstanding; by right.
Qed.

Lemma after_syn_spec S s : sinv S s → sinv S (after_syn s) ∧ 0 < _next_seqno (after_syn s).
Proof.
  intros Hs. unfold after_syn. pose proof (si_read _ _ (proj1 Hs)). destruct (_next_seqno s =? 0) eqn:E.
  - split; [apply sinv_syn; [done|lia]|].
    rewrite send_new_segment_eq by (change (length_in_sequence_space syn_segment) with 1; lia).
    simpl. change (length_in_sequence_space syn_segment) with 1. lia.
  - split; [done|]. destruct Hs as [_ [?|?]]; [lia|]. destruct (_fin_sent s); lia.
Qed.

Lemma fill_window_spec S s :
  sinv S s →
  ∃ s', fill_window s = Ok s' ∧ sinv S s' ∧ filled s' ∧ 0 < _next_seqno s' ∧ sends (after_syn s) s'.
Proof.
  intros Hs. destruct (after_syn_spec S s Hs) as [Hs1 Hn1]. unfold fill_window. fold (after_syn s).
  set (s1 := after_syn s) in *. clearbody s1. destruct (_window_size s1 =? 0) eqn:Ew.
  { exists s1. split_and!; try done. left; lia. }
  destruct (fill_loop_spec S s1 (length (ByteStream._buffer (_stream s1))) Hs1 ltac:(lia) (Nat.le_refl _))
    as (s2 & -> & Hs2 & Hsent & Hend). cbn [mbind result_bind].
  pose proof (sends_next _ _ Hsent). pose proof (si_window _ _ (proj1 Hs2)).
  destruct (eof (_stream s2) && negb (_fin_sent s2) && (0 <? _window_size s2)) eqn:Ef.
  - apply andb_prop in Ef as [[He Hf]%andb_prop Hw]. rewrite negb_true_iff in Hf.
    destruct (sinv_fin S s2) as [Hi Hp]; try done; try lia.
    eexists. split; [done|]. split; [done|]. split; [|split].
    + right. rewrite send_new_segment_fin_sent, send_new_segment_stream. simpl.
      apply andb_prop in He as [_ He]. done.
    + pose proof (sends_next _ _ Hp). lia.
    + by transitivity s2.
  - exists s2. split; [done|]. split; [done|]. split; [|split; [lia|done]].
    destruct Hend as [?|Hbe]; [by left|]. destruct (decide (_window_size s2 = 0)); [by left|right].
    split; [done|]. intros He. unfold eof in Ef. unfold input_ended in He. rewrite He, Hbe in Ef.
    destruct (_fin_sent s2); [done|]. simpl in Ef. unfold_width. lia.
Qed.

Lemma ack_update_fields s a w :
  let s' := ack_update s a w in
  _isn s' = _isn s ∧ _segments_out s' = _segments_out s ∧ _stream s' = _stream s ∧
  _next_seqno s' = _next_seqno s ∧ _fin_sent s' = _fin_sent s ∧
  _outstanding_segments s' = unacked a (_outstanding_segments s) ∧
  (_window_size s' = _window_size s ∨ _window_size s' = 1 ∨ _window_size s' = w).
Proof.
  unfold ack_update, ack_window. set (s1 := if w =? 0 then _ else _).
  assert (_isn s1 = _isn s ∧ _segments_out s1 = _segments_out s ∧ _stream s1 = _stream s ∧
    _next_seqno s1 = _next_seqno s ∧ _fin_sent s1 = _fin_sent s ∧
    _outstanding_segments s1 = unacked a (_outstanding_segments s) ∧
    (_window_size s1 = _window_size s ∨ _window_size s1 = 1 ∨ _window_size s1 = w)) as H.
  { unfold s1. destruct (w =? 0); [|case_match]; split_and!; auto. }
  clearbody s1. case_match; exact H.
Qed.

Lemma ack_update_sinv S s a w : sinv S s → is_u16 w → sinv S (ack_update s a w).
Proof.
  intros [[] Hn] Hw. pose proof (unacked_forall _ a _ si_outstanding0).
  destruct (ack_update_fields s a w) as (E1 & E2 & E3 & E4 & E5 & E6 & E7).
  split; [|by rewrite E3, E4, E5]. split; rewrite ?E1, ?E2, ?E3, ?E4, ?E5, ?E6; try done.
  destruct E7 as [->|[->| ->]]; [done|concrete|done].
Qed.

Lemma ack_effect_spec S s ackno w :
  sinv S s → is_u16 w → ∃ s', ack_effect s ackno w = Ok s' ∧ sinv S s' ∧
    (s' = s ∨ sends (after_syn (ack_update s (raw_value ackno) w)) s').
Proof.
  intros Hs Hw. unfold ack_effect. destruct (_ || _); [by exists s; auto|].
  destruct (fill_window_spec S _ (ack_update_sinv S s (raw_value ackno) w Hs Hw))
    as (s' & -> & Hs' & _ & _ & Hsent). exists s'. auto.
Qed.

Lemma ack_received_spec end_header S s ackno w :
  sinv S s → is_u16 w → or_undefined (ack_received end_header s ackno w) (λ s', sinv S s' ∧
    (s' = s ∨ sends (after_syn (ack_update s (raw_value ackno) w)) s')).
Proof.
  intros Hs Hw. destruct (ack_received_cases end_header s ackno w) as [->|[-> _]]; [|done].
  by destruct (ack_effect_spec S s ackno w Hs Hw) as (s' & -> & ?).
Qed.

(** The timer and the backoff. *)
Definition backoff_ok (s : TCPSender) : Prop :=
  _retransmission_timeout s = _initial_retransmission_timeout s * 2 ^ _consecutive_retransmissions s ∧
  0 <= _consecutive_retransmissions s <= MAX_RETX_ATTEMPTS + 1 ∧
  is_u16 (_initial_retransmission_timeout s).

Definition tinv (s : TCPSender) : Prop := timer_live s ∧ backoff_ok s.

Lemma sends_tinv s s' : sends s s' → tinv s → tinv s'.
Proof.
  intros Hs [Hl Hb]. split; [by apply (sends_timer s)|].
  destruct (sends_timeout _ _ Hs) as (E1 & E2 & E3). unfold backoff_ok. by rewrite E1, E2, E3.
Qed.

Lemma after_syn_tinv s : tinv s → tinv (after_syn s).
Proof.
  intros [Hl Hb]. unfold after_syn. case_match; [|done].
  split; [by apply send_new_segment_live|].
  unfold send_new_segment, send_segment. case_match; [done|]. by case_match.
Qed.

Lemma ack_update_tinv s a w : tinv s → tinv (ack_update s a w).
Proof.
  intros [Hl Hb]. unfold ack_update, ack_window.
  set (l := unacked a (_outstanding_segments s)).
  assert (_outstanding_segments s = [] → l = []) as Hnil by (unfold l; by intros ->).
  set (s1 := if w =? 0 then _ else _).
  assert (_outstanding_segments s1 = l ∧ _retransmission_timer_on s1 = _retransmission_timer_on s ∧
    _initial_retransmission_timeout s1 = _initial_retransmission_timeout s ∧ backoff_ok s1)
    as (E1 & E2 & E3 & Hb1).
  { unfold s1. destruct (w =? 0); [done|]. by destruct (_ <? _). }
  clearbody s1. destruct (_ <? _); cbn [set_backoff _initial_retransmission_timeout].
  - split; [unfold timer_live; simpl; by destruct (_outstanding_segments s1)|].
    destruct Hb1 as (_ & _ & Hi). split; [simpl; lia|]. split; [unfold MAX_RETX_ATTEMPTS; simpl; lia|done].
  - split; [|done]. unfold timer_live. rewrite E1, E2. intros Hne. apply Hl. intros H. by apply Hne, Hnil.
Qed.

Lemma fill_window_tinv S s s' : sinv S s → fill_window s = Ok s' → tinv s → tinv s'.
Proof.
  intros Hs Hf Ht. destruct (fill_window_spec S s Hs) as (s1 & Hf1 & _ & _ & _ & Hsent).
  rewrite Hf in Hf1. apply Ok_inj in Hf1 as <-. by apply (sends_tinv _ _ Hsent), after_syn_tinv.
Qed.

Lemma ack_received_tinv end_header S s s' a w :
  sinv S s → is_u16 w → ack_received end_header s a w = Ok s' → tinv s → tinv s'.
Proof.
  intros Hs Hw Hf%ack_received_ok Ht. unfold ack_effect in Hf. destruct (_ || _); [by apply Ok_inj in Hf as <-|].
  apply (fill_window_tinv S _ _ (ack_update_sinv S s (raw_value a) w Hs Hw) Hf). by apply ack_update_tinv.
Qed.

Lemma tick_tinv s ms : tinv s → tinv (tick s ms).
Proof.
  intros [Hl (Ht & Hc & Hi)]. unfold tick.
  destruct (negb (_retransmission_timer_on s) || _) eqn:E; [by split|].
  apply orb_false_elim in E as [_ E].
  destruct (_outstanding_segments s) as [|seg l] eqn:El; simpl; rewrite El.
  { split; [unfold timer_live; simpl; by rewrite El|by split]. }
  destruct (_ <=? _) eqn:Eto; simpl; [|by split_and!].
  destruct (negb (_window_empty s)); simpl; [|by split_and!].
  unfold MAX_RETX_ATTEMPTS in *. split; [done|]. unfold backoff_ok. simpl.
  rewrite u32_small by (unfold_width; lia). rewrite Z.pow_add_r, Z.pow_1_r, Z.mul_assoc, <- Ht by lia.
  split; [|unfold MAX_RETX_ATTEMPTS; split; [lia|done]]. apply u64_small. rewrite Ht.
  assert (0 < 2 ^ _consecutive_retransmissions s <= 2 ^ 8) as Hp
    by (split; [apply Z.pow_pos_nonneg; lia|apply Z.pow_le_mono_r; lia]).
  change (2 ^ 8) with 256 in Hp. unfold_width. nia.
Qed.

Lemma tick_sinv S s ms : sinv S s → sinv S (tick s ms).
Proof.
  intros Hs. unfold tick. destruct (negb _ || _); [done|].
  destruct (_outstanding_segments s) as [|seg l] eqn:El; simpl; rewrite El.
  { destruct Hs as [[] Hn]. by split. }
  assert (emits S (_isn s) seg) as Hseg.
  { pose proof (si_outstanding _ _ (proj1 Hs)) as H. rewrite El in H. by inv H. }
  destruct Hs as [[] Hn].
  destruct (_ <=? _); [|by split; [split|]].
  assert (Forall (emits S (_isn s)) (_segments_out s ++ [seg]))
    by (apply Forall_app_2; [done|by apply Forall_singleton]).
  destruct (negb _); simpl; (split; [split|]; done).
Qed.

Lemma tick_isn s ms : _isn (tick s ms) = _isn s.
Proof.
  unfold tick. destruct (negb _ || _); [done|]. simpl.
  destruct (_outstanding_segments s); [done|]. destruct (_ <=? _); [|done]. by destruct (negb _).
Qed.

Lemma carries_empty S isn seg :
  syn (header seg) = false → fin (header seg) = false → str (payload seg) = [] → is_u16 (win (header seg)) →
  carries S isn seg.
Proof. intros Hs Hf Hp Hw. split_and!; [by rewrite Hs| |done]. intros _. by left. Qed.

Lemma sendable_empty seg : TCPHeader.wf (header seg) → doff (header seg) = 5 → str (payload seg) = [] → sendable seg.
Proof. intros ? ? Hp. split_and!; [done|done|by rewrite Hp]. Qed.

Lemma send_empty_segment_sinv S s : sinv S s → sinv S (send_empty_segment s).
Proof.
  intros [[] Hn]. split; [|done]. split; try done. simpl.
  apply Forall_app_2; [done|]. apply Forall_singleton. split; [by apply carries_empty|].
  apply sendable_empty; [|done|done]. split; try done. apply wrap_wf.
Qed.

(** ** The program that uses the sender *)

(** The application writes the next bytes of [S] and ends its input after the
    last one; acknowledgments and ticks arrive; the owner takes segments from
    the queue, which are the label of the step.  What an undefined read yields
    may differ from one acknowledgment to the next. *)
Inductive sstep (S : bytes) : TCPSender → list TCPSegment → TCPSender → Prop :=
| step_write s n b k :
    0 <= n →
    ByteStream.write (_stream s) (stake n (sdrop (bytes_written (_stream s)) S)) = Ok (b, k) →
    sstep S s [] (set_stream s b)
| step_end s :
    bytes_written (_stream s) = slen S → sstep S s [] (set_stream s (end_input (_stream s)))
| step_fill s s' :
    fill_window s = Ok s' → sstep S s [] s'
| step_ack end_header s ackno w s' :
    is_u16 w → ack_received end_header s ackno w = Ok s' → sstep S s [] s'
| step_tick s ms :
    sstep S s [] (tick s ms)
| step_empty s :
    sstep S s [] (send_empty_segment s)
| step_pop s seg q :
    _segments_out s = seg :: q → sstep S s [seg] (set_segments_out s q).

Inductive strace (S : bytes) : TCPSender → list TCPSegment → TCPSender → Prop :=
| strace_refl s : strace S s [] s
| strace_step s1 l1 s2 l2 s3 : strace S s1 l1 s2 → sstep S s2 l2 s3 → strace S s1 (l1 ++ l2) s3.

Lemma write_sinv S s n b k :
  sinv S s → 0 <= n →
  ByteStream.write (_stream s) (stake n (sdrop (bytes_written (_stream s)) S)) = Ok (b, k) →
  sinv S (set_stream s b).
Proof.
  intros [[] Hn] Hn0 Hw. rewrite write_eq in Hw by done. apply Ok_inj in Hw as [= <- <-].
  set (data := stake n (sdrop (bytes_written (_stream s)) S)).
  pose proof (accepts_range (_stream s) data si_wf0) as Hacc.
  set (m := accepts (_stream s) data) in *.
  pose proof (slen_nonneg (ByteStream._buffer (_stream s))).
  assert (slen data <= slen S - bytes_written (_stream s)) as Hd.
  { unfold data. rewrite slen_stake, slen_sdrop by lia. lia. }
  assert (slen (stake m data) = m) as Hm by (rewrite slen_stake by lia; lia).
  assert (is_u64 (bytes_written (_stream s) + m)) as Hu by (unfold_width; lia).
  unfold bytes_written in *.
  split; [|done]. split; simpl; try done; unfold bytes_written, input_ended, bytes_read in *; simpl.
  - destruct si_wf0 as [? ?]. split; [done|]. simpl. rewrite slen_app, Hm.
    unfold m, accepts in *. lia.
  - rewrite slen_app, Hm, u64_small by done. lia.
  - rewrite u64_small by done. lia.
  - rewrite agree_app by done. split; [done|]. rewrite <- si_count0. apply agree_stake; [lia|].
    unfold data. apply agree_stake; [lia|]. apply agree_self.
  - intros He. rewrite u64_small by done. specialize (si_eof0 He). lia.
  - intros Hfin. specialize (si_fin0 Hfin). apply andb_prop in si_fin0 as [He Hbe].
    specialize (si_eof0 He). unfold eof, buffer_empty, buffer_size in *. simpl. rewrite He.
    rewrite slen_app, Hm. simpl. lia.
Qed.

Lemma sstep_sinv S s l s' : sinv S s → sstep S s l s' → sinv S s' ∧ _isn s' = _isn s ∧ Forall (emits S (_isn s)) l.
Proof.
  intros Hs Hst. assert (Hi := Hs). destruct Hi as [[] Hn].
  destruct Hst as [s n b k Hn0 Hw|s He|s s' Hf|eh s a w s' Hw Hf|s ms|s|s seg q Hq].
  - split_and!; [by apply (write_sinv S s n b k)|done|by constructor].
  - split_and!; [|done|by constructor]. split; [|done]. split; try done. intros Hfin.
    specialize (si_fin0 Hfin). apply andb_prop in si_fin0 as [_ Hbe]. exact Hbe.
  - destruct (fill_window_spec S s Hs) as (s1 & Hf1 & Hs1 & _ & _ & Hsent).
    rewrite Hf in Hf1. apply Ok_inj in Hf1 as <-. split_and!; [done| |by constructor].
    rewrite (sends_isn _ _ Hsent). apply after_syn_isn.
  - destruct (or_undefined_ok _ _ _ (ack_received_spec eh S s a w Hs Hw) Hf) as [Hs1 Hsent].
    split_and!; [done| |by constructor]. destruct Hsent as [->|Hsent]; [done|]. rewrite (sends_isn _ _ Hsent), after_syn_isn.
    apply ack_update_fields.
  - split_and!; [by apply tick_sinv|apply tick_isn|by constructor].
  - split_and!; [by apply send_empty_segment_sinv|done|by constructor].
  - rewrite Hq in *. apply Forall_cons_1 in si_out0 as [? ?].
    split_and!; [split; [by split|done]|done|by apply Forall_singleton].
Qed.

Lemma TCPSender_new_sinv S capacity rt fixed_isn r :
  wf_WrappingInt32 (default (WrappingInt32_of r) fixed_isn) → is_u64 capacity → slen S + 2 < 0x10000000000000000 →
  sinv S (TCPSender_new capacity rt fixed_isn r).
Proof.
  intros Hisn Hc HS. pose proof (slen_nonneg S). split; [|by left].
  split; simpl; try done; try lia; [by apply ByteStream.wf_new|apply agree_nil].
Qed.

Lemma strace_sinv S s l s' :
  sinv S s → strace S s l s' → sinv S s' ∧ _isn s' = _isn s ∧ Forall (emits S (_isn s)) l.
Proof.
  intros Hs Htr. induction Htr as [s|s1 l1 s2 l2 s3 Htr IH Hst]; [by split_and!|].
  destruct (IH Hs) as (Hs2 & Hi2 & Hl1). destruct (sstep_sinv S s2 l2 s3 Hs2 Hst) as (Hs3 & Hi3 & Hl2).
  split_and!; [done|congruence|]. apply Forall_app_2; [done|by rewrite <- Hi2].
Qed.

Lemma sstep_tinv S s l s' : sinv S s → tinv s → sstep S s l s' → tinv s'.
Proof.
  intros Hs Ht Hst. destruct Hst; try done.
  - by eapply fill_window_tinv.
  - by eapply ack_received_tinv.
  - by apply tick_tinv.
Qed.

Lemma strace_tinv S s l s' : sinv S s → tinv s → strace S s l s' → tinv s'.
Proof.
  intros Hs Ht Htr. induction Htr as [s|s1 l1 s2 l2 s3 Htr IH Hst]; [done|].
  destruct (strace_sinv S s1 l1 s2 Hs Htr) as (Hs2 & _). eapply sstep_tinv; eauto.
Qed.

(** ** Acknowledgments, while the numbers do not wrap *)

Lemma unacked_contiguous isn lo l hi a :
  no_wrap isn hi → hi < 0x100000000 → 0 <= lo → contiguous isn lo l hi →
  ∃ lo', contiguous isn lo' (unacked (raw_value isn + a) l) hi ∧ lo <= lo' ∧
    (lo' = lo ∨ lo' <= a) ∧
    ∀ seg rest, unacked (raw_value isn + a) l = seg :: rest → a < lo' + length_in_sequence_space seg.
Proof.
  intros Hw Hhi. revert lo. induction l as [|it l IH]; intros lo Hlo.
  { intros Hl. exists lo. by split_and!; [|lia|left|]. }
  intros Hl. assert (Hl' := Hl). destruct Hl' as ([Hs _] & Hlen & Hc).
  pose proof (contiguous_le _ _ _ _ Hc). cbn [unacked].
  rewrite Hs, (wrap_no_wrap isn lo hi Hw) by lia. destruct Hw as [Hw1 Hw2].
  rewrite u64_small by (unfold_width; lia).
  destruct (_ <? _) eqn:E.
  - destruct (IH (lo + length_in_sequence_space it) ltac:(lia) Hc) as (lo' & H1 & H2 & H3 & H4).
    exists lo'. split_and!; [done|lia|lia|done].
  - exists lo. split_and!; [done|lia|by left|]. intros seg rest [= <- <-]. lia.
Qed.

Lemma unacked_split isn lo l hi a :
  no_wrap isn hi → hi < 0x100000000 → 0 <= lo → contiguous isn lo l hi →
  ∃ pre lo', l = pre ++ unacked (raw_value isn + a) l ∧ contiguous isn lo pre lo' ∧ (pre = [] ∨ lo' <= a) ∧
    contiguous isn lo' (unacked (raw_value isn + a) l) hi ∧
    ∀ seg rest, unacked (raw_value isn + a) l = seg :: rest → a < lo' + length_in_sequence_space seg.
Proof.
  intros Hw Hhi. revert lo. induction l as [|it l IH]; intros lo Hlo.
  { intros Hl. exists [], lo. by split_and!; [|done|left| |]. }
  intros Hl. assert (Hl' := Hl). destruct Hl' as ([Hs Hr] & Hlen & Hc).
  pose proof (contiguous_le _ _ _ _ Hc). cbn [unacked].
  rewrite Hs, (wrap_no_wrap isn lo hi Hw) by lia. destruct Hw as [Hw1 Hw2].
  rewrite u64_small by (unfold_width; lia).
  destruct (_ <? _) eqn:E.
  - destruct (IH (lo + length_in_sequence_space it) ltac:(lia) Hc) as (pre & lo' & H1 & H2 & H3 & H4 & H5).
    exists (it :: pre), lo'. split_and!; [cbn [app]; by f_equal|by split_and!| |done|done].
    right. destruct H3 as [->|?]; [|done]. simpl in H2. lia.
  - exists [], lo. split_and!; [done|done|by left|done|]. intros seg rest [= <- <-]. lia.
Qed.

Lemma foldl_in_flight isn lo l hi n :
  contiguous isn lo l hi → 0 <= n → n + hi - lo < 0x10000000000000000 →
  foldl (λ bytes seg, u64 (bytes + length_in_sequence_space seg)) n l = n + hi - lo.
Proof.
  revert lo n. induction l as [|it l IH]; intros lo n; simpl; [intros -> ? ?; lia|].
  intros (_ & Hlen & Hc) Hn Hb. pose proof (contiguous_le _ _ _ _ Hc).
  rewrite u64_small by (unfold_width; lia). rewrite (IH _ _ Hc); lia.
Qed.

Lemma bytes_in_flight_eq lo s :
  flight lo s → 0 <= lo → _next_seqno s < 0x10000000000000000 → bytes_in_flight s = _next_seqno s - lo.
Proof.
  intros Hf Hlo Hn. unfold bytes_in_flight. rewrite (foldl_in_flight _ _ _ _ 0 Hf); lia.
Qed.

Lemma after_syn_flight lo s :
  0 <= lo → no_wrap (_isn s) 1 → flight lo s → flight lo (after_syn s).
Proof.
  intros Hlo Hw Hf. unfold after_syn. destruct (_ =? 0) eqn:E; [|done].
  assert (_next_seqno s = 0) as Hn by lia. rewrite send_new_segment_eq; [|concrete|].
  - unfold flight. simpl. rewrite <- (numbered_length s syn_segment). apply contiguous_insert; try done.
    by rewrite Hn, numbered_length.
  - change (length_in_sequence_space syn_segment) with 1. lia.
Qed.

(** In the range of the theorems on acknowledgments the whole stream fits
    before the end of the number space. *)
Definition fits (S : bytes) (isn : WrappingInt32) : Prop := no_wrap isn (slen S + 2).

Lemma sinv_next S s : sinv S s → 0 <= _next_seqno s <= slen S + 2.
Proof.
  intros [[] Hn]. pose proof (slen_nonneg (ByteStream._buffer (_stream s))).
  pose proof (slen_nonneg S). destruct (_fin_sent s); lia.
Qed.

Lemma fits_next S s n : sinv S s → fits S (_isn s) → n <= slen S + 2 → no_wrap (_isn s) n.
Proof. intros Hs [? ?] ?. split; lia. Qed.

Lemma fill_window_flight S s s' lo :
  sinv S s → fits S (_isn s) → 0 <= lo → flight lo s → fill_window s = Ok s' → flight lo s'.
Proof.
  intros Hs Hfit Hlo Hfl Hf. destruct (fill_window_spec S s Hs) as (s1 & Hf1 & Hs1 & _ & _ & Hsent).
  rewrite Hf in Hf1. apply Ok_inj in Hf1 as <-. pose proof (slen_nonneg S).
  apply (sends_flight _ _ Hsent); [done| |].
  - rewrite after_syn_isn. apply (fits_next S); [done|done|]. apply (sinv_next S s' Hs1).
  - apply after_syn_flight; [done| |done]. apply (fits_next S); [done|done|lia].
Qed.

Lemma ack_effect_flight S s s' ackno a w lo :
  sinv S s → is_u16 w → fits S (_isn s) → 0 <= lo → flight lo s →
  raw_value ackno = raw_value (_isn s) + a → ack_effect s ackno w = Ok s' →
  ∃ lo', flight lo' s' ∧ lo <= lo' ∧ (lo' = lo ∨ lo' <= a) ∧
    (s' = s ∨ ∀ seg rest, unacked (raw_value ackno) (_outstanding_segments s) = seg :: rest →
                a < lo' + length_in_sequence_space seg).
Proof.
  intros Hs Hw Hfit Hlo Hfl Ha Hr. unfold ack_effect in Hr. destruct (_ || _).
  { apply Ok_inj in Hr as <-. exists lo. split_and!; [done|lia|by left|by left]. }
  pose proof (sinv_next S s Hs).
  destruct (ack_update_fields s (raw_value ackno) w) as (E1 & _ & _ & E4 & _ & E6 & _).
  destruct (unacked_contiguous (_isn s) lo (_outstanding_segments s) (_next_seqno s) a)
    as (lo' & H1 & H2 & H3 & H4); [|destruct Hfit; lia|done|done|].
  { apply (fits_next S); [done|done|lia]. }
  rewrite <- Ha in H1, H4. exists lo'. split_and!; [|done|done|by right].
  apply (fill_window_flight S (ack_update s (raw_value ackno) w)); try done; [|by rewrite E1|lia|].
  - by apply ack_update_sinv.
  - unfold flight. by rewrite E1, E4, E6.
Qed.

Lemma sstep_flight S s l s' lo :
  sinv S s → fits S (_isn s) → 0 <= lo → flight lo s → sstep S s l s' → ∃ lo', lo <= lo' ∧ flight lo' s'.
Proof.
  intros Hs Hfit Hlo Hfl Hst. destruct Hst as [| |s s' Hf|eh s ackno w s' Hw Hf|s ms| |].
  3: { exists lo. split; [lia|]. by apply (fill_window_flight S s). }
  3: { destruct (ack_effect_flight S s s' ackno (raw_value ackno - raw_value (_isn s)) w lo)
         as (lo' & ? & ? & _); try done; [lia|by eapply ack_received_ok|]. by exists lo'. }
  3: { exists lo. split; [lia|]. unfold tick. destruct (negb _ || _); [done|]. simpl.
       destruct (_outstanding_segments s) eqn:El; [done|]. destruct (_ <=? _); [|done].
       by destruct (negb _). }
  all: exists lo; split; [lia|done].
Qed.

Lemma strace_flight S s l s' lo :
  sinv S s → fits S (_isn s) → 0 <= lo → flight lo s → strace S s l s' → ∃ lo', lo <= lo' ∧ flight lo' s'.
Proof.
  intros Hs Hfit Hlo Hfl Htr. induction Htr as [s|s1 l1 s2 l2 s3 Htr IH Hst]; [by exists lo|].
  destruct (strace_sinv S s1 l1 s2 Hs Htr) as (Hs2 & Hi & _).
  destruct (IH Hs Hfit Hfl) as (lo2 & ? & Hf2).
  destruct (sstep_flight S s2 l2 s3 lo2 Hs2) as (lo3 & ? & ?); [by rewrite Hi|lia|done|done|].
  exists lo3. split; [lia|done].
Qed.

(** ** Properties *)

(** C8: safety of the sender.  The stream [S] is shorter than [2^64 - 2] and the
    initial number fixed or random.  However the application writes [S],
    whatever acknowledgments and ticks arrive and whenever the window is filled,
    every segment that leaves the queue carries [S] (its bytes stand in [S] at
    its number, and FIN only at the end), has fields that fit, no options and at
    most the maximal payload, and the next number counts what was read.  No later [fill_window] throws or runs forever, and neither does
    [ack_received], except that the read through the end of the list of
    outstanding segments, which it makes when it removes all of them, can stop
    the program; what this read yields otherwise does not matter. *)
Theorem sender_emits_stream (S : bytes) (capacity rt random : Z) (fixed_isn : option WrappingInt32)
    (isn : WrappingInt32) (sent : list TCPSegment) (s : TCPSender) :
  default (WrappingInt32_of random) fixed_isn = isn → wf_WrappingInt32 isn → is_u64 capacity → slen S + 2 < 0x10000000000000000 →
  strace S (TCPSender_new capacity rt fixed_isn random) sent s →
  Forall (emits S isn) sent ∧ Forall (emits S isn) (segments_out s) ∧
  (next_seqno_absolute s = 0 ∨
   next_seqno_absolute s = 1 + bytes_read (stream_in s) + (if _fin_sent s then 1 else 0)) ∧
  (∃ s', fill_window s = Ok s') ∧
  (∀ end_header ackno w, is_u16 w → (∃ s', ack_received end_header s ackno w = Ok s') ∨
     (ack_received end_header s ackno w = Throw Undefined ∧
      unacked (raw_value ackno) (_outstanding_segments s) = [] ∧ ∃ l, end_header l = None)).
Proof.
  intros <- Hisn Hc HS Htr.
  destruct (strace_sinv S _ _ _ (TCPSender_new_sinv S capacity rt fixed_isn random Hisn Hc HS) Htr)
    as (Hs & Hi & Hl). simpl in Hi, Hl. split; [done|]. split; [|split; [|split]].
  - rewrite <- Hi. apply (si_out _ _ (proj1 Hs)).
  - destruct Hs as [_ [(H0 & _)|Hn]]; [by left|by right].
  - destruct (fill_window_spec S s Hs) as (s' & ? & _). by exists s'.
  - intros end_header ackno w Hw. destruct (ack_effect_spec S s ackno w Hs Hw) as (s' & Hr & _).
    destruct (ack_received_cases end_header s ackno w) as [->|?]; [left; by exists s'|by right].
Qed.

Definition sample_sender : TCPSender := TCPSender_new 16 1000 (Some (mkWrappingInt32 0xfffffffe)) 0.

Lemma sender_emits_stream_witness :
  Forall (emits [1; 2; 3] (mkWrappingInt32 0xfffffffe)) [numbered sample_sender syn_segment].
Proof.
  apply (sender_emits_stream [1; 2; 3] 16 1000 0 (Some (mkWrappingInt32 0xfffffffe))
           (mkWrappingInt32 0xfffffffe) [numbered sample_sender syn_segment] (set_segments_out (after_syn sample_sender) []));
    [done|concrete|concrete|concrete|].
  apply (strace_step _ _ [] (after_syn sample_sender) [_]).
  - apply (strace_step _ _ [] sample_sender []); [constructor|]. apply step_fill. concrete.
  - by apply step_pop.
Defined.

(** C10: [fill_window] sends all it may.  The call returns; afterwards the window
    is used up, or every byte written has been sent and so has FIN if the
    input ended.  After the SYN, the numbers sent are taken from the window
    one for one, and no payload exceeds the maximum. *)
Theorem fill_window_fills (S : bytes) (s : TCPSender) :
  sinv S s →
  ∃ s', fill_window s = Ok s' ∧ sinv S s' ∧
    (_window_size s' = 0 ∨
     (buffer_empty (stream_in s') = true ∧ (input_ended (stream_in s') = true → _fin_sent s' = true))) ∧
    (_next_seqno s ≠ 0 →
     _next_seqno s' - _next_seqno s = _window_size s - _window_size s' ∧
     ∃ new, segments_out s' = segments_out s ++ new ∧
       Forall (λ seg, slen (str (payload seg)) <= MAX_PAYLOAD_SIZE ∧ 0 < length_in_sequence_space seg) new).
Proof.
  intros Hs. destruct (fill_window_spec S s Hs) as (s' & Hf & Hs' & Hfill & _ & Hsent).
  exists s'. split_and!; try done. intros Hn. unfold after_syn in Hsent.
  destruct (_ =? 0) eqn:E; [lia|]. destruct Hsent as [_ Hsp _ (new & ? & ? & _)].
  split; [lia|by exists new].
Qed.

Lemma fill_window_fills_witness :
  ∃ s', fill_window sample_sender = Ok s' ∧ sinv [1; 2; 3] s'.
Proof.
  destruct (fill_window_fills [1; 2; 3] sample_sender) as (s' & ? & ? & _); [|by exists s'].
  apply TCPSender_new_sinv; concrete.
Defined.

(** C11: outstanding data is accounted for.  While the numbers of the stream do
    not wrap, in every reachable state the outstanding segments are
    contiguous up to the next number, in order, and [bytes_in_flight] is the
    distance from the first of them. *)
Theorem flight_accounting (S : bytes) (capacity rt random : Z) (fixed_isn : option WrappingInt32)
    (isn : WrappingInt32) (sent : list TCPSegment) (s : TCPSender) :
  default (WrappingInt32_of random) fixed_isn = isn → wf_WrappingInt32 isn → is_u64 capacity → fits S isn →
  strace S (TCPSender_new capacity rt fixed_isn random) sent s →
  ∃ lo, 0 <= lo ∧ contiguous isn lo (_outstanding_segments s) (_next_seqno s) ∧
    bytes_in_flight s = _next_seqno s - lo.
Proof.
  intros <- Hisn Hc Hfit Htr. assert (slen S + 2 < 0x10000000000000000) as HS by (destruct Hfit; lia).
  pose proof (TCPSender_new_sinv S capacity rt fixed_isn random Hisn Hc HS) as Hnew.
  destruct (strace_sinv S _ _ _ Hnew Htr) as (Hs & Hi & _). simpl in Hi.
  destruct (strace_flight S _ _ _ 0 Hnew Hfit ltac:(lia) ltac:(done) Htr) as (lo & Hlo & Hfl).
  exists lo. split; [done|]. pose proof (sinv_next S s Hs). split.
  - unfold flight in Hfl. by rewrite Hi in Hfl.
  - apply bytes_in_flight_eq; [done|done|lia].
Qed.

Definition small_sender : TCPSender := TCPSender_new 16 1000 (Some (mkWrappingInt32 7)) 0.

Lemma flight_accounting_witness :
  ∃ lo, 0 <= lo ∧
    contiguous (mkWrappingInt32 7) lo (_outstanding_segments (after_syn small_sender)) 1 ∧
    bytes_in_flight (after_syn small_sender) = 1 - lo.
Proof.
  apply (flight_accounting [1; 2; 3] 16 1000 0 (Some (mkWrappingInt32 7)) (mkWrappingInt32 7) []
    (after_syn small_sender)); [done|concrete|concrete|concrete|].
  apply (strace_step _ _ [] small_sender []); [constructor|]. apply step_fill. concrete.
Defined.

(** C12: an acknowledgment removes what it covers and nothing else.  While the
    numbers do not wrap, an acceptable acknowledgment of the number [a] splits
    the outstanding segments in two: those before, which all end at or before
    [a], are removed, and those from the first on that ends after [a] are kept.
    What is then in flight is contiguous up to the next number and counted
    exactly.  If nothing is kept the code has read through the end of the list:
    the call returns all the same, whatever header this read yields, unless it
    stops the program. *)
Theorem ack_removes_covered (end_header : list TCPSegment → option TCPHeader) (S : bytes) (s : TCPSender)
    (a w lo : Z) :
  sinv S s → is_u16 w → fits S (_isn s) → 0 <= lo → flight lo s →
  0 <= a <= _next_seqno s → _highest_ackno s <= raw_value (_isn s) + a →
  ∃ removed kept lo', _outstanding_segments s = removed ++ kept ∧
    contiguous (_isn s) lo removed lo' ∧ (removed = [] ∨ lo' <= a) ∧
    contiguous (_isn s) lo' kept (_next_seqno s) ∧
    (∀ seg rest, kept = seg :: rest → a < lo' + length_in_sequence_space seg) ∧
    ((∃ s', ack_received end_header s (wrap a (_isn s)) w = Ok s' ∧
        contiguous (_isn s) lo' (_outstanding_segments s') (_next_seqno s') ∧
        bytes_in_flight s' = _next_seqno s' - lo' ∧ ∀ seg, seg ∈ kept → seg ∈ _outstanding_segments s') ∨
     (ack_received end_header s (wrap a (_isn s)) w = Throw Undefined ∧ kept = [] ∧ ∃ l, end_header l = None)).
Proof.
  intros Hs Hw Hfit Hlo Hfl Ha Hh. pose proof (sinv_next S s Hs).
  assert (no_wrap (_isn s) (_next_seqno s)) as Hnw by (apply (fits_next S); [done|done|lia]).
  assert (raw_value (wrap a (_isn s)) = raw_value (_isn s) + a) as Hraw by (by apply (wrap_no_wrap _ _ _ Hnw)).
  destruct (unacked_split (_isn s) lo (_outstanding_segments s) (_next_seqno s) a Hnw
              ltac:(destruct Hfit; lia) Hlo Hfl) as (removed & lo' & H1 & H2 & H3 & H4 & H5).
  exists removed, (unacked (raw_value (_isn s) + a) (_outstanding_segments s)), lo'. split_and!; try done.
  destruct (ack_received_cases end_header s (wrap a (_isn s)) w) as [->|Hu]; [left|right; by rewrite Hraw in Hu].
  unfold ack_effect, next_seqno. rewrite Hraw, (wrap_no_wrap _ _ _ Hnw) by lia.
  destruct (_ || _) eqn:E; [apply orb_prop in E; lia|].
  set (s1 := ack_update s (raw_value (_isn s) + a) w).
  destruct (ack_update_fields s (raw_value (_isn s) + a) w) as (E1 & _ & _ & E4 & _ & E6 & _). fold s1 in E1, E4, E6.
  assert (sinv S s1) as Hs1 by (by apply ack_update_sinv).
  destruct (fill_window_spec S s1 Hs1) as (s' & Hf & Hs' & _ & _ & Hsent).
  exists s'. pose proof (contiguous_le _ _ _ _ H2). assert (flight lo' s') as Hfl'.
  { apply (fill_window_flight S s1); [done|by rewrite E1|lia| |done]. unfold flight. by rewrite E1, E4, E6. }
  assert (_isn s' = _isn s) as Hi by (rewrite (sends_isn _ _ Hsent), after_syn_isn; done).
  pose proof (sinv_next S s' Hs'). split_and!; try done.
  - unfold flight in Hfl'. by rewrite Hi in Hfl'.
  - apply bytes_in_flight_eq; [done|lia|destruct Hfit; lia].
  - intros seg Hseg. apply (sends_keeps _ _ Hsent), after_syn_keeps. by rewrite E6.
Qed.

Lemma ack_removes_covered_witness :
  ∃ removed kept lo', _outstanding_segments (after_syn small_sender) = removed ++ kept ∧
    (removed = [] ∨ lo' <= 1) ∧ (∀ seg rest, kept = seg :: rest → 1 < lo' + length_in_sequence_space seg).
Proof.
  destruct (ack_removes_covered (λ _, Some TCPHeader_default) [1; 2; 3] (after_syn small_sender) 1 5 0)
    as (removed & kept & lo' & ? & _ & ? & _ & ? & _);
    [|concrete|concrete|concrete|concrete|concrete|concrete|by exists removed, kept, lo'].
  apply after_syn_spec, TCPSender_new_sinv; concrete.
Defined.

(** C24: the retransmission timer.  In every reachable state the timer runs while
    segments are outstanding, the timeout is the initial one doubled once per
    consecutive retransmission, and there are at most nine of those. *)
Theorem backoff_invariant (S : bytes) (capacity rt random : Z) (fixed_isn : option WrappingInt32)
    (isn : WrappingInt32) (sent : list TCPSegment) (s : TCPSender) :
  default (WrappingInt32_of random) fixed_isn = isn → wf_WrappingInt32 isn → is_u64 capacity → is_u16 rt → slen S + 2 < 0x10000000000000000 →
  strace S (TCPSender_new capacity rt fixed_isn random) sent s →
  (_outstanding_segments s ≠ [] → _retransmission_timer_on s = true) ∧
  _retransmission_timeout s = _initial_retransmission_timeout s * 2 ^ consecutive_retransmissions s ∧
  0 <= consecutive_retransmissions s <= MAX_RETX_ATTEMPTS + 1.
Proof.
  intros <- Hisn Hc Hrt HS Htr.
  assert (tinv (TCPSender_new capacity rt fixed_isn random)) as Hnew.
  { split; [by intros []|]. unfold backoff_ok, MAX_RETX_ATTEMPTS. simpl. split_and!; [lia|lia|lia|done..]. }
  destruct (strace_tinv S _ _ _ (TCPSender_new_sinv S capacity rt fixed_isn random Hisn Hc HS) Hnew Htr)
    as (Hl & Ht & Hn & _). done.
Qed.

Lemma backoff_invariant_witness :
  _retransmission_timer_on (after_syn sample_sender) = true.
Proof.
  apply (backoff_invariant [1; 2; 3] 16 1000 0 (Some (mkWrappingInt32 0xfffffffe))
    (mkWrappingInt32 0xfffffffe) []); [done|concrete|concrete|concrete|concrete| |concrete].
  apply (strace_step _ _ [] sample_sender []); [constructor|]. apply step_fill. concrete.
Defined.

(** C25: expiry.  With segments outstanding and attempts left, a tick that brings
    the timer to the timeout queues the oldest outstanding segment again,
    restarts the timer and, unless the receiver's window is closed, doubles
    the timeout and counts the attempt; a tick that does not reach the timeout
    only advances the timer.  The tick must not overflow the 32-bit timer. *)
Theorem tick_retransmits (s : TCPSender) (ms : Z) (seg : TCPSegment) (rest : list TCPSegment) :
  tinv s → _outstanding_segments s = seg :: rest →
  consecutive_retransmissions s <= MAX_RETX_ATTEMPTS →
  is_u32 (_retransmission_timer s + ms) →
  if decide (_retransmission_timeout s <= _retransmission_timer s + ms) then
    segments_out (tick s ms) = segments_out s ++ [seg] ∧
    _retransmission_timer (tick s ms) = 0 ∧
    consecutive_retransmissions (tick s ms) =
      consecutive_retransmissions s + (if _window_empty s then 0 else 1) ∧
    _retransmission_timeout (tick s ms) = _retransmission_timeout s * (if _window_empty s then 1 else 2)
  else tick s ms = set_timer s true (_retransmission_timer s + ms).
Proof.
  intros Ht Ho Hc Hu. pose proof (tick_tinv s ms Ht) as (_ & Hb' & Hc' & _).
  destruct Ht as (Hl & Hb & Hc0 & _). revert Hb' Hc'. unfold tick, consecutive_retransmissions in *.
  rewrite (Hl ltac:(by rewrite Ho)). destruct (_ || _) eqn:E; [simpl in E; lia|]. simpl. rewrite Ho.
  rewrite u32_small by done. unfold MAX_RETX_ATTEMPTS in *.
  case_decide as Hd; destruct (_ <=? _) eqn:Ele; try lia; [|done].
  destruct (_window_empty s); simpl; [intros; split_and!; try done; lia|].
  rewrite u32_small by (unfold_width; lia). rewrite Z.pow_add_r, Z.pow_1_r, Z.mul_assoc, <- Hb by lia.
  intros; split_and!; done.
Qed.

Lemma tick_retransmits_witness :
  segments_out (tick (after_syn sample_sender) 1000) =
    segments_out (after_syn sample_sender) ++ [numbered sample_sender syn_segment] ∧
  _retransmission_timer (tick (after_syn sample_sender) 1000) = 0 ∧
  consecutive_retransmissions (tick (after_syn sample_sender) 1000) = 1 ∧
  _retransmission_timeout (tick (after_syn sample_sender) 1000) = 2000.
Proof.
  apply (tick_retransmits (after_syn sample_sender) 1000 (numbered sample_sender syn_segment) []);
    [|concrete|concrete|concrete].
  apply after_syn_tinv. split; [by intros []|concrete].
Defined.

(** The window is granted anew.  An acknowledgment that moves the right edge
    of the window sets the window to the advertised size, whatever is still
    in flight: with enough bytes to send, exactly that many follow the next
    number, beyond the advertised right edge, as something is still in flight. *)
Theorem window_overrun (end_header : list TCPSegment → option TCPHeader) (S : bytes) (s : TCPSender)
    (ackno : WrappingInt32) (w : Z) :
  sinv S s → unacked (raw_value ackno) (_outstanding_segments s) ≠ [] → 0 < _next_seqno s → _fin_sent s = false → 0 < w < 0x10000 →
  raw_value ackno <= raw_value (next_seqno s) → _highest_ackno s <= raw_value ackno →
  _highest_ackno_right s < u32 (raw_value ackno + w) → w <= buffer_size (stream_in s) →
  ∃ s', ack_received end_header s ackno w = Ok s' ∧ _next_seqno s' = _next_seqno s + w.
Proof.
  intros Hs Hk Hn Hfin Hw Hle Hh Hr Hbuf.
  destruct (ack_received_cases end_header s ackno w) as [->|(_ & ? & _)]; [|done]. unfold ack_effect.
  destruct (_ || _) eqn:E; [apply orb_prop in E; lia|].
  set (s1 := ack_update s (raw_value ackno) w).
  assert (sinv S s1) as Hs1 by (apply ack_update_sinv; [done|unfold_width; lia]).
  destruct (ack_update_fields s (raw_value ackno) w) as (_ & _ & E3 & E4 & E5 & _). fold s1 in E3, E4, E5.
  assert (_window_size s1 = w) as Hw1.
  { unfold s1, ack_update, ack_window. destruct (w =? 0) eqn:Ew; [lia|]. simpl.
    destruct (_ <? u32 _) eqn:Er; [|lia]. by case_match. }
  destruct (fill_window_spec S s1 Hs1) as (s' & Hf & Hs' & Hfill & _ & Hsent).
  exists s'. split; [done|]. unfold after_syn in Hsent. rewrite E4 in Hsent.
  destruct (_ =? 0) eqn:E0; [lia|]. destruct Hsent as [_ Hsp Hnx _ Hbw _ _ _ _ _ _].
  rewrite E3 in *. rewrite Hw1, E4 in *.
  pose proof (si_window _ _ (proj1 Hs')) as Hwin. destruct Hfill as [?|[Hbe _]]; [lia|].
  destruct Hs as [Hb Hnext], Hs' as [Hb' Hnext']. rewrite Hfin in Hnext.
  pose proof (si_count _ _ Hb). pose proof (si_count _ _ Hb') as Hc'.
  unfold stream_in, buffer_empty, buffer_size in *. unfold_width. destruct (_fin_sent s'); lia.
Qed.

Definition loaded_sender (isn : Z) : TCPSender :=
  after_syn (set_stream (TCPSender_new 16 1000 (Some (mkWrappingInt32 isn)) 0)
               (mkByteStream 16 [1; 2; 3; 4; 5; 6] false 6 0 false)).

Lemma loaded_sender_sinv isn : is_u32 isn → sinv [1; 2; 3; 4; 5; 6] (loaded_sender isn).
Proof.
  intros Hi. apply after_syn_spec. split; [|by left].
  assert (agree [1; 2; 3; 4; 5; 6] 0 [1; 2; 3; 4; 5; 6]) by (by apply agree_compute).
  by split.
Qed.

Lemma window_overrun_witness :
  ∃ s', ack_received (λ _, None) (loaded_sender 7) (mkWrappingInt32 7) 5 = Ok s' ∧ _next_seqno s' = 6.
Proof.
  apply (window_overrun (λ _, None) [1; 2; 3; 4; 5; 6] (loaded_sender 7) (mkWrappingInt32 7) 5);
    [|done|concrete|concrete|concrete|concrete|concrete|concrete|concrete].
  apply loaded_sender_sinv. concrete.
Defined.

(** Numbers that wrap are not acknowledged.  The oldest outstanding segment,
    when its last number lies past the end of the 32-bit space, stays
    outstanding after every acknowledgment: the comparison is made between
    numbers that have not been unwrapped. *)
Theorem wrapped_segment_never_acked (end_header : list TCPSegment → option TCPHeader) (S : bytes) (s : TCPSender)
    (seg : TCPSegment) (rest : list TCPSegment) (ackno : WrappingInt32) (w : Z) :
  sinv S s → is_u16 w → wf_WrappingInt32 ackno →
  _outstanding_segments s = seg :: rest →
  0x100000000 <= raw_value (seqno (header seg)) + length_in_sequence_space seg < 0x10000000000000000 →
  ∃ s', ack_received end_header s ackno w = Ok s' ∧ seg ∈ _outstanding_segments s'.
Proof.
  intros Hs Hw Ha Ho Hl.
  assert (unacked (raw_value ackno) (_outstanding_segments s) = seg :: rest) as Hk.
  { rewrite Ho. cbn [unacked]. rewrite u64_small by (unfold_width; lia).
    destruct (_ <? _) eqn:E; [unfold wf_WrappingInt32 in Ha; unfold_width; lia|done]. }
  destruct (ack_received_cases end_header s ackno w) as [->|(_ & ? & _)]; [|congruence].
  destruct (ack_effect_spec S s ackno w Hs Hw) as (s' & Hr & _ & Hsent). exists s'. split; [done|].
  destruct Hsent as [->|Hsent]; [rewrite Ho; apply list_elem_of_here|].
  apply (sends_keeps _ _ Hsent). apply after_syn_keeps.
  destruct (ack_update_fields s (raw_value ackno) w) as (_ & _ & _ & _ & _ & -> & _).
  rewrite Hk. apply list_elem_of_here.
Qed.

Lemma wrapped_segment_never_acked_witness :
  ∃ s', ack_received (λ _, None) (loaded_sender 0xffffffff) (mkWrappingInt32 0) 5 = Ok s' ∧
    set_header syn_segment (with_seqno (header syn_segment) (mkWrappingInt32 0xffffffff))
      ∈ _outstanding_segments s'.
Proof.
  apply (wrapped_segment_never_acked (λ _, None) [1; 2; 3; 4; 5; 6] (loaded_sender 0xffffffff) _ [] (mkWrappingInt32 0) 5);
    [|concrete|concrete|concrete|concrete].
  apply loaded_sender_sinv. concrete.
Defined.
