(* ===== verification/TCPState.v ===== *)
(** * The summary of a connection's state (libsponge/tcp_helpers/tcp_state.{hh,cc}) *)

From stdpp Require Import strings.
From S2P Require Import Prelude ByteStream TCPReceiver TCPSender.
From stdpp Require Import options.

Local Open Scope Z_scope.

Module TCPReceiverStateSummary.
Definition ERROR : string := "error (connection was reset)".
Definition LISTEN : string := "waiting for SYN: ackno is empty".
Definition SYN_RECV : string := "SYN received (ackno exists), and input to stream hasn't ended".
Definition FIN_RECV : string := "input to stream has ended".
End TCPReceiverStateSummary.

Module TCPSenderStateSummary.
Definition ERROR : string := "error (connection was reset)".
Definition CLOSED : string := "waiting for stream to begin (no SYN sent)".
Definition SYN_SENT : string := "stream started but nothing acknowledged".
Definition SYN_ACKED : string := "stream ongoing".
Definition FIN_SENT : string := "stream finished (FIN sent) but not fully acknowledged".
Definition FIN_ACKED : string := "stream finished and fully acknowledged".
End TCPSenderStateSummary.

Record TCPState := mkTCPState {
  _sender : string;
  _receiver : string;
  _active : bool;
  _linger_after_streams_finish : bool
}.

Inductive State :=
| LISTEN | SYN_RCVD | SYN_SENT | ESTABLISHED | CLOSE_WAIT | LAST_ACK
| FIN_WAIT_1 | FIN_WAIT_2 | CLOSING | TIME_WAIT | CLOSED | RESET.

#[export] Instance TCPState_eq_dec : EqDecision TCPState.
Proof. solve_decision. Defined.

#[export] Instance State_eq_dec : EqDecision State.
Proof. solve_decision. Defined.

(** [operator==]. *)
Definition state_eqb (a b : TCPState) : bool :=
  Bool.eqb (_active a) (_active b) &&
  Bool.eqb (_linger_after_streams_finish a) (_linger_after_streams_finish b) &&
  String.eqb (_sender a) (_sender b) && String.eqb (_receiver a) (_receiver b).

Definition state_neqb (a b : TCPState) : bool := negb (state_eqb a b).

Definition bool_to_string (b : bool) : string := if b then "1" else "0".

Definition name (s : TCPState) : string :=
  "sender=`" +:+ _sender s +:+ "`, receiver=`" +:+ _receiver s +:+ "`, active=" +:+
  bool_to_string (_active s) +:+ ", linger_after_streams_finish=" +:+
  bool_to_string (_linger_after_streams_finish s).

(** The constructor from an official state; the members start as [true]. *)
Definition TCPState_of_State (state : State) : TCPState :=
  match state with
  | LISTEN => mkTCPState TCPSenderStateSummary.CLOSED TCPReceiverStateSummary.LISTEN true true
  | SYN_RCVD => mkTCPState TCPSenderStateSummary.SYN_SENT TCPReceiverStateSummary.SYN_RECV true true
  | SYN_SENT => mkTCPState TCPSenderStateSummary.SYN_SENT TCPReceiverStateSummary.LISTEN true true
  | ESTABLISHED => mkTCPState TCPSenderStateSummary.SYN_ACKED TCPReceiverStateSummary.SYN_RECV true true
  | CLOSE_WAIT => mkTCPState TCPSenderStateSummary.SYN_ACKED TCPReceiverStateSummary.FIN_RECV true false
  | LAST_ACK => mkTCPState TCPSenderStateSummary.FIN_SENT TCPReceiverStateSummary.FIN_RECV true false
  | CLOSING => mkTCPState TCPSenderStateSummary.FIN_SENT TCPReceiverStateSummary.FIN_RECV true true
  | FIN_WAIT_1 => mkTCPState TCPSenderStateSummary.FIN_SENT TCPReceiverStateSummary.SYN_RECV true true
  | FIN_WAIT_2 => mkTCPState TCPSenderStateSummary.FIN_ACKED TCPReceiverStateSummary.SYN_RECV true true
  | TIME_WAIT => mkTCPState TCPSenderStateSummary.FIN_ACKED TCPReceiverStateSummary.FIN_RECV true true
  | RESET => mkTCPState TCPSenderStateSummary.ERROR TCPReceiverStateSummary.ERROR false false
  | CLOSED => mkTCPState TCPSenderStateSummary.FIN_ACKED TCPReceiverStateSummary.FIN_RECV false false
  end.

Definition receiver_summary (receiver : TCPReceiver) : string :=
  if error (TCPReceiver.stream_out receiver) then TCPReceiverStateSummary.ERROR
  else if negb (match ackno receiver with Some _ => true | None => false end)
  then TCPReceiverStateSummary.LISTEN
  else if input_ended (TCPReceiver.stream_out receiver) then TCPReceiverStateSummary.FIN_RECV
  else TCPReceiverStateSummary.SYN_RECV.

Definition sender_summary (sender : TCPSender) : string :=
  if error (stream_in sender) then TCPSenderStateSummary.ERROR
  else if next_seqno_absolute sender =? 0 then TCPSenderStateSummary.CLOSED
  else if next_seqno_absolute sender =? bytes_in_flight sender then TCPSenderStateSummary.SYN_SENT
  else if negb (eof (stream_in sender)) then TCPSenderStateSummary.SYN_ACKED
  else if next_seqno_absolute sender <? u64 (bytes_written (stream_in sender) + 2)
  then TCPSenderStateSummary.SYN_ACKED
  else if negb (bytes_in_flight sender =? 0) then TCPSenderStateSummary.FIN_SENT
  else TCPSenderStateSummary.FIN_ACKED.

(** The constructor from a sender, a receiver and the two flags of a connection. *)
Definition TCPState_of (sender : TCPSender) (receiver : TCPReceiver) (active linger : bool) : TCPState :=
  mkTCPState (sender_summary sender) (receiver_summary receiver) active (if active then linger else false).

(** ** Lemmas *)

Lemma state_eqb_eq a b : state_eqb a b = true ↔ a = b.
Proof.
  unfold state_eqb. rewrite !andb_true_iff, !eqb_true_iff, !String.eqb_eq.
  destruct a, b; simpl. split; [by intros (((-> & ->) & ->) & ->)|by intros [= -> -> -> ->]].
Qed.

(** The official states are told apart by their summaries. *)
Lemma TCPState_of_State_inj : Inj (=) (=) TCPState_of_State.
Proof. intros [] [] H; vm_compute in H; congruence. Qed.
