(* ===== verification/TCPConnection.v ===== *)
(** * The TCP connection (libsponge/tcp_connection.{hh,cc})

    One endpoint: a sender, a receiver, the queue of segments for the network
    and the flags that decide how long the endpoint lives. *)

From S2P Require Import Prelude WrappingIntegers ByteStream StreamReassembler Buffer TCPHeader.
From S2P Require Import TCPSegment TCPConfig StreamSegments TCPReceiver TCPSender TCPState.
From stdpp Require Import options.

(** ** Data *)

Record TCPConnection := mkTCPConnection {
  _cfg : TCPConfig;
  _receiver : TCPReceiver;
  _sender : TCPSender;
  _segments_out : list TCPSegment;
  _linger_after_streams_finish : bool;
  _active : bool;
  _time_since_last_segment_received : Z
}.

(** [random] is what the sender's [random_device()()] yields. *)
Definition TCPConnection_new (cfg : TCPConfig) (random : Z) : TCPConnection :=
  mkTCPConnection cfg (TCPReceiver_new (recv_capacity cfg))
    (TCPSender_new (send_capacity cfg) (rt_timeout cfg) (fixed_isn cfg) random)
    [] true false 0.

(** Assignments to the members. *)
Definition set_receiver (c : TCPConnection) (r : TCPReceiver) : TCPConnection :=
  mkTCPConnection (_cfg c) r (_sender c) (_segments_out c) (_linger_after_streams_finish c)
    (_active c) (_time_since_last_segment_received c).

Definition set_sender (c : TCPConnection) (s : TCPSender) : TCPConnection :=
  mkTCPConnection (_cfg c) (_receiver c) s (_segments_out c) (_linger_after_streams_finish c)
    (_active c) (_time_since_last_segment_received c).

Definition set_segments_out (c : TCPConnection) (q : list TCPSegment) : TCPConnection :=
  mkTCPConnection (_cfg c) (_receiver c) (_sender c) q (_linger_after_streams_finish c)
    (_active c) (_time_since_last_segment_received c).

Definition set_linger (c : TCPConnection) (b : bool) : TCPConnection :=
  mkTCPConnection (_cfg c) (_receiver c) (_sender c) (_segments_out c) b
    (_active c) (_time_since_last_segment_received c).

Definition set_active (c : TCPConnection) (b : bool) : TCPConnection :=
  mkTCPConnection (_cfg c) (_receiver c) (_sender c) (_segments_out c) (_linger_after_streams_finish c)
    b (_time_since_last_segment_received c).

Definition set_time (c : TCPConnection) (t : Z) : TCPConnection :=
  mkTCPConnection (_cfg c) (_receiver c) (_sender c) (_segments_out c) (_linger_after_streams_finish c)
    (_active c) t.

(** ** Accessors *)

Definition segments_out (c : TCPConnection) : list TCPSegment := _segments_out c.

Definition inbound_stream (c : TCPConnection) : ByteStream := TCPReceiver.stream_out (_receiver c).

Definition remaining_outbound_capacity (c : TCPConnection) : Z :=
  remaining_capacity (stream_in (_sender c)).

Definition bytes_in_flight (c : TCPConnection) : Z := TCPSender.bytes_in_flight (_sender c).

Definition unassembled_bytes (c : TCPConnection) : Z := TCPReceiver.unassembled_bytes (_receiver c).

Definition time_since_last_segment_received (c : TCPConnection) : Z :=
  _time_since_last_segment_received c.

Definition active (c : TCPConnection) : bool := _active c || _linger_after_streams_finish c.

Definition state (c : TCPConnection) : TCPState :=
  TCPState_of (_sender c) (_receiver c) (active c) (_linger_after_streams_finish c).

(** ** Private methods *)

Definition shutdown (c : TCPConnection) : TCPConnection := set_linger (set_active c false) false.

Definition map_inbound (f : ByteStream → ByteStream) (r : TCPReceiver) : TCPReceiver :=
  set_reassembler r (set_output (_reassembler r) (f (TCPReceiver.stream_out r))).

Definition streams_set_err (c : TCPConnection) : TCPConnection :=
  let c := set_receiver c (map_inbound ByteStream.set_error (_receiver c)) in
  set_sender c (set_stream (_sender c) (ByteStream.set_error (stream_in (_sender c)))).

Definition rst_segment : TCPSegment := set_header TCPSegment_default (with_rst TCPHeader_default).

Definition send_rst (c : TCPConnection) : TCPConnection :=
  let c := set_segments_out c (_segments_out c ++ [rst_segment]) in
  streams_set_err (shutdown c).

(** The acknowledgment that [send_segments] adds; [header.win] is a [uint16_t]. *)
Definition stamp (r : TCPReceiver) (seg : TCPSegment) : TCPSegment :=
  match ackno r with
  | Some a => set_header seg (with_ack (header seg) a (u16 (window_size r)))
  | None => seg
  end.

Definition send_segments (c : TCPConnection) : TCPConnection :=
  let q := TCPSender.segments_out (_sender c) in
  let c := set_segments_out c (_segments_out c ++ map (stamp (_receiver c)) q) in
  set_sender c (TCPSender.set_segments_out (_sender c) []).

Definition connect_sender (c : TCPConnection) : result TCPConnection :=
  let c := set_active c true in
  s ← fill_window (_sender c);
  Ok (set_sender c s).

Definition update_sender (c : TCPConnection) : result TCPConnection :=
  s ← fill_window (_sender c);
  Ok (send_segments (set_sender c s)).

Definition update_connection_status (c : TCPConnection) : TCPConnection :=
  if input_ended (TCPReceiver.stream_out (_receiver c)) then
    if negb (input_ended (stream_in (_sender c))) then set_linger c false
    else if (bytes_in_flight c =? 0) && negb (_linger_after_streams_finish c) then shutdown c
    else c
  else c.

(** ** Public methods *)

Definition connect (c : TCPConnection) : result TCPConnection :=
  c ← connect_sender c; Ok (send_segments c).

Definition write (c : TCPConnection) (data : bytes) : result (TCPConnection * Z) :=
  '(b, size) ← ByteStream.write (stream_in (_sender c)) data;
  c ← update_sender (set_sender c (set_stream (_sender c) b));
  Ok (c, size).

Definition end_input_stream (c : TCPConnection) : result TCPConnection :=
  update_sender (set_sender c (set_stream (_sender c) (end_input (stream_in (_sender c))))).

Definition tick (c : TCPConnection) (ms_since_last_tick : Z) : TCPConnection :=
  let c := set_time c (u64 (_time_since_last_segment_received c + ms_since_last_tick)) in
  let c := set_sender c (TCPSender.tick (_sender c) ms_since_last_tick) in
  let c := send_segments c in
  let c :=
    if MAX_RETX_ATTEMPTS <? consecutive_retransmissions (_sender c)
    then send_rst (set_segments_out c []) else c in
  if input_ended (TCPReceiver.stream_out (_receiver c)) && input_ended (stream_in (_sender c)) &&
     (TCPSender.bytes_in_flight (_sender c) =? 0) &&
     (10 * rt_timeout (_cfg c) <=? time_since_last_segment_received c)
  then shutdown c else c.

Definition destruct_connection (c : TCPConnection) : TCPConnection :=
  if active c then send_rst c else c.

(** The reads that C++ leaves undefined: that of [rend()] by the reassembler, and
    that through the end of the outstanding segments by the sender. *)
Record Reads := mkReads {
  rend_index : list ByteString → option Z;
  end_header : list TCPSegment → option TCPHeader
}.

Section Receive.
Context (reads : Reads).

(** After the activation and the check for RST. *)
Definition segment_processed (c : TCPConnection) (seg : TCPSegment) : result TCPConnection :=
  let h := header seg in
  r ← TCPReceiver.segment_received (rend_index reads) (_receiver c) seg;
  let c := set_receiver c r in
  s ← (if ack h then ack_received (end_header reads) (_sender c) (TCPHeader.ackno h) (win h) else Ok (_sender c));
  let s :=
    if (match TCPSender.segments_out s with [] => true | _ => false end) &&
       (0 <? length_in_sequence_space seg)
    then send_empty_segment s else s in
  Ok (update_connection_status (send_segments (set_sender c s))).

Definition segment_received (c : TCPConnection) (seg : TCPSegment) : result TCPConnection :=
  let h := header seg in
  let c := set_time c 0 in
  if negb (_active c) && negb (syn h) then Ok c
  else
    c ← (if negb (_active c) then connect_sender c else Ok c);
    if rst h then Ok (streams_set_err (shutdown c))
    else segment_processed c seg.

End Receive.

(** ** Invariant *)

(** [So] is the stream that this endpoint sends from [io], [Si] the one its
    peer sends from [ii]. *)
Record cinv (So Si : bytes) (io ii : WrappingInt32) (c : TCPConnection) : Prop := {
  ci_sender : sinv So (_sender c);
  ci_isn : _isn (_sender c) = io;
  ci_receiver : rinv Si ii (_receiver c);
  ci_out : Forall (emits So io) (_segments_out c)
}.

Lemma carries_stamp S isn r seg : carries S isn seg → carries S isn (stamp r seg).
Proof.
  unfold stamp. case_match; [|done]. intros (Hs & Hd & _). split_and!; [done|done|]. apply u16_range.
Qed.

Lemma emits_stamp S isn r seg : emits S isn seg → emits S isn (stamp r seg).
Proof.
  intros [Hc ([] & Hd & Hl)]. split; [by apply carries_stamp|]. unfold stamp. destruct (ackno r) as [a|] eqn:E; [|done].
  split; [|done]. split; try done; simpl; [|apply u16_range].
  unfold ackno in E. destruct (negb _); [done|]. injection E as <-. apply u32_range.
Qed.

Lemma sinv_set_error S s : sinv S s → sinv S (set_stream s (ByteStream.set_error (stream_in s))).
Proof. intros [[] Hn]. by split. Qed.

Lemma sinv_no_segments S s : sinv S s → sinv S (TCPSender.set_segments_out s []).
Proof. intros [[] Hn]. by split. Qed.

Lemma rinv_set_error S isn r : rinv S isn r → rinv S isn (map_inbound ByteStream.set_error r).
Proof. intros [Hi Hc Hs]. split; [|done|done]. by apply inv_output. Qed.

Section Invariant.
Context (So Si : bytes) (io ii : WrappingInt32).

Lemma cinv_send_segments c : cinv So Si io ii c → cinv So Si io ii (send_segments c).
Proof.
  intros []. split; simpl; [by apply sinv_no_segments|done|done|].
  apply Forall_app_2; [done|]. apply Forall_map.
  pose proof (si_out _ _ (proj1 ci_sender0)) as H. rewrite ci_isn0 in H.
  eapply Forall_impl; [|exact H]. intros seg Hseg. by apply emits_stamp.
Qed.

Lemma cinv_shutdown c : cinv So Si io ii c → cinv So Si io ii (shutdown c).
Proof. intros []. by split. Qed.

Lemma cinv_set_active c b : cinv So Si io ii c → cinv So Si io ii (set_active c b).
Proof. intros []. by split. Qed.

Lemma cinv_streams_set_err c : cinv So Si io ii c → cinv So Si io ii (streams_set_err c).
Proof. intros []. split; simpl; [by apply sinv_set_error|done|by apply rinv_set_error|done]. Qed.

Lemma cinv_send_rst c : cinv So Si io ii c → cinv So Si io ii (send_rst c).
Proof.
  intros []. apply cinv_streams_set_err, cinv_shutdown. split; simpl; try done.
  apply Forall_app_2; [done|]. apply Forall_singleton. split; [by apply carries_empty|done].
Qed.

Lemma cinv_update_status c : cinv So Si io ii c → cinv So Si io ii (update_connection_status c).
Proof.
  intros Hc. unfold update_connection_status. case_match; [|done]. case_match; [by destruct Hc; split|].
  case_match; [by apply cinv_shutdown|done].
Qed.

Lemma cinv_fill c :
  cinv So Si io ii c → ∃ s, fill_window (_sender c) = Ok s ∧ cinv So Si io ii (set_sender c s).
Proof.
  intros []. destruct (fill_window_spec So _ ci_sender0) as (s & Hf & Hs & _ & _ & Hsent).
  exists s. split; [done|]. split; simpl; try done.
  by rewrite (sends_isn _ _ Hsent), after_syn_isn.
Qed.

Lemma cinv_connect_sender c :
  cinv So Si io ii c → ∃ c', connect_sender c = Ok c' ∧ cinv So Si io ii c' ∧ _receiver c' = _receiver c.
Proof.
  intros Hc. destruct (cinv_fill (set_active c true)) as (s & Hf & Hs); [by destruct Hc; split|].
  unfold connect_sender. rewrite Hf. by eexists.
Qed.

Lemma cinv_update_sender c :
  cinv So Si io ii c → ∃ c', update_sender c = Ok c' ∧ cinv So Si io ii c' ∧ _receiver c' = _receiver c.
Proof.
  intros Hc. destruct (cinv_fill c Hc) as (s & Hf & Hs). unfold update_sender. rewrite Hf.
  eexists. split; [done|]. split; [by apply cinv_send_segments|done].
Qed.

Lemma cinv_ack end_header c ackno w :
  cinv So Si io ii c → is_u16 w →
  or_undefined (ack_received end_header (_sender c) ackno w) (λ s, cinv So Si io ii (set_sender c s)).
Proof.
  intros [] Hw. eapply or_undefined_impl; [by apply (ack_received_spec end_header So _ ackno w ci_sender0)|].
  intros s [Hs Hor]. split; simpl; try done. destruct Hor as [->|Hsent]; [done|].
  rewrite (sends_isn _ _ Hsent), after_syn_isn. rewrite <- ci_isn0. apply ack_update_fields.
Qed.

Lemma cinv_tick c ms : cinv So Si io ii c → cinv So Si io ii (tick c ms).
Proof.
  intros Hc. unfold tick.
  set (c1 := send_segments _). assert (cinv So Si io ii c1) as Hc1.
  { apply cinv_send_segments. destruct Hc. split; simpl; try done; [by apply tick_sinv|by rewrite tick_isn]. }
  clearbody c1. set (c2 := if MAX_RETX_ATTEMPTS <? _ then _ else _).
  assert (cinv So Si io ii c2) as Hc2.
  { unfold c2. destruct (_ <? _); [|done]. apply cinv_send_rst. by destruct Hc1; split. }
  clearbody c2. case_match; [by apply cinv_shutdown|done].
Qed.

(** The number of bytes of the inbound stream that the application has read. *)
Definition taken (c : TCPConnection) : Z := start (_reassembler (_receiver c)).

Context (reads : Reads).
Context (Hii : wf_WrappingInt32 ii) (HSi : slen Si < 0x80000000).

Lemma cinv_segment_processed c seg :
  cinv So Si io ii c → carries Si ii seg →
  or_undefined (segment_processed reads c seg) (λ c', cinv So Si io ii c' ∧ taken c' = taken c).
Proof using Hii HSi.
  intros Hc Hseg. pose proof (proj2 (proj2 Hseg)) as Hw. unfold segment_processed.
  pose proof (rstep_spec (rend_index reads) Si ii Hii HSi (_receiver c) (Segment seg) (ci_receiver _ _ _ _ _ Hc) Hseg) as Hr.
  cbn [rstep] in Hr. destruct (TCPReceiver.segment_received _ (_receiver c) seg) as [r|]; [|done].
  cbn [mbind result_bind] in *. destruct Hr as (Hri & Hst & _).
  assert (cinv So Si io ii (set_receiver c r)) as Hc1 by (by destruct Hc; split).
  eapply or_undefined_bind; [instantiate (1 := λ s, cinv So Si io ii (set_sender (set_receiver c r) s));
    destruct (ack (header seg)); [by apply cinv_ack|by destruct Hc1; split]|].
  intros s Hc2. split.
  - apply cinv_update_status, cinv_send_segments. destruct Hc2. case_match; split; simpl; try done.
    by apply send_empty_segment_sinv.
  - unfold taken. rewrite slen_nil, Z.add_0_r in Hst. rewrite <- Hst.
    unfold update_connection_status. by repeat case_match.
Qed.

Lemma cinv_segment_received c seg :
  cinv So Si io ii c → carries Si ii seg →
  or_undefined (segment_received reads c seg) (λ c', cinv So Si io ii c' ∧ taken c' = taken c).
Proof using Hii HSi.
  intros Hc Hseg. unfold segment_received. set (c0 := set_time c 0).
  assert (cinv So Si io ii c0) as Hc0 by (by destruct Hc; split).
  assert (taken c0 = taken c) as Ht0 by done. clearbody c0.
  destruct (negb _ && _); [done|].
  assert (∃ c1, (if negb (_active c0) then connect_sender c0 else Ok c0) = Ok c1 ∧
    cinv So Si io ii c1 ∧ taken c1 = taken c) as (c1 & -> & Hc1 & Ht1).
  { destruct (negb _); [|by exists c0].
    destruct (cinv_connect_sender c0 Hc0) as (c1 & -> & ? & Hr). exists c1.
    split_and!; [done|done|]. unfold taken in *. by rewrite Hr. }
  cbn [mbind result_bind]. destruct (rst (header seg)).
  - split; [by apply cinv_streams_set_err, cinv_shutdown|done].
  - eapply or_undefined_impl; [by apply cinv_segment_processed|]. intros c2 [? Ht2]. split; [done|congruence].
Qed.

(** Where the behaviour is undefined: a FIN arrives while substrings wait, or an
    acknowledgment makes the read past the end, and this stops the program. *)
Definition undefined_at (c : TCPConnection) (seg : TCPSegment) : Prop :=
  (fin (header seg) = true ∧ _unassembled_bytes (_reassembler (_receiver c)) ≠ []) ∨
  (ack (header seg) = true ∧ ∃ l, end_header reads l = None).

Lemma segment_processed_cases c seg :
  cinv So Si io ii c → carries Si ii seg →
  is_ok (segment_processed reads c seg) ∨
  (segment_processed reads c seg = Throw Undefined ∧
   ((fin (header seg) = true ∧ _unassembled_bytes (_reassembler (_receiver c)) ≠ []) ∨
    (ack (header seg) = true ∧ unacked (raw_value (TCPHeader.ackno (header seg))) (_outstanding_segments (_sender c)) = [] ∧
     ∃ l, end_header reads l = None))).
Proof using Hii HSi.
  intros Hc Hseg. pose proof (cinv_segment_processed c seg Hc Hseg) as Hor.
  destruct (segment_processed reads c seg) as [c'|e] eqn:Hp; [left; by exists c'|right]. simpl in Hor. subst e.
  split; [done|]. destruct (decide (fin (header seg) = true ∧ _unassembled_bytes (_reassembler (_receiver c)) ≠ []))
    as [?|Hnf]; [by left|right].
  pose proof (rstep_defined (rend_index reads) Si ii Hii HSi (_receiver c) (Segment seg) (ci_receiver _ _ _ _ _ Hc) Hseg) as Hr.
  cbn [rstep brings_fin] in Hr. destruct Hr as (t & out & Hr).
  { intros Hf. destruct (_unassembled_bytes (_reassembler (_receiver c))); [done|]. by destruct Hnf. }
  unfold segment_processed in Hp. apply result_bind_ok in Hr as (r & Hr & _). rewrite Hr in Hp.
  cbn [mbind result_bind _sender set_receiver] in Hp. destruct (ack (header seg)); [|done].
  destruct (ack_received_cases (end_header reads) (_sender c) (TCPHeader.ackno (header seg)) (win (header seg)))
    as [Hack|(_ & ? & ?)]; [|done]. rewrite Hack in Hp.
  destruct (ack_effect_spec So (_sender c) (TCPHeader.ackno (header seg)) (win (header seg)) (ci_sender _ _ _ _ _ Hc))
    as (s & Hs & _); [apply Hseg|]. by rewrite Hs in Hp.
Qed.

Lemma segment_received_cases c seg :
  cinv So Si io ii c → carries Si ii seg →
  is_ok (segment_received reads c seg) ∨ (segment_received reads c seg = Throw Undefined ∧ undefined_at c seg).
Proof using Hii HSi.
  intros Hc Hseg. unfold segment_received. set (c0 := set_time c 0).
  assert (cinv So Si io ii c0) as Hc0 by (by destruct Hc; split). assert (_receiver c0 = _receiver c) as Hr0 by done.
  clearbody c0. destruct (negb _ && _); [left; by exists c0|].
  assert (∃ c1, (if negb (_active c0) then connect_sender c0 else Ok c0) = Ok c1 ∧
    cinv So Si io ii c1 ∧ _receiver c1 = _receiver c) as (c1 & -> & Hc1 & Hr1).
  { destruct (negb _); [|by exists c0]. destruct (cinv_connect_sender c0 Hc0) as (c1 & -> & ? & Hr). exists c1.
    split_and!; [done|done|congruence]. }
  cbn [mbind result_bind]. destruct (rst (header seg)); [left; by eexists|].
  destruct (segment_processed_cases c1 seg Hc1 Hseg) as [?|[-> H]]; [by left|right]. split; [done|].
  rewrite Hr1 in H. destruct H as [?|(? & _ & ?)]; [by left|by right].
Qed.

(** The application reads the inbound stream. *)
Definition read_inbound (c : TCPConnection) (len : Z) : result (TCPConnection * bytes) :=
  '(r, out) ← read_stream (_receiver c) len; Ok (set_receiver c r, out).

Lemma cinv_read_inbound c len :
  cinv So Si io ii c → 0 <= len →
  ∃ c' out, read_inbound c len = Ok (c', out) ∧ cinv So Si io ii c' ∧
    taken c' = taken c + slen out ∧ agree Si (taken c) out.
Proof using Hii HSi.
  intros Hc Hlen. unfold read_inbound.
  pose proof (ci_receiver _ _ _ _ _ Hc) as Hrc.
  destruct (rstep_defined (λ _, None) Si ii Hii HSi (_receiver c) (ReadOut len) Hrc Hlen) as (r & out & Hr); [done|].
  destruct (or_undefined_ok _ _ _ (rstep_spec (λ _, None) Si ii Hii HSi (_receiver c) (ReadOut len) Hrc Hlen) Hr)
    as (Hri & Hst & Hag). cbn [rstep] in Hr. rewrite Hr. cbn [mbind result_bind].
  eexists _, _. split; [done|]. split; [by destruct Hc; split|done].
Qed.

End Invariant.

Lemma cinv_new So Si cfg isn ii random :
  default (WrappingInt32_of random) (fixed_isn cfg) = isn → wf_WrappingInt32 isn →
  is_u64 (send_capacity cfg) → is_u64 (recv_capacity cfg) →
  slen So + 2 < 0x10000000000000000 → is_u64 (slen Si + recv_capacity cfg + 1) →
  cinv So Si isn ii (TCPConnection_new cfg random).
Proof.
  intros <- Hw Hs Hr HSo HSi. split; simpl.
  - by apply TCPSender_new_sinv.
  - done.
  - by apply rinv_new.
  - by constructor.
Qed.

(** What [streams_set_err] after [shutdown] leaves is the state RESET. *)
Lemma state_reset c : state (streams_set_err (shutdown c)) = TCPState_of_State RESET.
Proof. done. Qed.

(** ** Properties *)

(** RST kills the connection.  An active connection that receives a segment
    with RST ends in the official state RESET: it is not active, both streams
    are in error, nothing is sent, and the receiver's data is untouched. *)
Theorem rst_resets (reads : Reads) (c : TCPConnection) (seg : TCPSegment) :
  _active c = true → rst (header seg) = true →
  ∃ c', segment_received reads c seg = Ok c' ∧ active c' = false ∧
    state c' = TCPState_of_State RESET ∧ segments_out c' = segments_out c ∧
    ByteStream._buffer (inbound_stream c') = ByteStream._buffer (inbound_stream c) ∧
    time_since_last_segment_received c' = 0.
Proof.
  intros Ha Hr. unfold segment_received. cbn [_active set_time]. rewrite Ha, Hr. simpl.
  eexists. split; [done|]. split_and!; done.
Qed.

(** Reads that yield something. *)
Definition some_reads : Reads := mkReads libstdcxx_rend_index (λ _, Some TCPHeader_default).

Definition sample_cfg (isn : Z) : TCPConfig := mkTCPConfig 1000 64 64 (Some (mkWrappingInt32 isn)).

Definition sample_connection : TCPConnection :=
  set_active (TCPConnection_new (sample_cfg 5) 0) true.

Lemma rst_resets_witness :
  ∃ c', segment_received some_reads sample_connection rst_segment = Ok c' ∧ active c' = false.
Proof.
  destruct (rst_resets some_reads sample_connection rst_segment) as (c' & ? & ? & _); [done|done|].
  by exists c'.
Defined.

Lemma update_status_same c :
  let c' := update_connection_status c in
  _segments_out c' = _segments_out c ∧ _receiver c' = _receiver c ∧ _sender c' = _sender c.
Proof. unfold update_connection_status. by repeat case_match. Qed.

(** C27: every segment that occupies sequence numbers is answered.  A segment
    (without RST) of the peer's stream, which is shorter than [2^31], arrives at
    an active connection.  The connection queues at least one segment, and, once
    the peer's SYN is known, each new segment carries the receiver's
    acknowledgment number and window.  The call does not return in two cases
    only: a FIN arrives while substrings are waiting, or all outstanding segments
    are acknowledged, and the undefined read that the code then makes stops the
    program. *)
Theorem segment_answered (reads : Reads) (So Si : bytes) (io ii : WrappingInt32)
    (c : TCPConnection) (seg : TCPSegment) :
  wf_WrappingInt32 ii → slen Si < 0x80000000 →
  cinv So Si io ii c → _active c = true → rst (header seg) = false →
  carries Si ii seg → 0 < length_in_sequence_space seg →
  (∃ c' new, segment_received reads c seg = Ok c' ∧
    segments_out c' = segments_out c ++ new ∧ new ≠ [] ∧
    (∀ a, TCPReceiver.ackno (_receiver c') = Some a →
       Forall (λ s, ack (header s) = true ∧ TCPHeader.ackno (header s) = a ∧
                    win (header s) = u16 (window_size (_receiver c'))) new)) ∨
  (segment_received reads c seg = Throw Undefined ∧
   ((fin (header seg) = true ∧ _unassembled_bytes (_reassembler (_receiver c)) ≠ []) ∨
    (ack (header seg) = true ∧ unacked (raw_value (TCPHeader.ackno (header seg))) (_outstanding_segments (_sender c)) = [] ∧
     ∃ l, end_header reads l = None))).
Proof.
  intros Hii HSi Hc Ha Hrst Hseg Hlen.
  unfold segment_received. cbn [_active set_time]. rewrite Ha, Hrst. simpl.
  destruct (segment_processed_cases So Si io ii reads Hii HSi (set_time c 0) seg) as [[c' Hp]|Hp];
    [by destruct Hc; split|done|left|by right].
  exists c'. rewrite Hp. revert Hp. unfold segment_processed.
  destruct (TCPReceiver.segment_received _ _ _) as [r|]; [|done]. cbn [mbind result_bind].
  destruct (if ack (header seg) then _ else _) as [s|]; [|done]. cbn [mbind result_bind].
  intros Heq. apply Ok_inj in Heq. destruct (0 <? length_in_sequence_space seg) eqn:El; [|lia].
  set (s1 := if _ && true then send_empty_segment s else s) in Heq.
  assert (TCPSender.segments_out s1 ≠ []) as Hne.
  { unfold s1. destruct (TCPSender.segments_out s) eqn:Es; simpl; [|by rewrite Es].
    unfold TCPSender.segments_out in *. rewrite Es. done. }
  clearbody s1. destruct (update_status_same (send_segments (set_sender (set_receiver (set_time c 0) r) s1)))
    as (E1 & E2 & _). rewrite Heq in E1, E2. simpl in E1, E2.
  exists (map (stamp r) (TCPSender.segments_out s1)). split_and!; [done|done| |].
  - by destruct (TCPSender.segments_out s1).
  - rewrite E2. intros a Hack. apply Forall_map, Forall_true. intros x. simpl. unfold stamp. by rewrite Hack.
Qed.

Lemma segment_answered_witness :
  ∃ c' new, segment_received some_reads sample_connection (TCPReceiver.syn_segment (mkWrappingInt32 9)) = Ok c' ∧
    segments_out c' = [] ++ new ∧ new ≠ [].
Proof.
  destruct (segment_answered some_reads [1] [2] (mkWrappingInt32 5) (mkWrappingInt32 9)
              sample_connection (TCPReceiver.syn_segment (mkWrappingInt32 9)))
    as [(c' & new & ? & ? & ? & _)|[H _]]; [concrete|concrete| |done|done| |concrete| |].
  - apply cinv_set_active.
    apply (cinv_new [1] [2] (sample_cfg 5) (mkWrappingInt32 5) (mkWrappingInt32 9) 0); concrete.
  - apply syn_segment_carries.
  - by exists c', new.
  - vm_compute in H. discriminate.
Defined.

Lemma send_segments_same c :
  _receiver (send_segments c) = _receiver c ∧ stream_in (_sender (send_segments c)) = stream_in (_sender c) ∧
  TCPSender.bytes_in_flight (_sender (send_segments c)) = TCPSender.bytes_in_flight (_sender c) ∧
  consecutive_retransmissions (_sender (send_segments c)) = consecutive_retransmissions (_sender c).
Proof. done. Qed.

(** C28: giving up.  When a tick makes the number of consecutive retransmissions
    exceed the maximum, the connection drops what it had queued, queues a
    single RST, and ends in the official state RESET. *)
Theorem tick_gives_up (c : TCPConnection) (ms : Z) :
  MAX_RETX_ATTEMPTS < consecutive_retransmissions (TCPSender.tick (_sender c) ms) →
  segments_out (tick c ms) = [rst_segment] ∧ active (tick c ms) = false ∧
  state (tick c ms) = TCPState_of_State RESET.
Proof.
  intros Hgt. unfold tick. set (c1 := send_segments _).
  change (consecutive_retransmissions (_sender c1))
    with (consecutive_retransmissions (TCPSender.tick (_sender c) ms)).
  destruct (_ <? _) eqn:E; [|lia]. by case_match.
Qed.

Definition hopeless_connection : TCPConnection :=
  set_sender sample_connection
    (set_backoff (after_syn (_sender sample_connection)) (1000 * 2 ^ MAX_RETX_ATTEMPTS) MAX_RETX_ATTEMPTS).

Lemma tick_gives_up_witness :
  segments_out (tick hopeless_connection 256000) = [rst_segment] ∧
  active (tick hopeless_connection 256000) = false ∧
  state (tick hopeless_connection 256000) = TCPState_of_State RESET.
Proof. apply tick_gives_up. concrete. Defined.

(** Both streams have ended and everything sent has been acknowledged. *)
Definition finished (c : TCPConnection) : Prop :=
  input_ended (inbound_stream c) = true ∧ input_ended (stream_in (_sender c)) = true ∧
  bytes_in_flight c = 0.

(** Lingering.  A connection whose streams have both finished, and which is
    still active, stays so until ten retransmission timeouts have passed since
    the last segment; the tick that reaches this time ends it. *)
Theorem linger_time (c : TCPConnection) (ms : Z) :
  finished c → _outstanding_segments (_sender c) = [] → active c = true →
  consecutive_retransmissions (_sender c) <= MAX_RETX_ATTEMPTS →
  is_u64 (time_since_last_segment_received c + ms) →
  active (tick c ms) =
    bool_decide (time_since_last_segment_received c + ms < 10 * rt_timeout (_cfg c)) ∧
  time_since_last_segment_received (tick c ms) = time_since_last_segment_received c + ms.
Proof.
  intros (Hin & Hout & Hfl) Ho Ha Hc Hu.
  assert (∃ t, TCPSender.tick (_sender c) ms = TCPSender.set_timer (_sender c) (_retransmission_timer_on (_sender c)) t)
    as (t & Ht).
  { unfold TCPSender.tick. destruct (negb _ || _) eqn:E.
    - exists (_retransmission_timer (_sender c)). by destruct (_sender c).
    - apply orb_false_elim in E as [E _]. rewrite negb_false_iff in E. simpl. rewrite Ho, E. by eexists. }
  unfold tick. cbn [_sender set_time]. rewrite Ht. unfold consecutive_retransmissions in *. simpl.
  rewrite u64_small by done. destruct (_ <? _) eqn:E; [lia|]. clear E.
  unfold inbound_stream, stream_in, bytes_in_flight, TCPSender.bytes_in_flight in *. simpl.
  rewrite Ho in *. rewrite Hin, Hout. simpl.
  unfold time_since_last_segment_received, active in *. simpl.
  destruct (_ <=? _) eqn:E; simpl; (split; [|done]); [rewrite bool_decide_eq_false_2 by lia; done|].
  by rewrite bool_decide_eq_true_2 by lia.
Qed.

Definition done_stream : ByteStream := end_input (ByteStream_new 64).

Definition done_connection (linger : bool) : TCPConnection :=
  mkTCPConnection (sample_cfg 5) (map_inbound (λ _, done_stream) (TCPReceiver_new 64))
    (set_stream (TCPSender_new 64 1000 (Some (mkWrappingInt32 5)) 0) done_stream) [] linger true 400.

Lemma linger_time_witness :
  active (tick (done_connection true) 9599) = true ∧
  time_since_last_segment_received (tick (done_connection true) 9599) = 9999.
Proof. apply (linger_time (done_connection true) 9599); concrete. Defined.

Lemma segment_received_status reads c seg c' :
  (_active c || syn (header seg)) = true → rst (header seg) = false →
  segment_received reads c seg = Ok c' →
  ∃ c1, c' = update_connection_status c1 ∧ _active c1 = true ∧
    _linger_after_streams_finish c1 = _linger_after_streams_finish c.
Proof.
  intros Ha Hr. unfold segment_received. cbn [_active set_time].
  assert (negb (_active c) && negb (syn (header seg)) = false) as ->
    by (destruct (_active c), (syn (header seg)); done).
  set (c0 := if negb (_active c) then _ else _).
  assert (∀ c1, c0 = Ok c1 → _active c1 = true ∧
    _linger_after_streams_finish c1 = _linger_after_streams_finish c) as H0.
  { unfold c0, connect_sender. intros c1. destruct (_active c) eqn:E; simpl.
    - intros Heq. apply Ok_inj in Heq as <-. by rewrite <- E.
    - destruct (fill_window _); [|done]. cbn [mbind result_bind]. intros Heq. by apply Ok_inj in Heq as <-. }
  clearbody c0. destruct c0 as [c1|]; [|done]. destruct (H0 c1 eq_refl) as [Ha1 Hl1].
  cbn [mbind result_bind]. rewrite Hr. unfold segment_processed.
  destruct (TCPReceiver.segment_received _ _ _); [|done]. cbn [mbind result_bind].
  destruct (if ack (header seg) then _ else _); [|done]. cbn [mbind result_bind].
  intros Heq. apply Ok_inj in Heq as <-. by eexists.
Qed.

(** C13: closing.  After a segment (without RST) an active connection is as
    follows.  If the peer's stream has ended while the own one has not, it
    will not linger.  If both have ended, everything is acknowledged and it
    need not linger, it is closed at once.  Otherwise it stays active. *)
Theorem close_status (reads : Reads) (c : TCPConnection) (seg : TCPSegment)
    (c' : TCPConnection) :
  _active c = true → rst (header seg) = false → segment_received reads c seg = Ok c' →
  (input_ended (inbound_stream c') = true → input_ended (stream_in (_sender c')) = false →
     _linger_after_streams_finish c' = false ∧ active c' = true) ∧
  (finished c' → active c' = _linger_after_streams_finish c) ∧
  (¬ finished c' → active c' = true).
Proof.
  intros Ha Hr Hrec.
  destruct (segment_received_status reads c seg c') as (c1 & -> & Ha1 & Hl1); [by rewrite Ha|done|done|].
  destruct (update_status_same c1) as (_ & E2 & E3).
  unfold finished, inbound_stream, bytes_in_flight. rewrite E2, E3.
  unfold update_connection_status, bytes_in_flight.
  destruct (input_ended (TCPReceiver.stream_out (_receiver c1))).
  2: { unfold active. rewrite Ha1. split_and!; [done|by intros [? _]|done]. }
  destruct (input_ended (stream_in (_sender c1))).
  2: { unfold active. simpl. rewrite Ha1. split_and!; [done|by intros (_ & ? & _)|done]. }
  destruct (TCPSender.bytes_in_flight (_sender c1) =? 0) eqn:Ef.
  2: { unfold active. simpl. rewrite Ha1. split_and!; [done|intros (_ & _ & ?); lia|done]. }
  simpl. rewrite Hl1. destruct (_linger_after_streams_finish c) eqn:El; simpl.
  - unfold active. rewrite Ha1. by split_and!.
  - split_and!; [done|done|]. intros Hn. destruct Hn. split_and!; [done|done|lia].
Qed.

Definition after_segment (c : TCPConnection) (seg : TCPSegment) : TCPConnection :=
  match segment_received some_reads c seg with Ok c' => c' | Throw _ => c end.

Lemma close_status_witness :
  active (after_segment (done_connection false) TCPSegment_default) = false.
Proof.
  destruct (close_status some_reads (done_connection false) TCPSegment_default
    (after_segment (done_connection false) TCPSegment_default)) as (_ & H & _); [concrete|concrete|concrete|].
  apply H. concrete.
Defined.

(** A dead connection comes back.  A connection that has been reset or has
    ended becomes active again when a SYN arrives, unless its own stream had
    ended. *)
Theorem syn_reactivates (reads : Reads) (c : TCPConnection) (seg : TCPSegment)
    (c' : TCPConnection) :
  active c = false → syn (header seg) = true → rst (header seg) = false →
  segment_received reads c seg = Ok c' → input_ended (stream_in (_sender c')) = false →
  active c' = true.
Proof.
  intros _ Hs Hr Hrec He.
  destruct (segment_received_status reads c seg c') as (c1 & -> & Ha1 & _);
    [by rewrite Hs, orb_true_r|done|done|].
  destruct (update_status_same c1) as (_ & _ & E3). rewrite E3 in He.
  unfold update_connection_status. rewrite He. simpl. unfold active.
  case_match; simpl; by rewrite Ha1.
Qed.

Lemma syn_reactivates_witness :
  active (send_rst sample_connection) = false ∧
  active (after_segment (send_rst sample_connection) (TCPReceiver.syn_segment (mkWrappingInt32 9))) = true.
Proof.
  split; [done|].
  apply (syn_reactivates some_reads (send_rst sample_connection)
           (TCPReceiver.syn_segment (mkWrappingInt32 9))); vm_compute; reflexivity.
Defined.
