(* ===== verification/InOrder.v ===== *)
(** * Progress of one endpoint when segments arrive in order

    The lemmas behind the termination of the benchmark: what one segment does
    to a receiver that has no gaps, to a sender whose numbers do not wrap, and
    to a connection made of the two.  A position counts the bytes of a stream
    and its end: position [p] of the stream [T] means [p] bytes, or all bytes
    and FIN for [p = slen T + 1]. *)

From S2P Require Import Prelude WrappingIntegers ByteStream StreamReassembler Buffer TCPHeader TCPSegment.
From S2P Require Import TCPConfig StreamSegments TCPReceiver TCPSender TCPState TCPConnection.
From stdpp Require Import options.

Local Open Scope Z_scope.

(** ** The receiver *)

(** Data that starts at or before the next byte leaves nothing waiting. *)
Lemma push_in_order rend T r data idx eof r' :
  inv T r → StreamReassembler._unassembled_bytes r = [] → 0 <= idx <= _index r →
  push_substring rend r data idx eof = Ok r' →
  StreamReassembler._unassembled_bytes r' = [] ∧ _eof_set r' = _eof_set r || eof.
Proof.
  intros (Hu & [[Hc _] Hc' _ [Hi Hi'] _] & _) Hl Hidx. rewrite Hc' in Hc. rewrite push_substring_unfold.
  assert (is_u64 (_index r)) as Hiu by (pose proof (slen_nonneg (ByteStream._buffer (_output r))); slia).
  assert (∃ r1, (if eof then set_eof rend r (u64 (idx + slen data)) else Ok r) = Ok r1 ∧
    StreamReassembler._unassembled_bytes r1 = [] ∧ _index r1 = _index r ∧ _eof_set r1 = _eof_set r || eof)
    as (r1 & -> & Hl1 & Hi1 & Hs1).
  { destruct eof; [|exists r; by rewrite orb_false_r]. rewrite set_eof_spec by done.
    eexists. split_and!; [done|done|done|by rewrite orb_true_r]. }
  cbn [mbind result_bind]. rewrite <- Hi1 in *. rewrite <- Hs1. clear Hs1 Hi1 Hl Hi Hi' Hu Hc Hc'.
  unfold push_data, push_substring. cbn [mbind result_bind].
  destruct (_ || _); [by intros <-%Ok_inj|]. intros (r2 & H2 & H3)%result_bind_ok. revert H2.
  unfold push_unassembled_bytes. destruct (_ && _).
  { intros <-%Ok_inj. unfold flush_to_output in H3. rewrite Hl1 in H3. by apply Ok_inj in H3 as <-. }
  intros (b & Hb & (s & _ & (l & Hins & <-%Ok_inj)%result_bind_ok)%result_bind_ok)%result_bind_ok.
  assert (StreamReassembler.index b = _index r1) as Hbi.
  { destruct (idx <? _index r1) eqn:E; [|apply Ok_inj in Hb as <-; simpl; lia].
    apply result_bind_ok in Hb as (s' & _ & <-%Ok_inj). simpl.
    rewrite (u64_small (_index r1 - idx)), u64_small by (unfold_width; lia). lia. }
  rewrite Hl1 in Hins. apply Ok_inj in Hins as <-. unfold flush_to_output in H3.
  cbn [set_unassembled StreamReassembler._unassembled_bytes StreamReassembler.index _index] in H3.
  rewrite Hbi, Z.eqb_refl in H3. apply result_bind_ok in H3 as (r3 & H3 & <-%Ok_inj). split; [done|].
  unfold write_to_output in H3. apply result_bind_ok in H3 as ([out n] & _ & <-%Ok_inj). done.
Qed.

(** A receiver without gaps, at position [p], whose application has read [st]
    bytes. *)
Record inorder (T : bytes) (isn : WrappingInt32) (st p : Z) (t : TCPReceiver) : Prop := {
  io_inv : rinv T isn t;
  io_syn : _syn_recv t = true;
  io_cap : TCPReceiver._capacity t = DEFAULT_CAPACITY;
  io_start : start (_reassembler t) = st;
  io_none : StreamReassembler._unassembled_bytes (_reassembler t) = [];
  io_index : _index (_reassembler t) = Z.min p (slen T);
  io_exact : eof_exact T (_reassembler t);
  io_set : _eof_set (_reassembler t) = (slen T <? p);
  io_range : 0 <= p <= slen T + 1
}.

(** A new receiver after SYN. *)
Lemma inorder_syn T isn seg :
  slen T < 0x80000000 → syn (header seg) = true → seqno (header seg) = isn →
  inorder T isn 0 0 (note_syn (TCPReceiver_new DEFAULT_CAPACITY) seg).
Proof.
  intros HT Hs Hi. pose proof (slen_nonneg T). unfold note_syn. rewrite Hs. simpl.
  split; simpl; try done; [|lia|split; [done|by split; [done|intros [? _]]]|lia..].
  split; simpl; [apply inv_new; unfold DEFAULT_CAPACITY; unfold_width; lia|done|by intros _; rewrite Hi].
Qed.

Section Receiver.
Context (rend_index : list ByteString → option Z) (T : bytes) (isn : WrappingInt32).
Context (Hisn : wf_WrappingInt32 isn) (HT : slen T < 0x80000000).

Lemma inorder_ended st p t :
  inorder T isn st p t → input_ended (TCPReceiver.stream_out t) = (slen T <? p).
Proof using Type.
  intros []. destruct io_exact0 as [_ He]. unfold TCPReceiver.stream_out, StreamReassembler.stream_out.
  rewrite io_set0, io_index0 in He. apply eq_true_iff_eq. rewrite He. split; [by intros [? _]|].
  intros H. split; [done|lia].
Qed.

Lemma inorder_ackno st p t :
  inorder T isn st p t → TCPReceiver.ackno t = Some (wrap (1 + p) isn).
Proof using Type.
  intros Ht. rewrite (ackno_eq T isn t) by apply Ht. rewrite (inorder_ended st p t Ht). destruct Ht.
  rewrite io_index0. do 2 f_equal. destruct (_ <? _) eqn:E; lia.
Qed.

Lemma inorder_window st p t :
  inorder T isn st p t →
  window_size t = DEFAULT_CAPACITY - (Z.min p (slen T) - st) ∧ 0 <= Z.min p (slen T) - st <= DEFAULT_CAPACITY.
Proof using Type.
  intros Ht. rewrite (window_size_eq T isn t) by apply Ht. destruct Ht.
  pose proof (rinv_cap _ _ _ io_inv0) as Hc. rewrite start_window, Hc.
  destruct (rinv_r _ _ _ io_inv0) as (_ & [[_ Hw] Hc' _ Hi _] & _). unfold start, buffered in *.
  pose proof (slen_nonneg (ByteStream._buffer (_output (_reassembler t)))). lia.
Qed.

(** The next piece of the stream, or one that has been received before. *)
Lemma inorder_data st p t seg i :
  inorder T isn st p t → seqno (header seg) = wrap (1 + i) isn →
  consistent T (Push (str (payload seg)) i (fin (header seg))) → 0 <= i <= p →
  i + slen (str (payload seg)) <= st + DEFAULT_CAPACITY →
  ∃ t', TCPReceiver.segment_received rend_index t seg = Ok t' ∧
    inorder T isn st (Z.max p (i + slen (str (payload seg)) + (if fin (header seg) then 1 else 0))) t'.
Proof using Hisn HT.
  intros Ht Hseq Hcons Hi Hfit. assert (Hcons' := Hcons). destruct Hcons' as (Hag & _ & Hlen & Heof).
  destruct Ht. set (r := _reassembler t) in *. set (data := str (payload seg)) in *.
  destruct (bytes_written_index T isn t io_inv0) as (Hbw & Hix & Hu). fold r in Hbw, Hix.
  pose proof (slen_nonneg data). pose proof (rinv_r _ _ _ io_inv0) as Hinv. fold r in Hinv.
  assert (in_window r) as Hin by (intros k; rewrite io_none0, covered_nil; done).
  pose proof (window_end_ge T r (proj1 (proj2 Hinv))) as Hwe.
  pose proof (start_window r) as Hsw. rewrite (rinv_cap _ _ _ io_inv0 : StreamReassembler._capacity r = _) in Hsw.
  rewrite (segment_received_data rend_index t seg isn i) by (try apply io_inv0; try done; fold r; unfold_width; lia).
  fold r data.
  destruct (push_substring_spec T rend_index r data i (fin (header seg)) Hinv Hag ltac:(lia) Hlen)
    as (r' & Hp & Hinv' & Hc' & Hi' & Hw' & Hadd); [by rewrite io_none0|].
  destruct (push_eof_exact rend_index T r data i (fin (header seg))) as (r2 & Hp2 & Hex); try done; [lia| |].
  { intros Hf Hl. rewrite Hf in *. specialize (Heof eq_refl). split; [|lia].
    intros Hd. rewrite Hd, slen_nil in *. lia. }
  rewrite Hp in Hp2. apply Ok_inj in Hp2 as <-.
  destruct (push_in_order rend_index T r data i (fin (header seg)) r') as [Hn' Hs']; try done; [lia|].
  rewrite Hp. cbn [mbind result_bind]. eexists. split; [done|]. destruct (Hadd Hin ltac:(lia)) as [_ Hh].
  assert (_index r' = Z.max (_index r) (i + slen data)) as Hidx.
  { pose proof (next_missing T r' Hinv') as Hm. unfold have in Hm, Hh. rewrite Hn', io_none0 in *.
    setoid_rewrite covered_nil in Hh. rewrite covered_nil in Hm.
    pose proof (Hh (_index r')) as H1. pose proof (Hh (_index r' - 1)) as H2. lia. }
  split; cbn [set_reassembler _reassembler _syn_recv TCPReceiver._capacity]; try done.
  - destruct io_inv0. split; simpl; [done|by rewrite Hc'|done].
  - rewrite !start_window in Hw'. lia.
  - rewrite Hidx, io_index0. destruct (fin _); [specialize (Heof eq_refl)|]; lia.
  - rewrite Hs', io_set0. destruct (fin _); [specialize (Heof eq_refl)|]; lia.
  - destruct (fin _); lia.
Qed.

(** SYN and segments that occupy no numbers change nothing. *)
Lemma inorder_empty st p t seg :
  inorder T isn st p t → str (payload seg) = [] → fin (header seg) = false →
  TCPReceiver.segment_received rend_index t seg = Ok t.
Proof using Type.
  intros [] Hp Hf. rewrite segment_received_empty by done. unfold note_syn. by rewrite io_syn0.
Qed.

(** The application takes all that is buffered. *)
Lemma inorder_read st p t :
  inorder T isn st p t →
  ∃ t' out, read_stream t (buffer_size (TCPReceiver.stream_out t)) = Ok (t', out) ∧
    inorder T isn (Z.min p (slen T)) p t'.
Proof using Type.
  intros []. set (r := _reassembler t) in *.
  destruct (read_out_spec T r (buffer_size (TCPReceiver.stream_out t)) (rinv_r _ _ _ io_inv0))
    as (r' & out & Hr & Hinv & Hi & Hc & Hn & Hb & Hw & He & Heo & Hes); [apply slen_nonneg|].
  unfold read_stream. fold r. rewrite Hr. cbn [mbind result_bind]. eexists _, _. split; [done|].
  assert (slen (buffered r') = 0) as Hz.
  { unfold read_out in Hr. rewrite ByteStream.read_eq in Hr. cbn [mbind result_bind] in Hr.
    apply Ok_inj in Hr as [= <- _]. unfold buffered. simpl. rewrite slen_sdrop by apply slen_nonneg.
    change (buffer_size (TCPReceiver.stream_out t)) with (slen (ByteStream._buffer (_output r))).
    change (StreamReassembler.stream_out r) with (_output r). lia. }
  split; cbn [set_reassembler _reassembler _syn_recv TCPReceiver._capacity]; try done.
  - destruct io_inv0. split; simpl; [done|by rewrite Hc|done].
  - unfold start. lia.
  - congruence.
  - congruence.
  - unfold eof_exact. by rewrite He, Heo, Hes, Hi.
  - congruence.
Qed.

End Receiver.

(** ** The sender *)

(** The first number that the window does not allow. *)
Definition edge (s : TCPSender) : Z := _next_seqno s + _window_size s.

(** The numbers of [S], and of any window after them, do not wrap. *)
Definition roomy (S : bytes) (isn : WrappingInt32) : Prop := no_wrap isn (slen S + 0x10002).

Lemma roomy_fits S isn : roomy S isn → fits S isn.
Proof. intros [? ?]. split; lia. Qed.

Lemma ack_update_window s a w :
  let s' := ack_update s a w in
  let right := u32 (a + w) in
  _window_size s' = (if w =? 0 then 1 else if _highest_ackno_right s <? right then w else _window_size s) ∧
  _highest_ackno_right s' = (if w =? 0 then _highest_ackno_right s else Z.max (_highest_ackno_right s) right) ∧
  _highest_ackno s' = Z.max (_highest_ackno s) a ∧
  _consecutive_retransmissions s' = (if _highest_ackno s <? a then 0 else _consecutive_retransmissions s).
Proof.
  unfold ack_update, ack_window. cbn zeta. pose proof (Z.max_spec (_highest_ackno s) a).
  pose proof (Z.max_spec (_highest_ackno_right s) (u32 (a + w))).
  destruct (w =? 0); simpl; [|destruct (_highest_ackno_right s <? u32 (a + w)) eqn:E1; simpl];
    (destruct (_highest_ackno s <? a) eqn:E2; simpl; split_and!; lia).
Qed.

Section Fill.
Context (S : bytes) (s : TCPSender).
Context (Hs : sinv S s) (Hroom : roomy S (_isn s)).

(** The first segment of a full window is not tiny. *)
Lemma fill_once_first s' :
  0 < _next_seqno s → 3 <= _window_size s → 3 <= slen (ByteStream._buffer (_stream s)) →
  fill_once s = Ok s' →
  ∃ seg, TCPSender._segments_out s' = TCPSender._segments_out s ++ [seg] ∧ 3 <= slen (str (payload seg)).
Proof using Hs Hroom.
  intros Hn Hw Hb. pose proof (si_window _ _ (proj1 Hs)) as Hwin. unfold fill_once.
  set (n := u16 _). assert (3 <= n <= MAX_PAYLOAD_SIZE) as Hn3.
  { unfold n, MAX_PAYLOAD_SIZE in *. destruct (_ <? _) eqn:E; rewrite u16_small by (unfold_width; lia); lia. }
  rewrite (fill_read S) by (try apply Hs; lia). cbn [mbind result_bind].
  set (data := stake n _). assert (3 <= slen data <= MAX_PAYLOAD_SIZE) as Hd.
  { unfold data. rewrite slen_stake by lia. lia. }
  pose proof (sinv_next S s Hs). pose proof (slen_nonneg S). unfold roomy, no_wrap in Hroom.
  unfold MAX_PAYLOAD_SIZE in *. destruct (_ && _ && _); intros <-%Ok_inj; (rewrite send_new_segment_eq; simpl;
    [eexists; split; [reflexivity|]; unfold payload; simpl; rewrite str_of; lia|..];
    unfold length_in_sequence_space, payload; simpl; rewrite str_of; lia).
Qed.

Lemma fill_window_first s' :
  0 < _next_seqno s → 3 <= _window_size s → 3 <= slen (ByteStream._buffer (_stream s)) →
  fill_window s = Ok s' →
  ∃ seg rest, TCPSender._segments_out s' = TCPSender._segments_out s ++ seg :: rest ∧ 3 <= slen (str (payload seg)).
Proof using Hs Hroom.
  intros Hn Hw Hb Hf. unfold fill_window in Hf. destruct (_next_seqno s =? 0) eqn:E; [lia|].
  destruct (_window_size s =? 0) eqn:E1; [lia|]. apply result_bind_ok in Hf as (s2 & H2 & Hf%Ok_inj).
  assert (∃ seg rest, TCPSender._segments_out s2 = TCPSender._segments_out s ++ seg :: rest ∧
    3 <= slen (str (payload seg))) as (seg & rest & H2' & Hl).
  { destruct (ByteStream._buffer (_stream s)) as [|b0 buf] eqn:Eb; [by rewrite slen_nil in Hb|].
    cbn [length fill_loop] in H2. unfold buffer_empty, buffer_size in H2. rewrite Eb in H2.
    assert ((0 <? _window_size s) && negb (slen (b0 :: buf) =? 0) = true) as Hc by lia. rewrite Hc in H2.
    apply result_bind_ok in H2 as (s1 & H1 & H2).
    destruct (fill_once_first s1) as (seg & Hs1 & Hl); try done; [by rewrite Eb|].
    destruct (fill_once_spec S s Hs) as (s1' & H1' & Hinv1 & Hsent & Hlen);
      [lia|lia|unfold buffer_empty, buffer_size; rewrite Eb; lia|].
    rewrite H1 in H1'. apply Ok_inj in H1' as <-. rewrite Eb in Hlen. simpl in Hlen.
    pose proof (sends_next _ _ Hsent).
    destruct (fill_loop_spec S s1 (length buf) Hinv1) as (s2' & H2' & _ & [_ _ _ (new & Hnew & _)] & _); [lia|lia|].
    rewrite H2 in H2'. apply Ok_inj in H2' as <-. exists seg, new. split; [|done].
    by rewrite Hnew, Hs1, <- app_assoc. }
  subst s'. case_match; [|by exists seg, rest].
  unfold send_new_segment, send_segment. case_match; simpl; [by exists seg, rest|].
  exists seg. eexists. split; [|done]. case_match; simpl; rewrite H2', <- app_assoc; reflexivity.
Qed.

(** What [fill_window] does after a write. *)
Lemma fill_in_order :
  0 < _next_seqno s → ∃ s', fill_window s = Ok s' ∧ sinv S s' ∧ filled s' ∧ sends s s'.
Proof using Hs.
  intros Hn. destruct (fill_window_spec S s Hs) as (s' & Hf & Hs' & Hfill & _ & Hsent).
  unfold after_syn in Hsent. destruct (_ =? 0) eqn:E; [lia|]. by exists s'.
Qed.

End Fill.

(** What an acceptable acknowledgment of [a] with the window [w] does. *)
Record acked (S : bytes) (a w : Z) (s s' : TCPSender) : Prop := {
  ak_inv : sinv S s';
  ak_isn : _isn s' = _isn s;
  ak_filled : filled s';
  ak_next : _next_seqno s <= _next_seqno s';
  ak_new : ∃ new, TCPSender._segments_out s' = TCPSender._segments_out s ++ new ∧
    contiguous (_isn s) (_next_seqno s) new (_next_seqno s');
  ak_edge : edge s' =
    if w =? 0 then _next_seqno s + 1
    else if _highest_ackno_right s <? raw_value (_isn s) + a + w then _next_seqno s + w else edge s;
  ak_right : _highest_ackno_right s' =
    if w =? 0 then _highest_ackno_right s
    else Z.max (_highest_ackno_right s) (raw_value (_isn s) + a + w);
  ak_highest : _highest_ackno s' = raw_value (_isn s) + a;
  ak_consecutive : _consecutive_retransmissions s' =
    if _highest_ackno s <? raw_value (_isn s) + a then 0 else _consecutive_retransmissions s;
  ak_written : bytes_written (_stream s') = bytes_written (_stream s);
  ak_ended : input_ended (_stream s') = input_ended (_stream s);
  ak_capacity : ByteStream._capacity (_stream s') = ByteStream._capacity (_stream s);
  ak_flight : ∀ lo, 0 <= lo → flight lo s →
    ∃ lo', flight lo' s' ∧ lo <= lo' ∧ (lo' = lo ∨ lo' <= a) ∧ (a = _next_seqno s → lo' = a);
  ak_first : TCPSender._segments_out s = [] → 3 <= slen (ByteStream._buffer (_stream s)) → 3 <= w →
    _highest_ackno_right s < raw_value (_isn s) + a + w →
    ∃ seg rest, TCPSender._segments_out s' = seg :: rest ∧ 3 <= slen (str (payload seg))
}.

Section Sender.
Context (S : bytes) (s : TCPSender).
Context (Hs : sinv S s) (Hroom : roomy S (_isn s)).

Lemma ack_flight a w lo :
  0 <= lo → flight lo s →
  ∃ lo', flight lo' (ack_update s (raw_value (_isn s) + a) w) ∧ lo <= lo' ∧ (lo' = lo ∨ lo' <= a) ∧
    (a = _next_seqno s → lo' = a).
Proof using Hs Hroom.
  intros Hlo Hfl. pose proof (sinv_next S s Hs). pose proof (roomy_fits _ _ Hroom) as Hfit.
  destruct (ack_update_fields s (raw_value (_isn s) + a) w) as (E1 & _ & _ & E4 & _ & E6 & _).
  destruct (unacked_contiguous (_isn s) lo (TCPSender._outstanding_segments s) (_next_seqno s) a)
    as (lo' & H1 & H2 & H3 & H4); [|destruct Hfit; lia|done|done|].
  { apply (fits_next S); [done|done|lia]. }
  exists lo'. unfold flight. rewrite E1, E4, E6. split_and!; [done|done|done|]. intros Ha.
  destruct (unacked _ _) as [|seg rest]; [simpl in H1; lia|].
  specialize (H4 seg rest eq_refl). destruct H1 as (_ & _ & H1%contiguous_le). lia.
Qed.

Lemma ack_in_order a w :
  is_u16 w → 0 < a <= _next_seqno s → _highest_ackno s <= raw_value (_isn s) + a →
  ∃ s', ack_effect s (wrap a (_isn s)) w = Ok s' ∧ acked S a w s s'.
Proof using Hs Hroom.
  intros Hw Ha Hh. pose proof (sinv_next S s Hs). unfold ack_effect.
  unfold roomy in Hroom. pose proof (slen_nonneg S).
  rewrite (wrap_no_wrap _ a _ Hroom) by lia. unfold next_seqno.
  rewrite (wrap_no_wrap _ (_next_seqno s) _ Hroom) by lia.
  destruct (_ || _) eqn:E; [lia|]. clear E.
  pose proof (ack_update_sinv S s (raw_value (_isn s) + a) w Hs Hw) as Hs1.
  destruct (ack_update_fields s (raw_value (_isn s) + a) w) as (E1 & E2 & E3 & E4 & _ & _ & _).
  destruct (ack_update_window s (raw_value (_isn s) + a) w) as (W1 & W2 & W3 & W4).
  assert (is_u32 (raw_value (_isn s) + a + w)) as Hu by (destruct Hroom; unfold_width; lia).
  rewrite u32_small in W1, W2 by done.
  pose proof (ack_flight a w) as Hfl.
  set (s1 := ack_update s (raw_value (_isn s) + a) w) in *. clearbody s1.
  destruct (fill_window_spec S s1 Hs1) as (s' & Hf & Hs' & Hfill & _ & Hsent).
  exists s'. split; [done|]. unfold after_syn in Hsent. destruct (_next_seqno s1 =? 0) eqn:E; [lia|]. clear E.
  pose proof Hsent as []. destruct sends_timeout as (_ & _ & Hcons).
  split; try done; try congruence.
  - destruct sends_new as (new & ? & _ & ?). exists new. split; [congruence|]. by rewrite <- E1, <- E4.
  - unfold edge in *. rewrite E4, W1 in sends_space. rewrite sends_space. by repeat case_match.
  - destruct sends_highest as [_ ->]. done.
  - destruct sends_highest as [-> _]. lia.
  - intros lo Hlo Hflo. destruct (Hfl lo Hlo Hflo) as (lo' & ? & ? & ? & ?). exists lo'. split_and!; try done.
    apply sends_flight; [lia| |done]. rewrite E1. apply (fits_next S); [done|by apply roomy_fits|].
    apply (sinv_next S s' Hs').
  - intros Hd Hbuf Hw3 Hhr. destruct (fill_window_first S s1 Hs1) with (s' := s') as (seg & rest & Hq & Hl);
      [by rewrite E1|lia| |by rewrite E3|done|].
    + rewrite W1. destruct (w =? 0) eqn:E; [lia|]. destruct (_ <? _) eqn:E'; lia.
    + exists seg, rest. by rewrite Hq, E2, Hd.
Qed.

End Sender.

(** ** The connection *)

Definition empty_answer (s : TCPSender) : TCPSegment :=
  set_payload (set_header TCPSegment_default (with_seqno TCPHeader_default (next_seqno s))) (Buffer_of []).

(** What is sent when [seg] has left [s] with new segments, or without. *)
Definition answer (s : TCPSender) (seg : TCPSegment) : list TCPSegment :=
  match TCPSender._segments_out s with
  | [] => if 0 <? length_in_sequence_space seg then [empty_answer s] else []
  | new => new
  end.

Definition received (c : TCPConnection) (seg : TCPSegment) (r : TCPReceiver) (s : TCPSender) : TCPConnection :=
  mkTCPConnection (_cfg c) r (TCPSender.set_segments_out s [])
    (_segments_out c ++ map (stamp r) (answer s seg)) (_linger_after_streams_finish c) true 0.

Lemma segment_received_eq reads c seg r s :
  _active c = true → rst (header seg) = false → ack (header seg) = true →
  TCPReceiver.segment_received (rend_index reads) (_receiver c) seg = Ok r →
  ack_received (end_header reads) (_sender c) (TCPHeader.ackno (header seg)) (win (header seg)) = Ok s →
  segment_received reads c seg = Ok (update_connection_status (received c seg r s)).
Proof.
  intros Ha Hr Hk Hrec Hack. destruct c as [cfg r0 s0 q0 lg act t0]. cbn [_active _receiver _sender] in *. subst act.
  unfold segment_received. cbn [_active set_time negb andb mbind result_bind]. rewrite Hr.
  unfold segment_processed. cbn [_receiver set_time]. rewrite Hrec. cbn [mbind result_bind].
  rewrite Hk. cbn [_sender set_receiver set_time]. rewrite Hack. cbn [mbind result_bind].
  do 2 f_equal. unfold received, answer, send_segments, TCPSender.segments_out.
  destruct (TCPSender._segments_out s) as [|q l] eqn:E; cbn [andb].
  - destruct (0 <? length_in_sequence_space seg); cbn; rewrite E; done.
  - cbn. by rewrite E.
Qed.

(** [seg] takes a receiver without gaps from the position [p] to [p']. *)
Definition lands (T : bytes) (isn : WrappingInt32) (st p : Z) (seg : TCPSegment) (p' : Z) : Prop :=
  (str (payload seg) = [] ∧ fin (header seg) = false ∧ p' = p) ∨
  ∃ i, seqno (header seg) = wrap (1 + i) isn ∧ consistent T (Push (str (payload seg)) i (fin (header seg))) ∧
    0 <= i <= p ∧ i + slen (str (payload seg)) <= st + DEFAULT_CAPACITY ∧
    p' = Z.max p (i + slen (str (payload seg)) + (if fin (header seg) then 1 else 0)).

Lemma emits_empty_answer S isn s : emits S isn (empty_answer s).
Proof.
  split; [by apply carries_empty|]. apply sendable_empty; [|done|done]. split; try done. apply wrap_wf.
Qed.

Lemma cinv_received So Si io ii c seg r s :
  cinv So Si io ii c → sinv So s → _isn s = io → rinv Si ii r → cinv So Si io ii (received c seg r s).
Proof.
  intros [] Hs Hi Hr. split; simpl; [by apply sinv_no_segments|done|done|].
  apply Forall_app_2; [done|]. apply Forall_map.
  assert (Forall (emits So io) (answer s seg)) as H.
  { unfold answer. pose proof (si_out _ _ (proj1 Hs)) as Ho. rewrite Hi in Ho.
    destruct (TCPSender._segments_out s); [|done]. destruct (_ <? _); [|done].
    apply Forall_singleton, emits_empty_answer. }
  eapply Forall_impl; [|exact H]. intros q Hq. by apply emits_stamp.
Qed.

Section Connection.
Context (reads : Reads) (So Si : bytes) (io ii : WrappingInt32).
Context (Hend : ∀ l, end_header reads l ≠ None) (Hii : wf_WrappingInt32 ii) (HSi : slen Si < 0x80000000).
Context (Hroom : roomy So io).

Lemma connection_receives c seg st p p' a w :
  cinv So Si io ii c → _active c = true → inorder Si ii st p (_receiver c) →
  lands Si ii st p seg p' →
  rst (header seg) = false → ack (header seg) = true → TCPHeader.ackno (header seg) = wrap a io →
  win (header seg) = w → is_u16 w → 0 < a <= _next_seqno (_sender c) →
  _highest_ackno (_sender c) <= raw_value io + a →
  ∃ r s, inorder Si ii st p' r ∧ acked So a w (_sender c) s ∧
    cinv So Si io ii (received c seg r s) ∧
    segment_received reads c seg = Ok (update_connection_status (received c seg r s)).
Proof using Hend Hii HSi Hroom.
  intros Hc Ha Hin Hl Hr Hk Hack Hwin Hw Hn Hh. pose proof (ci_isn _ _ _ _ _ Hc) as Hi.
  assert (∃ r, TCPReceiver.segment_received (rend_index reads) (_receiver c) seg = Ok r ∧ inorder Si ii st p' r)
    as (r & Hrec & Hin').
  { destruct Hl as [(Hp & Hf & ->)|(i & Hseq & Hcons & Hi0 & Hfit & ->)].
    - exists (_receiver c). split; [|done]. by apply (inorder_empty (rend_index reads) Si ii st p).
    - by apply (inorder_data (rend_index reads) Si ii Hii HSi st p). }
  destruct (ack_in_order So (_sender c) (ci_sender _ _ _ _ _ Hc) ltac:(by rewrite Hi) a w Hw Hn) as (s & Hs & Hak);
    [by rewrite Hi|].
  exists r, s. split_and!; try done.
  - apply cinv_received; [done|apply Hak|by rewrite (ak_isn _ _ _ _ _ Hak)|apply Hin'].
  - apply segment_received_eq; try done. by rewrite Hack, Hwin, <- Hi, ack_received_defined.
Qed.

End Connection.

(** ** Time *)

(** A tick changes the timer of a sender and nothing else. *)
Record ticked (s s' : TCPSender) : Prop := {
  tk_isn : _isn s' = _isn s;
  tk_outstanding : TCPSender._outstanding_segments s' = TCPSender._outstanding_segments s;
  tk_stream : _stream s' = _stream s;
  tk_next : _next_seqno s' = _next_seqno s;
  tk_window : _window_size s' = _window_size s;
  tk_highest : _highest_ackno s' = _highest_ackno s;
  tk_right : _highest_ackno_right s' = _highest_ackno_right s;
  tk_fin : _fin_sent s' = _fin_sent s;
  tk_out : TCPSender._segments_out s' = []
}.

Lemma sender_ticks s :
  TCPSender._segments_out s = [] → 0 <= _consecutive_retransmissions s <= 1 →
  ∃ dup, TCPSender._segments_out (TCPSender.tick s 1000) = dup ∧
    ticked s (TCPSender.set_segments_out (TCPSender.tick s 1000) []) ∧
    (dup = [] ∨ ∃ seg rest, TCPSender._outstanding_segments s = seg :: rest ∧ dup = [seg]) ∧
    0 <= _consecutive_retransmissions (TCPSender.tick s 1000) <=
      _consecutive_retransmissions s + (match TCPSender._outstanding_segments s with [] => 0 | _ => 1 end).
Proof.
  intros Hd Hc. unfold TCPSender.tick. destruct (negb _ || _) eqn:E.
  { exists []. split_and!; [done|by split|by left|lia|case_match; lia]. }
  destruct (TCPSender._outstanding_segments s) as [|seg rest] eqn:Eo; simpl; rewrite Eo.
  { exists []. split_and!; [done|by split|by left|simpl; lia|simpl; lia]. }
  destruct (_ <=? _).
  2: { exists []. split_and!; [done|by split|by left|simpl; lia|simpl; lia]. }
  exists [seg]. assert (u32 (_consecutive_retransmissions s + 1) = _consecutive_retransmissions s + 1) as Hu
    by (apply u32_small; unfold_width; lia).
  destruct (negb (_window_empty _)); simpl; rewrite Hd; simpl;
    (split_and!; [done|by split|right; by exists seg, rest|lia|lia]).
Qed.

(** After [tick] the connection lives on, or has lingered long enough. *)
Lemma connection_ticks c :
  TCPSender._segments_out (_sender c) = [] → 0 <= _consecutive_retransmissions (_sender c) <= 1 →
  ∃ s dup,
    let t := u64 (_time_since_last_segment_received c + 1000) in
    let c1 := mkTCPConnection (_cfg c) (_receiver c) s
      (_segments_out c ++ map (stamp (_receiver c)) dup) (_linger_after_streams_finish c) (_active c) t in
    ticked (_sender c) s ∧
    (dup = [] ∨ ∃ seg rest, TCPSender._outstanding_segments (_sender c) = seg :: rest ∧ dup = [seg]) ∧
    0 <= _consecutive_retransmissions s <= _consecutive_retransmissions (_sender c) +
      (match TCPSender._outstanding_segments (_sender c) with [] => 0 | _ => 1 end) ∧
    (tick c 1000 = c1 ∧ (finished c → t < 10 * rt_timeout (_cfg c)) ∨
     tick c 1000 = shutdown c1 ∧ finished c ∧ 10 * rt_timeout (_cfg c) <= t).
Proof.
  intros Hd Hc. destruct (sender_ticks (_sender c) Hd Hc) as (dup & Ho & Ht & Hdup & Hc').
  eexists _, dup. cbn zeta. split; [exact Ht|]. split; [done|]. split; [exact Hc'|].
  unfold tick. set (c1 := send_segments _).
  assert ((MAX_RETX_ATTEMPTS <? consecutive_retransmissions (_sender c1)) = false) as ->.
  { change (consecutive_retransmissions (_sender c1))
      with (_consecutive_retransmissions (TCPSender.tick (_sender c) 1000)).
    unfold MAX_RETX_ATTEMPTS. destruct (TCPSender._outstanding_segments (_sender c)); lia. }
  assert (input_ended (TCPReceiver.stream_out (_receiver c1)) && input_ended (stream_in (_sender c1)) &&
    (TCPSender.bytes_in_flight (_sender c1) =? 0) = true ↔ finished c) as Hfin.
  { destruct Ht. rewrite !andb_true_iff, Z.eqb_eq. unfold finished, bytes_in_flight, TCPSender.bytes_in_flight, stream_in in *.
    simpl in *. rewrite tk_stream0, tk_outstanding0. tauto. }
  assert (c1 = mkTCPConnection (_cfg c) (_receiver c) (TCPSender.set_segments_out (TCPSender.tick (_sender c) 1000) [])
    (_segments_out c ++ map (stamp (_receiver c)) dup) (_linger_after_streams_finish c) (_active c)
    (u64 (_time_since_last_segment_received c + 1000))) as Hc1
    by (unfold c1, send_segments, TCPSender.segments_out; simpl; by rewrite Ho).
  unfold time_since_last_segment_received. rewrite Hc1 in *. cbn [_cfg _time_since_last_segment_received].
  destruct (_ && _ && _) eqn:E; cbn [andb].
  - destruct (_ <=? _) eqn:E2; [right|left]; (split; [done|]); [split; [by apply Hfin|lia]|lia].
  - left. split; [done|]. intros Hf. by apply Hfin in Hf.
Qed.

Lemma busy_ticks c :
  TCPSender._segments_out (_sender c) = [] → 0 <= _consecutive_retransmissions (_sender c) <= 1 →
  (finished c → u64 (_time_since_last_segment_received c + 1000) < 10 * rt_timeout (_cfg c)) →
  ∃ s dup t, tick c 1000 = mkTCPConnection (_cfg c) (_receiver c) s
      (_segments_out c ++ map (stamp (_receiver c)) dup) (_linger_after_streams_finish c) (_active c) t ∧
    ticked (_sender c) s ∧
    (dup = [] ∨ ∃ seg rest, TCPSender._outstanding_segments (_sender c) = seg :: rest ∧ dup = [seg]) ∧
    0 <= _consecutive_retransmissions s <= _consecutive_retransmissions (_sender c) +
      (match TCPSender._outstanding_segments (_sender c) with [] => 0 | _ => 1 end).
Proof.
  intros Hd Hc Hnf. destruct (connection_ticks c Hd Hc) as (s & dup & Ht & Hdup & Hc' & [[Hk _]|(_ & Hf & Hle)]).
  - by eexists s, dup, _.
  - specialize (Hnf Hf). lia.
Qed.

Lemma tick_time c ms :
  _time_since_last_segment_received (tick c ms) = u64 (_time_since_last_segment_received c + ms).
Proof. unfold tick. by repeat case_match. Qed.

(** Every segment restarts the clock. *)
Lemma segment_received_time reads c seg c' :
  segment_received reads c seg = Ok c' → _time_since_last_segment_received c' = 0.
Proof.
  unfold segment_received. destruct (_ && _); [by intros <-%Ok_inj|]. intros (c1 & H1 & H2)%result_bind_ok.
  assert (_time_since_last_segment_received c1 = 0) as Ht.
  { destruct (negb _); [|by apply Ok_inj in H1 as <-]. unfold connect_sender in H1.
    by apply result_bind_ok in H1 as (s & _ & <-%Ok_inj). }
  destruct (rst _); [by apply Ok_inj in H2 as <-|]. unfold segment_processed in H2.
  apply result_bind_ok in H2 as (r & _ & (s & _ & <-%Ok_inj)%result_bind_ok).
  unfold update_connection_status. by repeat case_match.
Qed.
