(* ===== verification/EndToEnd.v ===== *)
(** * Two endpoints and a network

    The composition of two connections over a network that loses, duplicates,
    delays and reorders segments, but does not change them.  The endpoints are
    the two values of [bool]; the endpoint [x] writes the stream [S x] and its
    initial sequence number is [isn x]. *)

From stdpp Require Import functions relations.
From S2P Require Import Prelude WrappingIntegers ByteStream StreamReassembler Buffer TCPHeader.
From S2P Require Import TCPSegment TCPConfig StreamSegments TCPReceiver TCPSender TCPConnection.
From stdpp Require Import options.

(** [net x] is everything that [x] has ever transmitted, [got x] what its
    application has read. *)
Record world := mkworld {
  conn : bool → TCPConnection;
  net : bool → list TCPSegment;
  got : bool → bytes
}.

Section World.
Context (S : bool → bytes) (isn : bool → WrappingInt32).

(** The calls of one endpoint's application and owner.  The application writes
    the next bytes of its stream, and ends it after the last. *)
Inductive local (x : bool) (c : TCPConnection) : TCPConnection → bytes → Prop :=
| local_connect c' :
    connect c = Ok c' → local x c c' []
| local_write n c' k :
    0 <= n → write c (stake n (sdrop (bytes_written (stream_in (_sender c))) (S x))) = Ok (c', k) →
    local x c c' []
| local_end c' :
    bytes_written (stream_in (_sender c)) = slen (S x) → end_input_stream c = Ok c' → local x c c' []
| local_tick ms :
    local x c (tick c ms) []
| local_read n c' out :
    0 <= n → read_inbound c n = Ok (c', out) → local x c c' out.

(** A segment that was ever transmitted by the peer may arrive at any time, any
    number of times, or never.  What an undefined read yields may differ each
    time. *)
Inductive wstep (w : world) : world → Prop :=
| wstep_local x c' out :
    local x (conn w x) c' out →
    wstep w (mkworld (<[x := c']> (conn w)) (net w) (<[x := got w x ++ out]> (got w)))
| wstep_transmit x :
    wstep w (mkworld (<[x := set_segments_out (conn w x) []]> (conn w))
                     (<[x := net w x ++ segments_out (conn w x)]> (net w)) (got w))
| wstep_arrive reads x seg c' :
    seg ∈ net w (negb x) → segment_received reads (conn w x) seg = Ok c' →
    wstep w (mkworld (<[x := c']> (conn w)) (net w) (got w)).

Definition winit (cfg : bool → TCPConfig) (random : bool → Z) : world :=
  mkworld (λ x, TCPConnection_new (cfg x) (random x)) (λ _, []) (λ _, []).

(** ** Invariant *)

Record winv (w : world) : Prop := {
  wi_conn x : cinv (S x) (S (negb x)) (isn x) (isn (negb x)) (conn w x);
  wi_net x : Forall (carries (S x) (isn x)) (net w x);
  wi_taken x : taken (conn w x) = slen (got w x);
  wi_got x : agree (S (negb x)) 0 (got w x)
}.

Context (Hisn : ∀ x, wf_WrappingInt32 (isn x)) (HS : ∀ x, slen (S x) < 0x80000000).

Lemma cinv_write_ok So Si io ii c n :
  cinv So Si io ii c → 0 <= n →
  ∃ c' k, write c (stake n (sdrop (bytes_written (stream_in (_sender c))) So)) = Ok (c', k) ∧
    cinv So Si io ii c' ∧ taken c' = taken c.
Proof using Type.
  intros Hc Hn. unfold write. destruct (ByteStream.write _ _) as [[b k]|] eqn:Hw.
  2: { by rewrite write_eq in Hw by apply (si_wf _ _ (proj1 (ci_sender _ _ _ _ _ Hc))). }
  cbn [mbind result_bind].
  assert (cinv So Si io ii (set_sender c (set_stream (_sender c) b))) as Hc1.
  { destruct Hc. split; simpl; try done. by apply (write_sinv So _ n b k). }
  destruct (cinv_update_sender _ _ _ _ _ Hc1) as (c2 & -> & Hc2 & Hr). cbn [mbind result_bind].
  eexists _, _. split; [done|]. split; [done|]. unfold taken. by rewrite Hr.
Qed.

Lemma cinv_end_ok So Si io ii c :
  cinv So Si io ii c → bytes_written (stream_in (_sender c)) = slen So →
  ∃ c', end_input_stream c = Ok c' ∧ cinv So Si io ii c' ∧ taken c' = taken c.
Proof using Type.
  intros Hc He. unfold end_input_stream.
  destruct (cinv_update_sender So Si io ii
    (set_sender c (set_stream (_sender c) (end_input (stream_in (_sender c)))))) as (c2 & Hu & Hc2 & Hr).
  { destruct Hc. split; simpl; try done.
    by destruct (sstep_sinv So (_sender c) [] _ ci_sender (step_end So (_sender c) He)). }
  exists c2. split_and!; [done|done|]. unfold taken. by rewrite Hr.
Qed.

Lemma cinv_end So Si io ii c c' :
  cinv So Si io ii c → bytes_written (stream_in (_sender c)) = slen So → end_input_stream c = Ok c' →
  cinv So Si io ii c' ∧ taken c' = taken c.
Proof using Type.
  intros Hc He Hend. destruct (cinv_end_ok _ _ _ _ _ Hc He) as (c2 & Hu & ? & ?).
  rewrite Hend in Hu. by apply Ok_inj in Hu as <-.
Qed.

Lemma taken_tick c ms : taken (tick c ms) = taken c.
Proof using Type. unfold tick, taken. by repeat case_match. Qed.

Lemma local_spec x c c' out :
  cinv (S x) (S (negb x)) (isn x) (isn (negb x)) c → local x c c' out →
  cinv (S x) (S (negb x)) (isn x) (isn (negb x)) c' ∧ taken c' = taken c + slen out ∧
  agree (S (negb x)) (taken c) out.
Proof using Hisn HS.
  intros Hc Hl. destruct Hl as [c' Hcon|n c' k Hn Hw|c' He Hend|ms|n c' out Hn Hr].
  - unfold connect in Hcon. destruct (cinv_connect_sender _ _ _ _ _ Hc) as (c1 & Hc1 & Hi1 & Hr1).
    rewrite Hc1 in Hcon. cbn [mbind result_bind] in Hcon. apply Ok_inj in Hcon as <-.
    split_and!; [by apply cinv_send_segments| |apply agree_nil].
    unfold taken. simpl. rewrite Hr1, slen_nil. lia.
  - destruct (cinv_write_ok _ _ _ _ _ _ Hc Hn) as (c2 & k2 & Hw2 & ? & Ht). rewrite Hw in Hw2.
    apply Ok_inj in Hw2 as [= <- <-]. rewrite Ht. split_and!; [done|rewrite slen_nil; lia|apply agree_nil].
  - destruct (cinv_end _ _ _ _ _ _ Hc He Hend) as [? ->].
    split_and!; [done|rewrite slen_nil; lia|apply agree_nil].
  - split_and!; [by apply cinv_tick|rewrite taken_tick, slen_nil; lia|apply agree_nil].
  - destruct (cinv_read_inbound (S x) (S (negb x)) (isn x) (isn (negb x))
      (Hisn (negb x)) (HS (negb x)) c n Hc Hn) as (c2 & out2 & Hr2 & ? & ? & ?).
    rewrite Hr in Hr2. by apply Ok_inj in Hr2 as [= <- <-].
Qed.

Lemma wstep_winv w w' : winv w → wstep w w' → winv w'.
Proof using Hisn HS.
  intros [Hc Hn Ht Hg] Hst. destruct Hst as [x c' out Hl|x|reads x seg c' Hin Hr].
  - destruct (local_spec x _ _ _ (Hc x) Hl) as (Hc' & Ht' & Ha).
    split; intros y; simpl; (destruct (decide (x = y)) as [<-|Hne];
      [rewrite ?fn_lookup_insert|rewrite ?fn_lookup_insert_ne by done]); try done.
    + rewrite slen_app, Ht', Ht. done.
    + rewrite agree_app by lia. split; [done|]. by rewrite <- Ht.
  - split; intros y; simpl; (destruct (decide (x = y)) as [<-|Hne];
      [rewrite ?fn_lookup_insert|rewrite ?fn_lookup_insert_ne by done]); try done.
    + by destruct (Hc x); split.
    + apply Forall_app_2; [done|]. apply emits_carries, (ci_out _ _ _ _ _ (Hc x)).
    + by rewrite <- Ht.
  - assert (carries (S (negb x)) (isn (negb x)) seg) as Hseg
      by (pose proof (Hn (negb x)) as H; rewrite list.Forall_forall in H; by apply H).
    destruct (or_undefined_ok _ _ _ (cinv_segment_received (S x) (S (negb x)) (isn x) (isn (negb x)) reads
      (Hisn (negb x)) (HS (negb x)) (conn w x) seg (Hc x) Hseg) Hr) as [Hc2 Ht2].
    split; intros y; simpl; (destruct (decide (x = y)) as [<-|Hne];
      [rewrite ?fn_lookup_insert|rewrite ?fn_lookup_insert_ne by done]); try done.
    by rewrite Ht2.
Qed.

Lemma wsteps_winv w w' : winv w → rtc wstep w w' → winv w'.
Proof using Hisn HS. intros Hw. induction 1; [done|]. eauto using wstep_winv. Qed.

End World.

(** ** Bytes the connection has taken from its application *)

Definition written (c : TCPConnection) : Z := ByteStream.bytes_written (stream_in (_sender c)).

Lemma written_range So Si io ii c : cinv So Si io ii c → 0 <= written c <= slen So.
Proof. intros Hc. destruct (ci_sender _ _ _ _ _ Hc) as [[] _]. unfold written, stream_in. slia. Qed.

Lemma fill_once_written s s' :
  fill_once s = Ok s' → ByteStream.bytes_written (_stream s') = ByteStream.bytes_written (_stream s).
Proof.
  unfold fill_once. rewrite ByteStream.read_eq. cbn [mbind result_bind].
  destruct (_ && _ && _); intros <-%Ok_inj; by rewrite send_new_segment_stream.
Qed.

Lemma fill_loop_written fuel : ∀ s s',
  fill_loop fuel s = Ok s' → ByteStream.bytes_written (_stream s') = ByteStream.bytes_written (_stream s).
Proof.
  induction fuel as [|fuel IH]; intros s s'; cbn [fill_loop]; (destruct (_ && _); [|by intros <-%Ok_inj]); [done|].
  intros (s1 & H1 & H2)%result_bind_ok. rewrite (IH _ _ H2). by apply fill_once_written.
Qed.

Lemma fill_window_written s s' :
  fill_window s = Ok s' → ByteStream.bytes_written (_stream s') = ByteStream.bytes_written (_stream s).
Proof.
  unfold fill_window. set (s1 := if _next_seqno s =? 0 then _ else s).
  assert (_stream s1 = _stream s) as <- by (unfold s1; case_match; [apply send_new_segment_stream|done]).
  clearbody s1. destruct (_ =? 0); [by intros <-%Ok_inj|].
  intros (s2 & H2 & <-%Ok_inj)%result_bind_ok. apply fill_loop_written in H2.
  case_match; [|done]. by rewrite send_new_segment_stream.
Qed.

Lemma ack_received_written end_header s a w s' :
  ack_received end_header s a w = Ok s' → ByteStream.bytes_written (_stream s') = ByteStream.bytes_written (_stream s).
Proof.
  intros H%ack_received_ok. revert H. unfold ack_effect. destruct (_ || _); [by intros <-%Ok_inj|].
  intros H%fill_window_written. rewrite H.
  destruct (ack_update_fields s (raw_value a) w) as (_ & _ & -> & _). done.
Qed.

Lemma segment_received_written reads c seg c' :
  TCPConnection.segment_received reads c seg = Ok c' → written c' = written c.
Proof.
  unfold TCPConnection.segment_received, written. destruct (negb _ && _); [by intros <-%Ok_inj|].
  intros (c1 & H1 & H2)%result_bind_ok.
  assert (ByteStream.bytes_written (stream_in (_sender c1)) = ByteStream.bytes_written (stream_in (_sender c))) as <-.
  { destruct (negb _); [|by apply Ok_inj in H1 as <-]. unfold connect_sender in H1.
    apply result_bind_ok in H1 as (s & Hs%fill_window_written & <-%Ok_inj). exact Hs. }
  destruct (rst (header seg)); [by apply Ok_inj in H2 as <-|]. unfold segment_processed in H2.
  apply result_bind_ok in H2 as (r & _ & (s & Hs & <-%Ok_inj)%result_bind_ok).
  destruct (update_status_same (send_segments (set_sender (set_receiver c1 r)
    (if (match TCPSender.segments_out s with [] => true | _ => false end) && (0 <? length_in_sequence_space seg)
     then send_empty_segment s else s)))) as (_ & _ & E). rewrite E.
  assert (ByteStream.bytes_written (_stream s) = ByteStream.bytes_written (stream_in (_sender c1))) as <-.
  { destruct (ack (header seg)); [by apply ack_received_written in Hs|by apply Ok_inj in Hs as <-]. }
  unfold send_segments. cbn [_sender set_sender]. by case_match.
Qed.

Lemma tick_written c ms : written (TCPConnection.tick c ms) = written c.
Proof.
  unfold written, TCPConnection.tick. assert (∀ s, _stream (TCPSender.tick s ms) = _stream s) as Ht.
  { intros s. unfold TCPSender.tick. by repeat case_match. }
  repeat case_match; simpl; by rewrite Ht.
Qed.

Lemma update_sender_written c c' :
  update_sender c = Ok c' → written c' = written c.
Proof. unfold update_sender. intros (s & H%fill_window_written & <-%Ok_inj)%result_bind_ok. exact H. Qed.

Lemma end_input_written c c' : end_input_stream c = Ok c' → written c' = written c.
Proof. unfold end_input_stream. intros H%update_sender_written. by rewrite H. Qed.

Lemma connect_written c c' : TCPConnection.connect c = Ok c' → written c' = written c.
Proof.
  unfold TCPConnection.connect, connect_sender.
  intros (c1 & (s & H%fill_window_written & <-%Ok_inj)%result_bind_ok & <-%Ok_inj)%result_bind_ok. exact H.
Qed.

Lemma cinv_connect So Si io ii c :
  cinv So Si io ii c →
  ∃ c', TCPConnection.connect c = Ok c' ∧ cinv So Si io ii c' ∧ taken c' = taken c ∧ written c' = written c.
Proof.
  intros Hc. destruct (cinv_connect_sender _ _ _ _ _ Hc) as (c1 & Hc1 & Hi1 & Hr1).
  assert (TCPConnection.connect c = Ok (send_segments c1)) as H by (unfold TCPConnection.connect; by rewrite Hc1).
  exists (send_segments c1). split_and!; [done|by apply cinv_send_segments| |by apply connect_written].
  unfold taken. simpl. by rewrite Hr1.
Qed.

Lemma written_new cfg random : written (TCPConnection_new cfg random) = 0.
Proof. done. Qed.

Lemma taken_new cfg random : taken (TCPConnection_new cfg random) = 0.
Proof. done. Qed.

(** Data that fits is taken whole. *)
Lemma write_takes So Si io ii c data :
  cinv So Si io ii c → slen data <= remaining_outbound_capacity c →
  data = stake (slen data) (sdrop (written c) So) →
  ∃ c', TCPConnection.write c data = Ok (c', slen data) ∧ cinv So Si io ii c' ∧
    written c' = written c + slen data ∧ taken c' = taken c.
Proof.
  intros Hc Hl Hd. pose proof (ci_sender _ _ _ _ _ Hc) as [[] _].
  unfold remaining_outbound_capacity in Hl. rewrite remaining_capacity_eq in Hl by done.
  assert (accepts (stream_in (_sender c)) data = slen data) as Ha by (unfold accepts, stream_in in *; lia).
  assert (written c + slen data <= slen So).
  { unfold written, stream_in in *. rewrite Hd, slen_stake, slen_sdrop by slia. slia. }
  destruct (ByteStream.write (stream_in (_sender c)) data) as [[b n]|e] eqn:Hw; rewrite write_eq, Ha in Hw by done; [|done].
  assert (sinv So (set_stream (_sender c) b)) as Hb.
  { eapply (write_sinv So (_sender c) (slen data)); [apply Hc|apply slen_nonneg|].
    change (ByteStream.bytes_written (_stream (_sender c))) with (written c). rewrite <- Hd.
    rewrite write_eq by done. unfold stream_in in *. rewrite Ha. exact Hw. }
  destruct (cinv_update_sender So Si io ii (set_sender c (set_stream (_sender c) b))) as (c2 & Hu & Hc2 & Hr).
  { by destruct Hc; split. }
  exists c2. unfold TCPConnection.write. rewrite write_eq, Ha by done.
  apply Ok_inj in Hw as [= <- <-]. cbn [mbind result_bind]. rewrite Hu. cbn [mbind result_bind].
  split_and!; [done|done| |unfold taken; by rewrite Hr].
  rewrite (update_sender_written _ _ Hu). unfold written. simpl. apply u64_small.
  unfold written, ByteStream.bytes_written, stream_in in *. unfold_width. slia.
Qed.

(** ** Properties *)

(** C3: end to end.  Two connections talk over a network that loses, duplicates,
    delays and reorders segments, while their applications write, read and
    end their streams, of less than [2^31] bytes each, and time passes, in any
    interleaving; the initial numbers are fixed or random.  At every moment,
    and for each endpoint, what its application has read followed by what is
    buffered for it is a prefix of what the peer's application writes.  No call
    throws that an endpoint can receive next, to connect, write, end, read or
    take a segment, except that taking a segment can be undefined: when a FIN
    arrives while substrings are waiting, or when the read past the end of the
    outstanding segments stops the program.  What undefined reads yield
    otherwise does not matter. *)
Theorem streams_delivered (S : bool → bytes) (isn : bool → WrappingInt32)
    (cfg : bool → TCPConfig) (random : bool → Z) (w : world) :
  (∀ x, default (WrappingInt32_of (random x)) (fixed_isn (cfg x)) = isn x) → (∀ x, wf_WrappingInt32 (isn x)) →
  (∀ x, is_u64 (send_capacity (cfg x))) → (∀ x, is_u64 (recv_capacity (cfg x) + 0x80000000)) →
  (∀ x, 0 <= recv_capacity (cfg x)) → (∀ x, slen (S x) < 0x80000000) →
  rtc (wstep S) (winit cfg random) w →
  ∀ x,
    got w x ++ ByteStream._buffer (inbound_stream (conn w x)) =
      stake (bytes_written (inbound_stream (conn w x))) (S (negb x)) ∧
    is_ok (connect (conn w x)) ∧
    (∀ n, 0 <= n → is_ok (write (conn w x) (stake n (sdrop (bytes_written (stream_in (_sender (conn w x)))) (S x))))) ∧
    (bytes_written (stream_in (_sender (conn w x))) = slen (S x) → is_ok (end_input_stream (conn w x))) ∧
    (∀ n, 0 <= n → is_ok (read_inbound (conn w x) n)) ∧
    (∀ reads seg, seg ∈ net w (negb x) →
       is_ok (segment_received reads (conn w x) seg) ∨
       (segment_received reads (conn w x) seg = Throw Undefined ∧ undefined_at reads (conn w x) seg)).
Proof.
  intros Hfix Hisn Hsc Hrc Hrc0 HS Htr x.
  assert (winv S isn w) as [Hc Hn Ht Hg].
  { apply (wsteps_winv S isn Hisn HS (winit cfg random)); [|done].
    split; intros y; simpl; [|by constructor|done|apply agree_nil].
    pose proof (HS y). pose proof (HS (negb y)). pose proof (slen_nonneg (S (negb y))).
    pose proof (Hrc y). pose proof (Hrc0 y). pose proof (slen_nonneg (S y)). unfold_width.
    apply cinv_new; auto; unfold_width; auto; lia. }
  specialize (Hc x). split_and!.
  - pose proof (ci_receiver _ _ _ _ _ Hc) as Hr.
    destruct (bytes_written_index _ _ _ Hr) as (Hbw & _). unfold inbound_stream. rewrite Hbw.
    apply delivered_prefix; [apply Hr|apply Ht|apply Hg].
  - unfold connect. destruct (cinv_connect_sender _ _ _ _ _ Hc) as (c1 & -> & _). by eexists.
  - intros n Hn0. destruct (cinv_write_ok _ _ _ _ _ n Hc Hn0) as (c' & k & -> & _). by eexists.
  - intros He. destruct (cinv_end_ok _ _ _ _ _ Hc He) as (c' & -> & _). by eexists.
  - intros n Hn0. destruct (cinv_read_inbound (S x) (S (negb x)) (isn x) (isn (negb x))
      (Hisn (negb x)) (HS (negb x)) _ n Hc Hn0) as (c' & out & -> & _). by eexists.
  - intros reads seg Hin. specialize (Hn (negb x)). rewrite list.Forall_forall in Hn.
    apply (segment_received_cases (S x) (S (negb x)) (isn x) (isn (negb x)) reads
      (Hisn (negb x)) (HS (negb x)) (conn w x) seg Hc (Hn _ Hin)).
Qed.

Definition sample_streams (x : bool) : bytes := if x then [1; 2; 3] else [4; 5].
Definition sample_isn (x : bool) : WrappingInt32 := mkWrappingInt32 (if x then 0xfffffffe else 9).
Definition sample_world : world := winit (λ x, sample_cfg (raw_value (sample_isn x))) (λ _, 0).
Definition connected (c : TCPConnection) : TCPConnection :=
  match connect c with Ok c' => c' | Throw _ => c end.

Lemma streams_delivered_witness :
  let w := mkworld (<[true := connected (conn sample_world true)]> (conn sample_world))
             (net sample_world) (<[true := [] ++ []]> (got sample_world)) in
  got w false ++ ByteStream._buffer (inbound_stream (conn w false)) =
    stake (bytes_written (inbound_stream (conn w false))) [1; 2; 3].
Proof.
  intros w. apply (streams_delivered sample_streams sample_isn (λ x, sample_cfg (raw_value (sample_isn x))) (λ _, 0) w) with (x := false).
  - by intros [].
  - by intros [].
  - by intros [].
  - by intros [].
  - by intros [].
  - by intros [].
  - apply rtc_once. apply (wstep_local sample_streams sample_world true).
    apply local_connect. vm_compute. reflexivity.
Defined.
