(* ===== verification/IPv4Header.v ===== *)
(** * The IPv4 header (libsponge/tcp_helpers/ipv4_header.{hh,cc})

    The fields, [parse] and [serialize] with the checks they make, and the
    pseudo-header sum for TCP.  The two functions that print a header are not
    modelled. *)

From S2P Require Import Prelude Buffer Parser Checksum.
From stdpp Require Import options.

Record IPv4Header := mkIPv4Header {
  ver : Z;
  hlen : Z;
  tos : Z;
  len : Z;
  id : Z;
  df : bool;
  mf : bool;
  offset : Z;
  ttl : Z;
  proto : Z;
  cksum : Z;
  src : Z;
  dst : Z
}.

#[export] Instance IPv4Header_eq_dec : EqDecision IPv4Header.
Proof. solve_decision. Defined.

Definition LENGTH : Z := 20.
Definition DEFAULT_TTL : Z := 128.
Definition PROTO_TCP : Z := 6.

Definition IPv4Header_default : IPv4Header :=
  mkIPv4Header 4 (LENGTH / 4) 0 0 0 true false 0 DEFAULT_TTL PROTO_TCP 0 0 0.

(** Assignments to the fields. *)
Definition with_cksum (h : IPv4Header) (c : Z) : IPv4Header :=
  mkIPv4Header (ver h) (hlen h) (tos h) (len h) (id h) (df h) (mf h) (offset h) (ttl h) (proto h) c
    (src h) (dst h).

Definition with_ttl (h : IPv4Header) (t : Z) : IPv4Header :=
  mkIPv4Header (ver h) (hlen h) (tos h) (len h) (id h) (df h) (mf h) (offset h) t (proto h) (cksum h)
    (src h) (dst h).

Definition with_addresses (h : IPv4Header) (s d l : Z) : IPv4Header :=
  mkIPv4Header (ver h) (hlen h) (tos h) l (id h) (df h) (mf h) (offset h) (ttl h) (proto h) (cksum h) s d.

(** The checks after the fields have been read; [original] is the input.  The
    header's own bytes are the first [4 * hlen] of it. *)
Definition parse_checks (original : Buffer) (p : NetParser) (h : IPv4Header)
    : result (NetParser * IPv4Header * ParseResult) :=
  let data_size := size original in
  if data_size <? 4 * hlen h then Ok (p, h, PacketTooShort)
  else if negb (ver h =? 4) then Ok (p, h, WrongIPVersion)
  else if hlen h <? 5 then Ok (p, h, HeaderTooShort)
  else if negb (data_size =? len h) then Ok (p, h, TruncatedPacket)
  else
    p ← Parser.remove_prefix p (u64 (hlen h * 4 - LENGTH));
    if Parser.error p then Ok (p, h, get_error p)
    else
      let check := Checksum.add (InternetChecksum_new 0) (stake (4 * hlen h) (str original)) in
      if negb (value check =? 0) then Ok (p, h, BadChecksum) else Ok (p, h, NoError).

Definition parse (this : IPv4Header) (p : NetParser) : result (NetParser * IPv4Header * ParseResult) :=
  let original_serialized_version := Parser.buffer p in
  let data_size := size (Parser.buffer p) in
  if data_size <? LENGTH then Ok (p, this, PacketTooShort)
  else
    '(p, first_byte) ← parse_u8 p;
    '(p, tos) ← parse_u8 p;
    '(p, len) ← parse_u16 p;
    '(p, id) ← parse_u16 p;
    '(p, fo_val) ← parse_u16 p;
    '(p, ttl) ← parse_u8 p;
    '(p, proto) ← parse_u8 p;
    '(p, cksum) ← parse_u16 p;
    '(p, src) ← parse_u32 p;
    '(p, dst) ← parse_u32 p;
    parse_checks original_serialized_version p
      (mkIPv4Header (Z.shiftr first_byte 4) (Z.land first_byte 0x0f) tos len id
         (negb (Z.land fo_val 0x4000 =? 0)) (negb (Z.land fo_val 0x2000 =? 0)) (Z.land fo_val 0x1fff)
         ttl proto cksum src dst).

Definition first_byte (h : IPv4Header) : Z := u8 (Z.lor (Z.shiftl (ver h) 4) (Z.land (hlen h) 0xf)).

Definition fo_val (h : IPv4Header) : Z :=
  u16 (Z.lor (if df h then 0x4000 else 0) (Z.lor (if mf h then 0x2000 else 0) (Z.land (offset h) 0x1fff))).

Definition serialize (h : IPv4Header) : result bytes :=
  if negb (ver h =? 4) then Throw RuntimeError
  else if 4 * hlen h <? LENGTH then Throw RuntimeError
  else
    let ret := unparse_u8 [] (first_byte h) in
    let ret := unparse_u8 ret (tos h) in
    let ret := unparse_u16 ret (len h) in
    let ret := unparse_u16 ret (id h) in
    let ret := unparse_u16 ret (fo_val h) in
    let ret := unparse_u8 ret (ttl h) in
    let ret := unparse_u8 ret (proto h) in
    let ret := unparse_u16 ret (cksum h) in
    let ret := unparse_u32 ret (src h) in
    let ret := unparse_u32 ret (dst h) in
    Ok (sresize (4 * hlen h) ret).

Definition payload_length (h : IPv4Header) : Z := u16 (len h - 4 * hlen h).

Definition pseudo_cksum (h : IPv4Header) : Z :=
  let pcksum := u32 (Z.shiftr (src h) 16 + Z.land (src h) 0xffff) in
  let pcksum := u32 (pcksum + u32 (Z.shiftr (dst h) 16 + Z.land (dst h) 0xffff)) in
  let pcksum := u32 (pcksum + proto h) in
  u32 (pcksum + payload_length h).

(** ** Well-formed headers *)

Record wf (h : IPv4Header) : Prop := {
  wf_ver : ver h = 4;
  wf_hlen : 5 <= hlen h <= 15;
  wf_tos : is_u8 (tos h);
  wf_len : is_u16 (len h);
  wf_id : is_u16 (id h);
  wf_offset : 0 <= offset h <= 0x1fff;
  wf_ttl : is_u8 (ttl h);
  wf_proto : is_u8 (proto h);
  wf_cksum : is_u16 (cksum h);
  wf_src : is_u32 (src h);
  wf_dst : is_u32 (dst h)
}.

(** The bytes before the checksum field and after it. *)
Definition head_bytes (h : IPv4Header) : bytes :=
  be_bytes 1 (first_byte h) ++ be_bytes 1 (tos h) ++ be_bytes 2 (len h) ++ be_bytes 2 (id h) ++
  be_bytes 2 (fo_val h) ++ be_bytes 1 (ttl h) ++ be_bytes 1 (proto h).

Definition tail_bytes (h : IPv4Header) : bytes :=
  be_bytes 4 (src h) ++ be_bytes 4 (dst h) ++ replicate (Z.to_nat (4 * hlen h - LENGTH)) 0.

Lemma ipv4_head_bytes_slen h : slen (head_bytes h) = 10.
Proof. unfold head_bytes. rewrite !slen_app, !be_bytes_slen. done. Qed.

Lemma ipv4_tail_bytes_slen h : 5 <= hlen h → slen (tail_bytes h) = 4 * hlen h - 12.
Proof.
  intros. unfold tail_bytes, LENGTH. rewrite !slen_app, !be_bytes_slen. unfold slen.
  rewrite length_replicate. lia.
Qed.

Lemma ipv4_head_bytes_range h : Forall is_u8 (head_bytes h).
Proof. unfold head_bytes. rewrite !Forall_app. split_and!; apply be_bytes_range. Qed.

Lemma ipv4_tail_bytes_range h : Forall is_u8 (tail_bytes h).
Proof.
  unfold tail_bytes. rewrite !Forall_app. split_and!; try apply be_bytes_range.
  apply Forall_replicate. concrete.
Qed.

Lemma ipv4_serialize_eq h :
  wf h → serialize h = Ok (head_bytes h ++ be_bytes 2 (cksum h) ++ tail_bytes h).
Proof.
  intros [Hv Hh ? ? ? ? ? ? ? ? ?]. unfold serialize, LENGTH. rewrite Hv. change (negb (4 =? 4)) with false.
  cbv iota. destruct (4 * hlen h <? 20) eqn:E; [lia|].
  unfold unparse_u8, unparse_u16, unparse_u32, _unparse_int.
  unfold sresize. rewrite stake_all; rewrite ?slen_app, ?be_bytes_slen; [|slia].
  unfold head_bytes, tail_bytes, LENGTH. rewrite app_nil_l, <- !app_assoc. do 11 f_equal.
Qed.

(** The packed fields come apart again. *)
Lemma first_byte_fields h :
  ver h = 4 → 5 <= hlen h <= 15 →
  is_u8 (first_byte h) ∧ Z.shiftr (first_byte h) 4 = 4 ∧ Z.land (first_byte h) 0x0f = hlen h.
Proof.
  intros Hv Hh. unfold first_byte. rewrite Hv.
  assert (∃ n : nat, (5 <= n <= 15)%nat ∧ hlen h = Z.of_nat n) as (n & Hn & ->)
    by (exists (Z.to_nat (hlen h)); lia).
  do 16 (destruct n as [|n]; [try lia; done|]). lia.
Qed.

Lemma land_0x1fff x : Z.land x 0x1fff = x mod 0x2000.
Proof. change 0x1fff with (Z.ones 13). by rewrite Z.land_ones. Qed.

Lemma fo_val_fields h :
  0 <= offset h <= 0x1fff →
  is_u16 (fo_val h) ∧ negb (Z.land (fo_val h) 0x4000 =? 0) = df h ∧
  negb (Z.land (fo_val h) 0x2000 =? 0) = mf h ∧ Z.land (fo_val h) 0x1fff = offset h.
Proof.
  intros Ho. split; [apply u16_range|].
  assert (∀ m, Z.land (fo_val h) m =
    Z.lor (Z.land (if df h then 0x4000 else 0) (Z.land 0xffff m))
      (Z.lor (Z.land (if mf h then 0x2000 else 0) (Z.land 0xffff m))
         (Z.land (offset h) (Z.land 0x1fff (Z.land 0xffff m))))) as H.
  { intros m. unfold fo_val, u16. rewrite <- land_0xffff, !Z.land_lor_distr_l, !Z.land_assoc. done. }
  assert (Z.land (offset h) (Z.land 0x1fff (Z.land 0xffff 0x1fff)) = offset h) as H1.
  { change (Z.land 0x1fff (Z.land 0xffff 0x1fff)) with 0x1fff. rewrite land_0x1fff. apply Z.mod_small. lia. }
  assert (Z.land (offset h) (Z.land 0x1fff (Z.land 0xffff 0x4000)) = 0) as H2 by apply Z.land_0_r.
  assert (Z.land (offset h) (Z.land 0x1fff (Z.land 0xffff 0x2000)) = 0) as H3 by apply Z.land_0_r.
  rewrite !H, H1, H2, H3. by destruct (df h), (mf h).
Qed.

#[export] Hint Resolve first_byte_fields fo_val_fields : sponge.

(** The verdict on the checksum of the bytes [s]. *)
Definition verdict (s : bytes) : ParseResult :=
  if value (Checksum.add (InternetChecksum_new 0) s) =? 0 then NoError else BadChecksum.

(** On a well-formed header of the right length only the checksum decides. *)
Lemma parse_checks_ok h s b rest p :
  ver h = 4 → 5 <= hlen h <= 15 → str b = s ++ rest → slen s = 4 * hlen h → slen (str b) = len h →
  parser_at p (replicate (Z.to_nat (4 * hlen h - LENGTH)) 0 ++ rest) →
  ∃ p', parse_checks b p h = Ok (p', h, verdict s) ∧ parser_at p' rest.
Proof.
  intros Hv Hh Hstr Hsl Hlen Hp. pose proof (slen_nonneg rest).
  unfold parse_checks, size. rewrite Hlen, Hv, (Z.eqb_refl (len h)). cbn [negb Z.eqb Pos.eqb].
  destruct (len h <? 4 * hlen h) eqn:E1; [rewrite <- Hlen, Hstr, slen_app in E1; lia|].
  destruct (hlen h <? 5) eqn:E2; [lia|].
  rewrite u64_small by (unfold LENGTH; unfold_width; lia).
  destruct (parser_remove_prefix_spec p (hlen h * 4 - LENGTH) _ _ Hp) as (p' & -> & Hp').
  { unfold slen. rewrite length_replicate. unfold LENGTH. lia. }
  cbn [mbind result_bind]. rewrite (parser_at_error _ _ Hp').
  rewrite Hstr, stake_app_le, stake_all by lia. unfold verdict. exists p'.
  split; [|done]. by destruct (value _ =? 0).
Qed.

(** Parsing what [serialize] wrote, with a payload behind it. *)
Lemma ipv4_parse_serialized h s this b rest :
  wf h → serialize h = Ok s → Buffer.wf b → str b = s ++ rest → slen (str b) = len h →
  ∃ p', parse this (NetParser_of b) = Ok (p', h, verdict s) ∧ parser_at p' rest.
Proof.
  intros Hwf Hs Hb Hstr Hlen. pose proof (parser_at_of b Hb) as Hp.
  rewrite ipv4_serialize_eq in Hs by done. apply Ok_inj in Hs as Hs.
  assert (slen s = 4 * hlen h) as Hsl.
  { rewrite <- Hs, !slen_app, ipv4_head_bytes_slen, ipv4_tail_bytes_slen, be_bytes_slen by (destruct Hwf; lia). lia. }
  unfold parse. unfold Parser.buffer. cbn [_buffer NetParser_of].
  pose proof (slen_nonneg rest). destruct Hwf as [Hv Hh ? ? ? Ho ? ? ? ? ?].
  destruct (size b <? LENGTH) eqn:E.
  { unfold size, LENGTH in E. rewrite Hstr, slen_app in E. lia. }
  destruct (first_byte_fields h Hv Hh) as (Hf1 & Hf2 & Hf3).
  destruct (fo_val_fields h Ho) as (Hg1 & Hg2 & Hg3 & Hg4).
  rewrite Hstr, <- Hs in Hp. unfold head_bytes, tail_bytes in Hp. rewrite <- !app_assoc in Hp.
  change (mkNetParser b NoError) with (NetParser_of b).
  set (p0 := NetParser_of b) in *. clearbody p0.
  unfold parse_u8, parse_u16, parse_u32. do 10 net_read.
  rewrite Hf2, Hf3, Hg2, Hg3, Hg4.
  assert (mkIPv4Header 4 (hlen h) (tos h) (len h) (id h) (df h) (mf h) (offset h) (ttl h) (proto h)
            (cksum h) (src h) (dst h) = h) as -> by (rewrite <- Hv; by destruct h).
  by apply (parse_checks_ok h s b rest).
Qed.

(** Parsing never throws, and leaves a sound parser. *)
Lemma ipv4_header_parse_ok this p n :
  parser_ok p n → ∃ p' h r, parse this p = Ok (p', h, r) ∧ parser_ok p' n.
Proof.
  intros Hp. assert (∀ q m, parser_ok q m → m <= n → parser_ok q n) as Hweak.
  { intros q m (? & ? & [?|?]) Hm; split_and!; try done; [by left|right; lia]. }
  unfold parse. destruct (_ <? LENGTH); [by eexists _, _, _|].
  unfold parse_u8, parse_u16, parse_u32. do 10 net_read_any. unfold parse_checks.
  repeat (match goal with |- context [if ?b then Ok _ else _] => destruct b end;
    [eexists _, _, _; split; [done|]; eapply Hweak; [eassumption|lia]|]).
  match goal with H : parser_ok ?q ?m |- context [Parser.remove_prefix ?q ?k] =>
    destruct (parser_remove_prefix_ok k q m H) as (p' & -> & Hp'); [apply u64_range|] end.
  cbn [mbind result_bind]. match goal with H : parser_ok p' (_ - u64 ?x) |- _ => pose proof (u64_range x) end.
  unfold is_u64 in *. repeat case_match; (eexists _, _, _; split; [done|]; eapply Hweak; [eassumption|lia]).
Qed.
