(* ===== verification/IPv4Datagram.v ===== *)
(** * The IPv4 datagram (libsponge/tcp_helpers/ipv4_datagram.{hh,cc}) *)

From S2P Require Import Prelude Buffer Parser Checksum IPv4Header.
From stdpp Require Import options.

Record IPv4Datagram := mkIPv4Datagram { _header : IPv4Header; _payload : BufferList }.

Definition IPv4Datagram_default : IPv4Datagram := mkIPv4Datagram IPv4Header_default [].

Definition header (d : IPv4Datagram) : IPv4Header := _header d.

Definition payload (d : IPv4Datagram) : BufferList := _payload d.

(** The result of [_header.parse(p)] is not used: only the parser's own error is. *)
Definition parse (this : IPv4Datagram) (buffer : Buffer) : result (IPv4Datagram * ParseResult) :=
  '(p, h, _) ← IPv4Header.parse (_header this) (NetParser_of buffer);
  let d := mkIPv4Datagram h (BufferList_of_buffer (Parser.buffer p)) in
  if negb (list_size (_payload d) =? payload_length (_header d)) then Ok (d, PacketTooShort)
  else Ok (d, get_error p).

Definition serialize (d : IPv4Datagram) : result BufferList :=
  if negb (list_size (_payload d) =? payload_length (_header d)) then Throw RuntimeError
  else
    let header_out := with_cksum (_header d) 0 in
    header_zero_checksum ← IPv4Header.serialize header_out;
    let check := Checksum.add (InternetChecksum_new 0) header_zero_checksum in
    let header_out := with_cksum header_out (value check) in
    h ← IPv4Header.serialize header_out;
    Ok (append (append [] (BufferList_of_string h)) (_payload d)).

(** ** Lemmas *)

Definition header_cksum (h : IPv4Header) : Z :=
  value (Checksum.add (InternetChecksum_new 0) (head_bytes h ++ be_bytes 2 0 ++ tail_bytes h)).

(** A datagram whose header is well formed and counts its payload. *)
Record wf (d : IPv4Datagram) : Prop := {
  wf_header : IPv4Header.wf (_header d);
  wf_length : len (_header d) = 4 * hlen (_header d) + slen (concatenate (_payload d))
}.

Lemma ipv4_with_cksum_wf h c : IPv4Header.wf h → is_u16 c → IPv4Header.wf (with_cksum h c).
Proof. intros [] ?. by split. Qed.

Lemma payload_size_eq d : wf d → list_size (_payload d) = payload_length (_header d).
Proof.
  intros [[] Hl]. pose proof (slen_nonneg (concatenate (_payload d))).
  unfold payload_length. rewrite Hl in *. rewrite list_size_eq by (unfold_width; lia).
  rewrite u16_small by (unfold_width; lia). lia.
Qed.

Lemma serialize_datagram_eq d :
  wf d →
  serialize d =
    Ok (Buffer_of (head_bytes (_header d) ++ be_bytes 2 (header_cksum (_header d)) ++ tail_bytes (_header d))
        :: _payload d).
Proof.
  intros Hwf. unfold serialize. rewrite (payload_size_eq d Hwf), Z.eqb_refl. cbn [negb].
  destruct Hwf as [Hh _].
  rewrite ipv4_serialize_eq by (apply ipv4_with_cksum_wf; [done|concrete]). cbn [mbind result_bind].
  change (head_bytes (with_cksum (_header d) 0)) with (head_bytes (_header d)).
  change (tail_bytes (with_cksum (_header d) 0)) with (tail_bytes (_header d)).
  cbn [with_cksum cksum]. fold (header_cksum (_header d)).
  rewrite ipv4_serialize_eq by (repeat apply ipv4_with_cksum_wf; first [done|by apply u16_range]). done.
Qed.

(** The checksum in the header makes the header check. *)
Lemma header_cksum_checks h :
  IPv4Header.wf h → verdict (head_bytes h ++ be_bytes 2 (header_cksum h) ++ tail_bytes h) = NoError.
Proof.
  intros Hwf. unfold verdict. pose proof (ipv4_head_bytes_range h) as Hh. pose proof (ipv4_tail_bytes_range h) as Ht.
  pose proof (word_sum_bound_even _ Hh) as (? & Hb1 & _).
  pose proof (word_sum_bound_even _ Ht) as (? & Hb2 & _).
  rewrite ipv4_head_bytes_slen in Hb1. rewrite ipv4_tail_bytes_slen in Hb2 by (destruct Hwf; lia).
  destruct Hwf. unfold header_cksum. rewrite checksum_zero; try done. unfold_width. lia.
Qed.

(** Parsing a buffer that holds a header with some checksum and a payload. *)
Lemma parse_datagram this b h c pl :
  IPv4Header.wf h → is_u16 c → Buffer.wf b → len h = 4 * hlen h + slen pl →
  str b = (head_bytes h ++ be_bytes 2 c ++ tail_bytes h) ++ pl →
  ∃ p, IPv4Header.parse (_header this) (NetParser_of b) =
      Ok (p, with_cksum h c, verdict (head_bytes h ++ be_bytes 2 c ++ tail_bytes h)) ∧
    parse this b = Ok (mkIPv4Datagram (with_cksum h c) [Parser.buffer p], NoError) ∧
    str (Parser.buffer p) = pl ∧ Buffer.wf (Parser.buffer p).
Proof.
  intros Hwf Hc Hb Hlen Hstr. pose proof (ipv4_with_cksum_wf h c Hwf Hc) as Hwf'.
  pose proof (ipv4_serialize_eq _ Hwf') as Hs.
  change (head_bytes (with_cksum h c)) with (head_bytes h) in Hs.
  change (tail_bytes (with_cksum h c)) with (tail_bytes h) in Hs. cbn [with_cksum cksum] in Hs.
  set (s := head_bytes h ++ be_bytes 2 c ++ tail_bytes h) in *.
  assert (slen s = 4 * hlen h) as Hsl.
  { unfold s. rewrite !slen_app, ipv4_head_bytes_slen, ipv4_tail_bytes_slen, be_bytes_slen by (destruct Hwf; lia). lia. }
  destruct (ipv4_parse_serialized (with_cksum h c) s (_header this) b pl Hwf' Hs Hb Hstr) as (p & Hp & He & Hwfb & Hpl).
  { rewrite Hstr, slen_app, Hsl. done. }
  exists p. split; [done|]. split; [|by split]. unfold parse. rewrite Hp. cbn [mbind result_bind].
  rewrite payload_size_eq, Z.eqb_refl; [by unfold get_error; rewrite He|].
  split; [done|]. change (len h = 4 * hlen h + slen (concatenate [Parser.buffer p])).
  rewrite concatenate_one. unfold Parser.buffer. by rewrite Hpl.
Qed.

(** Parsing never throws, and the payload is one sound buffer. *)
Lemma datagram_parse_ok this b :
  Buffer.wf b → Forall is_u8 (str b) →
  ∃ d r pl, parse this b = Ok (d, r) ∧ _payload d = [pl] ∧ Buffer.wf pl ∧ Forall is_u8 (str pl).
Proof.
  intros Hwf Hf. assert (parser_ok (NetParser_of b) (slen (str b))) as Hp by (split_and!; [done|done|by right]).
  destruct (ipv4_header_parse_ok (_header this) _ _ Hp) as (p & h & r & Hparse & (Hb & Hbf & _)).
  unfold parse. rewrite Hparse. cbn [mbind result_bind]. destruct (negb _); by eexists _, _, (Parser.buffer p).
Qed.

(** ** Properties *)

(** C38: round trip.  A datagram whose length field counts its payload is
    serialized, and parsing the bytes succeeds and gives back the payload and
    the header with the checksum filled in; the header's own parser agrees. *)
Theorem datagram_roundtrip (d : IPv4Datagram) :
  wf d →
  ∃ l, serialize d = Ok l ∧
    ∀ this b, Buffer.wf b → str b = concatenate l →
     ∃ d' p, parse this b = Ok (d', NoError) ∧
       IPv4Header.parse (_header this) (NetParser_of b) = Ok (p, header d', NoError) ∧
       header d' = with_cksum (header d) (header_cksum (header d)) ∧
       concatenate (payload d') = concatenate (payload d).
Proof.
  intros Hwf. rewrite serialize_datagram_eq by done. eexists. split; [done|].
  rewrite concatenate_cons, str_of. intros this b Hb Hstr. destruct Hwf as [Hh Hl].
  destruct (parse_datagram this b (_header d) (header_cksum (_header d)) (concatenate (_payload d)))
    as (p & Hp & Hd & Hpl & _); try done; [apply u16_range|].
  rewrite (header_cksum_checks _ Hh) in Hp. eexists _, p. split; [exact Hd|]. split_and!; [done|done|].
  unfold payload. cbn [_payload]. by rewrite concatenate_one.
Qed.

Definition sample_datagram : IPv4Datagram :=
  mkIPv4Datagram (with_addresses IPv4Header_default 0x0a000001 0x0a000002 23) [Buffer_of [1; 2]; Buffer_of [3]].

Lemma datagram_roundtrip_witness :
  ∃ l, serialize sample_datagram = Ok l ∧
    ∀ this b, Buffer.wf b → str b = concatenate l →
     ∃ d' p, parse this b = Ok (d', NoError) ∧
       IPv4Header.parse (_header this) (NetParser_of b) = Ok (p, header d', NoError) ∧
       header d' = with_cksum (header sample_datagram) (header_cksum (header sample_datagram)) ∧
       concatenate (payload d') = [1; 2; 3].
Proof. apply (datagram_roundtrip sample_datagram). split; [split; concrete|concrete]. Defined.

(** A wrong checksum is accepted.  [IPv4Header::parse] answers
    [BadChecksum], but [IPv4Datagram::parse] discards this answer and
    succeeds. *)
Theorem bad_checksum_accepted (this : IPv4Datagram) (b : Buffer) (h : IPv4Header) (c : Z) (pl : bytes) :
  IPv4Header.wf h → is_u16 c → Buffer.wf b → len h = 4 * hlen h + slen pl →
  str b = (head_bytes h ++ be_bytes 2 c ++ tail_bytes h) ++ pl →
  value (Checksum.add (InternetChecksum_new 0) (head_bytes h ++ be_bytes 2 c ++ tail_bytes h)) ≠ 0 →
  ∃ p d, IPv4Header.parse (_header this) (NetParser_of b) = Ok (p, header d, BadChecksum) ∧
    parse this b = Ok (d, NoError) ∧ concatenate (payload d) = pl.
Proof.
  intros Hwf Hc Hb Hlen Hstr Hne.
  destruct (parse_datagram this b h c pl Hwf Hc Hb Hlen Hstr) as (p & Hp & Hd & Hpl & _).
  exists p, (mkIPv4Datagram (with_cksum h c) [Parser.buffer p]). unfold verdict in Hp.
  destruct (value _ =? 0) eqn:E; [lia|]. split_and!; [done|done|].
  unfold payload. cbn [_payload]. by rewrite concatenate_one.
Qed.

Lemma bad_checksum_accepted_witness :
  let h := with_addresses IPv4Header_default 0x0a000001 0x0a000002 22 in
  ∃ p d, IPv4Header.parse (_header IPv4Datagram_default)
      (NetParser_of (Buffer_of ((head_bytes h ++ be_bytes 2 7 ++ tail_bytes h) ++ [8; 9]))) =
        Ok (p, header d, BadChecksum) ∧
    parse IPv4Datagram_default (Buffer_of ((head_bytes h ++ be_bytes 2 7 ++ tail_bytes h) ++ [8; 9])) =
      Ok (d, NoError) ∧
    concatenate (payload d) = [8; 9].
Proof.
  intros h. apply (bad_checksum_accepted IPv4Datagram_default _ h 7 [8; 9]).
  - split; concrete.
  - concrete.
  - concrete.
  - concrete.
  - concrete.
  - concrete.
Defined.
