(* ===== verification/EthernetHeader.v ===== *)
(** * The Ethernet header (libsponge/tcp_helpers/ethernet_header.{hh,cc})

    The two functions that print addresses and headers are not modelled. *)

From S2P Require Import Prelude Buffer Parser.
From stdpp Require Import options.

(** Six bytes. *)
Definition EthernetAddress := bytes.

Definition wf_address (a : EthernetAddress) : Prop := length a = 6%nat ∧ Forall is_u8 a.

Definition ETHERNET_BROADCAST : EthernetAddress := [0xff; 0xff; 0xff; 0xff; 0xff; 0xff].

(** A value-initialized array. *)
Definition EthernetAddress_zero : EthernetAddress := [0; 0; 0; 0; 0; 0].

Record EthernetHeader := mkEthernetHeader {
  dst : EthernetAddress;
  src : EthernetAddress;
  type : Z
}.

#[export] Instance EthernetHeader_eq_dec : EqDecision EthernetHeader.
Proof. solve_decision. Defined.

Definition LENGTH : Z := 14.
Definition TYPE_IPv4 : Z := 0x800.
Definition TYPE_ARP : Z := 0x806.

Definition EthernetHeader_default : EthernetHeader :=
  mkEthernetHeader EthernetAddress_zero EthernetAddress_zero 0.

Definition parse (this : EthernetHeader) (p : NetParser)
    : result (NetParser * EthernetHeader * ParseResult) :=
  if size (Parser.buffer p) <? LENGTH then Ok (p, this, PacketTooShort)
  else
    '(p, dst) ← parse_bytes 6 p;
    '(p, src) ← parse_bytes 6 p;
    '(p, type) ← parse_u16 p;
    Ok (p, mkEthernetHeader dst src type, get_error p).

Definition serialize (h : EthernetHeader) : bytes :=
  let ret := unparse_bytes [] (dst h) in
  let ret := unparse_bytes ret (src h) in
  unparse_u16 ret (type h).

(** ** Lemmas *)

Record wf (h : EthernetHeader) : Prop := {
  wf_dst : wf_address (dst h);
  wf_src : wf_address (src h);
  wf_type : is_u16 (type h)
}.

Lemma eth_serialize_eq h : wf h → serialize h = dst h ++ src h ++ be_bytes 2 (type h).
Proof.
  intros [[_ Hd] [_ Hs] _]. unfold serialize. rewrite !unparse_bytes_eq by done.
  unfold unparse_u16, _unparse_int. by rewrite app_nil_l, <- app_assoc.
Qed.

Lemma serialize_slen h : wf h → slen (serialize h) = 14.
Proof.
  intros Hwf. rewrite eth_serialize_eq by done. destruct Hwf as [[Hd _] [Hs _] _].
  rewrite !slen_app, be_bytes_slen. unfold slen. rewrite Hd, Hs. done.
Qed.

Lemma eth_parse_serialized h this p rest :
  wf h → parser_at p (serialize h ++ rest) →
  ∃ p', parse this p = Ok (p', h, NoError) ∧ parser_at p' rest.
Proof.
  intros Hwf Hp. pose proof (serialize_slen h Hwf) as Hl. pose proof (slen_nonneg rest).
  unfold parse. destruct (size _ <? LENGTH) eqn:E.
  { unfold size, Parser.buffer, LENGTH in E. destruct Hp as (_ & _ & Hs). rewrite Hs, slen_app in E. lia. }
  rewrite eth_serialize_eq in Hp by done. rewrite <- !app_assoc in Hp.
  destruct Hwf as [[Hd1 Hd2] [Hs1 Hs2] Ht]. unfold parse_u16. do 3 net_read.
  eexists. split; [|done]. unfold get_error.
  match goal with H : parser_at _ rest |- _ => destruct H as (-> & _) end. by destruct h.
Qed.
