(* ===== verification/EthernetFrame.v ===== *)
(** * The Ethernet frame (libsponge/tcp_helpers/ethernet_frame.{hh,cc}) *)

From S2P Require Import Prelude Buffer Parser EthernetHeader.
From stdpp Require Import options.

Record EthernetFrame := mkEthernetFrame { _header : EthernetHeader; _payload : BufferList }.

Definition EthernetFrame_default : EthernetFrame := mkEthernetFrame EthernetHeader_default [].

Definition header (f : EthernetFrame) : EthernetHeader := _header f.

Definition payload (f : EthernetFrame) : BufferList := _payload f.

(** The result of [_header.parse(p)] is not used: only the parser's own error is. *)
Definition parse (this : EthernetFrame) (buffer : Buffer) : result (EthernetFrame * ParseResult) :=
  '(p, h, _) ← EthernetHeader.parse (_header this) (NetParser_of buffer);
  Ok (mkEthernetFrame h (BufferList_of_buffer (Parser.buffer p)), get_error p).

Definition serialize (f : EthernetFrame) : BufferList :=
  append (append [] (BufferList_of_string (EthernetHeader.serialize (_header f)))) (_payload f).

(** ** Lemmas *)

(** A frame as the receiver's device delivers it: one contiguous buffer. *)
Definition on_wire (f : EthernetFrame) : Buffer := Buffer_of (concatenate (serialize f)).

Lemma parse_frame f this b :
  EthernetHeader.wf (_header f) → Buffer.wf b → str b = concatenate (serialize f) →
  ∃ pl, parse this b = Ok (mkEthernetFrame (_header f) [pl], NoError) ∧
    Buffer.wf pl ∧ str pl = concatenate (_payload f).
Proof.
  intros Hwf Hb Hstr. pose proof (parser_at_of b Hb) as Hp.
  change (serialize f) with (Buffer_of (EthernetHeader.serialize (_header f)) :: _payload f) in Hstr.
  rewrite concatenate_cons, str_of in Hstr. rewrite Hstr in Hp.
  destruct (eth_parse_serialized _ (_header this) _ _ Hwf Hp) as (p & He & Her & Hwfb & Hs).
  unfold parse. rewrite He. cbn [mbind result_bind]. unfold get_error. rewrite Her.
  exists (Parser.buffer p). done.
Qed.

(** ** Properties *)

(** Round trip.  Parsing a serialized frame gives back the header and the
    payload. *)
Theorem frame_roundtrip (f this : EthernetFrame) (b : Buffer) :
  EthernetHeader.wf (_header f) → Buffer.wf b → str b = concatenate (serialize f) →
  ∃ f', parse this b = Ok (f', NoError) ∧ header f' = header f ∧
    concatenate (payload f') = concatenate (payload f).
Proof.
  intros Hwf Hb Hstr. destruct (parse_frame f this b Hwf Hb Hstr) as (pl & -> & _ & Hs).
  eexists. split; [done|]. split; [done|]. unfold payload. cbn [_payload]. by rewrite concatenate_one.
Qed.

Definition sample_frame : EthernetFrame :=
  mkEthernetFrame (mkEthernetHeader [1; 2; 3; 4; 5; 6] [7; 8; 9; 10; 11; 12] TYPE_IPv4)
    [Buffer_of [13]; Buffer_of [14; 15]].

Lemma frame_roundtrip_witness :
  ∃ f', parse EthernetFrame_default (Buffer_of (concatenate (serialize sample_frame))) = Ok (f', NoError) ∧
    header f' = header sample_frame ∧ concatenate (payload f') = [13; 14; 15].
Proof.
  apply (frame_roundtrip sample_frame EthernetFrame_default).
  - split; [split; [done|repeat constructor; concrete]|split; [done|repeat constructor; concrete]|concrete].
  - concrete.
  - concrete.
Defined.

(** A frame that is too short is accepted.  [EthernetHeader::parse] answers
    [PacketTooShort] for less than fourteen bytes without recording an error
    in the parser, and [EthernetFrame::parse] discards this answer: the header
    keeps its old value and the bytes become the payload. *)
Theorem short_frame_accepted (this : EthernetFrame) (b : Buffer) :
  slen (str b) < 14 →
  EthernetHeader.parse (header this) (NetParser_of b) = Ok (NetParser_of b, header this, PacketTooShort) ∧
  parse this b = Ok (mkEthernetFrame (header this) [b], NoError).
Proof.
  intros Hl. unfold parse, EthernetHeader.parse, size, LENGTH, Parser.buffer, header.
  cbn [_buffer NetParser_of]. destruct (_ <? 14) eqn:E; [done|lia].
Qed.

Lemma short_frame_accepted_witness :
  parse EthernetFrame_default (Buffer_of [1; 2; 3]) =
    Ok (mkEthernetFrame EthernetHeader_default [Buffer_of [1; 2; 3]], NoError).
Proof. apply (short_frame_accepted EthernetFrame_default (Buffer_of [1; 2; 3])). concrete. Defined.
