(* ===== verification/ARPMessage.v ===== *)
(** * ARP messages (libsponge/tcp_helpers/arp_message.{hh,cc})

    The function that prints a message is not modelled. *)

From S2P Require Import Prelude Buffer Parser EthernetHeader.
From stdpp Require Import options.

Record ARPMessage := mkARPMessage {
  hardware_type : Z;
  protocol_type : Z;
  hardware_address_size : Z;
  protocol_address_size : Z;
  opcode : Z;
  sender_ethernet_address : EthernetAddress;
  sender_ip_address : Z;
  target_ethernet_address : EthernetAddress;
  target_ip_address : Z
}.

#[export] Instance ARPMessage_eq_dec : EqDecision ARPMessage.
Proof. solve_decision. Defined.

Definition LENGTH : Z := 28.
Definition TYPE_ETHERNET : Z := 1.
Definition OPCODE_REQUEST : Z := 1.
Definition OPCODE_REPLY : Z := 2.

(** The address sizes are those of an Ethernet and of an IPv4 address. *)
Definition ARPMessage_default : ARPMessage :=
  mkARPMessage TYPE_ETHERNET TYPE_IPv4 6 4 0 EthernetAddress_zero 0 EthernetAddress_zero 0.

Definition supported (m : ARPMessage) : bool :=
  (hardware_type m =? TYPE_ETHERNET) && (protocol_type m =? TYPE_IPv4) &&
  (hardware_address_size m =? 6) && (protocol_address_size m =? 4) &&
  ((opcode m =? OPCODE_REQUEST) || (opcode m =? OPCODE_REPLY)).

Definition parse (this : ARPMessage) (buffer : Buffer) : result (ARPMessage * ParseResult) :=
  let p := NetParser_of buffer in
  if size (Parser.buffer p) <? LENGTH then Ok (this, PacketTooShort)
  else
    '(p, hardware_type) ← parse_u16 p;
    '(p, protocol_type) ← parse_u16 p;
    '(p, hardware_address_size) ← parse_u8 p;
    '(p, protocol_address_size) ← parse_u8 p;
    '(p, opcode) ← parse_u16 p;
    let m := mkARPMessage hardware_type protocol_type hardware_address_size protocol_address_size opcode
               (sender_ethernet_address this) (sender_ip_address this)
               (target_ethernet_address this) (target_ip_address this) in
    if negb (supported m) then Ok (m, Unsupported)
    else
      '(p, sender_ethernet_address) ← parse_bytes 6 p;
      '(p, sender_ip_address) ← parse_u32 p;
      '(p, target_ethernet_address) ← parse_bytes 6 p;
      '(p, target_ip_address) ← parse_u32 p;
      Ok (mkARPMessage hardware_type protocol_type hardware_address_size protocol_address_size opcode
            sender_ethernet_address sender_ip_address target_ethernet_address target_ip_address,
          get_error p).

Definition serialize (m : ARPMessage) : result bytes :=
  if negb (supported m) then Throw RuntimeError
  else
    let ret := unparse_u16 [] (hardware_type m) in
    let ret := unparse_u16 ret (protocol_type m) in
    let ret := unparse_u8 ret (hardware_address_size m) in
    let ret := unparse_u8 ret (protocol_address_size m) in
    let ret := unparse_u16 ret (opcode m) in
    let ret := unparse_bytes ret (sender_ethernet_address m) in
    let ret := unparse_u32 ret (sender_ip_address m) in
    let ret := unparse_bytes ret (target_ethernet_address m) in
    Ok (unparse_u32 ret (target_ip_address m)).

(** ** Lemmas *)

Record wf (m : ARPMessage) : Prop := {
  wf_supported : supported m = true;
  wf_sender : wf_address (sender_ethernet_address m);
  wf_sender_ip : is_u32 (sender_ip_address m);
  wf_target : wf_address (target_ethernet_address m);
  wf_target_ip : is_u32 (target_ip_address m)
}.

Lemma supported_fields m :
  supported m = true →
  hardware_type m = 1 ∧ protocol_type m = 0x800 ∧ hardware_address_size m = 6 ∧
  protocol_address_size m = 4 ∧ (opcode m = 1 ∨ opcode m = 2).
Proof.
  unfold supported, TYPE_ETHERNET, TYPE_IPv4, OPCODE_REQUEST, OPCODE_REPLY.
  rewrite !andb_true_iff, orb_true_iff, !Z.eqb_eq. tauto.
Qed.

Definition message_bytes (m : ARPMessage) : bytes :=
  be_bytes 2 (hardware_type m) ++ be_bytes 2 (protocol_type m) ++ be_bytes 1 (hardware_address_size m) ++
  be_bytes 1 (protocol_address_size m) ++ be_bytes 2 (opcode m) ++ sender_ethernet_address m ++
  be_bytes 4 (sender_ip_address m) ++ target_ethernet_address m ++ be_bytes 4 (target_ip_address m).

Lemma arp_serialize_eq m : wf m → serialize m = Ok (message_bytes m).
Proof.
  intros [Hs [_ H1] _ [_ H2] _]. unfold serialize. rewrite Hs. cbn [negb].
  unfold unparse_u8, unparse_u16, unparse_u32, _unparse_int, message_bytes.
  rewrite !unparse_bytes_eq by done. by rewrite app_nil_l, <- !app_assoc.
Qed.

Lemma message_bytes_slen m : wf m → slen (message_bytes m) = 28.
Proof.
  intros [_ [H1 _] _ [H2 _] _]. unfold message_bytes. rewrite !slen_app, !be_bytes_slen.
  unfold slen. rewrite H1, H2. done.
Qed.

(** Parsing what [serialize] wrote, possibly with padding behind it. *)
Lemma arp_parse_serialized m this b rest :
  wf m → Buffer.wf b → str b = message_bytes m ++ rest → parse this b = Ok (m, NoError).
Proof.
  intros Hwf Hb Hstr. pose proof (message_bytes_slen m Hwf) as Hl. pose proof (slen_nonneg rest).
  pose proof (parser_at_of b Hb) as Hp. unfold parse. unfold Parser.buffer, size, LENGTH. cbn [_buffer NetParser_of].
  rewrite Hstr, slen_app, Hl. destruct (_ <? 28) eqn:E; [lia|]. clear E Hl.
  destruct Hwf as [Hs [H1 H1'] ? [H2 H2'] ?]. destruct (supported_fields m Hs) as (E1 & E2 & E3 & E4 & E5).
  assert (is_u16 (hardware_type m) ∧ is_u16 (protocol_type m) ∧ is_u8 (hardware_address_size m) ∧
    is_u8 (protocol_address_size m) ∧ is_u16 (opcode m)) as (? & ? & ? & ? & ?) by (unfold_width; lia).
  rewrite Hstr in Hp. unfold message_bytes in Hp. rewrite <- !app_assoc in Hp.
  change (mkNetParser b NoError) with (NetParser_of b).
  set (p0 := NetParser_of b) in *. clearbody p0. unfold parse_u8, parse_u16, parse_u32. do 5 net_read.
  match goal with |- context [supported ?x] => change (supported x) with (supported m) end. rewrite Hs.
  cbn [negb]. do 4 net_read. unfold get_error.
  match goal with H : parser_at _ rest |- _ => destruct H as (-> & _) end. by destruct m.
Qed.

(** ** Properties *)

(** Round trip.  A supported message is serialized to 28 bytes, and parsing
    these bytes, with or without padding behind them, gives back the message. *)
Theorem arp_roundtrip (m : ARPMessage) :
  wf m →
  ∃ s, serialize m = Ok s ∧ slen s = LENGTH ∧
    ∀ this b rest, Buffer.wf b → str b = s ++ rest → parse this b = Ok (m, NoError).
Proof.
  intros Hwf. exists (message_bytes m). split; [by apply arp_serialize_eq|].
  split; [by apply message_bytes_slen|]. intros this b rest. by apply arp_parse_serialized.
Qed.

Definition sample_arp : ARPMessage :=
  mkARPMessage 1 0x800 6 4 OPCODE_REQUEST [1; 2; 3; 4; 5; 6] 0x0a000001 [0; 0; 0; 0; 0; 0] 0x0a000002.

Lemma sample_arp_wf : wf sample_arp.
Proof.
  split; [done|split; [done|repeat constructor; concrete]|concrete|
          split; [done|repeat constructor; concrete]|concrete].
Qed.

Lemma arp_roundtrip_witness :
  ∃ s, serialize sample_arp = Ok s ∧ slen s = 28 ∧
    ∀ this b rest, Buffer.wf b → str b = s ++ rest → parse this b = Ok (sample_arp, NoError).
Proof. apply (arp_roundtrip sample_arp). apply sample_arp_wf. Defined.
