(* ===== verification/Address.v ===== *)
(** * Socket addresses (libsponge/util/address.{hh,cc})

    An [Address] is the storage of a [sockaddr_storage] and the number of bytes
    in use.  The layout is that of Linux on a little-endian machine: the family
    in the first two bytes, in host order, the port and the IPv4 address behind
    it in network order.  The C library's [getaddrinfo] and [getnameinfo] are
    the operations of a class [Resolver]; what their manual pages say of
    numeric IPv4 addresses is the class [NumericResolver]. *)

From S2P Require Import Prelude Parser StdString.
From stdpp Require Import options.

Record Address := mkAddress { _size : Z; _address : bytes }.

#[export] Instance Address_eq_dec : EqDecision Address.
Proof. solve_decision. Defined.

Definition STORAGE_SIZE : Z := 128.
Definition SOCKADDR_IN_SIZE : Z := 16.
Definition AF_INET : Z := 2.

(** The constructor from a [sockaddr *]: [addr] has at least [size] bytes. *)
Definition Address_of_sockaddr (addr : bytes) (size : Z) : result Address :=
  if STORAGE_SIZE <? size then Throw RuntimeError
  else Ok (mkAddress size (stake size addr ++ replicate (Z.to_nat (STORAGE_SIZE - size)) 0)).

Definition ss_family (a : Address) : Z :=
  match _address a with x :: y :: _ => x + 256 * y | _ => 0 end.

Definition ipv4_numeric (a : Address) : result Z :=
  if negb (ss_family a =? AF_INET) || negb (_size a =? SOCKADDR_IN_SIZE) then Throw RuntimeError
  else Ok (be_combine (stake 4 (sdrop 4 (_address a)))).

Definition from_ipv4_numeric (ip_address : Z) : result Address :=
  Address_of_sockaddr ([AF_INET; 0; 0; 0] ++ be_bytes 4 ip_address ++ replicate 8 0) SOCKADDR_IN_SIZE.

(** [operator==]: the sizes and the bytes in use are equal. *)
Definition address_eqb (a b : Address) : bool :=
  (_size a =? _size b) && bool_decide (stake (_size a) (_address a) = stake (_size a) (_address b)).

Definition address_neqb (a b : Address) : bool := negb (address_eqb a b).

(** ** Names *)

Record addrinfo := mkaddrinfo { ai_flags : Z; ai_family : Z }.

Definition AI_NUMERICHOST : Z := 0x4.
Definition AI_ALL : Z := 0x10.
Definition AI_NUMERICSERV : Z := 0x400.

(** The two functions answer an error code, or their results: a list of socket
    addresses with their lengths, or a host and a service. *)
Class Resolver := {
  getaddrinfo : bytes → bytes → addrinfo → Z + list (bytes * Z);
  getnameinfo : Address → Z + (bytes * bytes)
}.

Definition make_hints (ai_flags ai_family : Z) : addrinfo := mkaddrinfo ai_flags ai_family.

Section Names.
Context `{Resolver}.

Definition Address_resolve (node service : bytes) (hints : addrinfo) : result Address :=
  match getaddrinfo node service hints with
  | inl _ => Throw RuntimeError
  | inr [] => Throw RuntimeError
  | inr ((addr, size) :: _) => Address_of_sockaddr addr size
  end.

Definition Address_of_host (hostname service : bytes) : result Address :=
  Address_resolve hostname service (make_hints AI_ALL AF_INET).

Definition Address_of_ip (ip : bytes) (port : Z) : result Address :=
  Address_resolve ip (StdString.to_string port) (make_hints (Z.lor AI_NUMERICHOST AI_NUMERICSERV) AF_INET).

Definition ip_port (a : Address) : result (bytes * Z) :=
  match getnameinfo a with
  | inl _ => Throw RuntimeError
  | inr (ip, port) => port ← stoi port; Ok (ip, u16 port)
  end.

Definition ip (a : Address) : result bytes := fst <$> ip_port a.

Definition port (a : Address) : result Z := snd <$> ip_port a.

Definition to_string (a : Address) : result bytes :=
  '(ip, port) ← ip_port a; Ok (ip ++ [58] ++ StdString.to_string port).

End Names.

(** ** Lemmas *)

(** A [sockaddr_in], and the [Address] that holds it. *)
Definition sockaddr_in (ip port : Z) : bytes :=
  [AF_INET; 0] ++ be_bytes 2 port ++ be_bytes 4 ip ++ replicate 8 0.

Definition Address_in (ip port : Z) : Address := mkAddress 16 (sockaddr_in ip port ++ replicate 112 0).

Class NumericResolver `{Resolver} : Prop := {
  getaddrinfo_numeric ip port : is_u32 ip → is_u16 port →
    ∃ rest, getaddrinfo (inet_ntoa (be_bytes 4 ip)) (StdString.to_string port)
      (mkaddrinfo (Z.lor AI_NUMERICHOST AI_NUMERICSERV) AF_INET) = inr ((sockaddr_in ip port, 16) :: rest);
  getnameinfo_numeric ip port : is_u32 ip → is_u16 port →
    getnameinfo (Address_in ip port) = inr (inet_ntoa (be_bytes 4 ip), StdString.to_string port)
}.

Lemma sockaddr_in_slen ip port : slen (sockaddr_in ip port) = 16.
Proof. unfold sockaddr_in. rewrite !slen_app, !be_bytes_slen. done. Qed.

Lemma Address_of_sockaddr_in ip port : Address_of_sockaddr (sockaddr_in ip port) 16 = Ok (Address_in ip port).
Proof.
  unfold Address_of_sockaddr. change (STORAGE_SIZE <? 16) with false. cbv iota.
  rewrite stake_all by (rewrite sockaddr_in_slen; lia). done.
Qed.

Lemma from_ipv4_numeric_eq ip : from_ipv4_numeric ip = Ok (Address_in ip 0).
Proof. apply (Address_of_sockaddr_in ip 0). Qed.

Lemma ipv4_numeric_in ip port : is_u32 ip → ipv4_numeric (Address_in ip port) = Ok ip.
Proof.
  intros Hip. unfold ipv4_numeric.
  change (negb (ss_family (Address_in ip port) =? AF_INET) || _) with false. cbv iota. f_equal.
  assert (_address (Address_in ip port) =
    ([AF_INET; 0] ++ be_bytes 2 port) ++ be_bytes 4 ip ++ replicate 120 0) as -> by done.
  assert (slen ([AF_INET; 0] ++ be_bytes 2 port) = 4) as Hs by (by rewrite slen_app, be_bytes_slen).
  rewrite sdrop_app_ge, Hs by lia. change (4 - 4) with 0. rewrite sdrop_0.
  rewrite stake_app_le, stake_all by (rewrite be_bytes_slen; lia). by apply be_combine_bytes.
Qed.

(** The numeric form of an address made from a number is that number. *)
Lemma ipv4_numeric_roundtrip ip :
  is_u32 ip → ∃ a, from_ipv4_numeric ip = Ok a ∧ ipv4_numeric a = Ok ip.
Proof. intros Hip. rewrite from_ipv4_numeric_eq. eexists. split; [done|]. by apply ipv4_numeric_in. Qed.

Section NameLemmas.
Context `{NumericResolver}.

(** An address made from a dotted quad and a port has these. *)
Lemma Address_of_ip_eq ip port :
  is_u32 ip → is_u16 port → Address_of_ip (inet_ntoa (be_bytes 4 ip)) port = Ok (Address_in ip port).
Proof using Type*.
  intros Hi Hp. unfold Address_of_ip, Address_resolve, make_hints.
  destruct (getaddrinfo_numeric ip port Hi Hp) as [rest ->]. apply Address_of_sockaddr_in.
Qed.

Lemma ip_port_in ip port :
  is_u32 ip → is_u16 port → ip_port (Address_in ip port) = Ok (inet_ntoa (be_bytes 4 ip), port).
Proof using Type*.
  intros Hi Hp. unfold ip_port. rewrite getnameinfo_numeric by done.
  rewrite stoi_to_string by (unfold INT_MAX; unfold_width; lia). cbn [mbind result_bind]. by rewrite u16_small.
Qed.

Lemma port_in ip p : is_u32 ip → is_u16 p → port (Address_in ip p) = Ok p.
Proof using Type*. intros Hi Hp. unfold port. by rewrite ip_port_in. Qed.

End NameLemmas.

(** ** A resolver of numeric addresses *)

Fixpoint split_dot (s : bytes) : list bytes :=
  match s with
  | [] => [[]]
  | c :: t =>
      if c =? 46 then [] :: split_dot t
      else match split_dot t with x :: xs => (c :: x) :: xs | [] => [[c]] end
  end.

Definition numeric_resolver : Resolver := {|
  getaddrinfo node service _ :=
    match map stoi (split_dot node), stoi service with
    | [Ok a; Ok b; Ok c; Ok d], Ok port => inr [(sockaddr_in (be_combine [a; b; c; d]) port, 16)]
    | _, _ => inl (-2)
    end;
  getnameinfo a :=
    inr (inet_ntoa (stake 4 (sdrop 4 (_address a))),
         StdString.to_string (be_combine (stake 2 (sdrop 2 (_address a)))))
|}.

Lemma split_dot_digits s : Forall (λ c, is_digit c = true) s → split_dot s = [s].
Proof.
  intros H. induction H as [|c s Hc H IH]; simpl; [done|]. rewrite IH.
  destruct (c =? 46) eqn:E; [|done]. unfold is_digit in Hc. lia.
Qed.

Lemma split_dot_app s t : Forall (λ c, is_digit c = true) s → split_dot (s ++ [46] ++ t) = s :: split_dot t.
Proof.
  intros H. induction H as [|c s Hc H IH]; simpl in *; [done|]. rewrite IH.
  destruct (c =? 46) eqn:E; [|done]. unfold is_digit in Hc. lia.
Qed.

Lemma numeric_resolver_laws : @NumericResolver numeric_resolver.
Proof.
  split; intros ip port Hip Hport.
  - exists []. cbn [getaddrinfo numeric_resolver].
    rewrite stoi_to_string by (unfold INT_MAX; unfold_width; lia).
    assert (be_combine (be_bytes 4 ip) = ip) as Hc by (by apply be_combine_bytes).
    pose proof (be_bytes_range 4 ip) as Hr. pose proof (be_bytes_length 4 ip) as Hl.
    destruct (be_bytes 4 ip) as [|a [|b [|c [|d [|]]]]]; try done. cbn [inet_ntoa].
    repeat (apply Forall_cons_1 in Hr as [? Hr]). unfold is_u8 in *.
    rewrite !split_dot_app, split_dot_digits by (apply digits_digit; lia).
    cbn [map]. rewrite !stoi_to_string by (unfold INT_MAX; lia). by rewrite Hc.
  - cbn [getnameinfo numeric_resolver Address_in _address].
    assert (sockaddr_in ip port ++ replicate 112 0 =
      [AF_INET; 0] ++ be_bytes 2 port ++ be_bytes 4 ip ++ replicate 120 0) as -> by done.
    do 3 f_equal. rewrite sdrop_app_ge by done. change (2 - slen [AF_INET; 0]) with 0. rewrite sdrop_0.
    rewrite stake_app_le, stake_all by (rewrite be_bytes_slen; lia). by rewrite be_combine_bytes.
Qed.

(** ** Numbers as hosts *)

(** A host that is one number is an address too, as for [inet_aton]. *)
Class NumberResolver `{Resolver} : Prop := {
  number_numeric :: NumericResolver;
  getaddrinfo_zero port : is_u16 port →
    ∃ rest, getaddrinfo [48] (StdString.to_string port) (mkaddrinfo (Z.lor AI_NUMERICHOST AI_NUMERICSERV) AF_INET) =
      inr ((sockaddr_in 0 port, 16) :: rest)
}.

Definition number_resolver : Resolver := {|
  getaddrinfo node service hints :=
    if bool_decide (node = [48]) then
      match stoi service with Ok port => inr [(sockaddr_in 0 port, 16)] | Throw _ => inl (-8) end
    else @getaddrinfo numeric_resolver node service hints;
  getnameinfo a := @getnameinfo numeric_resolver a
|}.

Lemma inet_ntoa_not_zero ip : inet_ntoa (be_bytes 4 ip) ≠ [48].
Proof.
  assert (46 ∈ inet_ntoa (be_bytes 4 ip)) as Hin by (apply elem_of_app; right; apply list_elem_of_here).
  intros E. rewrite E in Hin. apply list_elem_of_singleton in Hin. done.
Qed.

#[export] Instance number_resolver_laws : @NumberResolver number_resolver.
Proof.
  destruct numeric_resolver_laws as [Hn Hm]. split; [split|].
  - intros ip port Hip Hport. destruct (Hn ip port Hip Hport) as [rest Hrest]. exists rest.
    cbn [getaddrinfo number_resolver]. rewrite bool_decide_eq_false_2 by apply inet_ntoa_not_zero. exact Hrest.
  - exact Hm.
  - intros port Hport. exists []. cbn [getaddrinfo number_resolver]. rewrite bool_decide_eq_true_2 by done.
    by rewrite stoi_to_string by (unfold INT_MAX; unfold_width; lia).
Qed.
