(* ===== verification/NetworkInterface.v ===== *)
(** * The network interface (libsponge/network_interface.{hh,cc})

    IPv4 over Ethernet with ARP.  The three [unordered_map] members are finite
    maps from 32-bit IP addresses; the loops over them treat every entry on
    its own, so their order does not matter.  The debugging output of the
    constructor is not modelled. *)

From stdpp Require Import gmap.
From S2P Require Import Prelude Buffer Parser IPv4Header IPv4Datagram EthernetHeader EthernetFrame.
From S2P Require Import ARPMessage Address.
From stdpp Require Import options.

Local Open Scope Z_scope.

(** ** Data *)

Definition RESEND_ARP_MESSAGE_TIME : Z := 5000.
Definition MAX_ETHERNET_CACHE_TIME : Z := 30000.

Record CachedEthernetAddress := mkCached { address : EthernetAddress; cache_time : Z }.

Definition Cached_default : CachedEthernetAddress := mkCached EthernetAddress_zero 0.

Record NetworkInterface := mkNetworkInterface {
  _ethernet_address : EthernetAddress;
  _ip_address : Address;
  _ip_address_raw : Z;
  _frames_out : list EthernetFrame;
  _cached_ethernet_addresses : gmap Z CachedEthernetAddress;
  _datagram_queue : gmap Z (list IPv4Datagram);
  _arp_message_timers : gmap Z Z
}.

Definition NetworkInterface_new (ethernet_address : EthernetAddress) (ip_address : Address)
    : result NetworkInterface :=
  raw ← ipv4_numeric ip_address;
  Ok (mkNetworkInterface ethernet_address ip_address raw [] ∅ ∅ ∅).

Definition frames_out (n : NetworkInterface) : list EthernetFrame := _frames_out n.

(** Assignments to the members. *)
Definition set_frames_out (n : NetworkInterface) (q : list EthernetFrame) : NetworkInterface :=
  mkNetworkInterface (_ethernet_address n) (_ip_address n) (_ip_address_raw n) q
    (_cached_ethernet_addresses n) (_datagram_queue n) (_arp_message_timers n).

Definition set_cache (n : NetworkInterface) (m : gmap Z CachedEthernetAddress) : NetworkInterface :=
  mkNetworkInterface (_ethernet_address n) (_ip_address n) (_ip_address_raw n) (_frames_out n)
    m (_datagram_queue n) (_arp_message_timers n).

Definition set_queue (n : NetworkInterface) (m : gmap Z (list IPv4Datagram)) : NetworkInterface :=
  mkNetworkInterface (_ethernet_address n) (_ip_address n) (_ip_address_raw n) (_frames_out n)
    (_cached_ethernet_addresses n) m (_arp_message_timers n).

Definition set_timers (n : NetworkInterface) (m : gmap Z Z) : NetworkInterface :=
  mkNetworkInterface (_ethernet_address n) (_ip_address n) (_ip_address_raw n) (_frames_out n)
    (_cached_ethernet_addresses n) (_datagram_queue n) m.

(** ** Private methods *)

Definition send_to (n : NetworkInterface) (dgram : IPv4Datagram) (address : EthernetAddress)
    : result NetworkInterface :=
  payload ← IPv4Datagram.serialize dgram;
  let frame := mkEthernetFrame (mkEthernetHeader address (_ethernet_address n) TYPE_IPv4) payload in
  Ok (set_frames_out n (_frames_out n ++ [frame])).

Definition construct_arp_message (n : NetworkInterface) (opcode : Z)
    (target_ethernet_address : EthernetAddress) (target_ip_address : Z) : ARPMessage :=
  mkARPMessage TYPE_ETHERNET TYPE_IPv4 6 4 opcode (_ethernet_address n) (_ip_address_raw n)
    target_ethernet_address target_ip_address.

Definition send_arp_message (n : NetworkInterface) (arp : ARPMessage) (address : EthernetAddress)
    : result NetworkInterface :=
  s ← ARPMessage.serialize arp;
  let frame := mkEthernetFrame (mkEthernetHeader address (_ethernet_address n) TYPE_ARP)
                 (BufferList_of_string s) in
  Ok (set_frames_out n (_frames_out n ++ [frame])).

(** ** Public methods *)

Definition send_datagram (n : NetworkInterface) (dgram : IPv4Datagram) (next_hop : Address)
    : result NetworkInterface :=
  next_hop_ip ← ipv4_numeric next_hop;
  match _cached_ethernet_addresses n !! next_hop_ip with
  | Some c => send_to n dgram (address c)
  | None =>
      match _arp_message_timers n !! next_hop_ip with
      | None =>
          let arp := construct_arp_message n OPCODE_REQUEST EthernetAddress_zero next_hop_ip in
          n ← send_arp_message n arp ETHERNET_BROADCAST;
          let l := default [] (_datagram_queue n !! next_hop_ip) in
          let n := set_queue n (<[next_hop_ip := l ++ [dgram]]> (_datagram_queue n)) in
          Ok (set_timers n (<[next_hop_ip := 0]> (_arp_message_timers n)))
      | Some _ => Ok n
      end
  end.

(** The loop over the datagrams that waited for an address. *)
Fixpoint send_all (n : NetworkInterface) (dgrams : list IPv4Datagram) (address : EthernetAddress)
    : result NetworkInterface :=
  match dgrams with
  | [] => Ok n
  | d :: dgrams => n ← send_to n d address; send_all n dgrams address
  end.

(** [operator[]] of the cache inserts a default entry if there is none. *)
Definition learn (n : NetworkInterface) (ip : Z) (eth : EthernetAddress) : NetworkInterface :=
  let c := default Cached_default (_cached_ethernet_addresses n !! ip) in
  set_cache n (<[ip := mkCached eth (cache_time c)]> (_cached_ethernet_addresses n)).

Definition recv_arp (n : NetworkInterface) (h : EthernetHeader) (arp : ARPMessage)
    : result NetworkInterface :=
  let n := learn n (sender_ip_address arp) (sender_ethernet_address arp) in
  n ← match _datagram_queue n !! sender_ip_address arp with
      | Some dgrams =>
          n ← send_all n dgrams (sender_ethernet_address arp);
          Ok (set_queue n (delete (sender_ip_address arp) (_datagram_queue n)))
      | None => Ok n
      end;
  if bool_decide (EthernetHeader.dst h = ETHERNET_BROADCAST) && (opcode arp =? OPCODE_REQUEST) &&
     (target_ip_address arp =? _ip_address_raw n)
  then
    let reply := construct_arp_message n OPCODE_REPLY (sender_ethernet_address arp) (sender_ip_address arp) in
    send_arp_message n reply (sender_ethernet_address arp)
  else Ok n.

Definition recv_frame (n : NetworkInterface) (frame : EthernetFrame)
    : result (NetworkInterface * option IPv4Datagram) :=
  let h := EthernetFrame.header frame in
  if type h =? TYPE_IPv4 then
    if bool_decide (EthernetHeader.dst h = _ethernet_address n) then
      b ← to_Buffer (EthernetFrame.payload frame);
      '(datagram, res) ← IPv4Datagram.parse IPv4Datagram_default b;
      Ok (n, if bool_decide (res = NoError) then Some datagram else None)
    else Ok (n, None)
  else if type h =? TYPE_ARP then
    b ← to_Buffer (EthernetFrame.payload frame);
    '(arp, res) ← ARPMessage.parse ARPMessage_default b;
    if bool_decide (res = NoError) then n ← recv_arp n h arp; Ok (n, None)
    else Ok (n, None)
  else Ok (n, None).

(** Every timer is advanced as a [uint16_t]; those that pass their limit go. *)
Definition tick (n : NetworkInterface) (ms_since_last_tick : Z) : NetworkInterface :=
  let timers := (λ t, u16 (t + ms_since_last_tick)) <$> _arp_message_timers n in
  let n := set_timers n (filter (λ kv, ¬ (RESEND_ARP_MESSAGE_TIME < kv.2)) timers) in
  let cache := (λ c, mkCached (address c) (u16 (cache_time c + ms_since_last_tick))) <$>
                 _cached_ethernet_addresses n in
  set_cache n (filter (λ kv, ¬ (MAX_ETHERNET_CACHE_TIME < cache_time kv.2)) cache).

(** ** Lemmas *)

Record wf (n : NetworkInterface) : Prop := {
  wf_eth : wf_address (_ethernet_address n);
  wf_ip : is_u32 (_ip_address_raw n)
}.

Definition ip_frame (n : NetworkInterface) (eth : EthernetAddress) (payload : BufferList) : EthernetFrame :=
  mkEthernetFrame (mkEthernetHeader eth (_ethernet_address n) TYPE_IPv4) payload.

Definition arp_frame (n : NetworkInterface) (eth : EthernetAddress) (arp : ARPMessage) : EthernetFrame :=
  mkEthernetFrame (mkEthernetHeader eth (_ethernet_address n) TYPE_ARP) [Buffer_of (message_bytes arp)].

Lemma zero_address_wf : wf_address EthernetAddress_zero.
Proof. split; [done|repeat constructor; concrete]. Qed.

Lemma broadcast_wf : wf_address ETHERNET_BROADCAST.
Proof. split; [done|repeat constructor; concrete]. Qed.

Lemma construct_arp_wf n op eth ip :
  wf n → op = OPCODE_REQUEST ∨ op = OPCODE_REPLY → wf_address eth → is_u32 ip →
  ARPMessage.wf (construct_arp_message n op eth ip).
Proof. intros [] Hop ? ?. split; [by destruct Hop as [->| ->]|done|done|done|done]. Qed.

Lemma send_arp_message_eq n arp eth :
  ARPMessage.wf arp → send_arp_message n arp eth = Ok (set_frames_out n (_frames_out n ++ [arp_frame n eth arp])).
Proof. intros Hwf. unfold send_arp_message. by rewrite arp_serialize_eq. Qed.

Lemma send_to_eq n d eth l :
  IPv4Datagram.serialize d = Ok l →
  send_to n d eth = Ok (set_frames_out n (_frames_out n ++ [ip_frame n eth l])).
Proof. intros Hl. unfold send_to. by rewrite Hl. Qed.

Lemma send_all_eq n ds eth ls :
  Forall2 (λ d l, IPv4Datagram.serialize d = Ok l) ds ls →
  send_all n ds eth = Ok (set_frames_out n (_frames_out n ++ map (ip_frame n eth) ls)).
Proof.
  intros H. revert n. induction H as [|d l ds ls Hd H IH]; intros n; cbn [send_all map].
  - rewrite app_nil_r. by destruct n.
  - rewrite (send_to_eq n d eth l Hd). cbn [mbind result_bind]. rewrite IH. simpl.
    by rewrite <- app_assoc.
Qed.

Lemma to_Buffer_one b : to_Buffer [b] = Ok b.
Proof. done. Qed.

(** What [recv_arp] does, when the waiting datagrams can be serialized. *)
Definition reply_to (n : NetworkInterface) (h : EthernetHeader) (arp : ARPMessage) : list EthernetFrame :=
  if bool_decide (EthernetHeader.dst h = ETHERNET_BROADCAST) && (opcode arp =? OPCODE_REQUEST) &&
     (target_ip_address arp =? _ip_address_raw n)
  then [arp_frame n (sender_ethernet_address arp)
          (construct_arp_message n OPCODE_REPLY (sender_ethernet_address arp) (sender_ip_address arp))]
  else [].

Lemma recv_arp_eq n h arp ls :
  wf n → ARPMessage.wf arp →
  Forall2 (λ d l, IPv4Datagram.serialize d = Ok l) (default [] (_datagram_queue n !! sender_ip_address arp)) ls →
  recv_arp n h arp =
    Ok (mkNetworkInterface (_ethernet_address n) (_ip_address n) (_ip_address_raw n)
          (_frames_out n ++ map (ip_frame n (sender_ethernet_address arp)) ls ++ reply_to n h arp)
          (_cached_ethernet_addresses (learn n (sender_ip_address arp) (sender_ethernet_address arp)))
          (delete (sender_ip_address arp) (_datagram_queue n)) (_arp_message_timers n)).
Proof.
  intros Hwf Harp Hls. unfold recv_arp. set (n1 := learn _ _ _).
  assert (∃ n2, match _datagram_queue n1 !! sender_ip_address arp with
      | Some dgrams => n ← send_all n1 dgrams (sender_ethernet_address arp);
                       Ok (set_queue n (delete (sender_ip_address arp) (_datagram_queue n)))
      | None => Ok n1 end = Ok n2 ∧
    n2 = mkNetworkInterface (_ethernet_address n) (_ip_address n) (_ip_address_raw n)
          (_frames_out n ++ map (ip_frame n (sender_ethernet_address arp)) ls)
          (_cached_ethernet_addresses n1) (delete (sender_ip_address arp) (_datagram_queue n))
          (_arp_message_timers n)) as (n2 & -> & ->).
  { change (_datagram_queue n1) with (_datagram_queue n).
    destruct (_datagram_queue n !! sender_ip_address arp) as [ds|] eqn:Eq; simpl in Hls.
    - rewrite (send_all_eq n1 ds _ ls Hls). by eexists.
    - inv Hls. eexists. split; [done|]. rewrite delete_id by done. simpl. rewrite app_nil_r. by destruct n. }
  cbn [mbind result_bind]. unfold reply_to. cbn [_ip_address_raw].
  destruct (_ && _ && _); [|simpl; by rewrite app_nil_r].
  rewrite send_arp_message_eq.
  - simpl. by rewrite <- app_assoc.
  - destruct Harp. apply (construct_arp_wf n); auto.
Qed.

(** A well-formed datagram for an IPv4 next hop can always be sent; frames are
    only added. *)
Lemma send_datagram_total n d next_hop ip :
  wf n → IPv4Datagram.wf d → ipv4_numeric next_hop = Ok ip → is_u32 ip →
  ∃ n', send_datagram n d next_hop = Ok n' ∧ wf n' ∧ frames_out n `prefix_of` frames_out n'.
Proof.
  intros Hwf Hd Hip Hu. unfold send_datagram. rewrite Hip. cbn [mbind result_bind].
  destruct (_ !! ip) as [c|].
  - rewrite (send_to_eq n d _ _ (serialize_datagram_eq d Hd)). eexists. split; [done|].
    split; [by destruct Hwf|by eexists].
  - destruct (_ !! ip); [by exists n|]. rewrite send_arp_message_eq.
    + cbn [mbind result_bind]. eexists. split; [done|]. split; [by destruct Hwf|by eexists].
    + apply construct_arp_wf; auto using zero_address_wf.
Qed.

(** The first datagram for a next hop that is not known. *)
Definition arp_request (n : NetworkInterface) (ip : Z) : EthernetFrame :=
  arp_frame n ETHERNET_BROADCAST (construct_arp_message n OPCODE_REQUEST EthernetAddress_zero ip).

Definition waiting (n : NetworkInterface) (ip : Z) (d : IPv4Datagram) : NetworkInterface :=
  mkNetworkInterface (_ethernet_address n) (_ip_address n) (_ip_address_raw n)
    (_frames_out n ++ [arp_request n ip]) (_cached_ethernet_addresses n)
    (<[ip := default [] (_datagram_queue n !! ip) ++ [d]]> (_datagram_queue n))
    (<[ip := 0]> (_arp_message_timers n)).

Lemma send_datagram_unknown n d next_hop ip :
  wf n → ipv4_numeric next_hop = Ok ip → is_u32 ip →
  _cached_ethernet_addresses n !! ip = None → _arp_message_timers n !! ip = None →
  send_datagram n d next_hop = Ok (waiting n ip d).
Proof.
  intros Hwf Hip Hu Hc Ht. unfold send_datagram. rewrite Hip. cbn [mbind result_bind]. rewrite Hc, Ht.
  rewrite send_arp_message_eq by (apply construct_arp_wf; auto using zero_address_wf). done.
Qed.

(** A frame that arrives over the wire: the device hands over its bytes. *)
Definition deliver (n : NetworkInterface) (f : EthernetFrame)
    : result (NetworkInterface * option IPv4Datagram) :=
  '(f', res) ← EthernetFrame.parse EthernetFrame_default (on_wire f);
  if bool_decide (res = NoError) then recv_frame n f' else Ok (n, None).

Lemma frame_slen f :
  EthernetHeader.wf (EthernetFrame._header f) →
  slen (concatenate (EthernetFrame.serialize f)) = 14 + slen (concatenate (EthernetFrame._payload f)).
Proof.
  intros Hwf. change (EthernetFrame.serialize f)
    with (Buffer_of (EthernetHeader.serialize (EthernetFrame._header f)) :: EthernetFrame._payload f).
  rewrite concatenate_cons, str_of, slen_app, serialize_slen by done. done.
Qed.

Lemma deliver_parse n f :
  EthernetHeader.wf (EthernetFrame._header f) → slen (concatenate (EthernetFrame._payload f)) < 0x100000000 →
  ∃ pl, deliver n f = recv_frame n (mkEthernetFrame (EthernetFrame._header f) [pl]) ∧
    Buffer.wf pl ∧ str pl = concatenate (EthernetFrame._payload f).
Proof.
  intros Hwf Hl. destruct (parse_frame f EthernetFrame_default (on_wire f) Hwf) as (pl & Hp & Hb & Hs).
  - apply wf_of. rewrite frame_slen by done. pose proof (slen_nonneg (concatenate (EthernetFrame._payload f))).
    unfold_width. lia.
  - apply str_of.
  - exists pl. split; [|done]. unfold deliver. rewrite Hp. done.
Qed.

Lemma deliver_arp n m eth arp :
  wf m → wf_address eth → ARPMessage.wf arp →
  deliver n (arp_frame m eth arp) =
    (n ← recv_arp n (mkEthernetHeader eth (_ethernet_address m) TYPE_ARP) arp; Ok (n, None)).
Proof.
  intros Hm He Ha. pose proof (message_bytes_slen arp Ha) as Hl.
  destruct (deliver_parse n (arp_frame m eth arp)) as (pl & -> & Hb & Hs).
  - split; [done|apply Hm|concrete].
  - cbn [EthernetFrame._payload arp_frame]. rewrite concatenate_one, str_of, Hl. done.
  - cbn [EthernetFrame._payload arp_frame EthernetFrame._header] in *. rewrite concatenate_one, str_of in Hs.
    unfold recv_frame. cbn. rewrite (arp_parse_serialized arp _ pl [] Ha Hb) by (by rewrite app_nil_r).
    done.
Qed.

Lemma deliver_ip n m d l :
  wf n → wf m → IPv4Datagram.wf d → IPv4Datagram.serialize d = Ok l →
  ∃ pl, deliver n (ip_frame m (_ethernet_address n) l) =
      Ok (n, Some (mkIPv4Datagram
        (with_cksum (IPv4Datagram.header d) (header_cksum (IPv4Datagram.header d))) [pl])) ∧
    Buffer.wf pl ∧ str pl = concatenate (IPv4Datagram.payload d).
Proof.
  intros Hn Hm Hd Hl. rewrite serialize_datagram_eq in Hl by done. apply Ok_inj in Hl as <-.
  destruct Hd as [Hh Hlen].
  set (hb := head_bytes (IPv4Datagram._header d) ++
    be_bytes 2 (header_cksum (IPv4Datagram._header d)) ++ tail_bytes (IPv4Datagram._header d)).
  assert (slen hb = 4 * hlen (IPv4Datagram._header d)) as Hsl.
  { unfold hb. rewrite !slen_app, ipv4_head_bytes_slen, ipv4_tail_bytes_slen, be_bytes_slen by (destruct Hh; lia). lia. }
  destruct (deliver_parse n (ip_frame m (_ethernet_address n) (Buffer_of hb :: IPv4Datagram._payload d)))
    as (pl & Hdel & Hb & Hs).
  { split; [apply Hn|apply Hm|concrete]. }
  { cbn [EthernetFrame._payload ip_frame]. rewrite concatenate_cons, str_of, slen_app, Hsl.
    destruct Hh. unfold_width. lia. }
  rewrite Hdel. cbn [EthernetFrame._payload ip_frame EthernetFrame._header] in *.
  rewrite concatenate_cons, str_of in Hs.
  destruct (parse_datagram IPv4Datagram_default pl (IPv4Datagram._header d)
    (header_cksum (IPv4Datagram._header d)) (concatenate (IPv4Datagram._payload d)) Hh (u16_range _) Hb Hlen Hs)
    as (p & _ & Hp & Hpl & Hwfp).
  unfold recv_frame. cbn [EthernetFrame.header EthernetFrame._header type EthernetHeader.dst].
  change (TYPE_IPv4 =? TYPE_IPv4) with true. cbv iota. rewrite bool_decide_eq_true_2 by done.
  unfold EthernetFrame.payload. cbn [EthernetFrame._payload]. rewrite to_Buffer_one. cbn [mbind result_bind].
  rewrite Hp. cbn [mbind result_bind]. rewrite bool_decide_eq_true_2 by done. by exists (Parser.buffer p).
Qed.

(** ** Properties *)

(** C23: sending, branch by branch.  To a known next hop the datagram goes out in
    one frame.  To an unknown one, if no request is recent, an ARP request is
    broadcast and the datagram waits.  While a request is recent, a further
    datagram for the same hop changes nothing: it is neither sent nor kept. *)
Theorem send_datagram_branches (n : NetworkInterface) (d : IPv4Datagram) (l : BufferList)
    (next_hop : Address) (ip : Z) :
  wf n → IPv4Datagram.serialize d = Ok l → ipv4_numeric next_hop = Ok ip → is_u32 ip →
  (∀ c, _cached_ethernet_addresses n !! ip = Some c →
     send_datagram n d next_hop = Ok (set_frames_out n (frames_out n ++ [ip_frame n (address c) l]))) ∧
  (_cached_ethernet_addresses n !! ip = None → _arp_message_timers n !! ip = None →
     ∃ n', send_datagram n d next_hop = Ok n' ∧
       frames_out n' = frames_out n ++
         [arp_frame n ETHERNET_BROADCAST (construct_arp_message n OPCODE_REQUEST EthernetAddress_zero ip)] ∧
       _datagram_queue n' !! ip = Some (default [] (_datagram_queue n !! ip) ++ [d]) ∧
       _arp_message_timers n' !! ip = Some 0) ∧
  (_cached_ethernet_addresses n !! ip = None → is_Some (_arp_message_timers n !! ip) →
     send_datagram n d next_hop = Ok n).
Proof.
  intros Hwf Hl Hip Hu. unfold send_datagram. rewrite Hip. cbn [mbind result_bind]. split_and!.
  - intros c ->. by apply send_to_eq.
  - intros Hc Ht. pose proof (send_datagram_unknown n d next_hop ip Hwf Hip Hu Hc Ht) as H.
    unfold send_datagram in H. rewrite Hip in H. eexists. split; [exact H|]. simpl. by rewrite !lookup_insert_eq.
  - by intros -> [t ->].
Qed.

Definition sample_interface (eth ip : Z) : NetworkInterface :=
  mkNetworkInterface [2; 0; 0; 0; 0; eth] (mkAddress 16 []) ip [] ∅ ∅ ∅.

Definition sample_hop (ip : Z) : Address :=
  mkAddress 16 ([AF_INET; 0; 0; 0] ++ be_bytes 4 ip ++ replicate 120 0).

Lemma sample_interface_wf eth ip : is_u8 eth → is_u32 ip → wf (sample_interface eth ip).
Proof.
  intros He Hi. split; [split; [done|]|done].
  do 5 (apply Forall_cons_2; [concrete|]). by apply Forall_singleton.
Qed.

Lemma sample_datagram_wf : IPv4Datagram.wf sample_datagram.
Proof. split; [split; concrete|concrete]. Qed.

Lemma send_datagram_branches_witness :
  ∃ n', send_datagram (sample_interface 1 0x0a000001) sample_datagram (sample_hop 0x0a000002) = Ok n' ∧
    _datagram_queue n' !! 0x0a000002 = Some [sample_datagram].
Proof.
  destruct (send_datagram_branches (sample_interface 1 0x0a000001) sample_datagram
    (Buffer_of (head_bytes (IPv4Datagram._header sample_datagram) ++
                be_bytes 2 (header_cksum (IPv4Datagram._header sample_datagram)) ++
                tail_bytes (IPv4Datagram._header sample_datagram)) :: IPv4Datagram._payload sample_datagram)
    (sample_hop 0x0a000002) 0x0a000002) as (_ & H & _).
  - apply sample_interface_wf; concrete.
  - apply serialize_datagram_eq, sample_datagram_wf.
  - concrete.
  - concrete.
  - destruct H as (n' & ? & _ & ? & _); [done|done|]. by exists n'.
Defined.

(** ARP.  A valid ARP message teaches the sender's address, sends the
    datagrams that waited for it, in order, to that address and clears the
    queue, and is answered if and only if it is a broadcast request for this
    interface's address. *)
Theorem arp_learn_and_flush (n m : NetworkInterface) (eth : EthernetAddress) (arp : ARPMessage)
    (ls : list BufferList) :
  wf n → wf m → wf_address eth → ARPMessage.wf arp →
  Forall2 (λ d l, IPv4Datagram.serialize d = Ok l) (default [] (_datagram_queue n !! sender_ip_address arp)) ls →
  ∃ n', deliver n (arp_frame m eth arp) = Ok (n', None) ∧
    address <$> (_cached_ethernet_addresses n' !! sender_ip_address arp) = Some (sender_ethernet_address arp) ∧
    (∀ ip, ip ≠ sender_ip_address arp →
       _cached_ethernet_addresses n' !! ip = _cached_ethernet_addresses n !! ip) ∧
    _datagram_queue n' = delete (sender_ip_address arp) (_datagram_queue n) ∧
    frames_out n' =
      frames_out n ++ map (ip_frame n (sender_ethernet_address arp)) ls ++
      (if bool_decide (eth = ETHERNET_BROADCAST ∧ opcode arp = OPCODE_REQUEST ∧
                       target_ip_address arp = _ip_address_raw n)
       then [arp_frame n (sender_ethernet_address arp)
               (construct_arp_message n OPCODE_REPLY (sender_ethernet_address arp) (sender_ip_address arp))]
       else []).
Proof.
  intros Hn Hm He Ha Hls. rewrite (deliver_arp n m eth arp Hm He Ha).
  rewrite (recv_arp_eq _ _ _ ls) by done. cbn [mbind result_bind]. eexists. split; [done|].
  simpl. rewrite lookup_insert_eq. split_and!; [done| |done|].
  - intros ip Hne. by rewrite lookup_insert_ne.
  - unfold frames_out. simpl. do 2 f_equal. unfold reply_to. cbn [EthernetHeader.dst].
    destruct (_ && _ && _) eqn:E.
    + rewrite !andb_true_iff, !Z.eqb_eq, bool_decide_eq_true in E. rewrite bool_decide_eq_true_2 by tauto. done.
    + rewrite bool_decide_eq_false_2; [done|]. intros (-> & Ho & Ht).
      rewrite bool_decide_eq_true_2, Ho, Ht, !Z.eqb_refl in E by done. done.
Qed.

Lemma arp_learn_and_flush_witness :
  ∃ n', deliver (sample_interface 1 0x0a000002) (arp_frame (sample_interface 9 7) ETHERNET_BROADCAST sample_arp)
      = Ok (n', None) ∧
    address <$> (_cached_ethernet_addresses n' !! sender_ip_address sample_arp) =
      Some (sender_ethernet_address sample_arp).
Proof.
  destruct (arp_learn_and_flush (sample_interface 1 0x0a000002) (sample_interface 9 7) ETHERNET_BROADCAST
              sample_arp []) as (n' & ? & ? & _).
  - apply sample_interface_wf; concrete.
  - apply sample_interface_wf; concrete.
  - apply broadcast_wf.
  - apply sample_arp_wf.
  - change (default [] (_datagram_queue (sample_interface 1 0x0a000002) !! sender_ip_address sample_arp))
      with (@nil IPv4Datagram). apply Forall2_nil_2.
  - exists n'. split; assumption.
Defined.

(** The interface that owns an address answers a request for it. *)
Lemma request_answered a b :
  wf a → wf b → frames_out b = [] → _datagram_queue b !! _ip_address_raw a = None →
  ∃ b1, deliver b (arp_frame a ETHERNET_BROADCAST
      (construct_arp_message a OPCODE_REQUEST EthernetAddress_zero (_ip_address_raw b))) = Ok (b1, None) ∧
    frames_out b1 = [arp_frame b (_ethernet_address a)
      (construct_arp_message b OPCODE_REPLY (_ethernet_address a) (_ip_address_raw a))] ∧
    wf b1 ∧ _ethernet_address b1 = _ethernet_address b.
Proof.
  intros Ha Hb Hfb Hqb. rewrite deliver_arp;
    [|done|apply broadcast_wf|apply construct_arp_wf; [done|by left|apply zero_address_wf|apply Hb]].
  rewrite (recv_arp_eq _ _ _ []); [|done| |].
  - eexists. split; [done|]. split; [|by destruct Hb].
    unfold frames_out in *. cbn [_frames_out]. rewrite Hfb. unfold reply_to. simpl. by rewrite Z.eqb_refl.
  - apply construct_arp_wf; [done|by left|apply zero_address_wf|apply Hb].
  - cbn [sender_ip_address construct_arp_message]. rewrite Hqb. constructor.
Qed.

(** The reply releases the datagram that waits for it. *)
Lemma reply_releases a b d l :
  wf a → wf b → frames_out a = [] → IPv4Datagram.serialize d = Ok l →
  _datagram_queue a !! _ip_address_raw b = Some [d] →
  ∃ a2, deliver a (arp_frame b (_ethernet_address a)
      (construct_arp_message b OPCODE_REPLY (_ethernet_address a) (_ip_address_raw a))) = Ok (a2, None) ∧
    frames_out a2 = [ip_frame a (_ethernet_address b) l].
Proof.
  intros Ha Hb Hfa Hl Hqa.
  assert (ARPMessage.wf (construct_arp_message b OPCODE_REPLY (_ethernet_address a) (_ip_address_raw a))) as Hw
    by (apply construct_arp_wf; [done|by right|apply Ha|apply Ha]).
  rewrite deliver_arp by (try done; apply Ha). rewrite (recv_arp_eq _ _ _ [l]); [|done|done|].
  - eexists. split; [done|]. unfold frames_out in *. cbn [_frames_out]. rewrite Hfa. unfold reply_to.
    cbn [opcode construct_arp_message]. change (OPCODE_REPLY =? OPCODE_REQUEST) with false.
    by rewrite andb_false_r.
  - cbn [sender_ip_address construct_arp_message]. rewrite Hqa. by constructor.
Qed.

(** C22: address resolution delivers.  An interface [a] that knows nothing sends a
    datagram to the address of [b].  The frames that result, carried over the
    wire, are an ARP request, the reply of [b], and the datagram, and [b] hands
    up a datagram with the same payload and header (checksum filled in). *)
Theorem arp_exchange_delivers (a b : NetworkInterface) (d : IPv4Datagram) (next_hop : Address) :
  wf a → wf b → IPv4Datagram.wf d →
  ipv4_numeric next_hop = Ok (_ip_address_raw b) →
  frames_out a = [] → frames_out b = [] →
  _cached_ethernet_addresses a !! _ip_address_raw b = None →
  _arp_message_timers a !! _ip_address_raw b = None →
  _datagram_queue a !! _ip_address_raw b = None → _datagram_queue b !! _ip_address_raw a = None →
  ∃ a1 request b1 reply a2 frame b2 d',
    send_datagram a d next_hop = Ok a1 ∧ frames_out a1 = [request] ∧
    deliver b request = Ok (b1, None) ∧ frames_out b1 = [reply] ∧
    deliver (set_frames_out a1 []) reply = Ok (a2, None) ∧ frames_out a2 = [frame] ∧
    deliver (set_frames_out b1 []) frame = Ok (b2, Some d') ∧
    IPv4Datagram.header d' = with_cksum (IPv4Datagram.header d) (header_cksum (IPv4Datagram.header d)) ∧
    concatenate (IPv4Datagram.payload d') = concatenate (IPv4Datagram.payload d).
Proof.
  intros Ha Hb Hd Hip Hfa Hfb Hca Hta Hqa Hqb. pose proof (serialize_datagram_eq d Hd) as Hl.
  set (a1 := waiting a (_ip_address_raw b) d).
  assert (wf (set_frames_out a1 [])) as Ha1 by (by destruct Ha).
  assert (send_datagram a d next_hop = Ok a1) as Hsend by (apply send_datagram_unknown; try done; apply Hb).
  destruct (request_answered a b Ha Hb Hfb Hqb) as (b1 & Hb1 & Hf1 & Hwf1 & He1).
  destruct (reply_releases (set_frames_out a1 []) b d _ Ha1 Hb eq_refl Hl) as (a2 & Ha2 & Hf2).
  { simpl. by rewrite lookup_insert_eq, Hqa. }
  assert (wf (set_frames_out b1 [])) as Hwf2 by (by destruct Hwf1).
  destruct (deliver_ip (set_frames_out b1 []) (set_frames_out a1 []) d _ Hwf2 Ha1 Hd Hl) as (pl & Hd' & _ & Hpl).
  cbn [_ethernet_address set_frames_out] in Hd'. rewrite He1 in Hd'.
  eexists a1, (arp_request a (_ip_address_raw b)), b1, _, a2, _, (set_frames_out b1 []), _. split_and!; try done.
  unfold frames_out in *. cbn [_frames_out waiting a1]. by rewrite Hfa.
Qed.

Lemma arp_exchange_delivers_witness :
  ∃ a1 request, send_datagram (sample_interface 1 0x0a000001) sample_datagram (sample_hop 0x0a000002) = Ok a1 ∧
    frames_out a1 = [request].
Proof.
  destruct (arp_exchange_delivers (sample_interface 1 0x0a000001) (sample_interface 2 0x0a000002)
    sample_datagram (sample_hop 0x0a000002)) as (a1 & request & _ & _ & _ & _ & _ & _ & ? & ? & _).
  - apply sample_interface_wf; concrete.
  - apply sample_interface_wf; concrete.
  - apply sample_datagram_wf.
  - concrete.
  - done.
  - done.
  - done.
  - done.
  - done.
  - done.
  - exists a1, request. split; assumption.
Defined.

(** Timers.  A tick that does not overflow the 16-bit counters keeps exactly
    the cached addresses whose age stays within 30 seconds and the requests
    whose age stays within 5 seconds, and ages them. *)
Theorem tick_expires (n : NetworkInterface) (ms ip : Z) :
  0 <= ms →
  (∀ c, _cached_ethernet_addresses n !! ip = Some c → is_u16 (cache_time c + ms)) →
  (∀ t, _arp_message_timers n !! ip = Some t → is_u16 (t + ms)) →
  (∀ eth age, _cached_ethernet_addresses (tick n ms) !! ip = Some (mkCached eth age) ↔
     _cached_ethernet_addresses n !! ip = Some (mkCached eth (age - ms)) ∧ age <= MAX_ETHERNET_CACHE_TIME) ∧
  (∀ age, _arp_message_timers (tick n ms) !! ip = Some age ↔
     _arp_message_timers n !! ip = Some (age - ms) ∧ age <= RESEND_ARP_MESSAGE_TIME) ∧
  _datagram_queue (tick n ms) = _datagram_queue n ∧ frames_out (tick n ms) = frames_out n.
Proof.
  intros Hms Hc Ht. unfold tick. simpl. split_and!; [| |done|done].
  - intros eth age. rewrite map_lookup_filter_Some, lookup_fmap_Some. simpl. split.
    + intros [([e t] & Heq & Hl) Hle]. rewrite u16_small in Heq by (by apply (Hc _ Hl)).
      injection Heq as <- <-. simpl. rewrite Z.add_simpl_r. split; [done|lia].
    + intros [Hl Hle]. split; [|lia]. eexists. split; [|exact Hl]. simpl.
      rewrite Z.sub_add, u16_small; [done|]. specialize (Hc _ Hl). simpl in Hc. by rewrite Z.sub_add in Hc.
  - intros age. rewrite map_lookup_filter_Some, lookup_fmap_Some. simpl. split.
    + intros [(t & Heq & Hl) Hle]. rewrite u16_small in Heq by (by apply (Ht _ Hl)).
      subst age. rewrite Z.add_simpl_r. split; [done|lia].
    + intros [Hl Hle]. split; [|lia]. eexists. split; [|exact Hl]. simpl.
      rewrite Z.sub_add, u16_small; [done|]. specialize (Ht _ Hl). by rewrite Z.sub_add in Ht.
Qed.

Definition aged_interface : NetworkInterface :=
  set_cache (sample_interface 1 0x0a000001) {[ 7 := mkCached [1; 2; 3; 4; 5; 6] 29000 ]}.

Lemma tick_expires_witness :
  _cached_ethernet_addresses (tick aged_interface 1000) !! 7 = Some (mkCached [1; 2; 3; 4; 5; 6] 30000) ↔
  _cached_ethernet_addresses aged_interface !! 7 = Some (mkCached [1; 2; 3; 4; 5; 6] 29000) ∧ 30000 <= 30000.
Proof.
  apply (tick_expires aged_interface 1000 7); [lia| |by intros].
  intros c [= <-]. concrete.
Defined.
