(* ===== verification/Router.v ===== *)
(** * The router (libsponge/router.{hh,cc})

    Interfaces with a queue of received datagrams, and longest-prefix routing
    between them.  The debugging output of [add_route] is not modelled. *)

From S2P Require Import Prelude Buffer Parser EthernetFrame IPv4Header IPv4Datagram Address NetworkInterface.
From stdpp Require Import options.

Local Open Scope Z_scope.

(** ** Data *)

Record AsyncNetworkInterface := mkAsync {
  base : NetworkInterface;
  _datagrams_out : list IPv4Datagram
}.

Record Route := mkRoute {
  prefix : Z;
  prefix_length : Z;
  next_hop : option Address;
  interface_num : Z
}.

Record Router := mkRouter {
  _routes : list Route;
  _interfaces : list AsyncNetworkInterface
}.

Definition PREFIX_MAX_BITS : Z := 32.

Definition Route_default : Route := mkRoute 0 0 None 0.

Definition Router_new : Router := mkRouter [] [].

(** ** [AsyncNetworkInterface] *)

Definition AsyncNetworkInterface_of (n : NetworkInterface) : AsyncNetworkInterface := mkAsync n [].

Definition datagrams_out (i : AsyncNetworkInterface) : list IPv4Datagram := _datagrams_out i.

Definition async_recv_frame (i : AsyncNetworkInterface) (frame : EthernetFrame)
    : result AsyncNetworkInterface :=
  '(n, optional_dgram) ← NetworkInterface.recv_frame (base i) frame;
  Ok (match optional_dgram with
      | Some d => mkAsync n (_datagrams_out i ++ [d])
      | None => mkAsync n (_datagrams_out i)
      end).

(** ** [Router] *)

Definition add_interface (r : Router) (i : AsyncNetworkInterface) : Router * Z :=
  let l := _interfaces r ++ [i] in
  (mkRouter (_routes r) l, u64 (slen l - 1)).

(** [_interfaces.at(N)]. *)
Definition interface (r : Router) (n : Z) : result AsyncNetworkInterface :=
  match _interfaces r !! Z.to_nat n with
  | Some i => Ok i
  | None => Throw OutOfRange
  end.

Section Shift.
(** A shift of a 32-bit number by an amount outside of 0..31 is undefined;
    [shift_oob] stands for what it yields. *)
Context (shift_oob : Z → Z → Z).

Definition shr32 (x n : Z) : Z :=
  if (0 <=? n) && (n <? 32) then Z.shiftr x n else shift_oob x n.

Definition add_route (r : Router) (route_prefix prefix_length : Z) (next_hop : option Address)
    (interface_num : Z) : Router :=
  let right_shift_bits :=
    u8 (if PREFIX_MAX_BITS <? prefix_length then PREFIX_MAX_BITS else PREFIX_MAX_BITS - prefix_length) in
  mkRouter
    (_routes r ++ [mkRoute (shr32 route_prefix right_shift_bits) prefix_length next_hop interface_num])
    (_interfaces r).

Definition applicable (dst : Z) (candidate_route : Route) : bool :=
  (shr32 dst (PREFIX_MAX_BITS - prefix_length candidate_route) =? prefix candidate_route) ||
  (prefix_length candidate_route =? 0).

(** The loop over the routes. *)
Definition select_step (dst : Z) (acc : bool * Route) (candidate_route : Route) : bool * Route :=
  if (prefix_length acc.2 <=? prefix_length candidate_route) && applicable dst candidate_route
  then (true, candidate_route) else acc.

Definition select (dst : Z) (routes : list Route) : bool * Route :=
  foldl (select_step dst) (false, Route_default) routes.

Definition set_interface (r : Router) (n : nat) (i : AsyncNetworkInterface) : Router :=
  mkRouter (_routes r) (<[n := i]> (_interfaces r)).

Definition send_on (r : Router) (n : Z) (d : IPv4Datagram) (a : Address) : result Router :=
  i ← interface r n;
  b ← NetworkInterface.send_datagram (base i) d a;
  Ok (set_interface r (Z.to_nat n) (mkAsync b (_datagrams_out i))).

Definition decrement_ttl (d : IPv4Datagram) : IPv4Datagram :=
  mkIPv4Datagram (with_ttl (header d) (u8 (ttl (header d) - 1))) (payload d).

Definition route_one_datagram (r : Router) (dgram : IPv4Datagram) : result Router :=
  if ttl (header dgram) <=? 1 then Ok r
  else
    let dgram := decrement_ttl dgram in
    let '(found_route, route) := select (dst (header dgram)) (_routes r) in
    if found_route then
      match next_hop route with
      | Some hop => send_on r (interface_num route) dgram hop
      | None =>
          a ← from_ipv4_numeric (dst (header dgram));
          send_on r (interface_num route) dgram a
      end
    else Ok r.

Definition set_datagrams_out (r : Router) (n : nat) (q : list IPv4Datagram) : Router :=
  match _interfaces r !! n with
  | Some i => set_interface r n (mkAsync (base i) q)
  | None => r
  end.

(** The inner loop of [route]: routing one datagram does not change the queue. *)
Fixpoint route_queue (r : Router) (n : nat) (queue : list IPv4Datagram) : result Router :=
  match queue with
  | [] => Ok r
  | d :: queue =>
      r ← route_one_datagram r d;
      route_queue (set_datagrams_out r n queue) n queue
  end.

Fixpoint route_from (r : Router) (n fuel : nat) : result Router :=
  match fuel with
  | O => Ok r
  | S fuel =>
      match _interfaces r !! n with
      | Some i => r ← route_queue r n (_datagrams_out i); route_from r (S n) fuel
      | None => Ok r
      end
  end.

Definition route (r : Router) : result Router := route_from r 0 (length (_interfaces r)).

End Shift.

(** ** Longest-prefix match *)

(** The route that was asked for: the network, its prefix length, where to. *)
Record Rule := mkRule { network : Z; bits : Z; hop : option Address; port : Z }.

Definition rule_ok (u : Rule) : Prop := is_u32 (network u) ∧ 0 <= bits u <= 32.

Definition add_rules (shift_oob : Z → Z → Z) (r : Router) (rules : list Rule) : Router :=
  foldl (λ r u, add_route shift_oob r (network u) (bits u) (hop u) (port u)) r rules.

(** The first [bits u] bits of the address are those of the network. *)
Definition covers (u : Rule) (dst : Z) : Prop :=
  ∀ i, 32 - bits u <= i < 32 → Z.testbit dst i = Z.testbit (network u) i.

Lemma u32_testbit_high x i : is_u32 x → 32 <= i → Z.testbit x i = false.
Proof.
  intros Hx Hi. destruct (decide (x = 0)) as [->|Hne]; [apply Z.testbit_0_l|].
  unfold_width. apply Z.bits_above_log2; [lia|].
  apply Z.lt_le_trans with 32; [apply Z.log2_lt_pow2; [lia|]; change (2 ^ 32) with 0x100000000; lia|done].
Qed.

Lemma shiftr_eq_covers x y n :
  is_u32 x → is_u32 y → 0 <= n < 32 →
  Z.shiftr x n = Z.shiftr y n ↔ ∀ i, n <= i < 32 → Z.testbit x i = Z.testbit y i.
Proof.
  intros Hx Hy Hn. split.
  - intros H i Hi. replace i with ((i - n) + n) by lia. rewrite <- !Z.shiftr_spec by lia. by rewrite H.
  - intros H. apply Z.bits_inj'. intros i Hi. rewrite !Z.shiftr_spec by lia.
    destruct (decide (i + n < 32)); [apply H; lia|]. by rewrite !u32_testbit_high by (done || lia).
Qed.

(** [u] is the last of the longest rules of [rules] that cover [dst]. *)
Definition best (rules : list Rule) (dst : Z) (u : Rule) : Prop :=
  ∃ i, rules !! i = Some u ∧ covers u dst ∧
    ∀ j v, rules !! j = Some v → covers v dst → bits v <= bits u ∧ (bits v = bits u → (j <= i)%nat).

Lemma best_unique rules dst u w : best rules dst u → best rules dst w → u = w.
Proof.
  intros (i & Hi & Hu & Hbu) (j & Hj & Hw & Hbw).
  destruct (Hbu j w Hj Hw) as [? Hle1]. destruct (Hbw i u Hi Hu) as [? Hle2].
  assert (i = j) as -> by (apply Nat.le_antisymm; [apply Hle2|apply Hle1]; lia). congruence.
Qed.

Lemma best_longest rules dst u v : best rules dst u → v ∈ rules → covers v dst → bits v <= bits u.
Proof. intros (i & _ & _ & H) [j Hj]%list_elem_of_lookup Hc. by apply (H j v). Qed.

Lemma best_new rules dst u :
  covers u dst → (∀ v, v ∈ rules → covers v dst → bits v <= bits u) → best (rules ++ [u]) dst u.
Proof.
  intros Hu H. exists (length rules). split; [by apply lookup_snoc_Some; right|]. split; [done|].
  intros j v [[Hj Hv]|[-> ->]]%lookup_snoc_Some Hc; [|done]. split; [|lia].
  apply H; [by eapply list_elem_of_lookup_2|done].
Qed.

Lemma best_old rules dst u w :
  best rules dst w → (covers u dst → bits u < bits w) → best (rules ++ [u]) dst w.
Proof.
  intros (i & Hi & Hw & H) Hu. exists i. split.
  - apply lookup_snoc_Some. left. split; [by eapply lookup_lt_Some|done].
  - split; [done|]. intros j v [[Hj Hv]|[-> ->]]%lookup_snoc_Some Hc; [by apply H|].
    specialize (Hu Hc). lia.
Qed.

Section Match.
Context (shift_oob : Z → Z → Z).

Definition stored (u : Rule) : Route :=
  mkRoute (shr32 shift_oob (network u) (32 - bits u)) (bits u) (hop u) (port u).

Lemma add_rules_routes r rules :
  Forall rule_ok rules → _routes (add_rules shift_oob r rules) = _routes r ++ map stored rules.
Proof using Type.
  intros H. unfold add_rules. revert r. induction H as [|u rules [_ Hu] H IH]; intros r; simpl.
  { by rewrite app_nil_r. }
  rewrite IH. simpl. rewrite <- app_assoc. simpl. do 3 f_equal. unfold stored, PREFIX_MAX_BITS.
  destruct (32 <? bits u) eqn:E; [lia|]. rewrite u8_small by (unfold_width; lia). done.
Qed.

Lemma applicable_covers u dst :
  rule_ok u → is_u32 dst → applicable shift_oob dst (stored u) = true ↔ covers u dst.
Proof using Type.
  intros [Hn Hb] Hd. unfold applicable, stored, covers, PREFIX_MAX_BITS. cbn [prefix prefix_length].
  rewrite orb_true_iff, !Z.eqb_eq. unfold shr32.
  destruct (decide (bits u = 0)) as [E|E].
  { split; [intros _ i Hi; lia|by right]. }
  assert ((0 <=? 32 - bits u) && (32 - bits u <? 32) = true) as -> by (rewrite andb_true_iff; lia).
  rewrite <- (shiftr_eq_covers dst (network u)) by (done || lia). split; [by intros [|]|by left].
Qed.

Lemma select_spec rules dst :
  Forall rule_ok rules → is_u32 dst →
  (select shift_oob dst (map stored rules) = (false, Route_default) ∧ ∀ v, v ∈ rules → ¬ covers v dst) ∨
  (∃ u, select shift_oob dst (map stored rules) = (true, stored u) ∧ best rules dst u).
Proof using Type.
  intros Hok Hd. unfold select. induction rules as [|u rules IH] using rev_ind.
  { left. split; [done|]. intros v Hv. by apply elem_of_nil in Hv. }
  apply Forall_app in Hok as [Hok Hu]. rewrite Forall_singleton in Hu.
  rewrite map_app, foldl_app. cbn [map foldl].
  pose proof (applicable_covers u dst Hu Hd) as Hc.
  destruct (IH Hok) as [[-> Hnone]|(w & -> & Hw)]; unfold select_step; cbn [snd].
  - cbn [prefix_length Route_default stored].
    assert ((0 <=? bits u) = true) as -> by (destruct Hu; lia). cbn [andb]. destruct (applicable _ _ _).
    + right. exists u. split; [done|]. apply best_new; [by apply Hc|]. intros v Hv Hcv. by destruct (Hnone v Hv).
    + left. split; [done|]. intros v [Hv|Hv]%elem_of_app; [by apply Hnone|].
      apply list_elem_of_singleton in Hv as ->. intros Hcv. by apply Hc in Hcv.
  - right. cbn [prefix_length stored]. destruct (bits w <=? bits u) eqn:Eb; cbn [andb].
    + destruct (applicable _ _ _); [exists u|exists w]; (split; [done|]).
      * apply best_new; [by apply Hc|]. intros v Hv Hcv. pose proof (best_longest _ _ _ v Hw Hv Hcv). lia.
      * apply best_old; [done|]. intros Hcv. by apply Hc in Hcv.
    + exists w. split; [done|]. apply best_old; [done|]. lia.
Qed.

End Match.

(** ** Routing preserves well-formedness and drains the queues *)

Record route_wf (count : Z) (x : Route) : Prop := {
  wf_interface_num : 0 <= interface_num x < count;
  wf_next_hop : ∀ a, next_hop x = Some a → ∃ ip, ipv4_numeric a = Ok ip ∧ is_u32 ip
}.

Definition interface_wf (i : AsyncNetworkInterface) : Prop :=
  NetworkInterface.wf (base i) ∧ Forall IPv4Datagram.wf (_datagrams_out i).

Record router_wf (r : Router) : Prop := {
  wf_routes : Forall (route_wf (slen (_interfaces r))) (_routes r);
  wf_interfaces : Forall interface_wf (_interfaces r)
}.

(** The same interfaces after some sending. *)
Definition sent (i i' : AsyncNetworkInterface) : Prop :=
  _datagrams_out i' = _datagrams_out i ∧ frames_out (base i) `prefix_of` frames_out (base i').

#[export] Instance sent_refl : Reflexive sent.
Proof. by split. Qed.

Lemma decrement_ttl_wf d : IPv4Datagram.wf d → IPv4Datagram.wf (decrement_ttl d).
Proof. intros [[] Hl]. split; [split; try done; apply u8_range|done]. Qed.

Lemma decrement_ttl_eq d :
  IPv4Datagram.wf d → 1 < ttl (header d) →
  decrement_ttl d = mkIPv4Datagram (with_ttl (header d) (ttl (header d) - 1)) (payload d).
Proof. intros [[] _] Ht. unfold decrement_ttl. unfold header in *. rewrite u8_small by (unfold_width; lia). done. Qed.

Lemma send_on_total r n d a ip :
  router_wf r → 0 <= n < slen (_interfaces r) → IPv4Datagram.wf d → ipv4_numeric a = Ok ip → is_u32 ip →
  ∃ r', send_on r n d a = Ok r' ∧ router_wf r' ∧ _routes r' = _routes r ∧
    Forall2 sent (_interfaces r) (_interfaces r').
Proof.
  intros [Hr Hi] Hn Hd Ha Hip.
  destruct (lookup_lt_is_Some_2 (_interfaces r) (Z.to_nat n)) as [i Hl]; [unfold slen in Hn; lia|].
  destruct (proj1 (Forall_lookup _ _) Hi _ _ Hl) as [Hb Hq].
  destruct (send_datagram_total (base i) d a ip Hb Hd Ha Hip) as (b & Hs & Hwf & Hp).
  exists (set_interface r (Z.to_nat n) (mkAsync b (_datagrams_out i))). unfold send_on, interface.
  rewrite Hl. cbn [mbind result_bind]. rewrite Hs. split; [done|]. split; [split|].
  - unfold set_interface, slen. cbn [_interfaces _routes]. by rewrite length_insert.
  - cbn [_interfaces set_interface]. by apply Forall_insert.
  - split; [done|]. cbn [_interfaces set_interface].
    rewrite <- (list_insert_id (_interfaces r) _ _ Hl) at 1. apply Forall2_insert; [by apply Forall2_same|done].
Qed.

Lemma select_elem shift_oob dst routes x :
  select shift_oob dst routes = (true, x) → x ∈ routes.
Proof.
  unfold select. induction routes as [|y routes IH] using rev_ind; [done|].
  rewrite foldl_app. cbn [foldl]. unfold select_step at 1. case_match; intros H'.
  - injection H' as ->. apply elem_of_app. right. by apply list_elem_of_singleton.
  - apply elem_of_app. left. by apply IH.
Qed.

Lemma route_one_total shift_oob r d :
  router_wf r → IPv4Datagram.wf d →
  ∃ r', route_one_datagram shift_oob r d = Ok r' ∧ router_wf r' ∧ _routes r' = _routes r ∧
    Forall2 sent (_interfaces r) (_interfaces r').
Proof.
  intros Hr Hd. assert (Forall2 sent (_interfaces r) (_interfaces r)) by (by apply Forall2_same).
  unfold route_one_datagram. destruct (ttl (header d) <=? 1); [by exists r|].
  destruct (select _ _ _) as [[] x] eqn:Es; [|by exists r]. apply select_elem in Es.
  pose proof (decrement_ttl_wf d Hd) as Hd'.
  assert (route_wf (slen (_interfaces r)) x) as [Hn Hhop] by (by apply (proj1 (list.Forall_forall _ _) (wf_routes r Hr))).
  destruct (next_hop x) as [a|].
  - destruct (Hhop a eq_refl) as (ip & ? & ?). by apply (send_on_total r _ _ a ip).
  - destruct (ipv4_numeric_roundtrip (dst (header (decrement_ttl d)))) as (a & -> & Ha); [apply Hd'|].
    cbn [mbind result_bind]. apply (send_on_total r _ _ a _ Hr Hn Hd' Ha). apply Hd'.
Qed.

(** Frames are only added. *)
Definition grows (i i' : AsyncNetworkInterface) : Prop := frames_out (base i) `prefix_of` frames_out (base i').

#[export] Instance grows_preorder : PreOrder grows.
Proof. unfold grows. split; [intros i; reflexivity|intros i j k; apply transitivity]. Qed.

Lemma sent_queues l l' : Forall2 sent l l' → _datagrams_out <$> l' = _datagrams_out <$> l.
Proof. intros H. induction H as [|i i' l l' [Hq _] _ IH]; [done|]. rewrite !fmap_cons. by f_equal. Qed.

Lemma sent_grows l l' : Forall2 sent l l' → Forall2 grows l l'.
Proof. intros H. eapply Forall2_impl; [|exact H]. by intros ?? []. Qed.

(** What one step of the loops keeps. *)
Record progress (r r' : Router) : Prop := {
  progress_wf : router_wf r';
  progress_routes : _routes r' = _routes r;
  progress_grows : Forall2 grows (_interfaces r) (_interfaces r')
}.

Definition queues (r : Router) : list (list IPv4Datagram) := _datagrams_out <$> _interfaces r.

Lemma progress_trans r1 r2 r3 : progress r1 r2 → progress r2 r3 → progress r1 r3.
Proof. intros [] []. split; [done|congruence|by etrans]. Qed.

Lemma set_datagrams_out_progress r n q :
  router_wf r → Forall IPv4Datagram.wf q → is_Some (_interfaces r !! n) →
  progress r (set_datagrams_out r n q) ∧ queues (set_datagrams_out r n q) = <[n := q]> (queues r).
Proof.
  intros [Hr Hi] Hq [i Hl]. unfold set_datagrams_out, queues. rewrite Hl. split; [split|].
  - split; [unfold slen, set_interface; cbn [_interfaces _routes]; by rewrite length_insert|].
    apply Forall_insert; [done|]. split; [|done]. by apply (proj1 (Forall_lookup _ _) Hi _ _ Hl).
  - done.
  - cbn [_interfaces set_interface]. rewrite <- (list_insert_id (_interfaces r) _ _ Hl) at 1.
    apply Forall2_insert; [apply Forall2_same, _|by unfold grows].
  - cbn [_interfaces set_interface]. by rewrite list_fmap_insert.
Qed.

Lemma queues_lookup r n q : queues r !! n = Some q ↔ ∃ i, _interfaces r !! n = Some i ∧ _datagrams_out i = q.
Proof.
  unfold queues. rewrite list_lookup_fmap, fmap_Some. split; intros (i & ? & ?); exists i; done.
Qed.

Lemma route_queue_total shift_oob n queue : ∀ r,
  router_wf r → queues r !! n = Some queue →
  ∃ r', route_queue shift_oob r n queue = Ok r' ∧ progress r r' ∧ queues r' = <[n := []]> (queues r).
Proof.
  induction queue as [|d queue IH]; intros r Hr Hq; cbn [route_queue].
  - exists r. split; [done|]. split; [split; [done|done|apply Forall2_same, _]|].
    by rewrite list_insert_id.
  - assert (Forall IPv4Datagram.wf (d :: queue)) as Hd.
    { apply queues_lookup in Hq as (i & Hl & <-). by apply (proj1 (Forall_lookup _ _) (wf_interfaces r Hr) _ _ Hl). }
    inv Hd. destruct (route_one_total shift_oob r d) as (r1 & -> & Hr1 & Hrt & Hsent); [done|done|].
    cbn [mbind result_bind].
    assert (progress r r1) as Hp1 by (split; [done|done|by apply sent_grows]).
    apply sent_queues in Hsent. fold (queues r1) (queues r) in Hsent. rewrite <- Hsent in Hq.
    destruct (set_datagrams_out_progress r1 n queue) as [Hp2 Hq2]; [done|done| |].
    { apply queues_lookup in Hq as (i & Hl & _). by exists i. }
    destruct (IH (set_datagrams_out r1 n queue)) as (r' & -> & Hp3 & Hq3); [apply Hp2| |].
    { rewrite Hq2, list_lookup_insert_eq; [done|]. by eapply lookup_lt_Some. }
    exists r'. split; [done|]. split; [by eapply progress_trans; [|eapply progress_trans]|].
    by rewrite Hq3, Hq2, list_insert_insert_eq, Hsent.
Qed.

Lemma route_from_total shift_oob fuel : ∀ r n,
  router_wf r → (n + fuel)%nat = length (queues r) →
  ∃ r', route_from shift_oob r n fuel = Ok r' ∧ progress r r' ∧
    queues r' = take n (queues r) ++ replicate fuel [].
Proof.
  induction fuel as [|fuel IH]; intros r n Hr Hlen; cbn [route_from].
  - exists r. split; [done|]. split; [split; [done|done|apply Forall2_same, _]|].
    rewrite take_ge by lia. by rewrite app_nil_r.
  - destruct (lookup_lt_is_Some_2 (queues r) n) as [q Hq]; [lia|].
    pose proof Hq as (i & -> & ->)%queues_lookup.
    destruct (route_queue_total shift_oob n q r Hr Hq) as (r1 & -> & Hp1 & Hq1). cbn [mbind result_bind].
    destruct (IH r1 (S n)) as (r' & -> & Hp2 & Hq2); [apply Hp1|rewrite Hq1, length_insert; lia|].
    exists r'. split; [done|]. split; [by eapply progress_trans|]. rewrite Hq2, Hq1.
    rewrite (take_S_r _ n []), take_insert_ge, <- app_assoc; [done|lia|].
    apply list_lookup_insert_eq. lia.
Qed.

(** What sending keeps of an interface, routing keeps of all of them. *)
Section Keeps.
Context (shift_oob : Z → Z → Z) (P : NetworkInterface → Prop).
Hypothesis send_keeps : ∀ n d a ip n',
  P n → IPv4Datagram.wf d → ipv4_numeric a = Ok ip → is_u32 ip → send_datagram n d a = Ok n' → P n'.

Record all_keep (r : Router) : Prop := {
  keep_interfaces : Forall (λ i, P (base i) ∧ Forall IPv4Datagram.wf (_datagrams_out i)) (_interfaces r);
  keep_routes : Forall (λ x, ∀ a, next_hop x = Some a → ∃ ip, ipv4_numeric a = Ok ip ∧ is_u32 ip) (_routes r)
}.

Lemma send_on_keeps r n d a ip r' :
  all_keep r → IPv4Datagram.wf d → ipv4_numeric a = Ok ip → is_u32 ip → send_on r n d a = Ok r' → all_keep r'.
Proof using All.
  intros [Hr Ht] Hd Ha Hip. unfold send_on, interface. destruct (_interfaces r !! Z.to_nat n) as [i|] eqn:Hl; [|done].
  cbn [mbind result_bind]. intros (b & Hb & [= <-])%result_bind_ok.
  destruct (proj1 (Forall_lookup _ _) Hr _ _ Hl) as [Hp Hq]. split; [|done].
  apply Forall_insert; [done|]. split; [|done]. by apply (send_keeps (base i) d a ip b).
Qed.

Lemma route_one_keeps r d r' :
  all_keep r → IPv4Datagram.wf d → route_one_datagram shift_oob r d = Ok r' → all_keep r'.
Proof using All.
  intros Hr Hd. unfold route_one_datagram. destruct (ttl _ <=? 1); [by intros [= <-]|].
  pose proof (decrement_ttl_wf d Hd) as Hd'.
  destruct (select _ _ _) as [[] x] eqn:Es; [|by intros [= <-]]. apply select_elem in Es.
  pose proof (proj1 (list.Forall_forall _ _) (keep_routes r Hr) x Es) as Hhop. cbn beta in Hhop.
  destruct (next_hop x) as [a|].
  - destruct (Hhop a eq_refl) as (ip & ? & ?). by apply (send_on_keeps r _ _ a ip).
  - destruct (ipv4_numeric_roundtrip (dst (header (decrement_ttl d)))) as (a & -> & Ha); [apply Hd'|].
    cbn [mbind result_bind]. apply (send_on_keeps r _ _ a (dst (header (decrement_ttl d)))); try done. apply Hd'.
Qed.

Lemma route_queue_keeps n queue : ∀ r r',
  all_keep r → Forall IPv4Datagram.wf queue → route_queue shift_oob r n queue = Ok r' → all_keep r'.
Proof using All.
  induction queue as [|d queue IH]; intros r r' Hr Hq; cbn [route_queue]; [by intros [= <-]|].
  apply Forall_cons_1 in Hq as [Hd Hq]. intros (r1 & H1 & H2)%result_bind_ok. revert H2. apply IH; [|done].
  destruct (route_one_keeps r d r1 Hr Hd H1) as [Hr1 Ht1]. unfold set_datagrams_out.
  destruct (_interfaces r1 !! n) as [i|] eqn:Hl; [|done]. split; [|done]. apply Forall_insert; [done|].
  split; [|done]. by apply (proj1 (Forall_lookup _ _) Hr1 _ _ Hl).
Qed.

Lemma route_from_keeps fuel : ∀ r n r', all_keep r → route_from shift_oob r n fuel = Ok r' → all_keep r'.
Proof using All.
  induction fuel as [|fuel IH]; intros r n r' Hr; cbn [route_from]; [by intros [= <-]|].
  destruct (_interfaces r !! n) as [i|] eqn:Hl; [|by intros [= <-]].
  intros (r1 & H1 & H2)%result_bind_ok. revert H2. apply IH. revert H1. apply route_queue_keeps; [done|].
  by apply (proj1 (Forall_lookup _ _) (keep_interfaces r Hr) _ _ Hl).
Qed.

End Keeps.

(** Routing when only interface [k] has a datagram waiting. *)
Lemma route_queue_one shift_oob r k d r1 :
  route_one_datagram shift_oob r d = Ok r1 →
  route_queue shift_oob r k [d] = Ok (set_datagrams_out r1 k []).
Proof. intros H. cbn [route_queue]. by rewrite H. Qed.

Lemma route_from_empty shift_oob fuel : ∀ r n,
  (∀ j q, (n <= j)%nat → queues r !! j = Some q → q = []) → route_from shift_oob r n fuel = Ok r.
Proof.
  induction fuel as [|fuel IH]; intros r n H; cbn [route_from]; [done|].
  destruct (_interfaces r !! n) as [i|] eqn:Hi; [|done].
  rewrite (H n (_datagrams_out i)); [|lia|apply queues_lookup; by exists i]. cbn [route_queue mbind result_bind].
  apply IH. intros j q Hj. apply H. lia.
Qed.

Lemma route_from_single shift_oob fuel k d r1 : ∀ r n,
  (n <= k < n + fuel)%nat → queues r !! k = Some [d] →
  (∀ j q, j ≠ k → queues r !! j = Some q → q = []) →
  route_one_datagram shift_oob r d = Ok r1 → queues r1 = queues r →
  route_from shift_oob r n fuel = Ok (set_datagrams_out r1 k []).
Proof.
  induction fuel as [|fuel IH]; intros r n Hn Hk Hj H1 Hq1; [lia|]. cbn [route_from].
  destruct (decide (n = k)) as [->|Hne].
  - pose proof Hk as (i & -> & ->)%queues_lookup. rewrite (route_queue_one _ _ _ _ _ H1).
    cbn [mbind result_bind]. apply route_from_empty. intros j q Hle Hl. apply (Hj j); [lia|].
    rewrite <- Hq1. unfold set_datagrams_out in Hl. destruct (_interfaces r1 !! k); [|done].
    unfold queues in *. cbn [_interfaces set_interface] in Hl. rewrite list_fmap_insert in Hl.
    by rewrite list_lookup_insert_ne in Hl by lia.
  - destruct (lookup_lt_is_Some_2 (queues r) n) as [q Hq]; [apply lookup_lt_Some in Hk; lia|].
    rewrite (Hj n q Hne Hq) in Hq. apply queues_lookup in Hq as (i & -> & ->).
    cbn [route_queue mbind result_bind]. apply IH; try done. lia.
Qed.

(** A frame that arrives over the wire at an interface of the router. *)
Definition async_deliver (i : AsyncNetworkInterface) (f : EthernetFrame) : result AsyncNetworkInterface :=
  '(f', res) ← EthernetFrame.parse EthernetFrame_default (EthernetFrame.on_wire f);
  if bool_decide (res = NoError) then async_recv_frame i f' else Ok i.

Lemma async_deliver_eq i f n d :
  deliver (base i) f = Ok (n, Some d) → async_deliver i f = Ok (mkAsync n (_datagrams_out i ++ [d])).
Proof.
  unfold deliver, async_deliver, async_recv_frame. destruct (EthernetFrame.parse _ _) as [[f' res]|e]; [|done].
  cbn [mbind result_bind]. destruct (bool_decide _); [|done]. intros H. by rewrite H.
Qed.

Lemma async_deliver_ip i m d l :
  interface_wf i → NetworkInterface.wf m → IPv4Datagram.wf d → IPv4Datagram.serialize d = Ok l →
  ∃ d', async_deliver i (ip_frame m (_ethernet_address (base i)) l) =
      Ok (mkAsync (base i) (_datagrams_out i ++ [d'])) ∧
    IPv4Datagram.wf d' ∧ (∃ c, header d' = with_cksum (header d) c) ∧
    concatenate (payload d') = concatenate (payload d).
Proof.
  intros [Hi _] Hm Hd Hl. destruct (deliver_ip (base i) m d l Hi Hm Hd Hl) as (pl & Hdel & _ & Hp).
  eexists. split; [by apply async_deliver_eq|]. unfold header, payload in *.
  cbn [IPv4Datagram._header IPv4Datagram._payload]. rewrite concatenate_one, Hp. split; [|by eauto].
  destruct Hd as [Hwf Hlen]. split; cbn [IPv4Datagram._header IPv4Datagram._payload].
  - apply ipv4_with_cksum_wf; [done|apply u16_range].
  - by rewrite concatenate_one, Hp.
Qed.

(** The checksum field of the datagram does not matter for what is sent. *)
Lemma forwarded_bytes d d' :
  IPv4Datagram.wf d → IPv4Datagram.wf d' → (∃ c, header d' = with_cksum (header d) c) →
  concatenate (payload d') = concatenate (payload d) →
  ∃ l l', IPv4Datagram.serialize (decrement_ttl d) = Ok l ∧ IPv4Datagram.serialize (decrement_ttl d') = Ok l' ∧
    concatenate l' = concatenate l.
Proof.
  intros Hd Hd' [c Hh] Hp. rewrite !serialize_datagram_eq by (by apply decrement_ttl_wf).
  do 2 eexists. split; [done|]. split; [done|]. rewrite !concatenate_cons, !str_of.
  unfold decrement_ttl. cbn [IPv4Datagram._payload IPv4Datagram._header]. rewrite Hp, Hh. done.
Qed.

(** Sending to a next hop whose address is known. *)
Lemma send_on_cached r n i d a ip c l :
  _interfaces r !! Z.to_nat n = Some i → ipv4_numeric a = Ok ip →
  _cached_ethernet_addresses (base i) !! ip = Some c → IPv4Datagram.serialize d = Ok l →
  send_on r n d a = Ok (set_interface r (Z.to_nat n)
    (mkAsync (set_frames_out (base i) (frames_out (base i) ++ [ip_frame (base i) (address c) l]))
       (_datagrams_out i))).
Proof.
  intros Hi Ha Hc Hl. unfold send_on, interface. rewrite Hi. cbn [mbind result_bind].
  unfold send_datagram. rewrite Ha. cbn [mbind result_bind]. rewrite Hc, (send_to_eq _ _ _ _ Hl). done.
Qed.

Lemma add_rules_interfaces shift_oob r rules : _interfaces (add_rules shift_oob r rules) = _interfaces r.
Proof. unfold add_rules. revert r. induction rules as [|u rules IH]; intros r; [done|]. simpl. by rewrite IH. Qed.

Lemma route_one_best shift_oob r rules d u :
  Forall rule_ok rules → _routes r = map (stored shift_oob) rules → is_u32 (dst (header d)) →
  1 < ttl (header d) → best rules (dst (header d)) u →
  route_one_datagram shift_oob r d =
    match hop u with
    | Some a => send_on r (port u) (decrement_ttl d) a
    | None => a ← from_ipv4_numeric (dst (header d)); send_on r (port u) (decrement_ttl d) a
    end.
Proof.
  intros Hok Hr Hd Ht Hbest. unfold route_one_datagram. rewrite (proj2 (Z.leb_gt _ _) Ht).
  change (dst (header (decrement_ttl d))) with (dst (header d)). rewrite Hr.
  destruct (select_spec shift_oob rules (dst (header d)) Hok Hd) as [[_ Hnone]|(w & -> & Hw)].
  - destruct Hbest as (j & Hj & Hc & _). destruct (Hnone u); [by eapply list_elem_of_lookup_2|done].
  - rewrite (best_unique _ _ _ _ Hw Hbest). done.
Qed.

Lemma route_one_cached shift_oob r rules d u ip c o l :
  Forall rule_ok rules → _routes r = map (stored shift_oob) rules → IPv4Datagram.wf d →
  1 < ttl (header d) → best rules (dst (header d)) u →
  match hop u with Some a => ipv4_numeric a = Ok ip | None => ip = dst (header d) end →
  _interfaces r !! Z.to_nat (port u) = Some o → _cached_ethernet_addresses (base o) !! ip = Some c →
  IPv4Datagram.serialize (decrement_ttl d) = Ok l →
  route_one_datagram shift_oob r d =
    Ok (set_interface r (Z.to_nat (port u))
      (mkAsync (set_frames_out (base o) (frames_out (base o) ++ [ip_frame (base o) (address c) l]))
         (_datagrams_out o))).
Proof.
  intros Hok Hr Hd Ht Hbest Hhop Ho Hc Hl. assert (is_u32 (dst (header d))) as Hdst by apply Hd.
  rewrite (route_one_best shift_oob r rules d u) by done. destruct (hop u) as [a|].
  - by apply (send_on_cached r _ o _ a ip).
  - destruct (ipv4_numeric_roundtrip _ Hdst) as (a & -> & Ha). cbn [mbind result_bind].
    apply (send_on_cached r _ o _ a ip); [done|by rewrite Hhop|done|done].
Qed.

(** One interface has one datagram waiting. *)
Lemma waiting_lookup (ifs : list AsyncNetworkInterface) (k : nat) i d (p : nat) o :
  ifs !! k = Some i → ifs !! p = Some o →
  ∃ q, <[k := mkAsync (base i) [d]]> ifs !! p = Some (mkAsync (base o) q).
Proof.
  intros Hk Hp. destruct (decide (k = p)) as [->|Hne].
  - rewrite list_lookup_insert_eq by (by eapply lookup_lt_Some). simplify_eq. by eexists.
  - rewrite list_lookup_insert_ne by done. exists (_datagrams_out o). rewrite Hp. by destruct o.
Qed.

Lemma sent_back (ifs : list AsyncNetworkInterface) (k : nat) i d (p : nat) o q b :
  ifs !! k = Some i → _datagrams_out i = [] → ifs !! p = Some o → _datagrams_out o = [] →
  <[k := mkAsync (base i) [d]]> ifs !! p = Some (mkAsync (base o) q) →
  ∃ j, <[p := mkAsync b q]> (<[k := mkAsync (base i) [d]]> ifs) !! k = Some j ∧
    <[k := mkAsync (base j) []]> (<[p := mkAsync b q]> (<[k := mkAsync (base i) [d]]> ifs)) =
    <[p := mkAsync b []]> ifs.
Proof.
  intros Hk Hqi Hp Hqo Hw. assert (k < length ifs)%nat by (by eapply lookup_lt_Some).
  destruct (decide (k = p)) as [->|Hne].
  - exists (mkAsync b q). rewrite list_lookup_insert_eq by (by rewrite length_insert).
    by rewrite !list_insert_insert_eq.
  - exists (mkAsync (base i) [d]). rewrite list_lookup_insert_ne, list_lookup_insert_eq by done. split; [done|].
    rewrite list_lookup_insert_ne in Hw by done. assert (q = []) as -> by (rewrite Hp in Hw; injection Hw as Hw; by rewrite Hw in Hqo).
    rewrite list_insert_insert_ne by done. rewrite list_insert_insert_eq.
    rewrite (list_insert_id ifs k); [done|]. rewrite Hk. destruct i; simpl in *; congruence.
Qed.

Lemma route_single_sent shift_oob r (k : nat) i d (p : nat) b q o :
  Forall (λ j, _datagrams_out j = []) (_interfaces r) →
  _interfaces r !! k = Some i → _interfaces r !! p = Some o →
  <[k := mkAsync (base i) [d]]> (_interfaces r) !! p = Some (mkAsync (base o) q) →
  let r0 := set_interface r k (mkAsync (base i) [d]) in
  route_one_datagram shift_oob r0 d = Ok (set_interface r0 p (mkAsync b q)) →
  ∃ r', route shift_oob r0 = Ok r' ∧ _interfaces r' = <[p := mkAsync b []]> (_interfaces r).
Proof.
  intros Hq Hk Hp Hw r0 H1. assert (k < length (_interfaces r))%nat by (by eapply lookup_lt_Some).
  rewrite Forall_lookup in Hq.
  assert (queues r0 = <[k := [d]]> (queues r)) as Hq0
    by (unfold queues, r0; cbn [_interfaces set_interface]; by rewrite list_fmap_insert).
  exists (set_datagrams_out (set_interface r0 p (mkAsync b q)) k []). split.
  - apply route_from_single with d; [| | |done|].
    + unfold r0. cbn [_interfaces set_interface]. rewrite length_insert. lia.
    + rewrite Hq0, list_lookup_insert_eq; [done|]. unfold queues. by rewrite length_fmap.
    + intros j q' Hj. rewrite Hq0, list_lookup_insert_ne by done. intros (x & Hx & <-)%queues_lookup. by apply (Hq j).
    + unfold queues. cbn [_interfaces set_interface]. rewrite list_fmap_insert. apply list_insert_id.
      apply queues_lookup. by exists (mkAsync (base o) q).
  - destruct (sent_back (_interfaces r) k i d p o q b) as (j & Hj & Hfin); try done; [by eapply Hq|by eapply Hq|].
    unfold set_datagrams_out, r0. cbn [_interfaces set_interface]. rewrite Hj. exact Hfin.
Qed.

(** ** Properties *)

(** C18: longest-prefix routing.  For a router whose rules were added one by one,
    a datagram with no hops left is dropped; otherwise either no rule covers
    its destination and nothing is sent, or it is sent, with one hop less, on
    the interface of the last of the longest rules that cover the destination,
    to that rule's next hop or, if it has none, to the destination itself. *)
Theorem route_longest_prefix (shift_oob : Z → Z → Z) (ifs : list AsyncNetworkInterface) (rules : list Rule)
    (d : IPv4Datagram) :
  Forall rule_ok rules → is_u32 (dst (header d)) → is_u8 (ttl (header d)) →
  let r := add_rules shift_oob (mkRouter [] ifs) rules in
  (ttl (header d) <= 1 → route_one_datagram shift_oob r d = Ok r) ∧
  (1 < ttl (header d) →
   ((∀ v, v ∈ rules → ¬ covers v (dst (header d))) ∧ route_one_datagram shift_oob r d = Ok r) ∨
   (∃ u a, best rules (dst (header d)) u ∧
      (hop u = Some a ∨ (hop u = None ∧ ipv4_numeric a = Ok (dst (header d)))) ∧
      route_one_datagram shift_oob r d =
        send_on r (port u) (mkIPv4Datagram (with_ttl (header d) (ttl (header d) - 1)) (payload d)) a)).
Proof.
  intros Hok Hd Ht r. unfold route_one_datagram. split; [intros Hle; by rewrite (proj2 (Z.leb_le _ _) Hle)|].
  intros Hlt. rewrite (proj2 (Z.leb_gt _ _) Hlt). change (dst (header (decrement_ttl d))) with (dst (header d)).
  assert (_routes r = map (stored shift_oob) rules) as Hr by (by apply (add_rules_routes shift_oob (mkRouter [] ifs))).
  rewrite Hr. unfold decrement_ttl. rewrite u8_small by (unfold_width; lia).
  destruct (select_spec shift_oob rules (dst (header d)) Hok Hd) as [[-> Hnone]|(u & -> & Hbest)]; [by left|].
  right. cbn [stored next_hop interface_num]. destruct (hop u) as [a|] eqn:Eh.
  - exists u, a. rewrite Eh. split_and!; [done|by left|done].
  - destruct (ipv4_numeric_roundtrip _ Hd) as (a & -> & Ha). exists u, a. rewrite Eh.
    split_and!; [done|by right|done].
Qed.

Definition sample_rules : list Rule :=
  [mkRule 0 0 (Some (sample_hop 0x0a000009)) 0; mkRule 0x0a010000 16 None 1; mkRule 0x0a000000 8 None 0].

Lemma sample_rules_ok : Forall rule_ok sample_rules.
Proof. repeat (apply Forall_cons_2; [concrete|]). apply Forall_nil_2. Qed.

Definition sample_ports : list AsyncNetworkInterface :=
  [mkAsync (sample_interface 1 0x0a000001) []; mkAsync (sample_interface 2 0x0a010001) []].

Lemma route_longest_prefix_witness :
  let r := add_rules (λ _ _, 0) (mkRouter [] sample_ports) sample_rules in
  ∃ u a, best sample_rules 0x0a000002 u ∧
    (hop u = Some a ∨ (hop u = None ∧ ipv4_numeric a = Ok 0x0a000002)) ∧
    route_one_datagram (λ _ _, 0) r sample_datagram =
      send_on r (port u) (mkIPv4Datagram (with_ttl (header sample_datagram) 127) (payload sample_datagram)) a.
Proof.
  destruct (route_longest_prefix (λ _ _, 0) sample_ports sample_rules sample_datagram) as [_ H].
  - apply sample_rules_ok.
  - concrete.
  - concrete.
  - destruct H as [[H _]|H]; [concrete| |exact H].
    destruct (H (mkRule 0 0 (Some (sample_hop 0x0a000009)) 0)); [left|]. intros i Hi. simpl in Hi. lia.
Defined.

(** Draining.  If the routes name existing interfaces and IPv4 next hops and
    the waiting datagrams are well formed, [route] returns: it raises nothing,
    every queue is empty afterwards, the routes are unchanged, and frames were
    only added to the interfaces. *)
Theorem route_drains (shift_oob : Z → Z → Z) (r : Router) :
  router_wf r →
  ∃ r', route shift_oob r = Ok r' ∧
    Forall (λ i, datagrams_out i = []) (_interfaces r') ∧ _routes r' = _routes r ∧
    Forall2 grows (_interfaces r) (_interfaces r') ∧ router_wf r'.
Proof.
  intros Hr. destruct (route_from_total shift_oob (length (_interfaces r)) r 0 Hr) as (r' & H & [] & Hq).
  { unfold queues. by rewrite length_fmap. }
  exists r'. split; [done|]. split; [|done]. apply Forall_lookup. intros j i Hi.
  assert (queues r' !! j = Some (_datagrams_out i)) as Hl by (apply queues_lookup; by exists i).
  rewrite Hq, take_0 in Hl. by apply lookup_replicate in Hl as [? _].
Qed.

Definition sample_router : Router :=
  mkRouter [mkRoute 0 0 None 1] [mkAsync (sample_interface 1 0x0a000001) [sample_datagram];
                                 mkAsync (sample_interface 2 0x0a010001) []].

Lemma route_drains_witness :
  ∃ r', route (λ _ _, 0) sample_router = Ok r' ∧ Forall (λ i, datagrams_out i = []) (_interfaces r').
Proof.
  destruct (route_drains (λ _ _, 0) sample_router) as (r' & ? & ? & _).
  - split; [apply Forall_singleton; split; [concrete|done]|].
    apply Forall_cons_2; [|apply Forall_singleton]; (split; [apply sample_interface_wf; concrete|]).
    + apply Forall_singleton, sample_datagram_wf.
    + apply Forall_nil_2.
  - by exists r'.
Defined.

(** C15: forwarding, through all layers.  The bytes of an Ethernet frame with a
    datagram arrive at an idle router.  If the best rule for the destination
    leads to a next hop whose Ethernet address is known, then after [route] the
    rule's interface has one more frame, for that address, whose payload is the
    datagram with one hop less and a fresh header checksum, and nothing else
    has been sent. *)
Theorem router_forwards (shift_oob : Z → Z → Z) (rules : list Rule) (ifs : list AsyncNetworkInterface)
    (k : nat) (i o : AsyncNetworkInterface) (m : NetworkInterface) (d : IPv4Datagram) (l : BufferList)
    (u : Rule) (ip : Z) (c : CachedEthernetAddress) :
  Forall rule_ok rules → Forall interface_wf ifs → Forall (λ j, _datagrams_out j = []) ifs →
  ifs !! k = Some i → NetworkInterface.wf m → IPv4Datagram.wf d → IPv4Datagram.serialize d = Ok l →
  1 < ttl (header d) → best rules (dst (header d)) u →
  match hop u with Some a => ipv4_numeric a = Ok ip | None => ip = dst (header d) end →
  ifs !! Z.to_nat (port u) = Some o → _cached_ethernet_addresses (base o) !! ip = Some c →
  let r := add_rules shift_oob (mkRouter [] ifs) rules in
  ∃ i' r' frame l',
    async_deliver i (ip_frame m (_ethernet_address (base i)) l) = Ok i' ∧
    route shift_oob (set_interface r k i') = Ok r' ∧
    IPv4Datagram.serialize (mkIPv4Datagram (with_ttl (header d) (ttl (header d) - 1)) (payload d)) = Ok l' ∧
    EthernetFrame.header frame =
      EthernetHeader.mkEthernetHeader (address c) (_ethernet_address (base o)) EthernetHeader.TYPE_IPv4 ∧
    concatenate (EthernetFrame.payload frame) = concatenate l' ∧
    _interfaces r' =
      <[Z.to_nat (port u) := mkAsync (set_frames_out (base o) (frames_out (base o) ++ [frame])) []]> ifs.
Proof.
  intros Hok Hifs Hq Hk Hm Hd Hl Ht Hbest Hhop Ho Hc r. rewrite <- (decrement_ttl_eq d Hd Ht).
  assert (_datagrams_out i = []) as Hqi by (by apply (proj1 (Forall_lookup _ _) Hq _ _ Hk)).
  assert (interface_wf i) as Hi by (by apply (proj1 (Forall_lookup _ _) Hifs _ _ Hk)).
  destruct (async_deliver_ip i m d l Hi Hm Hd Hl) as (d' & -> & Hd' & Hh & Hp).
  destruct (forwarded_bytes d d' Hd Hd' Hh Hp) as (l1 & l' & Hl1 & Hl' & Hll). rewrite Hqi. cbn [app].
  destruct Hh as [ck Hh]. assert (_interfaces r = ifs) as Hr by apply add_rules_interfaces.
  destruct (waiting_lookup ifs k i d' (Z.to_nat (port u)) o Hk Ho) as (q & HR).
  assert (_routes r = map (stored shift_oob) rules) as Hroutes by (by apply (add_rules_routes shift_oob (mkRouter [] ifs))).
  pose proof (route_one_cached shift_oob (set_interface r k (mkAsync (base i) [d'])) rules d' u ip c
    (mkAsync (base o) q) l' Hok Hroutes Hd') as H1.
  rewrite Hh in H1. cbn [_interfaces set_interface] in H1. rewrite Hr in H1.
  specialize (H1 Ht Hbest Hhop HR Hc Hl').
  destruct (route_single_sent shift_oob r k i d' (Z.to_nat (port u))
    (set_frames_out (base o) (frames_out (base o) ++ [ip_frame (base o) (address c) l'])) q o) as (r' & Hr' & Hifs');
    [by rewrite Hr|by rewrite Hr|by rewrite Hr|by rewrite Hr|exact H1|].
  exists (mkAsync (base i) [d']), r', (ip_frame (base o) (address c) l'), l1. by rewrite Hifs', Hr.
Qed.

(** Two interfaces; the second knows the address of 10.0.0.2. *)
Definition sample_ifs : list AsyncNetworkInterface :=
  [mkAsync (sample_interface 1 0x0a000001) [];
   mkAsync (set_cache (sample_interface 2 0x0a010001) {[ 0x0a000002 := mkCached [2; 0; 0; 0; 0; 7] 0 ]}) []].

Definition sample_wire : BufferList :=
  match IPv4Datagram.serialize sample_datagram with Ok l => l | Throw _ => [] end.

Definition direct_rule : Rule := mkRule 0x0a000000 8 None 1.

Lemma router_forwards_witness :
  ∃ i' r' l',
    async_deliver (mkAsync (sample_interface 1 0x0a000001) [])
      (ip_frame (sample_interface 5 7) [2; 0; 0; 0; 0; 1] sample_wire) = Ok i' ∧
    route (λ _ _, 0) (set_interface (add_rules (λ _ _, 0) (mkRouter [] sample_ifs) [direct_rule]) 0 i') = Ok r' ∧
    IPv4Datagram.serialize (mkIPv4Datagram (with_ttl (header sample_datagram) 127) (payload sample_datagram)) = Ok l'.
Proof.
  destruct (router_forwards (λ _ _, 0) [direct_rule] sample_ifs 0 (mkAsync (sample_interface 1 0x0a000001) [])
    (mkAsync (set_cache (sample_interface 2 0x0a010001) {[ 0x0a000002 := mkCached [2; 0; 0; 0; 0; 7] 0 ]}) [])
    (sample_interface 5 7) sample_datagram sample_wire direct_rule 0x0a000002 (mkCached [2; 0; 0; 0; 0; 7] 0))
    as (i' & r' & frame & l' & ? & ? & ? & _).
  - apply Forall_singleton. concrete.
  - apply Forall_cons_2; [|apply Forall_singleton]; (split; [|apply Forall_nil_2]).
    + apply sample_interface_wf; concrete.
    + split; [apply (sample_interface_wf 2 0x0a010001); concrete|concrete].
  - apply Forall_cons_2; [done|]. by apply Forall_singleton.
  - done.
  - apply sample_interface_wf; concrete.
  - apply sample_datagram_wf.
  - vm_compute. reflexivity.
  - concrete.
  - exists 0%nat. split; [done|]. split.
    + intros i Hi. cbn in Hi. assert (24 <= i < 32) by lia.
      assert (i = 24 ∨ i = 25 ∨ i = 26 ∨ i = 27 ∨ i = 28 ∨ i = 29 ∨ i = 30 ∨ i = 31) as Hcases by lia.
      by repeat (destruct Hcases as [->|Hcases]; [done|]); subst.
    + intros [|j] v Hv _; [|done]. injection Hv as <-. split; [|lia]. done.
  - done.
  - done.
  - vm_compute. reflexivity.
  - exists i', r', l'. split; [|split]; assumption.
Defined.

(** A datagram whose header the parser rejects stops the router.  The answer
    of [IPv4Header::parse] is not used, so twenty bytes that claim IP version 6
    and a header of no length are handed up as a datagram; forwarding it to a
    known next hop serializes it, which throws. *)
Definition bad_version_frame : EthernetFrame :=
  mkEthernetFrame (EthernetHeader.mkEthernetHeader [2; 0; 0; 0; 0; 1] [2; 0; 0; 0; 0; 9] EthernetHeader.TYPE_IPv4)
    [Buffer_of [0x60; 0; 0; 0; 0; 0; 0; 0; 64; 6; 0; 0; 1; 2; 3; 4; 10; 0; 0; 2]].

Lemma bad_version_stops_router :
  ∃ i', async_recv_frame (mkAsync (sample_interface 1 0x0a000001) []) bad_version_frame = Ok i' ∧
    route (λ _ _, 0) (set_interface (add_rules (λ _ _, 0) (mkRouter [] sample_ifs) [direct_rule]) 0 i') =
      Throw RuntimeError.
Proof. eexists. split; [vm_compute; reflexivity|]. vm_compute. reflexivity. Qed.
