(* ===== verification/FileDescriptor.v ===== *)
(** * File descriptors (libsponge/util/file_descriptor.{hh,cc}, SystemCall of util/util.cc)

    The kernel is a state [K] with the system calls that the code makes, each
    of which answers an error number or a result (the class [Kernel]).  All
    [FileDescriptor] objects for one descriptor share one [FDWrapper], so the
    wrapper is passed around and given back.  Linux reads and writes less than
    [2^31] bytes per call, so that return values fit an [int]. *)

From S2P Require Import Prelude Buffer.
From stdpp Require Import options.

Local Open Scope Z_scope.

(** ** The kernel *)

Record pollfd := mkpollfd { fd : Z; events : Z }.

(** The first argument after the state is the descriptor, where there is one.
    A socket address is its storage and its length; [sys_recvfrom] answers the
    bytes received, the length of the datagram and the sender; [sys_name]
    is getsockname or, for [true], getpeername; [sys_ioctl] is given the
    request and its argument. *)
Class Kernel (K : Type) := {
  sys_read : K → Z → Z → K * (Z + bytes);
  sys_writev : K → Z → list (bytes * Z) → K * (Z + Z);
  sys_close : K → Z → K * (Z + Z);
  sys_getfl : K → Z → K * (Z + Z);
  sys_setfl : K → Z → Z → K * (Z + Z);
  sys_poll : K → list pollfd → Z → K * (Z + (Z * list Z));
  sys_socket : K → Z → Z → K * (Z + Z);
  sys_getsockopt : K → Z → Z → K * (Z + (Z * Z));
  sys_setsockopt : K → Z → Z → Z → K * (Z + Z);
  sys_name : K → Z → bool → K * (Z + (bytes * Z));
  sys_bind : K → Z → bytes * Z → K * (Z + Z);
  sys_connect : K → Z → bytes * Z → K * (Z + Z);
  sys_listen : K → Z → Z → K * (Z + Z);
  sys_accept : K → Z → K * (Z + Z);
  sys_shutdown : K → Z → Z → K * (Z + Z);
  sys_recvfrom : K → Z → Z → K * (Z + (bytes * Z * (bytes * Z)));
  sys_sendmsg : K → Z → option (bytes * Z) → list (bytes * Z) → K * (Z + Z);
  sys_socketpair : K → Z → Z → K * (Z + (Z * Z));
  sys_open : K → bytes → Z → K * (Z + Z);
  sys_ioctl : K → Z → Z → bytes → K * (Z + Z);
  sys_clock : K → K * Z
}.

(** [SystemCall] throws if the call has failed. *)
Definition SystemCall {A} (r : Z + A) : result A :=
  match r with
  | inl errno => Throw (UnixError errno)
  | inr a => Ok a
  end.

(** ** [FDWrapper] *)

Record FDWrapper := mkFDWrapper {
  _fd : Z;
  _eof : bool;
  _closed : bool;
  _read_count : Z;
  _write_count : Z
}.

Definition FDWrapper_new (fd : Z) : result FDWrapper :=
  if fd <? 0 then Throw RuntimeError else Ok (mkFDWrapper fd false false 0 0).

Definition set_eof (w : FDWrapper) : FDWrapper :=
  mkFDWrapper (_fd w) true (_closed w) (_read_count w) (_write_count w).

Definition register_read (w : FDWrapper) : FDWrapper :=
  mkFDWrapper (_fd w) (_eof w) (_closed w) (u32 (_read_count w + 1)) (_write_count w).

Definition register_write (w : FDWrapper) : FDWrapper :=
  mkFDWrapper (_fd w) (_eof w) (_closed w) (_read_count w) (u32 (_write_count w + 1)).

Definition fd_num (w : FDWrapper) : Z := _fd w.

Definition eof (w : FDWrapper) : bool := _eof w.

Definition closed (w : FDWrapper) : bool := _closed w.

Definition read_count (w : FDWrapper) : Z := _read_count w.

Definition write_count (w : FDWrapper) : Z := _write_count w.

Section Calls.
Context {K : Type} `{Kernel K}.

Definition close (k : K) (w : FDWrapper) : result (K * FDWrapper) :=
  let '(k, r) := sys_close k (_fd w) in
  _ ← SystemCall r;
  Ok (k, mkFDWrapper (_fd w) true true (_read_count w) (_write_count w)).

(** The destructor closes the descriptor and reports nothing. *)
Definition destruct_wrapper (k : K) (w : FDWrapper) : K :=
  if _closed w then k else (sys_close k (_fd w)).1.

Definition BUFFER_SIZE : Z := 1024 * 1024.

Definition read (k : K) (w : FDWrapper) (limit : Z) : result (K * FDWrapper * bytes) :=
  let size_to_read := Z.min BUFFER_SIZE limit in
  let '(k, r) := sys_read k (fd_num w) size_to_read in
  str ← SystemCall r;
  let w := if (0 <? limit) && (slen str =? 0) then set_eof w else w in
  if size_to_read <? slen str then Throw RuntimeError
  else Ok (k, register_read w, str).

(** The loop of [write]: one round per call. *)
Fixpoint write_loop (fuel : nat) (k : K) (w : FDWrapper) (buffer : BufferViewList) (write_all : bool)
    (total_bytes_written : Z) : result (K * FDWrapper * Z) :=
  match fuel with
  | O => Throw OutOfFuel
  | S fuel =>
      let '(k, r) := sys_writev k (fd_num w) (as_iovecs buffer) in
      bytes_written ← SystemCall r;
      if (bytes_written =? 0) && negb (view_size buffer =? 0) then Throw RuntimeError
      else if view_size buffer <? bytes_written then Throw RuntimeError
      else
        let w := register_write w in
        buffer ← view_remove_prefix buffer bytes_written;
        let total_bytes_written := u64 (total_bytes_written + bytes_written) in
        if write_all && negb (view_size buffer =? 0)
        then write_loop fuel k w buffer write_all total_bytes_written
        else Ok (k, w, total_bytes_written)
  end.

(** Every round writes a byte, so the size of the buffer and one are enough fuel. *)
Definition write (k : K) (w : FDWrapper) (buffer : BufferViewList) (write_all : bool)
    : result (K * FDWrapper * Z) :=
  write_loop (S (Z.to_nat (view_size buffer))) k w buffer write_all 0.

Definition O_NONBLOCK : Z := 0x800.

Definition set_blocking (k : K) (w : FDWrapper) (blocking_state : bool) : result K :=
  let '(k, r) := sys_getfl k (fd_num w) in
  flags ← SystemCall r;
  let flags :=
    if blocking_state then Z.lxor flags (Z.land flags O_NONBLOCK) else Z.lor flags O_NONBLOCK in
  let '(k, r) := sys_setfl k (fd_num w) flags in
  _ ← SystemCall r;
  Ok k.

End Calls.

(** ** Lemmas *)

Lemma view_size_eq v : is_u64 (slen (concat v)) → view_size v = slen (concat v).
Proof.
  intros Hu. unfold view_size.
  assert (∀ acc, 0 <= acc → is_u64 (acc + slen (concat v)) →
    foldl (λ ret s, u64 (ret + slen s)) acc v = acc + slen (concat v)) as Hf; [|by apply Hf].
  clear Hu. induction v as [|s v IH]; intros acc Hacc Hu; simpl in *; [slia|].
  rewrite slen_app in *. rewrite u64_small by slia. rewrite IH; [lia|slia|]. by rewrite <- Z.add_assoc.
Qed.

Lemma view_remove_prefix_eq v n :
  0 <= n <= slen (concat v) → is_u64 (slen (concat v)) →
  ∃ v', view_remove_prefix v n = Ok v' ∧ concat v' = sdrop n (concat v).
Proof.
  revert n. induction v as [|s v IH]; intros n Hn Hu; simpl in *.
  { assert (n = 0) as -> by slia. by exists []. }
  rewrite slen_app in *. destruct (0 <? n) eqn:E.
  2: { assert (n = 0) as -> by lia. exists (s :: v). by rewrite sdrop_0. }
  destruct (n <? slen s) eqn:E2.
  - exists (sdrop n s :: v). split; [done|]. simpl. rewrite !sdrop_drop. unfold slen in *.
    by rewrite drop_app_le by lia.
  - rewrite u64_small by slia. destruct (IH (n - slen s)) as (v' & -> & Hv); [lia|slia|].
    exists v'. split; [done|]. by rewrite Hv, sdrop_app_ge by lia.
Qed.

Lemma concat_iovecs v : concat (map fst (as_iovecs v)) = concat v.
Proof. unfold as_iovecs. induction v as [|s v IH]; simpl; [done|]. by rewrite IH. Qed.

(** ** Streams on descriptors

    What read(2) and writev(2) say of a descriptor on which a stream is read or
    written; [step] is what else is known of the kernel before and after. *)

Section Streams.
Context {K : Type} `{HK : Kernel K}.

(** The other end has written [S], of which [consumed] bytes have been read; a
    read of some bytes answers none only if the other end has finished, after
    the last byte. *)
Definition source_law (n : Z) (S : K → bytes) (finished : K → bool) (consumed : K → Z) (step : K → K → Prop) : Prop :=
  ∀ k len k' data, 0 <= len → sys_read k n len = (k', inr data) →
    data = stake (slen data) (sdrop (consumed k) (S k)) ∧ consumed k' = consumed k + slen data ∧
    (data = [] → 0 < len → finished k = true ∧ consumed k = slen (S k)) ∧ step k k'.

(** The bytes that are taken are the first of those given. *)
Definition sink_law (n : Z) (output : K → bytes) (step : K → K → Prop) : Prop :=
  ∀ k iov k' m, sys_writev k n iov = (k', inr m) →
    0 <= m ∧ output k' = output k ++ stake m (concat (map fst iov)) ∧ step k k'.

Lemma read_spec n S finished consumed step k w limit k' w' data :
  source_law n S finished consumed step → fd_num w = n → 0 <= limit → read k w limit = Ok (k', w', data) →
  slen data <= limit ∧ data = stake (slen data) (sdrop (consumed k) (S k)) ∧
  consumed k' = consumed k + slen data ∧ step k k' ∧ fd_num w' = n ∧ closed w' = closed w ∧
  (eof w' = true → eof w = true ∨ (finished k = true ∧ consumed k = slen (S k) ∧ data = [])).
Proof using Type.
  intros Hlaw Hw Hl. unfold read. rewrite Hw.
  destruct (sys_read k n (Z.min BUFFER_SIZE limit)) as [k1 [e|d]] eqn:Hr; [done|].
  assert (0 < BUFFER_SIZE) by done.
  destruct (Hlaw k (Z.min BUFFER_SIZE limit) k1 d) as (Hd & Hc & He & Hs); [lia|done|].
  cbn [SystemCall mbind result_bind]. destruct (_ <? slen d) eqn:E; [done|]. intros [= <- <- <-].
  split_and!; try done; [lia|by destruct (_ && _)..|].
  destruct ((0 <? limit) && (slen d =? 0)) eqn:E2; [|by left].
  intros _. right. apply andb_true_iff in E2 as [? ?].
  assert (d = []) as -> by (apply slen_zero_nil; lia). destruct He as [? ?]; [done|lia|done].
Qed.

Lemma write_spec n output step k w b k' w' m :
  sink_law n output step → fd_num w = n → is_u64 (slen b) →
  write k w (BufferViewList_of_string b) false = Ok (k', w', m) →
  0 <= m <= slen b ∧ output k' = output k ++ stake m b ∧ step k k' ∧ w' = register_write w.
Proof using Type.
  intros Hlaw Hw Hb. unfold write. cbn [write_loop]. rewrite Hw.
  assert (concat (BufferViewList_of_string b) = b) as Hcb by apply app_nil_r.
  destruct (sys_writev k n _) as [k1 [e|m']] eqn:Hr; [done|].
  destruct (Hlaw _ _ _ _ Hr) as (Hm & Hd & Hs). rewrite concat_iovecs, Hcb in Hd.
  cbn [SystemCall mbind result_bind]. rewrite view_size_eq, Hcb by (by rewrite Hcb).
  destruct (_ && _); [done|]. destruct (slen b <? m') eqn:E; [done|].
  intros (v & _ & Hv)%result_bind_ok. cbn [andb] in Hv. apply Ok_inj in Hv as [= <- <- <-].
  rewrite Z.add_0_l, u64_small by (unfold_width; lia). split_and!; try done; lia.
Qed.

End Streams.

(** What has been written so far is the beginning of [S], and all of it once the
    writer has finished. *)
Definition promise (S now : bytes) (finished : bool) : Prop :=
  now `prefix_of` S ∧ (finished = true → now = S).

Lemma promise_all S finished : promise S S finished.
Proof. by split. Qed.

Lemma promise_read S now finished c data :
  promise S now finished → 0 <= c → data = stake (slen data) (sdrop c now) → data = stake (slen data) (sdrop c S).
Proof.
  intros [[x ->] _] Hc Hd. destruct (decide (data = [])) as [->|Hne]; [by rewrite stake_0|].
  assert (slen data <= Z.max 0 (slen now - c)) as Hl.
  { rewrite <- (slen_sdrop c now) by done. rewrite Hd, slen_stake; [lia|apply slen_nonneg]. }
  assert (0 < slen data) as Hp by (destruct data; [done|rewrite slen_cons; slia]).
  assert (sdrop c (now ++ x) = sdrop c now ++ x) as ->.
  { rewrite !sdrop_drop. unfold slen in *. by rewrite drop_app_le by lia. }
  by rewrite stake_app_le by (rewrite slen_sdrop; lia).
Qed.

Lemma promise_length S now finished : promise S now finished → slen now <= slen S.
Proof. intros [[x ->] _]. rewrite slen_app. slia. Qed.

Lemma prefix_stake (l S : bytes) : l `prefix_of` S ↔ l = stake (slen l) S.
Proof.
  split.
  - intros [x ->]. by rewrite stake_app_le, stake_all by lia.
  - intros ->. exists (sdrop (slen l) S). by rewrite stake_sdrop.
Qed.

(** The next bytes of a stream from a position, which may be past its end. *)
Definition take_from (S : bytes) (pos len : nat) : bytes := take len (drop pos S).
Definition consumed_to (S : bytes) (pos : nat) : Z := Z.of_nat (min pos (length S)).

Lemma take_from_spec S pos len :
  let data := take_from S pos len in
  data = stake (slen data) (sdrop (consumed_to S pos) S) ∧
  consumed_to S (pos + length data) = consumed_to S pos + slen data ∧
  (data = [] → (0 < len)%nat → consumed_to S pos = slen S).
Proof.
  intros data. unfold consumed_to. rewrite stake_take, sdrop_drop, Nat2Z.id.
  pose proof (length_take (drop pos S) len) as Ht. fold (take_from S pos len) data in Ht.
  rewrite length_drop in Ht. unfold slen. rewrite Nat2Z.id.
  assert (drop (pos `min` length S) S = drop pos S) as ->.
  { destruct (decide (pos <= length S)%nat); [by rewrite Nat.min_l|]. rewrite !drop_ge; [done|lia..]. }
  split_and!; [|lia|].
  - rewrite Ht. unfold data, take_from. destruct (decide (len <= length S - pos)%nat);
      [by rewrite Nat.min_l by lia|]. rewrite !take_ge; [done|rewrite length_drop; lia..].
  - intros Hnil Hlen. rewrite Hnil in Ht. simpl in Ht. lia.
Qed.

(** What writev(2) says of a descriptor in blocking mode: at least one byte is
    taken if there is any, and the bytes taken are the first of those given. *)
Class BlockingOutput (K : Type) `{Kernel K} (n : Z) := {
  output : K → bytes;
  writev_blocking k iov :
    ∃ k' m, sys_writev k n iov = (k', inr m) ∧ 0 <= m <= slen (concat (map fst iov)) ∧
      (concat (map fst iov) ≠ [] → 0 < m) ∧ output k' = output k ++ stake m (concat (map fst iov))
}.

Section Blocking.
Context {K : Type} `{Kernel K} (n : Z) `{!BlockingOutput K n}.

Lemma write_loop_all fuel : ∀ k w buffer total,
  fd_num w = n → 0 <= total → is_u64 (total + slen (concat buffer)) → slen (concat buffer) < Z.of_nat fuel →
  ∃ k' w', write_loop fuel k w buffer true total = Ok (k', w', total + slen (concat buffer)) ∧
    output k' = output k ++ concat buffer ∧ fd_num w' = n.
Proof using Type*.
  induction fuel as [|fuel IH]; intros k w buffer total Hw Ht Hu Hf; [slia|].
  cbn [write_loop]. rewrite Hw.
  destruct (writev_blocking k (as_iovecs buffer)) as (k1 & m & -> & Hm & Hpos & Hout).
  rewrite concat_iovecs in *. cbn [SystemCall mbind result_bind].
  rewrite view_size_eq by slia.
  destruct ((m =? 0) && negb (slen (concat buffer) =? 0)) eqn:E.
  { assert (concat buffer ≠ []) as Hne by (intros Hnil; rewrite Hnil, andb_false_r in E; done).
    specialize (Hpos Hne). lia. }
  destruct (slen (concat buffer) <? m) eqn:E2; [lia|].
  destruct (view_remove_prefix_eq buffer m) as (v' & -> & Hv); [lia|slia|]. cbn [mbind result_bind].
  rewrite u64_small by slia. rewrite view_size_eq by (rewrite Hv, slen_sdrop by lia; slia).
  rewrite Hv, slen_sdrop by lia. cbn [andb].
  destruct (Z.max 0 (slen (concat buffer) - m) =? 0) eqn:E3; cbn [negb].
  - exists k1, (register_write w). assert (m = slen (concat buffer)) as -> by lia.
    split; [done|]. split; [|done]. by rewrite Hout, stake_all by lia.
  - destruct (IH k1 (register_write w) v' (total + m)) as (k' & w' & -> & Ho & Hw'); [done|lia|..].
    + rewrite Hv, slen_sdrop by lia. slia.
    + rewrite Hv, slen_sdrop by lia. assert (0 < m) by (apply Hpos; intros Hnil; rewrite Hnil in E3; change (slen []) with 0 in E3; lia). lia.
    + exists k', w'. rewrite Hv, slen_sdrop by lia. split; [do 2 f_equal; lia|]. split; [|done].
      by rewrite Ho, Hout, <- app_assoc, Hv, stake_sdrop.
Qed.

End Blocking.

(** A write changes of the kernel only what writev changes, and of the wrapper
    only the count. *)
Lemma write_keeps {K R : Type} `{HK : Kernel K} (n : Z) (rest : K → R) k w buffer all k' w' m :
  (∀ k iov k' r, sys_writev k n iov = (k', r) → rest k' = rest k) → fd_num w = n →
  write k w buffer all = Ok (k', w', m) → rest k' = rest k ∧ fd_num w' = n ∧ eof w' = eof w.
Proof.
  intros Hlaw. unfold write. generalize (S (Z.to_nat (view_size buffer))), 0. intros fuel. revert k w buffer.
  induction fuel as [|fuel IH]; intros k w buffer total Hw; cbn [write_loop]; [done|]. rewrite Hw.
  destruct (sys_writev k n _) as [k1 r] eqn:Er. apply Hlaw in Er. intros (b & _ & H)%result_bind_ok. revert H.
  destruct (_ && _); [done|]. destruct (_ <? b); [done|]. intros (v & _ & H)%result_bind_ok. revert H.
  destruct (_ && _).
  - intros H. apply IH in H; [|done]. by rewrite <- Er.
  - intros H. injection H as <- <- _. done.
Qed.

(** ** Properties *)

(** C34: everything is written.  On a descriptor in blocking mode, whose kernel
    takes at least one byte per call, [write] with [write_all] returns, answers
    the size of the buffers, and the kernel has taken their bytes in order. *)
Theorem write_all_complete {K : Type} {H : Kernel K} (n : Z) {B : BlockingOutput K n} (k : K) (w : FDWrapper)
    (buffer : BufferViewList) :
  fd_num w = n → is_u64 (slen (concat buffer)) →
  ∃ k' w', write k w buffer true = Ok (k', w', slen (concat buffer)) ∧ output k' = output k ++ concat buffer.
Proof.
  intros Hw Hu. unfold write. rewrite view_size_eq by done.
  destruct (write_loop_all n (S (Z.to_nat (slen (concat buffer)))) k w buffer 0) as (k' & w' & Hl & Ho & _);
    [done|lia|done|slia|]. exists k', w'. done.
Qed.

(** A kernel with one descriptor, which takes at most two bytes per call. *)
Definition slow_kernel : Kernel bytes := {|
  sys_read k _ _ := (k, inr []);
  sys_writev k _ iov := let s := concat (map fst iov) in (k ++ stake 2 s, inr (Z.min 2 (slen s)));
  sys_close k _ := (k, inr 0);
  sys_getfl k _ := (k, inr 0);
  sys_setfl k _ _ := (k, inr 0);
  sys_poll k _ _ := (k, inr (0, []));
  sys_socket k _ _ := (k, inl 1);
  sys_getsockopt k _ _ := (k, inl 1);
  sys_setsockopt k _ _ _ := (k, inl 1);
  sys_name k _ _ := (k, inl 1);
  sys_bind k _ _ := (k, inl 1);
  sys_connect k _ _ := (k, inl 1);
  sys_listen k _ _ := (k, inl 1);
  sys_accept k _ := (k, inl 1);
  sys_shutdown k _ _ := (k, inr 0);
  sys_recvfrom k _ _ := (k, inl 1);
  sys_sendmsg k _ _ _ := (k, inl 1);
  sys_socketpair k _ _ := (k, inl 1);
  sys_open k _ _ := (k, inl 1);
  sys_ioctl k _ _ _ := (k, inl 1);
  sys_clock k := (k, 0)
|}.

Lemma slow_kernel_blocks n : @BlockingOutput bytes slow_kernel n.
Proof.
  refine {| output := (λ k : bytes, k) |}. intros k iov. cbn. do 2 eexists. split; [done|].
  pose proof (slen_nonneg (concat (map fst iov))). split; [lia|]. split.
  - intros Hne. destruct (decide (slen (concat (map fst iov)) = 0)) as [Hz|]; [|lia].
    by apply slen_zero_nil in Hz.
  - f_equal. destruct (decide (2 <= slen (concat (map fst iov)))); [f_equal; lia|].
    rewrite !stake_all by lia. done.
Defined.

Lemma write_all_complete_witness :
  ∃ k' w', @write bytes slow_kernel [9] (mkFDWrapper 4 false false 0 0) [[1; 2; 3]; [4; 5]] true = Ok (k', w', 5) ∧
    k' = [9; 1; 2; 3; 4; 5].
Proof.
  apply (@write_all_complete bytes slow_kernel 4 (slow_kernel_blocks 4) [9] (mkFDWrapper 4 false false 0 0)
           [[1; 2; 3]; [4; 5]]); concrete.
Defined.
