(* ===== verification/Tun.v ===== *)
(** * TUN and TAP devices (libsponge/util/tun.{hh,cc})

    A device is opened by name: the clone device, then an [ioctl] whose argument
    is a [struct ifreq], here the bytes of it. *)

From stdpp Require Import strings.
From S2P Require Import Prelude StdString FileDescriptor.
From stdpp Require Import options.

Local Open Scope Z_scope.

Definition O_RDWR : Z := 2.
Definition IFNAMSIZ : Z := 16.
Definition IFF_TUN : Z := 0x1.
Definition IFF_TAP : Z := 0x2.
Definition IFF_NO_PI : Z := 0x1000.
Definition TUNSETIFF : Z := 0x400454ca.
Definition SIZEOF_IFREQ : Z := 40.

Definition CLONEDEV : bytes := lit "/dev/net/tun".

(** The characters before the first NUL. *)
Fixpoint c_str (s : bytes) : bytes :=
  match s with
  | [] => []
  | c :: s => if c =? 0 then [] else c :: c_str s
  end.

(** [strncpy] of at most [n] characters into [n] zeroed bytes. *)
Definition strncpy (s : bytes) (n : Z) : bytes := sresize n (stake n (c_str s)).

(** The structure: the name, NUL-terminated, the flags (little endian), zeros. *)
Definition tun_req (devname : bytes) (is_tun : bool) : bytes :=
  let flags := Z.lor (if is_tun then IFF_TUN else IFF_TAP) IFF_NO_PI in
  sresize SIZEOF_IFREQ (strncpy devname (IFNAMSIZ - 1) ++ [0] ++ [u8 flags; Z.shiftr flags 8]).

Section Tun.
Context {K : Type} `{Kernel K}.

Definition TunTapFD_new (k : K) (devname : bytes) (is_tun : bool) : result (K * FDWrapper) :=
  let '(k, r) := sys_open k CLONEDEV O_RDWR in
  fd ← SystemCall r;
  w ← FDWrapper_new fd;
  let '(k, r) := sys_ioctl k (fd_num w) TUNSETIFF (tun_req devname is_tun) in
  _ ← SystemCall r;
  Ok (k, w).

Definition TunFD_new (k : K) (devname : bytes) : result (K * FDWrapper) := TunTapFD_new k devname true.

Definition TapFD_new (k : K) (devname : bytes) : result (K * FDWrapper) := TunTapFD_new k devname false.

End Tun.

(** ** Lemmas *)

Lemma c_str_no_nul s : Forall (λ c, c ≠ 0) (c_str s).
Proof. induction s as [|c s IH]; simpl; [done|]. case_match; constructor; [lia|done]. Qed.

Lemma c_str_id s : Forall (λ c, c ≠ 0) s → c_str s = s.
Proof. induction 1 as [|c s Hc Hs IH]; simpl; [done|]. case_match; [lia|]. by rewrite IH. Qed.

Lemma c_str_app s t : Forall (λ c, c ≠ 0) s → c_str (s ++ [0] ++ t) = s.
Proof. induction 1 as [|c s Hc Hs IH]; simpl in *; [done|]. case_match; [lia|]. by rewrite IH. Qed.

Lemma sresize_short n s : slen s <= n → sresize n s = s ++ replicate (Z.to_nat (n - slen s)) 0.
Proof. intros Hs. unfold sresize. by rewrite stake_all. Qed.

Lemma slen_zeros n : 0 <= n → slen (replicate (Z.to_nat n) 0) = n.
Proof. intros Hn. unfold slen. rewrite length_replicate. lia. Qed.

(** Whatever the name, the request has the size of the structure and its name
    field, NUL-terminated, holds the first fifteen characters. *)
Lemma tun_req_name devname is_tun :
  slen (tun_req devname is_tun) = SIZEOF_IFREQ ∧
  c_str (stake IFNAMSIZ (tun_req devname is_tun)) = stake (IFNAMSIZ - 1) (c_str devname).
Proof.
  unfold tun_req, strncpy, IFNAMSIZ. set (flags := [u8 _; _]).
  change (16 - 1) with 15. set (name := stake 15 (c_str devname)).
  assert (slen name <= 15) as Hl by (unfold name; rewrite slen_stake by done; lia).
  assert (Forall (λ c, c ≠ 0) name) as Hn by (unfold name; rewrite stake_take; apply Forall_take, c_str_no_nul).
  clearbody name. pose proof (slen_nonneg name). rewrite (sresize_short 15) by done.
  assert (slen ((name ++ replicate (Z.to_nat (15 - slen name)) 0) ++ [0] ++ flags) = 18) as H18.
  { rewrite !slen_app, slen_zeros by lia. change (slen flags) with 2. rewrite slen_one. lia. }
  rewrite sresize_short by (rewrite H18; done). split.
  - rewrite slen_app, H18. done.
  - rewrite stake_app_le by lia. rewrite app_assoc, stake_app_le.
    2: { rewrite !slen_app, slen_zeros, slen_one by lia. lia. }
    rewrite stake_all. 2: { rewrite !slen_app, slen_zeros, slen_one by lia. lia. }
    rewrite <- app_assoc. destruct (Z.to_nat (15 - slen name)) as [|n]; [by apply (c_str_app name [])|].
    by apply (c_str_app name (replicate n 0 ++ [0])).
Qed.
