(* ===== verification/EventLoop.v ===== *)
(** * The event loop (libsponge/util/eventloop.{hh,cc})

    Rules are callbacks on the state of the program.  The file descriptor of a
    rule is shared with its owner, so a rule says where in the program's state
    [W] the wrapper is found.  The kernel answers [poll]. *)

From S2P Require Import Prelude Buffer FileDescriptor.
From stdpp Require Import options.

Local Open Scope Z_scope.

Definition POLLIN : Z := 0x1.
Definition POLLOUT : Z := 0x4.
Definition POLLERR : Z := 0x8.
Definition POLLHUP : Z := 0x10.
Definition POLLNVAL : Z := 0x20.
Definition EINTR : Z := 4.

Inductive Direction := In | Out.

Definition direction_events (d : Direction) : Z := match d with In => POLLIN | Out => POLLOUT end.

Definition is_in (d : Direction) : bool := match d with In => true | Out => false end.

Inductive Result := Success | Timeout | Exit.

Section EventLoop.
Context {K W : Type} `{Kernel K}.

Record Rule := mkRule {
  rule_fd : W → FDWrapper;
  direction : Direction;
  callback : K * W → result (K * W);
  interest : W → bool;
  cancel : K * W → result (K * W)
}.

Definition service_count (r : Rule) (s : K * W) : Z :=
  match direction r with
  | In => read_count (rule_fd r s.2)
  | Out => write_count (rule_fd r s.2)
  end.

Definition add_rule (rules : list Rule) (r : Rule) : list Rule := rules ++ [r].

(** The first loop: rules that have ended are cancelled and erased. *)
Fixpoint setup (rules : list Rule) (s : K * W) : result (list Rule * list pollfd * bool * (K * W)) :=
  match rules with
  | [] => Ok ([], [], false, s)
  | r :: rules =>
      if is_in (direction r) && eof (rule_fd r s.2) then s ← cancel r s; setup rules s
      else if closed (rule_fd r s.2) then s ← cancel r s; setup rules s
      else
        let wanted := interest r s.2 in
        let p := mkpollfd (fd_num (rule_fd r s.2)) (if wanted then direction_events (direction r) else 0) in
        '(rules, pollfds, something_to_poll, s) ← setup rules s;
        Ok (r :: rules, p :: pollfds, wanted || something_to_poll, s)
  end.

(** [revents & mask] as a condition. *)
Definition has (revents mask : Z) : bool := negb (Z.land revents mask =? 0).

(** A rule whose descriptor is ready. *)
Definition service (r : Rule) (s : K * W) : result (K * W) :=
  let count_before := service_count r s in
  s ← callback r s;
  if (count_before =? service_count r s) && interest r s.2 then Throw RuntimeError else Ok s.

(** The second loop; the three lists go in step. *)
Fixpoint dispatch (rules : list Rule) (pollfds : list pollfd) (revents : list Z) (s : K * W)
    : result (list Rule * (K * W)) :=
  match rules, pollfds, revents with
  | [], _, _ => Ok ([], s)
  | r :: rules, p :: pollfds, re :: revents =>
      if has re (Z.lor POLLERR POLLNVAL) then Throw RuntimeError
      else
        let poll_ready := has re (events p) in
        let poll_hup := has re POLLHUP in
        if poll_hup && negb (events p =? 0) && negb poll_ready then
          s ← cancel r s; dispatch rules pollfds revents s
        else
          s ← (if poll_ready then service r s else Ok s);
          '(rules, s) ← dispatch rules pollfds revents s;
          Ok (r :: rules, s)
  | _, _, _ => Throw Undefined
  end.

(** An error of [poll] other than an interrupt is caught and ignored: no
    [revents] have been set then. *)
Definition wait_next_event (rules : list Rule) (s : K * W) (timeout_ms : Z)
    : result (list Rule * (K * W) * Result) :=
  '(rules, pollfds, something_to_poll, s) ← setup rules s;
  if negb something_to_poll then Ok (rules, s, Exit)
  else
    let '(k, answer) := sys_poll s.1 pollfds timeout_ms in
    let s := (k, s.2) in
    match answer with
    | inl errno =>
        if errno =? EINTR then Ok (rules, s, Exit)
        else '(rules, s) ← dispatch rules pollfds (replicate (length pollfds) 0) s; Ok (rules, s, Success)
    | inr (ready, revents) =>
        if ready =? 0 then Ok (rules, s, Timeout)
        else '(rules, s) ← dispatch rules pollfds revents s; Ok (rules, s, Success)
    end.

(** ** Invariants of a loop

    [P] is what callbacks keep; [gone r] is what the cancellation of the rule
    [r] relies on: its descriptor has ended.  *)

Lemma has_0 mask : has 0 mask = false.
Proof using Type. unfold has. by rewrite Z.land_0_l. Qed.

Section Preserve.
Context (P : K * W → Prop) (gone : Rule → K * W → Prop).

(** From [s] to [s'] the invariant is kept, and what is gone stays gone. *)
Definition keeps (s s' : K * W) : Prop := P s' ∧ ∀ r, gone r s → gone r s'.

Record respects (r : Rule) : Prop := {
  respects_callback s s' : P s → callback r s = Ok s' → keeps s s';
  respects_cancel s s' : P s → gone r s → cancel r s = Ok s' → keeps s s';
  respects_eof s : P s → is_in (direction r) = true → eof (rule_fd r s.2) = true → gone r s;
  respects_closed s : P s → closed (rule_fd r s.2) = true → gone r s
}.

(** The entry that [setup] made for a rule. *)
Definition polled (r : Rule) (p : pollfd) : Prop :=
  ∃ s, P s ∧ fd p = fd_num (rule_fd r s.2) ∧ (events p = 0 ∨ events p = direction_events (direction r)).

Definition hung_up (p : pollfd) (re : Z) : Prop :=
  has re POLLHUP = true ∧ events p ≠ 0 ∧ has re (events p) = false.

Lemma keeps_trans s1 s2 s3 : keeps s1 s2 → keeps s2 s3 → keeps s1 s3.
Proof using Type. intros [_ H1] [HP H2]. split; [done|]. auto. Qed.

Lemma keeps_refl s : P s → keeps s s.
Proof using Type. by split. Qed.

Lemma setup_keeps rules : ∀ s rules' ps b s',
  Forall respects rules → P s → setup rules s = Ok (rules', ps, b, s') →
  keeps s s' ∧ sublist rules' rules ∧ Forall2 polled rules' ps.
Proof using Type.
  induction rules as [|r rules IH]; intros s rules' ps b s' Hr Hs; cbn [setup].
  { intros [= <- <- <- <-]. split; [by apply keeps_refl|]. split; [done|constructor]. }
  apply Forall_cons_1 in Hr as [Hp Hr].
  assert (∀ s1, gone r s → cancel r s = Ok s1 → setup rules s1 = Ok (rules', ps, b, s') →
    keeps s s' ∧ sublist rules' (r :: rules) ∧ Forall2 polled rules' ps) as Hdrop.
  { intros s1 Hg H1 H2. pose proof (respects_cancel r Hp s s1 Hs Hg H1) as [Hs1 Hk1].
    destruct (IH s1 rules' ps b s' Hr Hs1 H2) as (? & ? & ?).
    split_and!; [by eapply keeps_trans|by apply sublist_cons|done]. }
  destruct (is_in _ && eof _) eqn:E1.
  { apply andb_true_iff in E1 as [? ?]. intros (s1 & ? & ?)%result_bind_ok.
    eapply Hdrop; try done. by apply (respects_eof r Hp). }
  destruct (closed _) eqn:E2.
  { intros (s1 & ? & ?)%result_bind_ok. eapply Hdrop; try done. by apply (respects_closed r Hp). }
  intros ([[[rs qs] b'] s1] & H1 & [= <- <- <- <-])%result_bind_ok.
  destruct (IH s rs qs b' s1 Hr Hs H1) as (? & ? & ?).
  split_and!; [done|by apply sublist_skip|]. constructor; [|done].
  exists s. split_and!; [done|done|]. cbn [events]. destruct (interest r s.2); auto.
Qed.

Lemma service_keeps r s s' : respects r → P s → service r s = Ok s' → keeps s s'.
Proof using Type.
  intros Hr Hs. unfold service. intros (s1 & H1 & H2)%result_bind_ok.
  destruct (_ && _); [done|]. apply Ok_inj in H2 as <-. by apply (respects_callback r Hr).
Qed.

Lemma dispatch_keeps rules : ∀ ps revents s rules' s',
  Forall respects rules → P s →
  (∀ i r p re, rules !! i = Some r → ps !! i = Some p → revents !! i = Some re → hung_up p re → gone r s) →
  dispatch rules ps revents s = Ok (rules', s') → keeps s s' ∧ sublist rules' rules.
Proof using Type.
  induction rules as [|r rules IH]; intros ps revents s rules' s' Hr Hs Hh; cbn [dispatch].
  { intros [= <- <-]. split; [by apply keeps_refl|done]. }
  apply Forall_cons_1 in Hr as [Hp Hr]. destruct ps as [|p ps]; [done|]. destruct revents as [|re revents]; [done|].
  assert (∀ s1 rs, keeps s s1 → dispatch rules ps revents s1 = Ok (rs, s') →
    keeps s s' ∧ sublist rs rules) as Hnext.
  { intros s1 rs Hk1 H2. destruct (IH ps revents s1 rs s' Hr (proj1 Hk1)) as [? ?]; [|done|].
    - intros i r' p' re' ? ? ? ?. apply Hk1. by apply (Hh (S i) r' p' re').
    - split; [by eapply keeps_trans|done]. }
  destruct (has re (Z.lor _ _)); [done|].
  destruct (has re POLLHUP && negb (events p =? 0) && negb (has re (events p))) eqn:E.
  - intros (s1 & H1 & H2)%result_bind_ok. rewrite !andb_true_iff, !negb_true_iff in E. destruct E as [[? ?] ?].
    assert (gone r s) as Hg by (apply (Hh 0%nat r p re); [done..|]; split_and!; [done|lia|done]).
    destruct (Hnext s1 rules') as [? ?]; [by apply (respects_cancel r Hp)|done|].
    split; [done|by apply sublist_cons].
  - intros (s1 & H1 & ([rs s2] & H2 & [= <- <-])%result_bind_ok)%result_bind_ok.
    destruct (Hnext s1 rs) as [? ?]; [|done|split; [done|by apply sublist_skip]].
    destruct (has re (events p)); [by apply (service_keeps r)|]. apply Ok_inj in H1 as <-. by apply keeps_refl.
Qed.

(** What the kernel's [poll] must not break, and when it reports a hangup. *)
Definition poll_respects (timeout_ms : Z) : Prop :=
  ∀ k w ps k' answer, P (k, w) → sys_poll k ps timeout_ms = (k', answer) →
    keeps (k, w) (k', w) ∧
    ∀ n revents i r p re, answer = inr (n, revents) → polled r p → ps !! i = Some p →
      revents !! i = Some re → hung_up p re → gone r (k', w).

(** Waiting keeps the invariant, and no rules appear. *)
Lemma wait_next_event_keeps rules s timeout_ms rules' s' res :
  Forall respects rules → poll_respects timeout_ms → P s →
  wait_next_event rules s timeout_ms = Ok (rules', s', res) → keeps s s' ∧ sublist rules' rules.
Proof using Type.
  intros Hr Hpoll Hs. unfold wait_next_event.
  intros ([[[rs ps] b] [k1 w1]] & H1 & H2)%result_bind_ok.
  destruct (setup_keeps _ _ _ _ _ _ Hr Hs H1) as (Hk1 & Hsub & Hps).
  assert (Forall respects rs) as Hrs by (by eapply Forall_of_sublist).
  destruct (negb b); [by simplify_eq|]. cbn [fst snd] in H2.
  destruct (sys_poll k1 ps timeout_ms) as [k2 answer] eqn:Hsp.
  destruct (Hpoll k1 w1 ps k2 answer (proj1 Hk1) Hsp) as [Hk2 Hhup].
  assert (keeps s (k2, w1)) as Hk by (by eapply keeps_trans).
  assert (∀ revents, (∀ i r p re, rs !! i = Some r → ps !! i = Some p → revents !! i = Some re →
      hung_up p re → gone r (k2, w1)) →
    ∀ rs2 s2, dispatch rs ps revents (k2, w1) = Ok (rs2, s2) → keeps s s2 ∧ sublist rs2 rules) as Hdis.
  { intros revents Hg rs2 s2 Hd. destruct (dispatch_keeps rs ps revents (k2, w1) rs2 s2) as [? ?]; try done; [apply Hk|].
    split; [by eapply keeps_trans|by etrans]. }
  destruct answer as [errno|[ready revents]].
  - destruct (errno =? EINTR); [by simplify_eq|].
    apply result_bind_ok in H2 as ([rs2 s2] & H3 & [= <- <- <-]). eapply Hdis; [|exact H3].
    intros i r p re _ _ [-> _]%lookup_replicate [Hh _]. by rewrite has_0 in Hh.
  - destruct (ready =? 0); [by simplify_eq|].
    apply result_bind_ok in H2 as ([rs2 s2] & H3 & [= <- <- <-]). eapply Hdis; [|exact H3].
    intros i r p re Hr1 Hp1 Hre Hh. apply (Hhup ready revents i r p re eq_refl); try done.
    destruct (Forall2_lookup_l _ _ _ _ _ Hps Hr1) as (p' & Hp' & ?). congruence.
Qed.

End Preserve.

(** ** What poll(2) says of a stream

    It reports a hangup without data only when the other end has finished and
    all of the stream has been read. *)
Definition hangup_law (n : Z) (S : K → bytes) (finished : K → bool) (consumed : K → Z) (step : K → K → Prop) : Prop :=
  ∀ k ps t k' answer, sys_poll k ps t = (k', answer) →
    step k k' ∧
    ∀ ready revents i p re, answer = inr (ready, revents) → ps !! i = Some p → revents !! i = Some re →
      fd p = n → events p = POLLIN → has re POLLHUP = true → has re POLLIN = false →
      finished k = true ∧ consumed k = slen (S k).

End EventLoop.
