(* ===== verification/Socket.v ===== *)
(** * Sockets (libsponge/util/socket.{hh,cc})

    The socket classes are file descriptors with more system calls; their state
    is the shared [FDWrapper].  An option that is read or set is a number. *)

From S2P Require Import Prelude Buffer Address FileDescriptor.
From stdpp Require Import options.

Local Open Scope Z_scope.

Definition AF_UNIX : Z := 1.
Definition SOCK_STREAM : Z := 1.
Definition SOCK_DGRAM : Z := 2.
Definition SO_REUSEADDR : Z := 2.
Definition SO_TYPE : Z := 3.
Definition SO_DOMAIN : Z := 39.
Definition SHUT_RD : Z := 0.
Definition SHUT_WR : Z := 1.
Definition SHUT_RDWR : Z := 2.
Definition SIZEOF_INT : Z := 4.

Record received_datagram := mkreceived { source_address : Address; payload : bytes }.

Section Socket.
Context {K : Type} `{Kernel K}.

(** ** [Socket] *)

Definition Socket_new (k : K) (domain type : Z) : result (K * FDWrapper) :=
  let '(k, r) := sys_socket k domain type in
  fd ← SystemCall r;
  w ← FDWrapper_new fd;
  Ok (k, w).

Definition Socket_of_fd (k : K) (w : FDWrapper) (domain type : Z) : result (K * FDWrapper) :=
  let '(k, r) := sys_getsockopt k (fd_num w) SO_DOMAIN in
  '(actual_value, len) ← SystemCall r;
  if negb (len =? SIZEOF_INT) || negb (actual_value =? domain) then Throw RuntimeError
  else
    let '(k, r) := sys_getsockopt k (fd_num w) SO_TYPE in
    '(actual_value, len) ← SystemCall r;
    if negb (len =? SIZEOF_INT) || negb (actual_value =? type) then Throw RuntimeError
    else Ok (k, w).

Definition get_address (k : K) (w : FDWrapper) (peer : bool) : result (K * Address) :=
  let '(k, r) := sys_name k (fd_num w) peer in
  '(address, size) ← SystemCall r;
  a ← Address_of_sockaddr address size;
  Ok (k, a).

Definition local_address (k : K) (w : FDWrapper) : result (K * Address) := get_address k w false.

Definition peer_address (k : K) (w : FDWrapper) : result (K * Address) := get_address k w true.

Definition bind (k : K) (w : FDWrapper) (address : Address) : result K :=
  let '(k, r) := sys_bind k (fd_num w) (_address address, _size address) in
  _ ← SystemCall r; Ok k.

Definition connect (k : K) (w : FDWrapper) (address : Address) : result K :=
  let '(k, r) := sys_connect k (fd_num w) (_address address, _size address) in
  _ ← SystemCall r; Ok k.

Definition shutdown (k : K) (w : FDWrapper) (how : Z) : result (K * FDWrapper) :=
  let '(k, r) := sys_shutdown k (fd_num w) how in
  _ ← SystemCall r;
  if how =? SHUT_RD then Ok (k, register_read w)
  else if how =? SHUT_WR then Ok (k, register_write w)
  else if how =? SHUT_RDWR then Ok (k, register_write (register_read w))
  else Throw RuntimeError.

Definition setsockopt (k : K) (w : FDWrapper) (option option_value : Z) : result K :=
  let '(k, r) := sys_setsockopt k (fd_num w) option option_value in
  _ ← SystemCall r; Ok k.

Definition set_reuseaddr (k : K) (w : FDWrapper) : result K := setsockopt k w SO_REUSEADDR 1.

(** ** [UDPSocket] *)

Definition UDPSocket_new (k : K) : result (K * FDWrapper) := Socket_new k AF_INET SOCK_DGRAM.

Definition recv (k : K) (w : FDWrapper) (mtu : Z) : result (K * FDWrapper * received_datagram) :=
  let '(k, r) := sys_recvfrom k (fd_num w) mtu in
  '(data, recv_len, (address, fromlen)) ← SystemCall r;
  if mtu <? recv_len then Throw RuntimeError
  else
    let w := register_read w in
    a ← Address_of_sockaddr address fromlen;
    Ok (k, w, mkreceived a (sresize recv_len data)).

Definition sendmsg_helper (k : K) (fd_num : Z) (destination : option (bytes * Z)) (payload : BufferViewList)
    : result K :=
  let '(k, r) := sys_sendmsg k fd_num destination (as_iovecs payload) in
  bytes_sent ← SystemCall r;
  if negb (bytes_sent =? view_size payload) then Throw RuntimeError else Ok k.

Definition sendto (k : K) (w : FDWrapper) (destination : Address) (payload : BufferViewList)
    : result (K * FDWrapper) :=
  k ← sendmsg_helper k (fd_num w) (Some (_address destination, _size destination)) payload;
  Ok (k, register_write w).

Definition send (k : K) (w : FDWrapper) (payload : BufferViewList) : result (K * FDWrapper) :=
  k ← sendmsg_helper k (fd_num w) None payload;
  Ok (k, register_write w).

(** ** [TCPSocket] and [LocalStreamSocket] *)

Definition TCPSocket_new (k : K) : result (K * FDWrapper) := Socket_new k AF_INET SOCK_STREAM.

Definition listen (k : K) (w : FDWrapper) (backlog : Z) : result K :=
  let '(k, r) := sys_listen k (fd_num w) backlog in
  _ ← SystemCall r; Ok k.

(** The listening socket and the new one. *)
Definition accept (k : K) (w : FDWrapper) : result (K * FDWrapper * FDWrapper) :=
  let w := register_read w in
  let '(k, r) := sys_accept k (fd_num w) in
  fd ← SystemCall r;
  new ← FDWrapper_new fd;
  '(k, new) ← Socket_of_fd k new AF_INET SOCK_STREAM;
  Ok (k, w, new).

Definition LocalStreamSocket_of_fd (k : K) (w : FDWrapper) : result (K * FDWrapper) :=
  Socket_of_fd k w AF_UNIX SOCK_STREAM.

End Socket.
