(* ===== verification/FdAdapter.v ===== *)
(** * File-descriptor adapters (tcp_helpers/fd_adapter.{hh,cc}, lossy_fd_adapter.hh)

    The configuration an adapter keeps, the adapter that carries TCP segments in
    UDP datagrams, and the adapter that drops segments at random.  What a socket
    delivers is an argument of [read]; what is given to it is kept as a list.
    The generator [std::mt19937] is a parameter. *)

From S2P Require Import Prelude WrappingIntegers Buffer Parser Checksum TCPHeader TCPSegment Address.
From S2P Require Import Socket.
From stdpp Require Import options.

Local Open Scope Z_scope.

(** ** Configuration *)

Record FdAdapterConfig := mkFdAdapterConfig {
  source : Address;
  destination : Address;
  loss_rate_dn : Z;
  loss_rate_up : Z
}.

Record FdAdapterBase := mkFdAdapterBase { _cfg : FdAdapterConfig; _listen : bool }.

Definition set_listening (a : FdAdapterBase) (l : bool) : FdAdapterBase := mkFdAdapterBase (_cfg a) l.

Definition listening (a : FdAdapterBase) : bool := _listen a.

Definition config (a : FdAdapterBase) : FdAdapterConfig := _cfg a.

(** Assignments through [config_mut] and [config_mutable]. *)
Definition set_config (a : FdAdapterBase) (c : FdAdapterConfig) : FdAdapterBase := mkFdAdapterBase c (_listen a).

Definition with_source (c : FdAdapterConfig) (s : Address) : FdAdapterConfig :=
  mkFdAdapterConfig s (destination c) (loss_rate_dn c) (loss_rate_up c).

Definition with_destination (c : FdAdapterConfig) (d : Address) : FdAdapterConfig :=
  mkFdAdapterConfig (source c) d (loss_rate_dn c) (loss_rate_up c).

(** [FdAdapterBase::tick] does nothing. *)
Definition base_tick (a : FdAdapterBase) (_ : Z) : FdAdapterBase := a.

(** The interface the TCP socket and [LossyFdAdapter] use: an adapter [A] whose
    device delivers values of [In]. *)
Class FdAdapter (A In : Type) := {
  adapter_read : A → In → result (A * option TCPSegment);
  adapter_write : A → TCPSegment → result (A * TCPSegment);
  adapter_tick : A → Z → result A;
  adapter_base : A → FdAdapterBase;
  adapter_set_base : A → FdAdapterBase → A
}.

Definition adapter_config {A In} `{FdAdapter A In} (a : A) : FdAdapterConfig := config (adapter_base a).

Definition adapter_set_listening {A In} `{FdAdapter A In} (a : A) (l : bool) : A :=
  adapter_set_base a (set_listening (adapter_base a) l).

(** ** TCP in UDP *)

Record TCPOverUDPSocketAdapter := mkUDP {
  udp_base : FdAdapterBase;
  _sock : list (Address * BufferList)
}.

Section UDP.
Context `{Resolver}.

Definition FdAdapterConfig_default : result FdAdapterConfig :=
  s ← Address_of_ip [48] 0;
  d ← Address_of_ip [48] 0;
  Ok (mkFdAdapterConfig s d 0 0).

Definition FdAdapterBase_default : result FdAdapterBase :=
  c ← FdAdapterConfig_default; Ok (mkFdAdapterBase c false).

Definition TCPOverUDPSocketAdapter_new : result TCPOverUDPSocketAdapter :=
  b ← FdAdapterBase_default; Ok (mkUDP b []).

Definition udp_read (a : TCPOverUDPSocketAdapter) (datagram : received_datagram)
    : result (TCPOverUDPSocketAdapter * option TCPSegment) :=
  let b := udp_base a in
  if negb (listening b) && address_neqb (source_address datagram) (destination (config b)) then Ok (a, None)
  else
    '(seg, res) ← TCPSegment.parse TCPSegment_default (Buffer_of (Socket.payload datagram)) 0;
    if negb (bool_decide (res = NoError)) then Ok (a, None)
    else if listening b then
      if syn (header seg) && negb (rst (header seg)) then
        let b := set_config b (with_destination (config b) (source_address datagram)) in
        Ok (mkUDP (set_listening b false) (_sock a), Some seg)
      else Ok (a, None)
    else Ok (a, Some seg).

Definition set_ports (b : FdAdapterBase) (seg : TCPSegment) : result TCPSegment :=
  sport ← port (source (config b));
  dport ← port (destination (config b));
  Ok (set_header seg (with_ports (header seg) sport dport)).

Definition udp_write (a : TCPOverUDPSocketAdapter) (seg : TCPSegment)
    : result (TCPOverUDPSocketAdapter * TCPSegment) :=
  seg ← set_ports (udp_base a) seg;
  bytes ← TCPSegment.serialize seg 0;
  Ok (mkUDP (udp_base a) (_sock a ++ [(destination (config (udp_base a)), bytes)]), seg).

#[export] Instance udp_adapter : FdAdapter TCPOverUDPSocketAdapter received_datagram := {|
  adapter_read := udp_read;
  adapter_write := udp_write;
  adapter_tick a ms := Ok (mkUDP (base_tick (udp_base a) ms) (_sock a));
  adapter_base := udp_base;
  adapter_set_base a b := mkUDP b (_sock a)
|}.

End UDP.

(** ** Random loss *)

Section Lossy.
(** The generator's state, and one draw from it. *)
Context {mt19937 : Type} (draw : mt19937 → Z * mt19937).
Context {A In : Type} `{FdAdapter A In}.

Record LossyFdAdapter := mkLossy { _rand : mt19937; _adapter : A }.

Definition _should_drop (l : LossyFdAdapter) (uplink : bool) : LossyFdAdapter * bool :=
  let cfg := adapter_config (_adapter l) in
  let loss := if uplink then loss_rate_up cfg else loss_rate_dn cfg in
  if negb (loss =? 0) then
    let '(x, rand) := draw (_rand l) in (mkLossy rand (_adapter l), u16 x <? loss)
  else (l, false).

Definition lossy_read (l : LossyFdAdapter) (input : In) : result (LossyFdAdapter * option TCPSegment) :=
  '(a, ret) ← adapter_read (_adapter l) input;
  let '(l, drop) := _should_drop (mkLossy (_rand l) a) false in
  Ok (l, if drop then None else ret).

Definition lossy_write (l : LossyFdAdapter) (seg : TCPSegment) : result (LossyFdAdapter * TCPSegment) :=
  let '(l, drop) := _should_drop l true in
  if drop then Ok (l, seg)
  else '(a, seg) ← adapter_write (_adapter l) seg; Ok (mkLossy (_rand l) a, seg).

Definition lossy_tick (l : LossyFdAdapter) (ms_since_last_tick : Z) : result LossyFdAdapter :=
  a ← adapter_tick (_adapter l) ms_since_last_tick; Ok (mkLossy (_rand l) a).

#[export] Instance lossy_adapter : FdAdapter LossyFdAdapter In := {|
  adapter_read := lossy_read;
  adapter_write := lossy_write;
  adapter_tick := lossy_tick;
  adapter_base l := adapter_base (_adapter l);
  adapter_set_base l b := mkLossy (_rand l) (adapter_set_base (_adapter l) b)
|}.

End Lossy.

(** ** Lemmas *)

(** A lossy adapter reads what the adapter below reads, or nothing; without loss
    it changes nothing. *)
Lemma lossy_read_spec {mt19937 A In} (draw : mt19937 → Z * mt19937) `{FdAdapter A In} l input a ret :
  adapter_read (_adapter l) input = Ok (a, ret) →
  ∃ rand o, lossy_read draw l input = Ok (mkLossy rand a, o) ∧ (o = ret ∨ o = None) ∧
    (loss_rate_dn (adapter_config a) = 0 → rand = _rand l ∧ o = ret).
Proof.
  intros Hr. unfold lossy_read. rewrite Hr. cbn [mbind result_bind]. unfold _should_drop. cbn [_adapter _rand].
  destruct (loss_rate_dn (adapter_config a) =? 0) eqn:E; cbn [negb].
  - exists (_rand l), ret. split_and!; [done|by left|done].
  - destruct (draw (_rand l)) as [x rand]. exists rand, (if u16 x <? loss_rate_dn (adapter_config a) then None else ret).
    split_and!; [done| |lia]. case_match; auto.
Qed.

(** A lossy adapter writes with the adapter below, or not at all. *)
Lemma lossy_write_spec {mt19937 A In} (draw : mt19937 → Z * mt19937) `{FdAdapter A In} l seg a seg' :
  adapter_write (_adapter l) seg = Ok (a, seg') →
  ∃ rand, (lossy_write draw l seg = Ok (mkLossy rand a, seg') ∨
      (lossy_write draw l seg = Ok (mkLossy rand (_adapter l), seg) ∧ loss_rate_up (adapter_config (_adapter l)) ≠ 0)).
Proof.
  intros Hw. unfold lossy_write, _should_drop. destruct (loss_rate_up (adapter_config (_adapter l)) =? 0) eqn:E; cbn [negb].
  - exists (_rand l). left. by rewrite Hw.
  - destruct (draw (_rand l)) as [x rand]. exists rand. destruct (u16 x <? _); [right|left; cbn [_adapter]; by rewrite Hw].
    split; [done|]. lia.
Qed.

(** A segment written to one UDP adapter is read by the other. *)
Lemma udp_delivers `{NumericResolver} a b seg ips ps ipd pd :
  is_u32 ips → is_u16 ps → is_u32 ipd → is_u16 pd →
  TCPHeader.wf (TCPSegment._header seg) → Forall is_u8 (str (TCPSegment._payload seg)) →
  cksum_fits (set_header seg (with_ports (header seg) ps pd)) 0 →
  slen (str (TCPSegment._payload seg)) < 0x100000000 →
  source (config (udp_base a)) = Address_in ips ps → destination (config (udp_base a)) = Address_in ipd pd →
  listening (udp_base b) = false → destination (config (udp_base b)) = Address_in ips ps →
  ∃ l seg', udp_write a seg =
      Ok (mkUDP (udp_base a) (_sock a ++ [(Address_in ipd pd, l)]), set_header seg (with_ports (header seg) ps pd)) ∧
    udp_read b (mkreceived (Address_in ips ps) (concatenate l)) = Ok (b, Some seg') ∧
    header seg' = TCPHeader.with_cksum (with_ports (header seg) ps pd)
      (segment_cksum (set_header seg (with_ports (header seg) ps pd)) 0) ∧
    str (TCPSegment.payload seg') = str (TCPSegment.payload seg).
Proof.
  intros Hips Hps Hipd Hpd Hwf Hbytes Hfit Hlen Hs Hd Hl Hdb.
  set (seg1 := set_header seg (with_ports (header seg) ps pd)) in *.
  assert (TCPHeader.wf (TCPSegment._header seg1)) as Hwf1 by (by destruct Hwf).
  pose proof (serialize_segment_eq seg1 0 Hwf1) as Hser.
  match type of Hser with _ = Ok [Buffer_of ?x; _] => set (hb := x) in * end.
  assert (slen hb <= 60) as Hhb.
  { unfold hb, tail_bytes. rewrite !slen_app, tcp_head_bytes_slen, !be_bytes_slen, slen_replicate.
    destruct Hwf1. unfold LENGTH. lia. }
  destruct (segment_reparse seg1 TCPSegment_default 0 (Buffer_of (hb ++ str (TCPSegment._payload seg))))
    as (seg' & Hp & Hh & Hpl & _); try done.
  { apply wf_of. rewrite slen_app. slia. }
  exists [Buffer_of hb; TCPSegment._payload seg], seg'. split_and!; [| |done|done].
  - unfold udp_write, set_ports. rewrite Hs, Hd, !port_in by done. cbn [mbind result_bind].
    change (set_header seg (with_ports (header seg) ps pd)) with seg1. by rewrite Hser.
  - unfold udp_read. rewrite Hl, Hdb. unfold address_neqb, address_eqb. cbn [source_address Socket.payload].
    rewrite Z.eqb_refl, bool_decide_eq_true_2 by done. cbn [negb andb].
    rewrite !concatenate_cons, str_of. change (concatenate []) with (@nil Z). rewrite app_nil_r, Hp.
    cbn [mbind result_bind]. by rewrite bool_decide_eq_true_2.
Qed.
