(* ===== verification/TCPOverIP.v ===== *)
(** * TCP in IPv4 (tcp_helpers/tcp_over_ip.{hh,cc}, tuntap_adapter.hh)

    The conversion between TCP segments and IPv4 datagrams, and the adapter that
    exchanges them with a TUN device.  What the device delivers is an argument
    of [read]; what is written to it is kept as a list. *)

From S2P Require Import Prelude WrappingIntegers Buffer Parser StdString Checksum TCPHeader TCPSegment.
From S2P Require Import IPv4Header IPv4Datagram Address FdAdapter.
From stdpp Require Import options.

Local Open Scope Z_scope.

Section TCPOverIPv4.
Context `{Resolver}.

(** The SYN that a listening adapter accepts fixes both addresses. *)
Definition accept_peer (a : FdAdapterBase) (h : IPv4Header) (seg : TCPSegment) : result FdAdapterBase :=
  p ← port (source (config a));
  s ← Address_of_ip (inet_ntoa (be_bytes 4 (dst h))) p;
  let a := set_config a (with_source (config a) s) in
  d ← Address_of_ip (inet_ntoa (be_bytes 4 (src h))) (sport (TCPSegment.header seg));
  let a := set_config a (with_destination (config a) d) in
  Ok (set_listening a false).

(** The last check, and the result. *)
Definition from_peer (a : FdAdapterBase) (seg : TCPSegment) : result (FdAdapterBase * option TCPSegment) :=
  p ← port (destination (config a));
  Ok (a, if sport (TCPSegment.header seg) =? p then Some seg else None).

Definition unwrap_tcp_in_ip (a : FdAdapterBase) (ip_dgram : IPv4Datagram)
    : result (FdAdapterBase * option TCPSegment) :=
  let h := IPv4Datagram.header ip_dgram in
  for_us ← if listening a then Ok true else s ← ipv4_numeric (source (config a)); Ok (dst h =? s);
  if negb for_us then Ok (a, None) else
  from_them ← if listening a then Ok true else d ← ipv4_numeric (destination (config a)); Ok (src h =? d);
  if negb from_them then Ok (a, None) else
  if negb (proto h =? PROTO_TCP) then Ok (a, None) else
  b ← to_Buffer (IPv4Datagram.payload ip_dgram);
  '(tcp_seg, res) ← TCPSegment.parse TCPSegment_default b (pseudo_cksum h);
  if negb (bool_decide (res = NoError)) then Ok (a, None) else
  p ← port (source (config a));
  if negb (dport (TCPSegment.header tcp_seg) =? p) then Ok (a, None) else
  if listening a then
    if syn (TCPSegment.header tcp_seg) && negb (rst (TCPSegment.header tcp_seg)) then
      a ← accept_peer a h tcp_seg; from_peer a tcp_seg
    else Ok (a, None)
  else from_peer a tcp_seg.

Definition wrap_tcp_in_ip (a : FdAdapterBase) (seg : TCPSegment) : result (TCPSegment * IPv4Datagram) :=
  seg ← set_ports a seg;
  s ← ipv4_numeric (source (config a));
  d ← ipv4_numeric (destination (config a));
  let h := IPv4Header_default in
  let len := u16 (hlen h * 4 + doff (TCPSegment.header seg) * 4 + size (TCPSegment.payload seg)) in
  let h := with_addresses h s d len in
  payload ← TCPSegment.serialize seg (pseudo_cksum h);
  Ok (seg, mkIPv4Datagram h payload).

(** ** The TUN adapter *)

Record TCPOverIPv4OverTunFdAdapter := mkTun { tun_base : FdAdapterBase; _tun : list BufferList }.

Definition TCPOverIPv4OverTunFdAdapter_new : result TCPOverIPv4OverTunFdAdapter :=
  b ← FdAdapterBase_default; Ok (mkTun b []).

Definition tun_read (a : TCPOverIPv4OverTunFdAdapter) (data : bytes)
    : result (TCPOverIPv4OverTunFdAdapter * option TCPSegment) :=
  '(ip_dgram, res) ← IPv4Datagram.parse IPv4Datagram_default (Buffer_of data);
  if negb (bool_decide (res = NoError)) then Ok (a, None)
  else '(b, seg) ← unwrap_tcp_in_ip (tun_base a) ip_dgram; Ok (mkTun b (_tun a), seg).

Definition tun_write (a : TCPOverIPv4OverTunFdAdapter) (seg : TCPSegment)
    : result (TCPOverIPv4OverTunFdAdapter * TCPSegment) :=
  '(seg, dgram) ← wrap_tcp_in_ip (tun_base a) seg;
  bytes ← IPv4Datagram.serialize dgram;
  Ok (mkTun (tun_base a) (_tun a ++ [bytes]), seg).

#[export] Instance tun_adapter : FdAdapter TCPOverIPv4OverTunFdAdapter bytes := {|
  adapter_read := tun_read;
  adapter_write := tun_write;
  adapter_tick a ms := Ok (mkTun (base_tick (tun_base a) ms) (_tun a));
  adapter_base := tun_base;
  adapter_set_base a b := mkTun b (_tun a)
|}.

End TCPOverIPv4.

(** ** Lemmas *)

(** A segment that fits in one datagram. *)
Record seg_ok (seg : TCPSegment) : Prop := {
  seg_header : TCPHeader.wf (TCPSegment._header seg);
  seg_bytes : Forall is_u8 (str (TCPSegment._payload seg));
  seg_size : 20 + 4 * doff (TCPSegment._header seg) + slen (str (TCPSegment._payload seg)) < 0x10000
}.

(** The segment with its ports, and the header of its datagram. *)
Definition addressed (seg : TCPSegment) (ps pd : Z) : TCPSegment :=
  set_header seg (with_ports (TCPSegment.header seg) ps pd).

Definition datagram_header (ips ipd : Z) (seg : TCPSegment) : IPv4Header :=
  with_addresses IPv4Header_default ips ipd
    (20 + 4 * doff (TCPSegment._header seg) + slen (str (TCPSegment._payload seg))).

Definition segment_bytes (s : TCPSegment) (ck : Z) : bytes :=
  TCPHeader.head_bytes (TCPSegment._header s) ++ be_bytes 2 (segment_cksum s ck) ++
  TCPHeader.tail_bytes (TCPSegment._header s).

Lemma segment_bytes_slen s ck :
  TCPHeader.wf (TCPSegment._header s) → slen (segment_bytes s ck) = 4 * doff (TCPSegment._header s).
Proof.
  intros []. unfold segment_bytes, TCPHeader.tail_bytes.
  rewrite !slen_app, tcp_head_bytes_slen, !be_bytes_slen, slen_replicate. unfold TCPHeader.LENGTH. lia.
Qed.

Lemma addressed_ok seg ps pd : seg_ok seg → is_u16 ps → is_u16 pd → seg_ok (addressed seg ps pd).
Proof. intros [[] ? ?] ? ?. by split. Qed.

(** The pseudo header contributes at most six 16-bit words. *)
Lemma pseudo_cksum_small h :
  IPv4Header.wf h → 0 <= pseudo_cksum h <= 0x60000.
Proof.
  intros [? ? ? ? ? ? ? Hp ? Hs Hd]. unfold pseudo_cksum.
  pose proof (u16_range (len h - 4 * hlen h)) as Hl. fold (payload_length h) in Hl.
  rewrite !Z.shiftr_div_pow2 by lia. change (2 ^ 16) with 0x10000.
  change 0xffff with (Z.ones 16). rewrite !Z.land_ones by lia. change (2 ^ 16) with 0x10000.
  unfold_width. Z.div_mod_to_equations. lia.
Qed.

Lemma cksum_fits_ok s ck : seg_ok s → 0 <= ck <= 0x60000 → cksum_fits s ck.
Proof.
  intros [Hh Hb Hs] Hck. split; [lia|].
  assert (Forall is_u8 (TCPHeader.tail_bytes (TCPSegment._header s) ++ str (TCPSegment._payload s))) as Ht
    by (rewrite Forall_app; split; [apply tcp_tail_bytes_range|done]).
  pose proof (word_sum_bound_even _ (tcp_head_bytes_range (TCPSegment._header s))) as (? & ? & _).
  pose proof (word_sum_bound_even _ Ht) as (? & H2 & _). rewrite tcp_head_bytes_slen in *.
  unfold TCPHeader.tail_bytes in H2 at 2. rewrite !slen_app, be_bytes_slen, slen_replicate in H2.
  destruct Hh. unfold TCPHeader.LENGTH in *. unfold_width. lia.
Qed.

Lemma datagram_header_wf ips ipd seg :
  is_u32 ips → is_u32 ipd → seg_ok seg → IPv4Header.wf (datagram_header ips ipd seg).
Proof.
  intros Hs Hd [[] ? Hl]. pose proof (slen_nonneg (str (TCPSegment._payload seg))). split; try done.
  change (is_u16 (20 + 4 * doff (TCPSegment._header seg) + slen (str (TCPSegment._payload seg)))).
  unfold_width. lia.
Qed.

Section Laws.
Context `{NumericResolver}.

Lemma wrap_eq a seg ips ps ipd pd :
  is_u32 ips → is_u16 ps → is_u32 ipd → is_u16 pd →
  source (config a) = Address_in ips ps → destination (config a) = Address_in ipd pd → seg_ok seg →
  let h := datagram_header ips ipd seg in
  let d := mkIPv4Datagram h [Buffer_of (segment_bytes (addressed seg ps pd) (pseudo_cksum h));
                             TCPSegment._payload seg] in
  wrap_tcp_in_ip a seg = Ok (addressed seg ps pd, d) ∧ IPv4Datagram.wf d.
Proof using Type*.
  intros Hips Hps Hipd Hpd Hs Hd Hok h d. pose proof (addressed_ok seg ps pd Hok Hps Hpd) as Hok'. split.
  - unfold wrap_tcp_in_ip, set_ports. rewrite Hs, Hd, !port_in by done. cbn [mbind result_bind].
    rewrite !ipv4_numeric_in by done. cbn [mbind result_bind]. fold (addressed seg ps pd).
    assert (u16 (hlen IPv4Header_default * 4 + doff (TCPSegment.header (addressed seg ps pd)) * 4 +
      size (TCPSegment.payload (addressed seg ps pd))) = len h) as ->.
    { destruct Hok as [[] ? ?]. pose proof (slen_nonneg (str (TCPSegment._payload seg))).
      change (len h) with (20 + 4 * doff (TCPSegment._header seg) + slen (str (TCPSegment._payload seg))).
      change (u16 (5 * 4 + doff (TCPSegment._header seg) * 4 + slen (str (TCPSegment._payload seg))) =
        20 + 4 * doff (TCPSegment._header seg) + slen (str (TCPSegment._payload seg))).
      rewrite u16_small by (unfold_width; lia). lia. }
    rewrite serialize_segment_eq by apply Hok'. done.
  - split; [by apply datagram_header_wf|].
    unfold d. cbn [IPv4Datagram._header IPv4Datagram._payload].
    rewrite !concatenate_cons, str_of. change (concatenate []) with (@nil Z).
    rewrite app_nil_r, slen_app, segment_bytes_slen by apply Hok'.
    change (len h) with (20 + 4 * doff (TCPSegment._header seg) + slen (str (TCPSegment._payload seg))).
    change (doff (TCPSegment._header (addressed seg ps pd))) with (doff (TCPSegment._header seg)).
    change (hlen h) with 5. lia.
Qed.

(** What arrives. *)
Definition received (seg : TCPSegment) (ips ps ipd pd : Z) (seg' : TCPSegment) : Prop :=
  TCPSegment.header seg' =
    TCPHeader.with_cksum (with_ports (TCPSegment.header seg) ps pd)
      (segment_cksum (addressed seg ps pd) (pseudo_cksum (datagram_header ips ipd seg))) ∧
  str (TCPSegment.payload seg') = str (TCPSegment.payload seg) ∧ Buffer.wf (TCPSegment.payload seg').

(** The adapter that takes it: it is connected to the sender, or it listens on
    the port and the segment is a SYN; then it is connected afterwards. *)
Definition connected (b : FdAdapterBase) (ips ps ipd pd : Z) : Prop :=
  listening b = false ∧ source (config b) = Address_in ipd pd ∧ destination (config b) = Address_in ips ps.

Definition accepting (b : FdAdapterBase) (pd : Z) (seg : TCPSegment) : Prop :=
  listening b = true ∧ (∃ any, is_u32 any ∧ source (config b) = Address_in any pd) ∧
  syn (TCPSegment.header seg) = true ∧ rst (TCPSegment.header seg) = false.

Lemma accept_peer_eq b h seg any pd :
  is_u32 any → is_u16 pd → is_u32 (src h) → is_u32 (dst h) → is_u16 (sport (TCPSegment.header seg)) →
  source (config b) = Address_in any pd →
  accept_peer b h seg =
    Ok (mkFdAdapterBase (mkFdAdapterConfig (Address_in (dst h) pd)
          (Address_in (src h) (sport (TCPSegment.header seg)))
          (loss_rate_dn (config b)) (loss_rate_up (config b))) false).
Proof using Type*.
  intros Hany Hpd Hs Hd Hsp Hsrc. unfold accept_peer. rewrite Hsrc, port_in by done. cbn [mbind result_bind].
  rewrite Address_of_ip_eq by done. cbn [mbind result_bind].
  rewrite Address_of_ip_eq by done. done.
Qed.

Lemma unwrap_eq b seg ips ps ipd pd c pl :
  is_u32 ips → is_u16 ps → is_u32 ipd → is_u16 pd → seg_ok seg →
  Buffer.wf pl →
  str pl = segment_bytes (addressed seg ps pd) (pseudo_cksum (datagram_header ips ipd seg)) ++
           str (TCPSegment._payload seg) →
  connected b ips ps ipd pd ∨ accepting b pd seg →
  ∃ b' seg',
    unwrap_tcp_in_ip b (mkIPv4Datagram (with_cksum (datagram_header ips ipd seg) c) [pl]) = Ok (b', Some seg') ∧
    received seg ips ps ipd pd seg' ∧ connected b' ips ps ipd pd.
Proof using Type*.
  intros Hips Hps Hipd Hpd Hok Hpl Hstr Hb. pose proof (addressed_ok seg ps pd Hok Hps Hpd) as Hok'.
  set (h := datagram_header ips ipd seg) in *.
  destruct (segment_reparse (addressed seg ps pd) TCPSegment_default (pseudo_cksum h) pl)
    as (seg' & Hparse & Hh & Hp & Hw); try apply Hok'; try done.
  { apply cksum_fits_ok; [done|]. apply pseudo_cksum_small. apply datagram_header_wf; done. }
  assert (received seg ips ps ipd pd seg') as Hrec by (split; done).
  unfold unwrap_tcp_in_ip. cbn [IPv4Datagram.header IPv4Datagram._header IPv4Datagram.payload IPv4Datagram._payload].
  change (pseudo_cksum (with_cksum h c)) with (pseudo_cksum h). change (proto (with_cksum h c) =? PROTO_TCP) with true.
  change (dst (with_cksum h c)) with ipd. change (src (with_cksum h c)) with ips.
  unfold IPv4Datagram.payload. cbn [IPv4Datagram._payload].
  change (to_Buffer [pl]) with (Ok pl). cbn [negb mbind result_bind].
  assert (sport (TCPSegment.header seg') = ps ∧ dport (TCPSegment.header seg') = pd ∧
    syn (TCPSegment.header seg') = syn (TCPSegment.header seg) ∧
    rst (TCPSegment.header seg') = rst (TCPSegment.header seg)) as (Es & Ed & Esyn & Erst) by (by rewrite Hh).
  destruct Hb as [(Hl & Hs & Hd)|(Hl & (any & Hany & Hs) & Hsyn & Hrst)]; rewrite Hl, ?Hs, ?Hd.
  - rewrite !ipv4_numeric_in by done. cbn [mbind result_bind]. rewrite !Z.eqb_refl. cbn [negb].
    rewrite Hparse. cbn [mbind result_bind]. rewrite bool_decide_eq_true_2 by done. cbn [negb].
    rewrite port_in by done. cbn [mbind result_bind]. rewrite Ed, Z.eqb_refl. cbn [negb].
    unfold from_peer. rewrite Hd, port_in by done. cbn [mbind result_bind]. rewrite Es, Z.eqb_refl.
    by exists b, seg'.
  - cbn [mbind result_bind negb]. rewrite Hparse. cbn [mbind result_bind]. rewrite bool_decide_eq_true_2 by done.
    cbn [negb]. rewrite port_in by done. cbn [mbind result_bind]. rewrite Ed, Z.eqb_refl. cbn [negb].
    rewrite Esyn, Erst, Hsyn, Hrst. cbn [negb andb].
    rewrite (accept_peer_eq b _ seg' any pd) by (try done; by rewrite Es). cbn [mbind result_bind].
    unfold from_peer. cbn [config _cfg destination]. rewrite Es.
    change (src (with_cksum h c)) with ips. rewrite port_in by done. cbn [mbind result_bind]. rewrite Z.eqb_refl.
    by eexists _, seg'.
Qed.

End Laws.

(** The bytes of the datagram of a segment, read from a device. *)
Lemma reparse_wrapped seg ips ps ipd pd b :
  is_u32 ips → is_u16 ps → is_u32 ipd → is_u16 pd → seg_ok seg →
  let h := datagram_header ips ipd seg in
  let d := mkIPv4Datagram h [Buffer_of (segment_bytes (addressed seg ps pd) (pseudo_cksum h));
                             TCPSegment._payload seg] in
  IPv4Datagram.wf d → Buffer.wf b →
  str b = (head_bytes h ++ be_bytes 2 (header_cksum h) ++ tail_bytes h) ++ concatenate (IPv4Datagram._payload d) →
  ∃ pl, IPv4Datagram.parse IPv4Datagram_default b = Ok (mkIPv4Datagram (with_cksum h (header_cksum h)) [pl], NoError) ∧
    Buffer.wf pl ∧
    str pl = segment_bytes (addressed seg ps pd) (pseudo_cksum h) ++ str (TCPSegment._payload seg).
Proof.
  intros ? ? ? ? Hok h d [Hwf Hlen] Hb Hstr.
  destruct (parse_datagram IPv4Datagram_default b h (header_cksum h) _ Hwf (u16_range _) Hb Hlen Hstr)
    as (p & _ & Hp & Hs & Hw).
  exists (Parser.buffer p). split; [done|]. split; [done|]. rewrite Hs. unfold d. cbn [IPv4Datagram._payload].
  rewrite !concatenate_cons, str_of. change (concatenate []) with (@nil Z). by rewrite app_nil_r.
Qed.

(** ** Properties *)

(** C20: segments cross a TUN device.  A segment that fits in a datagram is
    written as one datagram; an adapter that is connected to the sender, or
    listens on the port when the segment is a SYN, reads these bytes as the
    same segment with ports and checksum filled in, and is then connected. *)
Theorem tun_delivers {R : Resolver} {L : NumericResolver} (a b : TCPOverIPv4OverTunFdAdapter) (seg : TCPSegment)
    (ips ps ipd pd : Z) :
  is_u32 ips → is_u16 ps → is_u32 ipd → is_u16 pd → seg_ok seg →
  source (config (tun_base a)) = Address_in ips ps → destination (config (tun_base a)) = Address_in ipd pd →
  connected (tun_base b) ips ps ipd pd ∨ accepting (tun_base b) pd seg →
  ∃ l b' seg',
    tun_write a seg = Ok (mkTun (tun_base a) (_tun a ++ [l]), addressed seg ps pd) ∧
    tun_read b (concatenate l) = Ok (b', Some seg') ∧
    received seg ips ps ipd pd seg' ∧ connected (tun_base b') ips ps ipd pd.
Proof.
  intros Hips Hps Hipd Hpd Hok Hs Hd Hb.
  destruct (wrap_eq (tun_base a) seg ips ps ipd pd Hips Hps Hipd Hpd Hs Hd Hok) as [Hw Hwf].
  pose proof (serialize_datagram_eq _ Hwf) as Hser.
  match type of Hser with _ = Ok ?x => remember x as l eqn:El end. exists l.
  assert (tun_write a seg = Ok (mkTun (tun_base a) (_tun a ++ [l]), addressed seg ps pd)) as ->
    by (unfold tun_write; rewrite Hw; cbn [mbind result_bind]; by rewrite Hser).
  rewrite El, concatenate_cons, str_of. set (bs := _ ++ concatenate _).
  destruct (reparse_wrapped seg ips ps ipd pd (Buffer_of bs) Hips Hps Hipd Hpd Hok Hwf) as (pl & Hp & Hpl & Hstr).
  { apply wf_of. destruct Hwf as [Hh Hl]. unfold bs. rewrite !slen_app, ipv4_head_bytes_slen, ipv4_tail_bytes_slen, be_bytes_slen
      by (destruct Hh; lia). destruct Hh. unfold_width. lia. }
  { apply str_of. }
  destruct (unwrap_eq (tun_base b) seg ips ps ipd pd (header_cksum (datagram_header ips ipd seg)) pl)
    as (b' & seg' & Hu & Hrec & Hc); try done.
  unfold tun_read. rewrite Hp. cbn [mbind result_bind]. rewrite bool_decide_eq_true_2 by done. cbn [negb].
  rewrite Hu. cbn [mbind result_bind]. by exists (mkTun b' (_tun b)), seg'.
Qed.

(** Two hosts: 10.0.0.1 port 1000 connects to 10.0.0.2, which listens on port 80. *)
Definition sample_client : TCPOverIPv4OverTunFdAdapter :=
  mkTun (mkFdAdapterBase (mkFdAdapterConfig (Address_in 0x0a000001 1000) (Address_in 0x0a000002 80) 0 0) false) [].

Definition sample_server : TCPOverIPv4OverTunFdAdapter :=
  mkTun (mkFdAdapterBase (mkFdAdapterConfig (Address_in 0 80) (Address_in 0 0) 0 0) true) [].

Definition sample_syn : TCPSegment :=
  mkTCPSegment (with_syn TCPHeader_default) (Buffer_of [104; 105]).

Lemma sample_syn_ok : seg_ok sample_syn.
Proof.
  split; [split; concrete| |concrete]. do 2 (apply Forall_cons_2; [concrete|]). apply Forall_nil_2.
Qed.

Lemma tun_delivers_witness :
  ∃ l b' seg',
    @tun_write numeric_resolver sample_client sample_syn =
      Ok (mkTun (tun_base sample_client) [l], addressed sample_syn 1000 80) ∧
    @tun_read numeric_resolver sample_server (concatenate l) = Ok (b', Some seg') ∧
    received sample_syn 0x0a000001 1000 0x0a000002 80 seg' ∧ connected (tun_base b') 0x0a000001 1000 0x0a000002 80.
Proof.
  apply (@tun_delivers numeric_resolver numeric_resolver_laws sample_client sample_server sample_syn
           0x0a000001 1000 0x0a000002 80).
  - concrete.
  - concrete.
  - concrete.
  - concrete.
  - apply sample_syn_ok.
  - reflexivity.
  - reflexivity.
  - right. split; [done|]. split; [|done]. exists 0. split; [concrete|reflexivity].
Defined.

(** C21: filtering.  The adapter passes on a segment only if the datagram carries
    TCP with a correct checksum to the adapter's own port; it is then connected
    to the peer the segment came from.  A connected adapter is unchanged and
    has checked both addresses; a listening one has seen a SYN without RST and
    takes over the datagram's addresses.  A datagram that is not passed on
    changes nothing. *)
Theorem unwrap_filters {R : Resolver} {L : NumericResolver} (a a' : FdAdapterBase) (d : IPv4Datagram)
    (o : option TCPSegment) (any p : Z) :
  is_u32 any → is_u16 p → source (config a) = Address_in any p →
  is_u32 (src (IPv4Datagram.header d)) → is_u32 (dst (IPv4Datagram.header d)) →
  unwrap_tcp_in_ip a d = Ok (a', o) →
  match o with
  | None => a' = a
  | Some seg =>
      proto (IPv4Datagram.header d) = PROTO_TCP ∧
      (∃ b, to_Buffer (IPv4Datagram.payload d) = Ok b ∧
         TCPSegment.parse TCPSegment_default b (pseudo_cksum (IPv4Datagram.header d)) = Ok (seg, NoError)) ∧
      dport (TCPSegment.header seg) = p ∧
      listening a' = false ∧ port (destination (config a')) = Ok (sport (TCPSegment.header seg)) ∧
      ipv4_numeric (source (config a')) = Ok (dst (IPv4Datagram.header d)) ∧
      ipv4_numeric (destination (config a')) = Ok (src (IPv4Datagram.header d)) ∧
      (listening a = false → a' = a) ∧
      (listening a = true → syn (TCPSegment.header seg) = true ∧ rst (TCPSegment.header seg) = false)
  end.
Proof.
  intros Hany Hp Hsrc Hsr Hds H. unfold unwrap_tcp_in_ip in H. rewrite Hsrc in H.
  destruct (listening a) eqn:El.
  - cbn [mbind result_bind negb] in H. destruct (proto _ =? PROTO_TCP) eqn:Epr; cbn [negb] in H; [|by simplify_eq].
    apply result_bind_ok in H as (b & Hb & H). apply result_bind_ok in H as ([seg res] & Hparse & H).
    case_bool_decide; cbn [negb] in H; [subst res|by simplify_eq]. rewrite port_in in H by done.
    cbn [mbind result_bind] in H. destruct (dport _ =? p) eqn:Edp; cbn [negb] in H; [|by simplify_eq].
    destruct (syn _ && negb (rst _)) eqn:Esyn; [|by simplify_eq]. apply andb_true_iff in Esyn as [? ?%negb_true_iff].
    pose proof (segment_parse_ports _ _ _ _ Hparse) as [Hsp _].
    rewrite (accept_peer_eq a _ seg any p) in H by done. cbn [mbind result_bind] in H. unfold from_peer in H.
    cbn [config _cfg destination] in H. rewrite port_in in H by done.
    cbn [mbind result_bind] in H. rewrite Z.eqb_refl in H. simplify_eq/=.
    rewrite port_in, !ipv4_numeric_in by done. split_and!; try done; [lia|by exists b|lia].
  - apply result_bind_ok in H as (fu & (s & Hs & [= <-])%result_bind_ok & H).
    rewrite ipv4_numeric_in in Hs by done. apply Ok_inj in Hs as <-.
    destruct (dst _ =? any) eqn:Ed; cbn [negb] in H; [|by simplify_eq].
    apply result_bind_ok in H as (ft & (s & Hs & [= <-])%result_bind_ok & H).
    destruct (src _ =? s) eqn:Es; cbn [negb] in H; [|by simplify_eq].
    destruct (proto _ =? PROTO_TCP) eqn:Epr; cbn [negb] in H; [|by simplify_eq].
    apply result_bind_ok in H as (b & Hb & H). apply result_bind_ok in H as ([seg res] & Hparse & H).
    case_bool_decide; cbn [negb] in H; [subst res|by simplify_eq]. rewrite port_in in H by done.
    cbn [mbind result_bind] in H. destruct (dport _ =? p) eqn:Edp; cbn [negb] in H; [|by simplify_eq].
    unfold from_peer in H. apply result_bind_ok in H as (dp & Hdp & H).
    destruct (sport _ =? dp) eqn:Esp; simplify_eq; [|done]. apply Z.eqb_eq in Ed, Es, Epr, Edp, Esp. subst.
    rewrite Hsrc, ipv4_numeric_in by done. split_and!; try done. by exists b.
Qed.

Definition sample_arrival : IPv4Datagram :=
  match @wrap_tcp_in_ip numeric_resolver (tun_base sample_client) sample_syn with
  | Ok (_, d) => mkIPv4Datagram (IPv4Datagram.header d) [Buffer_of (concatenate (IPv4Datagram.payload d))]
  | Throw _ => IPv4Datagram_default
  end.

Definition sample_outcome : FdAdapterBase * option TCPSegment :=
  match @unwrap_tcp_in_ip numeric_resolver (tun_base sample_server) sample_arrival with
  | Ok r => r
  | Throw _ => (tun_base sample_server, None)
  end.

Lemma unwrap_filters_witness :
  match sample_outcome.2 with
  | Some seg => dport (TCPSegment.header seg) = 80 ∧ syn (TCPSegment.header seg) = true
  | None => False
  end.
Proof.
  pose proof (@unwrap_filters numeric_resolver numeric_resolver_laws (tun_base sample_server)
    sample_outcome.1 sample_arrival sample_outcome.2 0 80) as H.
  assert (∃ seg, sample_outcome.2 = Some seg) as [seg Hseg] by (vm_compute; eexists; reflexivity).
  rewrite Hseg in H |- *. destruct H as (_ & _ & Hd & _ & _ & _ & _ & _ & Hl).
  - concrete.
  - concrete.
  - reflexivity.
  - concrete.
  - concrete.
  - rewrite <- Hseg. vm_compute. reflexivity.
  - split; [exact Hd|]. apply Hl. reflexivity.
Defined.
