(* ===== verification/TunTapAdapter.v ===== *)
(** * TCP in IPv4 over Ethernet (tcp_helpers/tuntap_adapter.{hh,cc})

    The adapter between TCP segments and the Ethernet frames of a TAP device, by
    way of a [NetworkInterface].  What the device delivers is an argument of
    [read]; what is written to it is kept as a list. *)

From stdpp Require Import gmap.
From S2P Require Import Prelude WrappingIntegers Buffer Parser Checksum TCPHeader TCPSegment.
From S2P Require Import IPv4Header IPv4Datagram EthernetHeader EthernetFrame ARPMessage.
From S2P Require Import Address NetworkInterface FdAdapter TCPOverIP.
From stdpp Require Import options.

Local Open Scope Z_scope.

Record TCPOverIPv4OverEthernetAdapter := mkEth {
  eth_base : FdAdapterBase;
  _tap : list BufferList;
  _interface : NetworkInterface;
  _next_hop : Address
}.

Section Ethernet.
Context `{Resolver}.

(** The constructor writes one dummy frame. *)
Definition TCPOverIPv4OverEthernetAdapter_new (eth_address : EthernetAddress) (ip_address next_hop : Address)
    : result TCPOverIPv4OverEthernetAdapter :=
  b ← FdAdapterBase_default;
  n ← NetworkInterface_new eth_address ip_address;
  Ok (mkEth b [EthernetFrame.serialize EthernetFrame_default] n next_hop).

(** The loop of [send_pending]. *)
Fixpoint write_frames (tap : list BufferList) (frames : list EthernetFrame) : list BufferList :=
  match frames with
  | [] => tap
  | f :: frames => write_frames (tap ++ [EthernetFrame.serialize f]) frames
  end.

Definition send_pending (a : TCPOverIPv4OverEthernetAdapter) : TCPOverIPv4OverEthernetAdapter :=
  mkEth (eth_base a) (write_frames (_tap a) (frames_out (_interface a)))
    (set_frames_out (_interface a) []) (_next_hop a).

Definition set_interface (a : TCPOverIPv4OverEthernetAdapter) (n : NetworkInterface)
    : TCPOverIPv4OverEthernetAdapter := mkEth (eth_base a) (_tap a) n (_next_hop a).

Definition set_eth_base (a : TCPOverIPv4OverEthernetAdapter) (b : FdAdapterBase)
    : TCPOverIPv4OverEthernetAdapter := mkEth b (_tap a) (_interface a) (_next_hop a).

Definition eth_read (a : TCPOverIPv4OverEthernetAdapter) (data : bytes)
    : result (TCPOverIPv4OverEthernetAdapter * option TCPSegment) :=
  '(frame, res) ← EthernetFrame.parse EthernetFrame_default (Buffer_of data);
  if negb (bool_decide (res = NoError)) then Ok (a, None)
  else
    '(n, ip_dgram) ← NetworkInterface.recv_frame (_interface a) frame;
    let a := send_pending (set_interface a n) in
    match ip_dgram with
    | Some d => '(b, seg) ← unwrap_tcp_in_ip (eth_base a) d; Ok (set_eth_base a b, seg)
    | None => Ok (a, None)
    end.

Definition eth_tick (a : TCPOverIPv4OverEthernetAdapter) (ms_since_last_tick : Z)
    : result TCPOverIPv4OverEthernetAdapter :=
  Ok (send_pending (set_interface a (NetworkInterface.tick (_interface a) ms_since_last_tick))).

Definition eth_write (a : TCPOverIPv4OverEthernetAdapter) (seg : TCPSegment)
    : result (TCPOverIPv4OverEthernetAdapter * TCPSegment) :=
  '(seg, dgram) ← wrap_tcp_in_ip (eth_base a) seg;
  n ← NetworkInterface.send_datagram (_interface a) dgram (_next_hop a);
  Ok (send_pending (set_interface a n), seg).

#[export] Instance eth_adapter : FdAdapter TCPOverIPv4OverEthernetAdapter bytes := {|
  adapter_read := eth_read;
  adapter_write := eth_write;
  adapter_tick := eth_tick;
  adapter_base := eth_base;
  adapter_set_base := set_eth_base
|}.

(** ** Lemmas *)

Lemma write_frames_eq tap frames : write_frames tap frames = tap ++ map EthernetFrame.serialize frames.
Proof using Type.
  revert tap. induction frames as [|f frames IH]; intros tap; simpl; [by rewrite app_nil_r|].
  by rewrite IH, <- app_assoc.
Qed.

Lemma send_pending_idle a : frames_out (_interface a) = [] → send_pending a = a.
Proof using Type.
  intros Hf. unfold send_pending. rewrite Hf. cbn [write_frames]. rewrite <- Hf. destruct a as [? ? n ?].
  cbn. f_equal. by destruct n.
Qed.

(** Reading the bytes of a frame is what the interface does with it, then
    writing what it wants to send. *)
Lemma eth_read_deliver a f :
  frames_out (_interface a) = [] →
  eth_read a (concatenate (EthernetFrame.serialize f)) =
    ('(n, ip_dgram) ← deliver (_interface a) f;
     let a := send_pending (set_interface a n) in
     match ip_dgram with
     | Some d => '(b, seg) ← unwrap_tcp_in_ip (eth_base a) d; Ok (set_eth_base a b, seg)
     | None => Ok (a, None)
     end).
Proof using Type.
  intros Hf. unfold eth_read, deliver, EthernetFrame.on_wire.
  destruct (EthernetFrame.parse _ _) as [[f' res]|e]; [|done]. cbn [mbind result_bind].
  case_bool_decide; cbn [negb]; [done|]. cbn [mbind result_bind].
  rewrite send_pending_idle; by destruct a.
Qed.

Lemma eth_read_none a f n :
  frames_out (_interface a) = [] → deliver (_interface a) f = Ok (n, None) →
  eth_read a (concatenate (EthernetFrame.serialize f)) = Ok (send_pending (set_interface a n), None).
Proof using Type. intros Hf Hd. by rewrite eth_read_deliver, Hd. Qed.

Lemma eth_read_some a f n d b o :
  frames_out (_interface a) = [] → deliver (_interface a) f = Ok (n, Some d) →
  unwrap_tcp_in_ip (eth_base a) d = Ok (b, o) →
  eth_read a (concatenate (EthernetFrame.serialize f)) = Ok (set_eth_base (send_pending (set_interface a n)) b, o).
Proof using Type.
  intros Hf Hd Hu. rewrite eth_read_deliver, Hd by done. cbn [mbind result_bind].
  change (eth_base (send_pending (set_interface a n))) with (eth_base a). by rewrite Hu.
Qed.

Lemma tap_pending a n f :
  frames_out n = [f] → _tap (send_pending (set_interface a n)) = _tap a ++ [EthernetFrame.serialize f].
Proof using Type. intros Hf. unfold send_pending. cbn [_tap _interface set_interface]. by rewrite write_frames_eq, Hf. Qed.

End Ethernet.

(** Interfaces that have nothing to do with each other yet. *)
Record strangers (a b : NetworkInterface) : Prop := {
  strangers_wf_a : NetworkInterface.wf a;
  strangers_wf_b : NetworkInterface.wf b;
  strangers_idle_a : frames_out a = [];
  strangers_idle_b : frames_out b = [];
  strangers_cache : _cached_ethernet_addresses a !! _ip_address_raw b = None;
  strangers_timer : _arp_message_timers a !! _ip_address_raw b = None;
  strangers_queue_a : _datagram_queue a !! _ip_address_raw b = None;
  strangers_queue_b : _datagram_queue b !! _ip_address_raw a = None
}.

(** ** Properties *)

(** C19: segments cross an Ethernet.  A host writes its first segment for a next
    hop.  The frames that the two adapters then write to their devices, each
    read by the other, are an ARP request, its reply and the datagram, and the
    receiving adapter, connected to the sender or listening for its SYN, reads
    the same segment with ports and checksum filled in. *)
Theorem ethernet_delivers {R : Resolver} {L : NumericResolver} (a b : TCPOverIPv4OverEthernetAdapter)
    (seg : TCPSegment) (ips ps ipd pd : Z) :
  is_u32 ips → is_u16 ps → is_u32 ipd → is_u16 pd → seg_ok seg →
  source (config (eth_base a)) = Address_in ips ps → destination (config (eth_base a)) = Address_in ipd pd →
  connected (eth_base b) ips ps ipd pd ∨ accepting (eth_base b) pd seg →
  strangers (_interface a) (_interface b) →
  ipv4_numeric (_next_hop a) = Ok (_ip_address_raw (_interface b)) →
  ∃ a1 request b1 reply a2 frame b2 seg',
    eth_write a seg = Ok (a1, addressed seg ps pd) ∧ _tap a1 = _tap a ++ [request] ∧
    eth_read b (concatenate request) = Ok (b1, None) ∧ _tap b1 = _tap b ++ [reply] ∧
    eth_read a1 (concatenate reply) = Ok (a2, None) ∧ _tap a2 = _tap a1 ++ [frame] ∧
    eth_read b1 (concatenate frame) = Ok (b2, Some seg') ∧
    received seg ips ps ipd pd seg' ∧ connected (eth_base b2) ips ps ipd pd.
Proof.
  intros Hips Hps Hipd Hpd Hok Hs Hd Hb [Ha1 Hb1 Hfa Hfb Hc Ht Hqa Hqb] Hhop.
  destruct (wrap_eq (eth_base a) seg ips ps ipd pd Hips Hps Hipd Hpd Hs Hd Hok) as [Hw Hwf].
  match type of Hwf with IPv4Datagram.wf ?x => set (d := x) in * end.
  pose proof (serialize_datagram_eq d Hwf) as Hl.
  set (w := waiting (_interface a) (_ip_address_raw (_interface b)) d).
  assert (send_datagram (_interface a) d (_next_hop a) = Ok w) as Hsend
    by (apply send_datagram_unknown; try done; apply Hb1).
  assert (NetworkInterface.wf (set_frames_out w [])) as Hwa by (by destruct Ha1).
  destruct (request_answered (_interface a) (_interface b) Ha1 Hb1 Hfb Hqb) as (n1 & Hn1 & Hf1 & Hwf1 & He1).
  destruct (reply_releases (set_frames_out w []) (_interface b) d _ Hwa Hb1 eq_refl Hl) as (n2 & Hn2 & Hf2).
  { simpl. by rewrite lookup_insert_eq, Hqa. }
  assert (NetworkInterface.wf (set_frames_out n1 [])) as Hwb by (by destruct Hwf1).
  destruct (deliver_ip (set_frames_out n1 []) (set_frames_out w []) d _ Hwb Hwa Hwf Hl) as (pl & Hdel & Hpl & Hstr).
  cbn [_ethernet_address set_frames_out] in Hdel. rewrite He1 in Hdel.
  destruct (unwrap_eq (eth_base b) seg ips ps ipd pd (header_cksum (datagram_header ips ipd seg)) pl)
    as (b' & seg' & Hu & Hrec & Hcon); try done.
  exists (send_pending (set_interface a w)), (EthernetFrame.serialize (arp_request (_interface a) (_ip_address_raw (_interface b)))).
  exists (send_pending (set_interface b n1)). eexists.
  exists (send_pending (set_interface (send_pending (set_interface a w)) n2)). eexists.
  eexists (set_eth_base _ b'), seg'. split_and!.
  - unfold eth_write. rewrite Hw. cbn [mbind result_bind]. by rewrite Hsend.
  - apply tap_pending. unfold frames_out in *. cbn [_frames_out waiting w]. by rewrite Hfa.
  - by apply eth_read_none.
  - apply tap_pending. exact Hf1.
  - by apply eth_read_none.
  - apply tap_pending. exact Hf2.
  - eapply eth_read_some; [done|exact Hdel|exact Hu].
  - done.
  - done.
Qed.

(** The two hosts of the TUN example, each with an interface. *)
Definition eth_client : TCPOverIPv4OverEthernetAdapter :=
  mkEth (tun_base sample_client) [] (sample_interface 1 0x0a000001) (Address_in 0x0a000002 0).

Definition eth_server : TCPOverIPv4OverEthernetAdapter :=
  mkEth (tun_base sample_server) [] (sample_interface 2 0x0a000002) (Address_in 0x0a000001 0).

Lemma ethernet_delivers_witness :
  ∃ a1 request b1 reply a2 frame b2 seg',
    @eth_write numeric_resolver eth_client sample_syn = Ok (a1, addressed sample_syn 1000 80) ∧
    _tap a1 = [request] ∧
    @eth_read numeric_resolver eth_server (concatenate request) = Ok (b1, None) ∧ _tap b1 = [reply] ∧
    @eth_read numeric_resolver a1 (concatenate reply) = Ok (a2, None) ∧ _tap a2 = _tap a1 ++ [frame] ∧
    @eth_read numeric_resolver b1 (concatenate frame) = Ok (b2, Some seg') ∧
    received sample_syn 0x0a000001 1000 0x0a000002 80 seg' ∧ connected (eth_base b2) 0x0a000001 1000 0x0a000002 80.
Proof.
  apply (@ethernet_delivers numeric_resolver numeric_resolver_laws eth_client eth_server sample_syn
           0x0a000001 1000 0x0a000002 80).
  - concrete.
  - concrete.
  - concrete.
  - concrete.
  - apply sample_syn_ok.
  - reflexivity.
  - reflexivity.
  - right. split; [done|]. split; [|done]. exists 0. split; [concrete|reflexivity].
  - split; [apply sample_interface_wf; concrete|apply sample_interface_wf; concrete|done..].
  - concrete.
Defined.
