(* ===== verification/TCPSpongeSocket.v ===== *)
(** * The TCP socket (tcp_helpers/tcp_sponge_socket.{hh,cc})

    A [TCPSpongeSocket] runs a [TCPConnection] in a thread of its own.  The
    owner and the thread share a pair of connected stream sockets; the thread
    waits in an event loop for data of the owner, datagrams of the adapter and
    time to pass.  The model is the thread.  The owner is the other end of
    [_thread_data], seen through the kernel, and its flag [_abort], of which
    the values that the thread loads are an argument of the loop.  The
    debugging output is not modelled, but the conversion of an address that it
    contains, which can throw, is. *)

From S2P Require Import Prelude ByteStream StreamReassembler Buffer TCPSegment TCPConfig.
From S2P Require Import TCPState TCPConnection Address FileDescriptor EventLoop Socket FdAdapter.
From stdpp Require Import options.

Local Open Scope Z_scope.

Definition TCP_TICK_MS : Z := 10.

(** What the socket uses of its adapter, the calls of the kernel included. *)
Class SocketAdapter (K A : Type) := {
  sa_fd : A → FDWrapper;
  sa_read : K → A → result (K * A * option TCPSegment);
  sa_write : K → A → TCPSegment → result (K * A * TCPSegment);
  sa_tick : K → A → Z → result (K * A);
  sa_base : A → FdAdapterBase;
  sa_set_base : A → FdAdapterBase → A
}.

(** [_owner] is the owner's end, the base class. *)
Record TCPSpongeSocket (A : Type) := mkSocket {
  _owner : FDWrapper;
  _thread_data : FDWrapper;
  _datagram_adapter : A;
  _tcp : option TCPConnection;
  _inbound_shutdown : bool;
  _outbound_shutdown : bool;
  _fully_acked : bool
}.
Arguments mkSocket {A} _ _ _ _ _ _ _.
Arguments _owner {A} _.
Arguments _thread_data {A} _.
Arguments _datagram_adapter {A} _.
Arguments _tcp {A} _.
Arguments _inbound_shutdown {A} _.
Arguments _outbound_shutdown {A} _.
Arguments _fully_acked {A} _.

Section TCPSpongeSocket.
Context {K A : Type} `{Kernel K} `{SocketAdapter K A} `{Resolver}.
Context (reads : Reads).

(** Assignments to the members. *)
Definition set_owner (s : TCPSpongeSocket A) (w : FDWrapper) : TCPSpongeSocket A :=
  mkSocket w (_thread_data s) (_datagram_adapter s) (_tcp s) (_inbound_shutdown s)
    (_outbound_shutdown s) (_fully_acked s).
Definition set_thread_data (s : TCPSpongeSocket A) (w : FDWrapper) : TCPSpongeSocket A :=
  mkSocket (_owner s) w (_datagram_adapter s) (_tcp s) (_inbound_shutdown s)
    (_outbound_shutdown s) (_fully_acked s).
Definition set_adapter (s : TCPSpongeSocket A) (a : A) : TCPSpongeSocket A :=
  mkSocket (_owner s) (_thread_data s) a (_tcp s) (_inbound_shutdown s)
    (_outbound_shutdown s) (_fully_acked s).
Definition set_tcp (s : TCPSpongeSocket A) (c : option TCPConnection) : TCPSpongeSocket A :=
  mkSocket (_owner s) (_thread_data s) (_datagram_adapter s) c (_inbound_shutdown s)
    (_outbound_shutdown s) (_fully_acked s).
Definition set_inbound_shutdown (s : TCPSpongeSocket A) : TCPSpongeSocket A :=
  mkSocket (_owner s) (_thread_data s) (_datagram_adapter s) (_tcp s) true
    (_outbound_shutdown s) (_fully_acked s).
Definition set_outbound_shutdown (s : TCPSpongeSocket A) : TCPSpongeSocket A :=
  mkSocket (_owner s) (_thread_data s) (_datagram_adapter s) (_tcp s) (_inbound_shutdown s)
    true (_fully_acked s).
Definition set_fully_acked (s : TCPSpongeSocket A) : TCPSpongeSocket A :=
  mkSocket (_owner s) (_thread_data s) (_datagram_adapter s) (_tcp s) (_inbound_shutdown s)
    (_outbound_shutdown s) true.

(** [_tcp->], undefined on an empty optional. *)
Definition get_tcp (s : TCPSpongeSocket A) : result TCPConnection :=
  match _tcp s with Some c => Ok c | None => Throw Undefined end.

(** [_tcp.value()], which throws. *)
Definition tcp_value (s : TCPSpongeSocket A) : result TCPConnection :=
  match _tcp s with Some c => Ok c | None => Throw BadOptionalAccess end.

(** [_tcp->inbound_stream() = b]. *)
Definition set_inbound (c : TCPConnection) (b : ByteStream) : TCPConnection :=
  set_receiver c (map_inbound (λ _, b) (_receiver c)).

(** The peer's address, as it is printed. *)
Definition print_destination (s : TCPSpongeSocket A) : result unit :=
  _ ← Address.to_string (destination (config (sa_base (_datagram_adapter s)))); Ok tt.

(** ** The four rules *)

Definition rule1_callback (st : K * TCPSpongeSocket A) : result (K * TCPSpongeSocket A) :=
  let '(k, s) := st in
  '(k, a, seg) ← sa_read k (_datagram_adapter s);
  let s := set_adapter s a in
  s ← match seg with
      | Some seg =>
          tcp ← get_tcp s;
          tcp ← TCPConnection.segment_received reads tcp seg;
          Ok (set_tcp s (Some tcp))
      | None => Ok s
      end;
  if eof (_thread_data s) then
    tcp ← tcp_value s;
    if (bytes_in_flight tcp =? 0) && negb (_fully_acked s) then
      _ ← print_destination s; Ok (k, set_fully_acked s)
    else Ok (k, s)
  else Ok (k, s).

Definition tcp_active (s : TCPSpongeSocket A) : bool :=
  match _tcp s with Some c => active c | None => false end.

(** No bytes are lost between the two: the connection takes what has been read. *)
Definition rule2_callback (st : K * TCPSpongeSocket A) : result (K * TCPSpongeSocket A) :=
  let '(k, s) := st in
  tcp ← get_tcp s;
  '(k, w, data) ← FileDescriptor.read k (_thread_data s) (remaining_outbound_capacity tcp);
  let s := set_thread_data s w in
  let len := slen data in
  '(tcp, amount_written) ← TCPConnection.write tcp data;
  let s := set_tcp s (Some tcp) in
  if negb (amount_written =? len) then Throw RuntimeError
  else if eof (_thread_data s) then
    tcp ← end_input_stream tcp;
    let s := set_outbound_shutdown (set_tcp s (Some tcp)) in
    _ ← print_destination s;
    Ok (k, s)
  else Ok (k, s).

Definition rule2_interest (s : TCPSpongeSocket A) : bool :=
  match _tcp s with
  | Some c => active c && negb (_outbound_shutdown s) && (0 <? remaining_outbound_capacity c)
  | None => false
  end.

Definition rule2_cancel (st : K * TCPSpongeSocket A) : result (K * TCPSpongeSocket A) :=
  let '(k, s) := st in
  tcp ← get_tcp s;
  tcp ← end_input_stream tcp;
  Ok (k, set_outbound_shutdown (set_tcp s (Some tcp))).

Definition rule3_callback (st : K * TCPSpongeSocket A) : result (K * TCPSpongeSocket A) :=
  let '(k, s) := st in
  tcp ← get_tcp s;
  let inbound := inbound_stream tcp in
  let amount_to_write := Z.min 65536 (buffer_size inbound) in
  buffer ← peek_output inbound amount_to_write;
  '(k, w, bytes_written) ← FileDescriptor.write k (_thread_data s) (BufferViewList_of_string buffer) false;
  let s := set_thread_data s w in
  inbound ← pop_output inbound bytes_written;
  let s := set_tcp s (Some (set_inbound tcp inbound)) in
  if ByteStream.eof inbound || error inbound then
    '(k, w) ← Socket.shutdown k (_thread_data s) SHUT_WR;
    let s := set_inbound_shutdown (set_thread_data s w) in
    _ ← print_destination s;
    Ok (k, s)
  else Ok (k, s).

Definition rule3_interest (s : TCPSpongeSocket A) : bool :=
  match _tcp s with
  | Some c =>
      negb (buffer_empty (inbound_stream c)) ||
      ((ByteStream.eof (inbound_stream c) || error (inbound_stream c)) && negb (_inbound_shutdown s))
  | None => false
  end.

(** The loop of the fourth rule: a segment is popped after it has been written. *)
Fixpoint write_segments (k : K) (a : A) (segments : list TCPSegment) : result (K * A) :=
  match segments with
  | [] => Ok (k, a)
  | seg :: segments => '(k, a, _) ← sa_write k a seg; write_segments k a segments
  end.

Definition rule4_callback (st : K * TCPSpongeSocket A) : result (K * TCPSpongeSocket A) :=
  let '(k, s) := st in
  tcp ← get_tcp s;
  '(k, a) ← write_segments k (_datagram_adapter s) (segments_out tcp);
  Ok (k, set_tcp (set_adapter s a) (Some (set_segments_out tcp []))).

Definition rule4_interest (s : TCPSpongeSocket A) : bool :=
  match _tcp s with
  | Some c => match segments_out c with [] => false | _ => true end
  | None => false
  end.

(** The default of [cancel]. *)
Definition no_cancel (st : K * TCPSpongeSocket A) : result (K * TCPSpongeSocket A) := Ok st.

Definition tcp_rules : list (@Rule K (TCPSpongeSocket A)) :=
  add_rule (add_rule (add_rule (add_rule []
    (mkRule (λ s, sa_fd (_datagram_adapter s)) In rule1_callback tcp_active no_cancel))
    (mkRule _thread_data In rule2_callback rule2_interest rule2_cancel))
    (mkRule _thread_data Out rule3_callback rule3_interest no_cancel))
    (mkRule (λ s, sa_fd (_datagram_adapter s)) Out rule4_callback rule4_interest no_cancel).

(** ** Construction and loops *)

(** The constructor, given the two ends of a socket pair. *)
Definition TCPSpongeSocket_new (k : K) (first second : FDWrapper) (datagram_interface : A)
    : result (K * TCPSpongeSocket A) :=
  '(k, owner) ← LocalStreamSocket_of_fd k first;
  '(k, thread_data) ← LocalStreamSocket_of_fd k second;
  k ← set_blocking k thread_data false;
  Ok (k, mkSocket owner thread_data datagram_interface None false false false).

Definition socket_pair_helper (k : K) (type : Z) : result (K * FDWrapper * FDWrapper) :=
  let '(k, r) := sys_socketpair k AF_UNIX type in
  '(fd0, fd1) ← SystemCall r;
  first ← FDWrapper_new fd0;
  second ← FDWrapper_new fd1;
  Ok (k, first, second).

(** The public constructor. *)
Definition TCPSpongeSocket_of (k : K) (datagram_interface : A) : result (K * TCPSpongeSocket A) :=
  '(k, first, second) ← socket_pair_helper k SOCK_STREAM;
  TCPSpongeSocket_new k first second datagram_interface.

(** [random] is what the constructor of the sender draws. *)
Definition _initialize_TCP (s : TCPSpongeSocket A) (cfg : TCPConfig) (random : Z)
    : TCPSpongeSocket A * list (@Rule K (TCPSpongeSocket A)) :=
  (set_tcp s (Some (TCPConnection_new cfg random)), tcp_rules).

(** One round of [_tcp_loop]; the first component says whether to go on. *)
Definition tcp_loop_round (abort : bool) (rules : list (@Rule K (TCPSpongeSocket A)))
    (st : K * TCPSpongeSocket A) (base_time : Z)
    : result (bool * list (@Rule K (TCPSpongeSocket A)) * (K * TCPSpongeSocket A) * Z) :=
  '(rules, (k, s), ret) ← wait_next_event rules st TCP_TICK_MS;
  if (match ret with Exit => true | _ => false end) || abort then Ok (false, rules, (k, s), base_time)
  else
    tcp ← tcp_value s;
    if active tcp then
      let '(k, next_time) := sys_clock k in
      let s := set_tcp s (Some (TCPConnection.tick tcp (u64 (next_time - base_time)))) in
      '(k, a) ← sa_tick k (_datagram_adapter s) (u64 (next_time - base_time));
      Ok (true, rules, (k, set_adapter s a), next_time)
    else Ok (true, rules, (k, s), base_time).

(** The loop, for as many rounds as there are values of [_abort]; the last
    component of the result says whether it has ended. *)
Fixpoint tcp_loop (aborts : list bool) (condition : TCPSpongeSocket A → bool)
    (rules : list (@Rule K (TCPSpongeSocket A))) (st : K * TCPSpongeSocket A) (base_time : Z)
    : result (list (@Rule K (TCPSpongeSocket A)) * (K * TCPSpongeSocket A) * bool) :=
  if negb (condition st.2) then Ok (rules, st, true)
  else
    match aborts with
    | [] => Ok (rules, st, false)
    | abort :: aborts =>
        '(continue, rules, st, base_time) ← tcp_loop_round abort rules st base_time;
        if continue : bool then tcp_loop aborts condition rules st base_time else Ok (rules, st, true)
    end.

Definition _tcp_loop (aborts : list bool) (condition : TCPSpongeSocket A → bool)
    (rules : list (@Rule K (TCPSpongeSocket A))) (st : K * TCPSpongeSocket A)
    : result (list (@Rule K (TCPSpongeSocket A)) * (K * TCPSpongeSocket A) * bool) :=
  let '(k, s) := st in
  let '(k, base_time) := sys_clock k in
  tcp_loop aborts condition rules (k, s) base_time.

Definition in_state (x : State) (s : TCPSpongeSocket A) : bool :=
  match _tcp s with Some c => state_eqb (state c) (TCPState_of_State x) | None => false end.

Definition configure (s : TCPSpongeSocket A) (c_ad : FdAdapterConfig) : TCPSpongeSocket A :=
  set_adapter s (sa_set_base (_datagram_adapter s) (set_config (sa_base (_datagram_adapter s)) c_ad)).

Definition connect (st : K * TCPSpongeSocket A) (c_tcp : TCPConfig) (c_ad : FdAdapterConfig) (random : Z)
    (aborts : list bool) : result (list (@Rule K (TCPSpongeSocket A)) * (K * TCPSpongeSocket A) * bool) :=
  let '(k, s) := st in
  match _tcp s with
  | Some _ => Throw RuntimeError
  | None =>
      let '(s, rules) := _initialize_TCP s c_tcp random in
      let s := configure s c_ad in
      _ ← Address.to_string (destination c_ad);
      tcp ← get_tcp s;
      tcp ← TCPConnection.connect tcp;
      let s := set_tcp s (Some tcp) in
      if negb (in_state SYN_SENT s) then Throw RuntimeError
      else _tcp_loop aborts (in_state SYN_SENT) rules (k, s)
  end.

Definition listen_and_accept (st : K * TCPSpongeSocket A) (c_tcp : TCPConfig) (c_ad : FdAdapterConfig)
    (random : Z) (aborts : list bool)
    : result (list (@Rule K (TCPSpongeSocket A)) * (K * TCPSpongeSocket A) * bool) :=
  let '(k, s) := st in
  match _tcp s with
  | Some _ => Throw RuntimeError
  | None =>
      let '(s, rules) := _initialize_TCP s c_tcp random in
      let s := configure s c_ad in
      let s := set_adapter s (sa_set_base (_datagram_adapter s)
                 (set_listening (sa_base (_datagram_adapter s)) true)) in
      '(rules, (k, s), ended) ←
        _tcp_loop aborts (λ s, in_state LISTEN s || in_state SYN_RCVD s || in_state SYN_SENT s) rules (k, s);
      _ ← print_destination s;
      Ok (rules, (k, s), ended)
  end.

(** What the owner does in [wait_until_closed] before it waits for the thread
    to end.  The destructor does nothing else than to set [_abort] and wait. *)
Definition wait_until_closed (k : K) (s : TCPSpongeSocket A) : result (K * TCPSpongeSocket A) :=
  '(k, w) ← Socket.shutdown k (_owner s) SHUT_RDWR; Ok (k, set_owner s w).

(** The thread: the loop, then the shutdown of the owner's end; the connection
    is destroyed. *)
Definition _tcp_main (rules : list (@Rule K (TCPSpongeSocket A))) (st : K * TCPSpongeSocket A)
    (aborts : list bool) : result (list (@Rule K (TCPSpongeSocket A)) * (K * TCPSpongeSocket A) * bool) :=
  match _tcp st.2 with
  | None => Throw RuntimeError
  | Some _ =>
      '(rules, (k, s), ended) ← _tcp_loop aborts (λ _, true) rules st;
      if ended : bool then
        '(k, w) ← Socket.shutdown k (_owner s) SHUT_RDWR;
        Ok (rules, (k, set_tcp (set_owner s w) None), true)
      else Ok (rules, (k, s), false)
  end.

End TCPSpongeSocket.
