(* ===== verification/SocketDelivery.v ===== *)
(** * The streams of a TCP socket

    A TCP socket connects its owner's stream to the peer's: what the owner
    writes is what the segments carry, and what the owner reads is a prefix of
    what the peer's segments carry.  The kernel and the adapter are given by
    what is relied upon of them, as classes. *)

From S2P Require Import Prelude WrappingIntegers ByteStream StreamReassembler Buffer TCPHeader TCPSegment.
From S2P Require Import TCPConfig StreamSegments TCPReceiver TCPSender TCPConnection EndToEnd.
From S2P Require Import Address FileDescriptor EventLoop Socket FdAdapter TCPSpongeSocket.
From stdpp Require Import options.

Local Open Scope Z_scope.

(** ** What is relied upon *)

(** What is observed of the socket pair and the network, from the thread's end of
    the pair: what the owner has written and whether it has finished, how much
    of it has been read, and what has been written to the owner; what the
    adapter has put on the network, and what the network may hand to it.
    [since] is what else is known of the kernel at a later time. *)
Class PairView (K : Type) := {
  offered : K → bytes;
  owner_done : K → bool;
  consumed : K → Z;
  delivered : K → bytes;
  sent : K → list TCPSegment;
  arriving : K → list TCPSegment;
  since : K → K → Prop
}.

(** What the thread's calls leave alone, but for the one by which it ends. *)
Definition pair_rest {K} `{PairView K} (k k' : K) : Prop :=
  offered k' = offered k ∧ owner_done k' = owner_done k ∧ arriving k' = arriving k ∧ since k k'.

Definition pair_same {K} `{PairView K} (k k' : K) : Prop :=
  (consumed k', delivered k', sent k') = (consumed k, delivered k, sent k) ∧ pair_rest k k'.

(** The pair, whose thread's end is [td].  A read of some bytes answers none,
    and a hangup without data is reported, only after the last byte of an owner
    that has finished. *)
Class StreamPair (K : Type) `{HK : Kernel K} `{HV : PairView K} (td : Z) : Prop := {
  since_order :: PreOrder since;
  pair_read : source_law td offered owner_done consumed
    (λ k k', (delivered k', sent k') = (delivered k, sent k) ∧ pair_rest k k');
  pair_writev : sink_law td delivered (λ k k', (consumed k', sent k') = (consumed k, sent k) ∧ pair_rest k k');
  pair_poll : hangup_law td offered owner_done consumed pair_same;
  pair_shutdown k k' r : sys_shutdown k td SHUT_WR = (k', r) → pair_same k k';
  pair_finish k n k' r : sys_shutdown k n SHUT_RDWR = (k', r) →
    (consumed k', delivered k', sent k', arriving k') = (consumed k, delivered k, sent k, arriving k) ∧ since k k';
  pair_clock k k' t : sys_clock k = (k', t) → pair_same k k'
}.

(** An adapter that hands over segments of the network, in any order and
    number, and nothing else.  What it sends for a segment that fits the wire,
    if anything, carries the same.  [ok] is what the adapter keeps of its own
    state. *)
Class PeerAdapter (K A : Type) `{HK : Kernel K} `{HA : SocketAdapter K A} `{HV : PairView K} (ok : A → Prop) : Prop := {
  peer_read k (a : A) k' a' o : ok a → sa_read k a = Ok (k', a', o) →
    ok a' ∧ pair_same k k' ∧ ∀ seg, o = Some seg → seg ∈ arriving k;
  peer_write k (a : A) seg k' a' seg' :
    ok a → sendable seg → Forall is_u8 (str (TCPSegment.payload seg)) → sa_write k a seg = Ok (k', a', seg') →
    ok a' ∧ (consumed k', delivered k') = (consumed k, delivered k) ∧ pair_rest k k' ∧
    ∃ l, sent k' = sent k ++ l ∧ ∀ S isn, carries S isn seg → Forall (carries S isn) l;
  peer_tick k (a : A) ms k' a' : ok a → sa_tick k a ms = Ok (k', a') → ok a' ∧ pair_same k k';
  peer_listen (a : A) : ok a → ok (sa_set_base a (set_listening (sa_base a) true))
}.

(** The bytes of a segment are bytes of the stream. *)
Lemma carries_bytes S isn seg : Forall is_u8 S → carries S isn seg → Forall is_u8 (str (TCPSegment.payload seg)).
Proof.
  intros HS (Hs & Hd & _). destruct (syn (header seg)) eqn:E; [by destruct (Hs eq_refl) as (_ & -> & _)|].
  destruct (Hd eq_refl) as [[-> _]|(i & Hi & _ & Ha & _)]; [done|]. by eapply agree_forall.
Qed.

Section Delivery.
Context {K A : Type} `{HK : Kernel K} `{HA : SocketAdapter K A} `{HR : Resolver}.
Context (reads : Reads) (td : Z) (So Si : bytes) (io ii : WrappingInt32).
Context `{HV : PairView K} `{HP : !StreamPair K td} {ok : A → Prop} `{HPA : !PeerAdapter K A ok} (k0 : K).
Context (HSo8 : Forall is_u8 So) (Hii : wf_WrappingInt32 ii) (HSi : slen Si < 0x80000000).

(** ** Invariant of the thread *)

(** The connection has been given what was read from the owner, and its
    application has taken what was written to the owner. *)
Record tinv (k : K) (c : TCPConnection) : Prop := {
  ti_conn : cinv So Si io ii c;
  ti_written : written c = consumed k;
  ti_taken : taken c = slen (delivered k);
  ti_delivered : agree Si 0 (delivered k);
  ti_sent : Forall (carries So io) (sent k);
  ti_arriving : Forall (carries Si ii) (arriving k);
  ti_since : since k0 k
}.

Record socket_inv (st : K * TCPSpongeSocket A) : Prop := {
  so_fd : fd_num (_thread_data st.2) = td;
  so_open : closed (_thread_data st.2) = false;
  so_eof : eof (_thread_data st.2) = true → consumed st.1 = slen So;
  so_owner : promise So (offered st.1) (owner_done st.1);
  so_adapter : ok (_datagram_adapter st.2);
  so_tcp : ∃ c, _tcp st.2 = Some c ∧ tinv st.1 c
}.

(** The owner has closed its end, if the rule reads from it. *)
Definition owner_gone (r : @Rule K (TCPSpongeSocket A)) (st : K * TCPSpongeSocket A) : Prop :=
  direction r = In → rule_fd r = _thread_data → consumed st.1 = slen So.

Lemma tinv_consumed k c : tinv k c → 0 <= consumed k <= slen So.
Proof using Type.
  intros [Hc <- _ _ _ _ _]. destruct (ci_sender _ _ _ _ _ Hc) as [[] _]. unfold written, stream_in. slia.
Qed.

Lemma tinv_same k k' c : pair_same k k' → tinv k c → tinv k' c.
Proof using HP.
  intros [[= E1 E2 E3] (_ & _ & Ea & Hsi)] []. split; rewrite ?E1, ?E2, ?E3, ?Ea; try done. by etrans.
Qed.

Lemma get_tcp_inv k (s : TCPSpongeSocket A) c : socket_inv (k, s) → get_tcp s = Ok c → tinv k c.
Proof using Type.
  intros [_ _ _ _ _ (c' & Hc & Ht)]. unfold get_tcp. simpl in *. rewrite Hc. by intros <-%Ok_inj.
Qed.

Lemma tcp_value_inv k (s : TCPSpongeSocket A) c : socket_inv (k, s) → tcp_value s = Ok c → tinv k c.
Proof using Type.
  intros [_ _ _ _ _ (c' & Hc & Ht)]. unfold tcp_value. simpl in *. rewrite Hc. by intros <-%Ok_inj.
Qed.

Lemma pair_rest_trans k1 k2 k3 : pair_rest k1 k2 → pair_rest k2 k3 → pair_rest k1 k3.
Proof using HP.
  intros (E1 & E2 & E3 & E4) (F1 & F2 & F3 & F4). split_and!; [congruence..|by etrans].
Qed.

Lemma pair_same_trans k1 k2 k3 : pair_same k1 k2 → pair_same k2 k3 → pair_same k1 k3.
Proof using HP. intros [E1 E2] [F1 F2]. split; [congruence|by eapply pair_rest_trans]. Qed.

(** Consumed bytes stay consumed. *)
Lemma keeps_intro k s k' s' c' :
  socket_inv (k, s) →
  fd_num (_thread_data s') = fd_num (_thread_data s) → closed (_thread_data s') = closed (_thread_data s) →
  (eof (_thread_data s') = true → eof (_thread_data s) = true ∨ consumed k = slen So) →
  ok (_datagram_adapter s') → _tcp s' = Some c' → tinv k' c' → pair_rest k k' → consumed k <= consumed k' →
  keeps socket_inv owner_gone (k, s) (k', s').
Proof using Type.
  intros [Hfd Hop He Hpr _ _] Hfd' Hop' He' Ho' Hc' Ht' (E1 & E2 & _) Hle. simpl in *.
  pose proof (tinv_consumed _ _ Ht') as Hb.
  assert (consumed k = slen So → consumed k' = slen So) as Hall by lia.
  split; [|intros r Hg Hd Hf; simpl in *; auto].
  split; simpl; [congruence|congruence| |by rewrite E1, E2|done|by eexists]. intros [?|?]%He'; auto.
Qed.

(** ** The rules *)

Lemma set_inbound_read c b m :
  0 <= m <= slen (_buffer (inbound_stream c)) → pop_output (inbound_stream c) m = Ok b →
  read_inbound c m = Ok (set_inbound c b, stake m (_buffer (inbound_stream c))).
Proof using Type.
  intros Hm. rewrite pop_output_eq. intros <-%Ok_inj. unfold read_inbound, read_stream, read_out.
  change (StreamReassembler.stream_out (_reassembler (_receiver c))) with (inbound_stream c).
  change (StreamReassembler._output (_reassembler (_receiver c))) with (inbound_stream c).
  rewrite read_eq. rewrite Z.min_l by lia. done.
Qed.

Lemma tinv_receive k c seg c' :
  tinv k c → carries Si ii seg →
  TCPConnection.segment_received reads c seg = Ok c' → tinv k c'.
Proof using Hii HSi.
  intros [] Hseg Hr. pose proof (segment_received_written _ _ _ _ Hr) as Hwr.
  destruct (or_undefined_ok _ _ _ (cinv_segment_received So Si io ii reads Hii HSi c seg ltac:(done) Hseg) Hr) as [Hc2 Ht2].
  split; rewrite ?Hwr, ?Ht2; done.
Qed.

Lemma tinv_end k c c' : tinv k c → consumed k = slen So → end_input_stream c = Ok c' → tinv k c'.
Proof using Type.
  intros [Hc Hw Ht Hd Hs Hv Ho] He Hr. pose proof (end_input_written _ _ Hr) as Hwr.
  destruct (cinv_end So Si io ii c c') as [? Ht2]; [done| |done|]; [by rewrite <- He, <- Hw|].
  split; rewrite ?Hwr, ?Ht2; done.
Qed.

Lemma tinv_tick k c ms : tinv k c → tinv k (TCPConnection.tick c ms).
Proof using Type.
  intros []. split; rewrite ?tick_written, ?taken_tick; try done. by apply cinv_tick.
Qed.

Lemma rule1_keeps st st' :
  socket_inv st → rule1_callback reads st = Ok st' → keeps socket_inv owner_gone st st'.
Proof using Hii HSi HPA HP.
  intros Hs. destruct st as [k s]. unfold rule1_callback.
  intros ([[k1 a] o] & H1 & (s1 & H2 & H3)%result_bind_ok)%result_bind_ok.
  destruct (peer_read _ _ _ _ _ (so_adapter _ Hs) H1) as (Hok & Ev & Hseg). pose proof Ev as [[= E1 _ _] Er].
  assert (_thread_data s1 = _thread_data s ∧ _datagram_adapter s1 = a ∧ ∃ c1, _tcp s1 = Some c1 ∧ tinv k1 c1)
    as (Hw & Ha & c1 & Hc1 & Ht1).
  { destruct (so_tcp _ Hs) as (c & Hc & Ht). pose proof (ti_arriving _ _ Ht) as Har. apply (tinv_same k k1) in Ht; [|done..].
    destruct o as [seg|]; [|apply Ok_inj in H2 as <-; split_and!; [done|done|by exists c]].
    unfold get_tcp in H2. simpl in H2, Hc. rewrite Hc in H2. cbn [mbind result_bind] in H2.
    apply result_bind_ok in H2 as (c1 & H2 & <-%Ok_inj).
    split_and!; [done|done|]. exists c1. split; [done|]. eapply tinv_receive; [done| |done].
    rewrite list.Forall_forall in Har. apply Har, Hseg. done. }
  assert (keeps socket_inv owner_gone (k, s) (k1, s1)) as Hk.
  { eapply (keeps_intro k s k1 s1 c1); rewrite ?Hw, ?Ha; try done; [by left|lia]. }
  destruct (eof _); [|by apply Ok_inj in H3 as <-].
  apply result_bind_ok in H3 as (c2 & _ & H3). destruct (_ && _); [|by apply Ok_inj in H3 as <-].
  apply result_bind_ok in H3 as (_ & _ & <-%Ok_inj).
  eapply (keeps_intro k s k1 _ c1); simpl; rewrite ?Hw, ?Ha; try done; [by left|lia].
Qed.

Lemma rule2_keeps st st' :
  socket_inv st → rule2_callback st = Ok st' → keeps socket_inv owner_gone st st'.
Proof using HP.
  intros Hs. destruct st as [k s]. unfold rule2_callback.
  intros (c & H1 & ([[k1 w] data] & H2 & ([c1 n] & H3 & H4)%result_bind_ok)%result_bind_ok)%result_bind_ok.
  pose proof (get_tcp_inv _ _ _ Hs H1) as Hc. pose proof (ti_conn _ _ Hc) as Hci.
  pose proof (so_fd _ Hs) as Hfd. pose proof (so_adapter _ Hs) as Hok. simpl in Hfd, Hok.
  assert (0 <= remaining_outbound_capacity c) as Hcap by apply u64_range.
  destruct (FileDescriptor.read_spec _ _ _ _ _ _ _ _ _ _ _ pair_read Hfd Hcap H2)
    as (Hl & Hd & Ec & [[= Ed Es] Er] & Hfd' & Hcl & He).
  pose proof Er as (_ & _ & Ea & Hsi). pose proof (so_owner _ Hs) as Hpr. simpl in Hpr.
  apply (promise_read So) with (finished := owner_done k) in Hd; [|done|by eapply tinv_consumed].
  rewrite <- (ti_written _ _ Hc) in Hd.
  destruct (write_takes So Si io ii c data Hci Hl Hd) as (c2 & Hw & Hc2 & Hwr & Ht).
  rewrite H3 in Hw. apply Ok_inj in Hw as [= <- ->]. rewrite Z.eqb_refl in H4. cbn [negb] in H4.
  assert (tinv k1 c1) as Hc1.
  { destruct Hc. split; rewrite ?Hwr, ?Ht, ?Ec, ?Ed, ?Es, ?Ea; [done|lia|done..|by etrans]. }
  assert (eof w = true → eof (_thread_data s) = true ∨ consumed k = slen So) as He'
    by (intros Hw; destruct (He Hw) as [|(Hfin & Hall & _)]; [auto|right; by rewrite Hall, (proj2 Hpr Hfin)]).
  pose proof (slen_nonneg data).
  destruct (eof (_thread_data (set_tcp (set_thread_data s w) (Some c1)))) eqn:Ew; simpl in Ew.
  - apply result_bind_ok in H4 as (c3 & H5 & (_ & _ & <-%Ok_inj)%result_bind_ok).
    assert (consumed k1 = slen So) as Hall.
    { pose proof (tinv_consumed _ _ Hc1). destruct (He' Ew) as [Heof|?]; [apply (so_eof _ Hs) in Heof; simpl in Heof|]; lia. }
    eapply (keeps_intro k s k1 _ c3); simpl; try done; [congruence|by eapply tinv_end|lia].
  - apply Ok_inj in H4 as <-. eapply (keeps_intro k s k1 _ c1); simpl; try done; [congruence|lia].
Qed.

Lemma rule2_cancel_keeps st st' :
  socket_inv st → consumed st.1 = slen So → rule2_cancel st = Ok st' → keeps socket_inv owner_gone st st'.
Proof using HP.
  intros Hs Hg. destruct st as [k s]. unfold rule2_cancel.
  intros (c & H1 & (c1 & H2 & <-%Ok_inj)%result_bind_ok)%result_bind_ok.
  pose proof (get_tcp_inv _ _ _ Hs H1) as Hc. pose proof (so_adapter _ Hs).
  eapply (keeps_intro k s k _ c1); simpl; try done; [by left|by eapply tinv_end].
Qed.

Lemma rule3_keeps st st' :
  socket_inv st → rule3_callback st = Ok st' → keeps socket_inv owner_gone st st'.
Proof using Hii HSi HP.
  intros Hs. destruct st as [k s]. unfold rule3_callback.
  intros (c & H1 & (b & H2 & ([[k1 w] n] & H3 & (i & H4 & H5)%result_bind_ok)%result_bind_ok)%result_bind_ok)%result_bind_ok.
  pose proof (get_tcp_inv _ _ _ Hs H1) as Hc. pose proof (so_fd _ Hs) as Hfd. pose proof (so_adapter _ Hs) as Hok. simpl in Hfd, Hok.
  rewrite peek_output_eq in H2. apply Ok_inj in H2 as <-.
  set (buf := _buffer (inbound_stream c)) in *.
  assert (slen (stake (Z.min 65536 (buffer_size (inbound_stream c))) buf) = Z.min 65536 (slen buf)) as Hlen.
  { unfold buffer_size. fold buf. rewrite slen_stake; slia. }
  eapply FileDescriptor.write_spec in H3 as (Hn & Ed & Er & ->);
    [|apply pair_writev|done|rewrite Hlen; pose proof (slen_nonneg buf); unfold_width; lia].
  destruct Er as [[= Ec Es] Er]. pose proof Er as (_ & _ & Ea & Hsi).
  rewrite Hlen in Hn.
  destruct (cinv_read_inbound So Si io ii Hii HSi c n (ti_conn _ _ Hc)) as (c2 & out & Hr & Hc2 & Ht & Ha); [lia|].
  rewrite (set_inbound_read c i n) in Hr by (done || (fold buf; lia)). apply Ok_inj in Hr as [= <- <-]. fold buf in Ht, Ha.
  assert (stake n (stake (Z.min 65536 (buffer_size (inbound_stream c))) buf) = stake n buf) as Hst.
  { rewrite !stake_take, take_take. f_equal. unfold buffer_size. fold buf. lia. }
  rewrite Hst in Ed.
  assert (tinv k1 (set_inbound c i)) as Hc1.
  { destruct Hc as [Hci Hw Htk Hd Hse Har Hot]. split; rewrite ?Ec, ?Ed, ?Es, ?Ea; try done; [| |by etrans].
    - rewrite Ht, slen_app, Htk. done.
    - rewrite agree_app by lia. split; [done|]. by rewrite Z.add_0_l, <- Htk. }
  destruct (_ || _).
  - apply result_bind_ok in H5 as ([k2 w2] & H6 & (_ & _ & <-%Ok_inj)%result_bind_ok).
    unfold Socket.shutdown in H6. destruct (sys_shutdown _ _ _) as [k3 r] eqn:Hsh.
    change (sys_shutdown k1 (fd_num (_thread_data s)) SHUT_WR = (k3, r)) in Hsh. rewrite Hfd in Hsh.
    pose proof (pair_shutdown _ _ _ Hsh) as Ev. pose proof Ev as [[= E1 _ _] Er'].
    apply result_bind_ok in H6 as (x & _ & [= <- <-]).
    eapply (keeps_intro k s k3 _ (set_inbound c i)); simpl; try done; [by left|by eapply tinv_same|by eapply pair_rest_trans|lia].
  - apply Ok_inj in H5 as <-. eapply (keeps_intro k s k1 _ (set_inbound c i)); simpl; try done; [by left|lia].
Qed.

Lemma write_segments_spec segs : ∀ k (a : A) k' a',
  ok a → Forall (emits So io) segs → Forall (carries So io) (sent k) → write_segments k a segs = Ok (k', a') →
  ok a' ∧ (consumed k', delivered k') = (consumed k, delivered k) ∧ pair_rest k k' ∧ Forall (carries So io) (sent k').
Proof using HPA td HP HSo8.
  induction segs as [|seg segs IH]; intros k a k' a' Ho Hl Hs; cbn [write_segments].
  { intros [= <- <-]. by split_and!. }
  apply Forall_cons_1 in Hl as [[Hseg Hfit] Hl].
  intros ([[k1 a1] s1] & H1 & H2)%result_bind_ok.
  destruct (peer_write _ _ _ _ _ _ Ho Hfit (carries_bytes _ _ _ HSo8 Hseg) H1) as (Ho1 & E1 & Er & l & E3 & Hc).
  destruct (IH k1 a1 k' a') as (? & -> & Er' & ?); [done|done| |done|by split_and!; [| |eapply pair_rest_trans|]].
  rewrite E3. apply Forall_app_2; [done|by apply Hc].
Qed.

Lemma rule4_keeps st st' :
  socket_inv st → rule4_callback st = Ok st' → keeps socket_inv owner_gone st st'.
Proof using HPA HP HSo8.
  intros Hs. destruct st as [k s]. unfold rule4_callback.
  intros (c & H1 & ([k1 a] & H2 & <-%Ok_inj)%result_bind_ok)%result_bind_ok.
  pose proof (get_tcp_inv _ _ _ Hs H1) as Hc. destruct Hc as [[] Hw Htk Hd Hse Har Hot].
  destruct (write_segments_spec _ _ _ _ _ (so_adapter _ Hs) ci_out Hse H2) as (Hok & [= E1 E2] & Er & Hs1). pose proof Er as (_ & _ & Ea & Hsi).
  eapply (keeps_intro k s k1 _ (set_segments_out c [])); simpl; try done; [by left| |lia].
  split; rewrite ?E1, ?E2, ?Ea; try done. by etrans.
Qed.

Lemma tcp_rules_respect : Forall (respects socket_inv owner_gone) (tcp_rules reads).
Proof using Hii HSi HPA HP HSo8.
  assert (∀ r : @Rule K (TCPSpongeSocket A),
    (∀ st st', socket_inv st → callback r st = Ok st' → keeps socket_inv owner_gone st st') →
    (∀ st st', socket_inv st → owner_gone r st → cancel r st = Ok st' → keeps socket_inv owner_gone st st') →
    respects socket_inv owner_gone r) as Hr.
  { intros r Hcb Hca. split; [done|done|..].
    - intros st Hs _ He _ Hf. rewrite Hf in He. by apply (so_eof _ Hs).
    - intros st Hs Hcl _ Hf. rewrite Hf, (so_open _ Hs) in Hcl. done. }
  assert (∀ st st' : K * TCPSpongeSocket A, socket_inv st → no_cancel st = Ok st' →
    keeps socket_inv owner_gone st st') as Hno by (intros st st' Hs <-%Ok_inj; by apply keeps_refl).
  unfold tcp_rules, add_rule. simpl. repeat (apply Forall_cons_2; [apply Hr; simpl; auto|]); [..|constructor].
  - apply rule1_keeps.
  - apply rule2_keeps.
  - intros st st' Hs Hg. apply rule2_cancel_keeps; [done|]. by apply Hg.
  - apply rule3_keeps.
  - apply rule4_keeps.
Qed.

Lemma socket_poll : poll_respects socket_inv owner_gone TCP_TICK_MS.
Proof using HP.
  intros k s ps k' answer Hs Hp. destruct (pair_poll _ _ _ _ _ Hp) as (Ev & Hh). pose proof Ev as [[= E1 _ _] Er]. split.
  - destruct (so_tcp _ Hs) as (c & Hc & Ht). pose proof (so_adapter _ Hs). simpl in *.
    eapply (keeps_intro k s k' s c); try done; [by left|by eapply tinv_same|lia].
  - intros n revents i r p re Ha (st0 & Hs0 & Hpf & Hev) Hip Hire (Hup & Hne & Hrdy) Hd Hf. simpl.
    rewrite Hf, (so_fd _ Hs0) in Hpf. rewrite Hd in Hev. destruct Hev as [?|Hev]; [done|]. simpl in Hev.
    rewrite Hev in Hrdy. destruct (Hh n revents i p re) as [Hfin Hl]; try done.
    pose proof (proj2 (so_owner _ Hs) Hfin) as Hall. simpl in Hall. by rewrite E1, Hl, Hall.
Qed.

Lemma tcp_loop_round_keeps abort rules st base go rules' st' base' :
  Forall (respects socket_inv owner_gone) rules → socket_inv st →
  tcp_loop_round abort rules st base = Ok (go, rules', st', base') →
  socket_inv st' ∧ sublist rules' rules.
Proof using HPA HP.
  intros Hr Hs. unfold tcp_loop_round. intros ([[rs [k s]] res] & H1 & H2)%result_bind_ok.
  destruct (wait_next_event_keeps _ _ _ _ _ _ _ _ Hr socket_poll Hs H1) as [[Hs1 _] Hsub].
  destruct (_ || _); [by simplify_eq|]. apply result_bind_ok in H2 as (c & H2 & H3).
  destruct (active c); [|by simplify_eq].
  destruct (sys_clock k) as [k1 t] eqn:Hck. pose proof (pair_clock _ _ _ Hck) as Ev.
  apply result_bind_ok in H3 as ([k2 a] & H4 & [= <- <- <- <-]). split; [|done].
  destruct (peer_tick _ _ _ _ _ (so_adapter _ Hs1) H4) as [Hok Fv]. pose proof (pair_same_trans _ _ _ Ev Fv) as [[= E1 E2 E3] Er].
  pose proof (tcp_value_inv _ _ _ Hs1 H2) as Hc.
  apply (keeps_intro k s k2 _ (TCPConnection.tick c (u64 (t - base)))); simpl; try done; [by left| |lia].
  apply tinv_tick. eapply tinv_same; [|done]. by eapply pair_same_trans.
Qed.

Lemma tcp_loop_keeps aborts : ∀ condition rules st base rules' st' ended,
  Forall (respects socket_inv owner_gone) rules → socket_inv st →
  tcp_loop aborts condition rules st base = Ok (rules', st', ended) →
  socket_inv st' ∧ Forall (respects socket_inv owner_gone) rules'.
Proof using HPA HP.
  induction aborts as [|ab aborts IH]; intros condition rules st base rules' st' ended Hr Hs; cbn [tcp_loop];
    (destruct (negb (condition _)); [by intros [= <- <- <-]|]); [by intros [= <- <- <-]|].
  intros ([[[go rs] st1] base1] & H1 & H2)%result_bind_ok.
  destruct (tcp_loop_round_keeps _ _ _ _ _ _ _ _ Hr Hs H1) as [Hs1 Hsub].
  assert (Forall (respects socket_inv owner_gone) rs) as Hrs by (by eapply Forall_of_sublist).
  destruct go; [by eapply IH|by simplify_eq].
Qed.

Lemma _tcp_loop_keeps aborts condition rules st rules' st' ended :
  Forall (respects socket_inv owner_gone) rules → socket_inv st →
  _tcp_loop aborts condition rules st = Ok (rules', st', ended) →
  socket_inv st' ∧ Forall (respects socket_inv owner_gone) rules'.
Proof using HPA HP.
  intros Hr Hs. unfold _tcp_loop. destruct st as [k s]. destruct (sys_clock k) as [k1 t] eqn:Hck.
  pose proof (pair_clock _ _ _ Hck) as Ev. pose proof Ev as [[= E1 _ _] Er]. apply tcp_loop_keeps; [done|].
  destruct (so_tcp _ Hs) as (c & Hc & Ht). pose proof (so_adapter _ Hs).
  apply (keeps_intro k s k1 s c); try done; [by left|by eapply tinv_same|simpl in *; lia].
Qed.

(** ** From the constructor on *)

(** A new socket: nothing has happened on the pair. *)
Record fresh (k : K) (s : TCPSpongeSocket A) : Prop := {
  fresh_fd : fd_num (_thread_data s) = td;
  fresh_open : closed (_thread_data s) = false;
  fresh_eof : eof (_thread_data s) = false;
  fresh_consumed : consumed k = 0;
  fresh_delivered : delivered k = [];
  fresh_sent : sent k = [];
  fresh_owner : promise So (offered k) (owner_done k)
}.

(** The initial number is the one that is configured, or a random one. *)
Record good_config (cfg : TCPConfig) (random : Z) : Prop := {
  good_isn : default (WrappingInt32_of random) (fixed_isn cfg) = io;
  good_wf : wf_WrappingInt32 io;
  good_send : is_u64 (send_capacity cfg);
  good_recv : 0 <= recv_capacity cfg;
  good_room : is_u64 (recv_capacity cfg + 0x80000000)
}.

Lemma fresh_inv k s s' cfg random c :
  fresh k s → Forall (carries Si ii) (arriving k) → since k0 k → good_config cfg random → slen So < 0x80000000 →
  _thread_data s' = _thread_data s → ok (_datagram_adapter s') → _tcp s' = Some c →
  (c = TCPConnection_new cfg random ∨ TCPConnection.connect (TCPConnection_new cfg random) = Ok c) →
  socket_inv (k, s').
Proof using HSi.
  intros [] Har Hsi [] HSo Hw Hok Hc Hnew. pose proof (slen_nonneg So). pose proof (slen_nonneg Si).
  assert (cinv So Si io ii (TCPConnection_new cfg random)) as Hi
    by (apply cinv_new; try done; unfold_width; lia).
  assert (cinv So Si io ii c ∧ written c = 0 ∧ taken c = 0) as (Hci & Hwr & Htk).
  { destruct Hnew as [->|Hcon]; [done|]. rewrite (connect_written _ _ Hcon). unfold TCPConnection.connect in Hcon.
    destruct (cinv_connect_sender _ _ _ _ _ Hi) as (c1 & Hc1 & Hi1 & Hr1). rewrite Hc1 in Hcon.
    apply Ok_inj in Hcon as <-. split_and!; [by apply cinv_send_segments|done|]. unfold taken. simpl. by rewrite Hr1. }
  split; simpl; rewrite ?Hw; try done; [congruence|]. exists c. split; [done|].
  split; rewrite ?fresh_consumed0, ?fresh_delivered0, ?fresh_sent0; try done. apply agree_nil.
Qed.

Lemma tinv_prefix k c : tinv k c → delivered k = stake (slen (delivered k)) Si.
Proof using Type.
  intros [_ _ _ Hd _ _ _]. apply agree_prefix; [done|].
  destruct (decide (delivered k = [])) as [->|Hne]; [slia|].
  pose proof (agree_bound Si 0 (delivered k) ltac:(done) Hne Hd). lia.
Qed.

(** Both ways to open a connection end in the invariant. *)
Lemma connect_inv k s cfg c_ad random aborts rules st ended :
  fresh k s → ok (_datagram_adapter (configure s c_ad)) → Forall (carries Si ii) (arriving k) → since k0 k → good_config cfg random → slen So < 0x80000000 →
  connect reads (k, s) cfg c_ad random aborts = Ok (rules, st, ended) →
  socket_inv st ∧ Forall (respects socket_inv owner_gone) rules.
Proof using Hii HSi HPA HP HSo8.
  intros Hf Hok Har Hsi Hg HSo. unfold connect. destruct (_tcp s); [done|]. cbn [_initialize_TCP].
  intros (_ & _ & (c & H1 & (c1 & H2 & H3)%result_bind_ok)%result_bind_ok)%result_bind_ok.
  apply Ok_inj in H1 as <-. destruct (negb _); [done|].
  eapply _tcp_loop_keeps; [apply tcp_rules_respect| |exact H3].
  eapply (fresh_inv k s _ cfg random c1); try done. by right.
Qed.

Lemma listen_inv k s cfg c_ad random aborts rules st ended :
  fresh k s → ok (_datagram_adapter (configure s c_ad)) → Forall (carries Si ii) (arriving k) → since k0 k → good_config cfg random → slen So < 0x80000000 →
  listen_and_accept reads (k, s) cfg c_ad random aborts = Ok (rules, st, ended) →
  socket_inv st ∧ Forall (respects socket_inv owner_gone) rules.
Proof using Hii HSi HPA HP HSo8.
  intros Hf Hok Har Hsi Hg HSo. unfold listen_and_accept. destruct (_tcp s); [done|]. cbn [_initialize_TCP].
  intros ([[rs [k1 s1]] e] & H1 & (_ & _ & [= <- <- <-])%result_bind_ok)%result_bind_ok.
  eapply _tcp_loop_keeps; [apply tcp_rules_respect| |exact H1].
  eapply (fresh_inv k s _ cfg random (TCPConnection_new cfg random)); try done; [by apply (peer_listen _ Hok)|by left].
Qed.

Lemma tcp_main_inv rules st aborts rules' k s ended :
  Forall (respects socket_inv owner_gone) rules → socket_inv st →
  _tcp_main rules st aborts = Ok (rules', (k, s), ended) → ∃ c, tinv k c.
Proof using HPA HP.
  intros Hr Hs. unfold _tcp_main. destruct (_tcp st.2); [|done].
  intros ([[rs [k1 s1]] e] & H1 & H2)%result_bind_ok.
  destruct (_tcp_loop_keeps _ _ _ _ _ _ _ Hr Hs H1) as [Hs1 _]. destruct (so_tcp _ Hs1) as (c & _ & Ht). simpl in Ht.
  destruct e; [|apply Ok_inj in H2 as [= <- <- <- <-]; by exists c].
  apply result_bind_ok in H2 as ([k2 w] & H3 & [= <- <- <- <-]). exists c.
  unfold Socket.shutdown in H3. destruct (sys_shutdown _ _ _) as [k3 r] eqn:Hsh.
  pose proof (pair_finish _ _ _ _ Hsh) as [[= E1 E2 E3 E4] Hsi].
  apply result_bind_ok in H3 as (x & _ & [= <- <-]).
  destruct Ht. split; rewrite ?E1, ?E2, ?E3, ?E4; try done. by etrans.
Qed.

End Delivery.

(** ** Properties *)

(** C5: a socket relays two streams.  The owner's end of the pair writes [So];
    the segments that may arrive, in any order and number, carry [Si]; both are
    shorter than [2^31] bytes, and the socket's initial sequence number is fixed
    or random.  After the connection was opened by either end, and for as many
    rounds of the loop as have returned, whatever the undefined reads of the code
    have yielded, the bytes given to the owner are a prefix of [Si], and every
    segment that the adapter has put on the network carries [So].  The adapter
    is any that satisfies [PeerAdapter]. *)
Theorem socket_relays {K A : Type} {HK : Kernel K} {HA : SocketAdapter K A} {HR : Resolver}
    (reads : Reads) (td : Z) (So Si : bytes) (io ii : WrappingInt32)
    {HV : PairView K} {HP : StreamPair K td} {ok : A → Prop} {HPA : PeerAdapter K A ok}
    (k : K) (s : TCPSpongeSocket A) (cfg : TCPConfig) (c_ad : FdAdapterConfig) (random : Z)
    (aborts : list bool) rules st ended (aborts' : list bool) rules' k' s' ended' :
  wf_WrappingInt32 ii → slen Si < 0x80000000 → slen So < 0x80000000 → Forall is_u8 So →
  fresh td So k s → ok (_datagram_adapter (configure s c_ad)) → Forall (carries Si ii) (arriving k) → good_config io cfg random →
  (connect reads (k, s) cfg c_ad random aborts = Ok (rules, st, ended) ∨
   listen_and_accept reads (k, s) cfg c_ad random aborts = Ok (rules, st, ended)) →
  _tcp_main rules st aborts' = Ok (rules', (k', s'), ended') →
  delivered k' = stake (slen (delivered k')) Si ∧ Forall (carries So io) (sent k') ∧ consumed k' <= slen So.
Proof.
  intros Hii HSi HSo HSo8 Hf Hok Har Hg Hopen Hmain.
  assert (socket_inv td So Si io ii (ok := ok) k st ∧
          Forall (respects (socket_inv td So Si io ii (ok := ok) k) (owner_gone So)) rules) as [Hs Hr].
  { destruct Hopen as [Ho|Ho]; [by eapply connect_inv|by eapply listen_inv]. }
  destruct (tcp_main_inv td So Si io ii k _ _ _ _ _ _ _ Hr Hs Hmain) as (c & Ht).
  split_and!; [by eapply tinv_prefix|apply Ht|]. pose proof (tinv_consumed _ _ _ _ _ _ _ Ht). lia.
Qed.

(** A kernel with the socket pair [3] and the adapter's descriptor [5], always
    ready; the peer's segments arrive in order. *)
Record relay := mkrelay { pos : nat; out : bytes; transmitted : list TCPSegment; arrived : nat; time : Z }.

Definition relay_owner : bytes := [1; 2; 3].
Definition relay_peer : bytes := [4; 5].
Definition relay_segments : list TCPSegment :=
  [mkTCPSegment (mkTCPHeader 80 4000 (mkWrappingInt32 100) (mkWrappingInt32 8) 5
     false true false false true false 1000 0 0) (Buffer_of []);
   mkTCPSegment (mkTCPHeader 80 4000 (mkWrappingInt32 101) (mkWrappingInt32 8) 5
     false true false false false true 1000 0 0) (Buffer_of [4; 5])].

Definition relay_kernel : Kernel relay := {|
  sys_read k n len :=
    let data := take_from relay_owner (pos k) (Z.to_nat len) in
    (mkrelay (pos k + length data) (out k) (transmitted k) (arrived k) (time k), inr data);
  sys_writev k _ iov :=
    let s := concat (map fst iov) in
    (mkrelay (pos k) (out k ++ s) (transmitted k) (arrived k) (time k), inr (slen s));
  sys_close k _ := (k, inr 0);
  sys_getfl k _ := (k, inr 0);
  sys_setfl k _ _ := (k, inr 0);
  sys_poll k ps _ :=
    let ready p := if (fd p =? 5) && (events p =? POLLIN) && (length relay_segments <=? arrived k)%nat then 0 else events p in
    (k, inr (slen ps, map ready ps));
  sys_socket k _ _ := (k, inl 1);
  sys_getsockopt k _ _ := (k, inl 1);
  sys_setsockopt k _ _ _ := (k, inl 1);
  sys_name k _ _ := (k, inl 1);
  sys_bind k _ _ := (k, inl 1);
  sys_connect k _ _ := (k, inl 1);
  sys_listen k _ _ := (k, inl 1);
  sys_accept k _ := (k, inl 1);
  sys_shutdown k _ _ := (k, inr 0);
  sys_recvfrom k _ _ := (k, inl 1);
  sys_sendmsg k _ _ _ := (k, inl 1);
  sys_socketpair k _ _ := (k, inl 1);
  sys_open k _ _ := (k, inl 1);
  sys_ioctl k _ _ _ := (k, inl 1);
  sys_clock k := (mkrelay (pos k) (out k) (transmitted k) (arrived k) (time k + 10), time k)
|}.

Definition relay_adapter : SocketAdapter relay (FDWrapper * FdAdapterBase) := {|
  sa_fd := fst;
  sa_read k a := Ok (mkrelay (pos k) (out k) (transmitted k) (S (arrived k)) (time k),
                     (register_read a.1, a.2), relay_segments !! arrived k);
  sa_write k a seg := Ok (mkrelay (pos k) (out k) (transmitted k ++ [seg]) (arrived k) (time k),
                          (register_write a.1, a.2), seg);
  sa_tick k a _ := Ok (k, a);
  sa_base := snd;
  sa_set_base a b := (a.1, b)
|}.

Definition relay_view : PairView relay := {|
  offered _ := relay_owner;
  owner_done _ := true;
  consumed k := consumed_to relay_owner (pos k);
  delivered := out;
  sent := transmitted;
  arriving _ := relay_segments;
  since _ _ := True
|}.

Lemma relay_pair : @StreamPair relay relay_kernel relay_view 3.
Proof.
  split.
  - done.
  - intros k n k' data Hn [= <- <-]. cbn [pos out transmitted].
    destruct (take_from_spec relay_owner (pos k) (Z.to_nat n)) as (? & ? & Hnil). split_and!; try done.
    intros ? ?. split; [done|]. apply Hnil; [done|lia].
  - intros k iov k' m [= <- <-]. cbn [pos out transmitted]. pose proof (slen_nonneg (concat (map fst iov))).
    split_and!; try done. by rewrite stake_all by lia.
  - intros k ps t k' answer [= <- <-]. split; [done|].
    intros n revents i p re [= <- <-] Hp Hre Hfd Hev Hup. rewrite list_lookup_fmap, Hp in Hre.
    simpl in Hre. rewrite Hfd, Hev in Hre. by simplify_eq.
  - by intros k k' r [= <- <-].
  - by intros k n k' r [= <- <-].
  - by intros k k' t [= <- <-].
Qed.

Lemma relay_segments_carry : Forall (carries relay_peer (mkWrappingInt32 100)) relay_segments.
Proof.
  repeat apply Forall_cons_2; [..|constructor]; (split_and!; [done| |done]); [done|].
  intros _. right. exists 0. split; [done|]. split; [done|]. split; [by apply agree_compute|concrete].
Qed.

Lemma relay_peer_adapter :
  @PeerAdapter relay (FDWrapper * FdAdapterBase) relay_kernel relay_adapter relay_view (λ _, True).
Proof.
  split.
  - intros k a k' a' o _ [= <- <- <-]. split_and!; [done..|]. intros seg Hseg.
    by eapply list_elem_of_lookup_2.
  - intros k a seg k' a' seg' _ _ _ [= <- <- <-]. split_and!; try done. exists [seg]. split; [done|].
    intros S isn Hc. constructor; [done|constructor].
  - by intros k a ms k' a' _ [= <- <-].
  - done.
Qed.

Definition relay_cfg : FdAdapterConfig := mkFdAdapterConfig (Address_in 1 80) (Address_in 2 4000) 0 0.
Definition relay_socket : TCPSpongeSocket (FDWrapper * FdAdapterBase) :=
  mkSocket (mkFDWrapper 4 false false 0 0) (mkFDWrapper 3 false false 0 0)
    (mkFDWrapper 5 false false 0 0, mkFdAdapterBase relay_cfg false) None false false false.
Definition relay_start : relay := mkrelay 0 [] [] 0 0.
Lemma socket_relays_witness :
  ∃ rules st ended rules' k s,
    @connect _ _ relay_kernel relay_adapter numeric_resolver some_reads
      (relay_start, relay_socket) (sample_cfg 7) relay_cfg 0 (replicate 4 false) = Ok (rules, st, ended) ∧
    @_tcp_main _ _ relay_kernel relay_adapter rules st (replicate 6 false ++ [true]) = Ok (rules', (k, s), true) ∧
    out k = stake (slen (out k)) relay_peer ∧ out k = [4; 5].
Proof.
  destruct (result_run
    (@connect _ _ relay_kernel relay_adapter numeric_resolver some_reads
      (relay_start, relay_socket) (sample_cfg 7) relay_cfg 0 (replicate 4 false))
    (λ x, @_tcp_main _ _ relay_kernel relay_adapter x.1.1 x.1.2 (replicate 6 false ++ [true]))
    (λ y, (out y.1.2.1, y.2)) ([4; 5], true)) as ([[rules st] ended] & [[rules' [k s]] ended'] & Ho & Hm & Hk).
  { vm_compute. reflexivity. }
  injection Hk as Hk ->. cbn [fst snd] in Hm.
  exists rules, st, ended, rules', k, s. split; [exact Ho|]. split; [exact Hm|]. split; [|exact Hk].
  apply (@socket_relays relay (FDWrapper * FdAdapterBase) relay_kernel relay_adapter numeric_resolver
    some_reads 3 relay_owner relay_peer (mkWrappingInt32 7) (mkWrappingInt32 100) relay_view relay_pair
    (λ _, True) relay_peer_adapter relay_start relay_socket (sample_cfg 7) relay_cfg 0 (replicate 4 false)
    rules st ended (replicate 6 false ++ [true]) rules' k s true).
  - concrete.
  - concrete.
  - concrete.
  - repeat constructor; concrete.
  - split; try reflexivity. apply promise_all.
  - done.
  - exact relay_segments_carry.
  - split; concrete.
  - left. exact Ho.
  - exact Hm.
Defined.

(** A socket that is destroyed while its connection is active does not reset
    it: the thread's loop has ended when the connection is destroyed. *)
Lemma abort_sends_no_rst :
  ∃ rules st ended rules' k s,
    @connect _ _ relay_kernel relay_adapter numeric_resolver some_reads
      (relay_start, relay_socket) (sample_cfg 7) relay_cfg 0 (replicate 4 false) = Ok (rules, st, ended) ∧
    tcp_active st.2 = true ∧
    @_tcp_main _ _ relay_kernel relay_adapter rules st [true] = Ok (rules', (k, s), true) ∧
    _tcp s = None ∧ forallb (λ seg, negb (rst (header seg))) (transmitted k) = true.
Proof.
  destruct (result_run
    (@connect _ _ relay_kernel relay_adapter numeric_resolver some_reads
      (relay_start, relay_socket) (sample_cfg 7) relay_cfg 0 (replicate 4 false))
    (λ x, y ← @_tcp_main _ _ relay_kernel relay_adapter x.1.1 x.1.2 [true]; Ok (tcp_active x.1.2.2, y))
    (λ y, (y.1, y.2.2, _tcp y.2.1.2.2, forallb (λ seg, negb (rst (header seg))) (transmitted y.2.1.2.1)))
    (true, true, None, true)) as ([[rules st] ended] & [act [[rules' [k s]] ended']] & Ho & Hm & Hk).
  { vm_compute. reflexivity. }
  cbn [fst snd] in Hm, Hk. apply result_bind_ok in Hm as (y & Hm & [= <- ->]).
  injection Hk as Ha -> Ht Hr. exists rules, st, ended, rules', k, s. split_and!; assumption.
Qed.
