(* ===== verification/SocketPair.v ===== *)
(** * Two TCP sockets on a network

    The threads of two [TCPSpongeSocket]s take turns, a round of the event
    loop at a time, over a network that may lose, repeat and reorder segments.
    What is read from either socket is a prefix of what was written to the
    other. *)

From S2P Require Import Prelude WrappingIntegers ByteStream StreamReassembler Buffer TCPHeader TCPSegment.
From S2P Require Import TCPConfig StreamSegments TCPReceiver TCPSender TCPConnection EndToEnd.
From S2P Require Import TCPState Address FileDescriptor EventLoop Socket FdAdapter TCPSpongeSocket SocketDelivery.
From stdpp Require Import options.

Local Open Scope Z_scope.

(** ** A thread, round by round *)

(** Where the code that runs a socket is: in the loop of [connect] or
    [listen_and_accept], which has a message to print when its loop has ended,
    in the loop of [_tcp_main], or done. *)
Inductive Phase (A : Type) :=
| Opening (condition : TCPSpongeSocket A → bool) (message : TCPSpongeSocket A → result unit) (base_time : Z)
| Running (base_time : Z)
| Finished.
Arguments Opening {A} _ _ _.
Arguments Running {A} _.
Arguments Finished {A}.

Record Thread (K A : Type) := mkThread {
  rules : list (@Rule K (TCPSpongeSocket A));
  socket : TCPSpongeSocket A;
  phase : Phase A
}.
Arguments mkThread {K A} _ _ _.
Arguments rules {K A} _.
Arguments socket {K A} _.
Arguments phase {K A} _.

Section Threads.
Context {K A : Type} `{HK : Kernel K} `{HA : SocketAdapter K A} `{HR : Resolver}.
Context (reads : Reads).

(** [connect] and [listen_and_accept] up to their loops. *)
Definition connect_begin (st : K * TCPSpongeSocket A) (c_tcp : TCPConfig) (c_ad : FdAdapterConfig)
    (random : Z) : result (K * Thread K A) :=
  let '(k, s) := st in
  match _tcp s with
  | Some _ => Throw RuntimeError
  | None =>
      let '(s, rules) := _initialize_TCP reads s c_tcp random in
      let s := configure s c_ad in
      _ ← Address.to_string (destination c_ad);
      tcp ← get_tcp s;
      tcp ← TCPConnection.connect tcp;
      let s := set_tcp s (Some tcp) in
      if negb (in_state SYN_SENT s) then Throw RuntimeError
      else
        let '(k, base_time) := sys_clock k in
        Ok (k, mkThread rules s (Opening (in_state SYN_SENT) (λ _, Ok tt) base_time))
  end.

Definition accepting (s : TCPSpongeSocket A) : bool :=
  in_state LISTEN s || in_state SYN_RCVD s || in_state SYN_SENT s.

Definition listen_begin (st : K * TCPSpongeSocket A) (c_tcp : TCPConfig) (c_ad : FdAdapterConfig)
    (random : Z) : result (K * Thread K A) :=
  let '(k, s) := st in
  match _tcp s with
  | Some _ => Throw RuntimeError
  | None =>
      let '(s, rules) := _initialize_TCP reads s c_tcp random in
      let s := configure s c_ad in
      let s := set_adapter s (sa_set_base (_datagram_adapter s)
                 (set_listening (sa_base (_datagram_adapter s)) true)) in
      let '(k, base_time) := sys_clock k in
      Ok (k, mkThread rules s (Opening accepting print_destination base_time))
  end.

(** The start of [_tcp_main], once the first loop has ended. *)
Definition main_begin (k : K) (rules : list (@Rule K (TCPSpongeSocket A))) (s : TCPSpongeSocket A)
    : result (K * Thread K A) :=
  match _tcp s with
  | None => Throw RuntimeError
  | Some _ => let '(k, base_time) := sys_clock k in Ok (k, mkThread rules s (Running base_time))
  end.

(** One turn of a thread. *)
Definition turn (abort : bool) (k : K) (th : Thread K A) : result (K * Thread K A) :=
  match phase th with
  | Opening condition message base_time =>
      if negb (condition (socket th)) then _ ← message (socket th); main_begin k (rules th) (socket th)
      else
        '(continue, rules, (k, s), base_time) ← tcp_loop_round abort (rules th) (k, socket th) base_time;
        if continue : bool then Ok (k, mkThread rules s (Opening condition message base_time))
        else _ ← message s; main_begin k rules s
  | Running base_time =>
      '(continue, rules, (k, s), base_time) ← tcp_loop_round abort (rules th) (k, socket th) base_time;
      if continue : bool then Ok (k, mkThread rules s (Running base_time))
      else
        '(k, w) ← Socket.shutdown k (_owner s) SHUT_RDWR;
        Ok (k, mkThread rules (set_tcp (set_owner s w) None) Finished)
  | Finished => Ok (k, th)
  end.

Fixpoint turns (aborts : list bool) (k : K) (th : Thread K A) : result (K * Thread K A) :=
  match aborts with
  | [] => Ok (k, th)
  | abort :: aborts => '(k, th) ← turn abort k th; turns aborts k th
  end.

(** ** The turns are the code's loops *)

Lemma turns_one abort k (th : Thread K A) : turns [abort] k th = turn abort k th.
Proof using Type. cbn [turns]. by destruct (turn abort k th) as [[? ?]|]. Qed.

Lemma turns_app l1 l2 k (th : Thread K A) :
  turns (l1 ++ l2) k th = ('(k, th) ← turns l1 k th; turns l2 k th).
Proof using Type.
  revert k th. induction l1 as [|ab l1 IH]; intros k th; [done|]. cbn [turns app].
  destruct (turn ab k th) as [[k1 th1]|]; [|done]. apply IH.
Qed.

Lemma opening_turns aborts : ∀ condition message rs k s base rs' k' s',
  tcp_loop aborts condition rs (k, s) base = Ok (rs', (k', s'), true) →
  ∃ l, turns l k (mkThread rs s (Opening condition message base)) = (_ ← message s'; main_begin k' rs' s').
Proof using Type.
  induction aborts as [|ab aborts IH]; intros condition message rs k s base rs' k' s'; cbn [tcp_loop snd];
    (destruct (negb (condition s)) eqn:Hn; [intros [= <- <- <-]; exists [false]; rewrite turns_one|]).
  - unfold turn. cbn [phase socket rules]. by rewrite Hn.
  - done.
  - unfold turn. cbn [phase socket rules]. by rewrite Hn.
  - intros ([[[go rs1] [k1 s1]] base1] & H1 & H2)%result_bind_ok. destruct go.
    + apply (IH _ message) in H2 as (l & Hl). exists (ab :: l). cbn [turns]. unfold turn at 1. cbn [phase socket rules].
      rewrite Hn, H1. exact Hl.
    + injection H2 as <- <- <-. exists [ab]. rewrite turns_one. unfold turn. cbn [phase socket rules].
      by rewrite Hn, H1.
Qed.

Lemma running_turns aborts : ∀ rs k s base rs' k' s' ended,
  tcp_loop aborts (λ _, true) rs (k, s) base = Ok (rs', (k', s'), ended) →
  if ended
  then ∃ l, turns l k (mkThread rs s (Running base)) =
    ('(k, w) ← Socket.shutdown k' (_owner s') SHUT_RDWR; Ok (k, mkThread rs' (set_tcp (set_owner s' w) None) Finished))
  else ∃ l base', turns l k (mkThread rs s (Running base)) = Ok (k', mkThread rs' s' (Running base')).
Proof using Type.
  induction aborts as [|ab aborts IH]; intros rs k s base rs' k' s' ended; cbn [tcp_loop negb].
  { intros [= <- <- <- <-]. by exists [], base. }
  intros ([[[go rs1] [k1 s1]] base1] & H1 & H2)%result_bind_ok.
  assert (go = true → turn ab k (mkThread rs s (Running base)) = Ok (k1, mkThread rs1 s1 (Running base1))) as Hgo
    by (intros ->; unfold turn; cbn [phase socket rules]; by rewrite H1).
  destruct go.
  - apply IH in H2. destruct ended.
    + destruct H2 as (l & Hl). exists (ab :: l). cbn [turns]. by rewrite Hgo.
    + destruct H2 as (l & b & Hl). exists (ab :: l), b. cbn [turns]. by rewrite Hgo.
  - injection H2 as <- <- <- <-. exists [ab]. rewrite turns_one. unfold turn. cbn [phase socket rules].
    by rewrite H1.
Qed.

Lemma main_turns rs k s aborts rs' k' s' ended :
  _tcp_main rs (k, s) aborts = Ok (rs', (k', s'), ended) →
  ∃ k0 th0 l th, main_begin k rs s = Ok (k0, th0) ∧ turns l k0 th0 = Ok (k', th) ∧ rules th = rs' ∧ socket th = s'.
Proof using Type.
  unfold _tcp_main, main_begin, _tcp_loop. cbn [snd]. destruct (_tcp s); [|done].
  destruct (sys_clock k) as [k0 base]. intros ([[rs1 [k1 s1]] e] & H1 & H2)%result_bind_ok.
  apply running_turns in H1. destruct e.
  - apply result_bind_ok in H2 as ([k2 w] & H3 & [= <- <- <- <-]). destruct H1 as (l & Hl). rewrite H3 in Hl.
    eexists _, _, l, _. split_and!; [reflexivity|exact Hl|done..].
  - injection H2 as <- <- <- <-. destruct H1 as (l & b & Hl).
    eexists _, _, l, _. split_and!; [reflexivity|exact Hl|done..].
Qed.

(** Opening a connection and running the thread, with nothing in between, is a
    sequence of turns. *)
Lemma begun_turns condition message rs k s base aborts rs1 st1 aborts' rs' k' s' ended :
  tcp_loop aborts condition rs (k, s) base = Ok (rs1, st1, true) → message st1.2 = Ok tt →
  _tcp_main rs1 st1 aborts' = Ok (rs', (k', s'), ended) →
  ∃ l th, turns l k (mkThread rs s (Opening condition message base)) = Ok (k', th) ∧ rules th = rs' ∧ socket th = s'.
Proof using Type.
  destruct st1 as [k1 s1]. intros H Hp (k0 & th0 & l2 & th & Hb & Hl2 & Hr & Hs)%main_turns.
  destruct (opening_turns _ _ message _ _ _ _ _ _ _ H) as (l1 & Hl1). simpl in Hp.
  exists (l1 ++ l2), th. rewrite turns_app, Hl1, Hp. cbn [mbind result_bind]. rewrite Hb. by split_and!.
Qed.

Lemma connect_turns st cfg c_ad random aborts rs1 st1 aborts' rs' k' s' ended :
  connect reads st cfg c_ad random aborts = Ok (rs1, st1, true) →
  _tcp_main rs1 st1 aborts' = Ok (rs', (k', s'), ended) →
  ∃ k0 th0 l th, connect_begin st cfg c_ad random = Ok (k0, th0) ∧ turns l k0 th0 = Ok (k', th) ∧
    rules th = rs' ∧ socket th = s'.
Proof using Type.
  destruct st as [k s]. unfold connect, connect_begin. destruct (_tcp s); [done|]. cbn [_initialize_TCP].
  intros (x & -> & (c & -> & (c1 & Hc & H)%result_bind_ok)%result_bind_ok)%result_bind_ok Hm.
  cbn [mbind result_bind]. rewrite Hc. cbn [mbind result_bind]. destruct (negb _); [done|].
  unfold _tcp_loop in H. destruct (sys_clock k) as [k0 base].
  destruct (begun_turns _ (λ _, Ok tt) _ _ _ _ _ _ _ _ _ _ _ _ H eq_refl Hm) as (l & th & Ht). by eexists _, _, l, th.
Qed.

Lemma listen_turns st cfg c_ad random aborts rs1 st1 aborts' rs' k' s' ended :
  listen_and_accept reads st cfg c_ad random aborts = Ok (rs1, st1, true) →
  _tcp_main rs1 st1 aborts' = Ok (rs', (k', s'), ended) →
  ∃ k0 th0 l th, listen_begin st cfg c_ad random = Ok (k0, th0) ∧ turns l k0 th0 = Ok (k', th) ∧
    rules th = rs' ∧ socket th = s'.
Proof using Type.
  destruct st as [k s]. unfold listen_and_accept, listen_begin. destruct (_tcp s); [done|]. cbn [_initialize_TCP].
  intros ([[rs2 [k2 s2]] e] & H & ([] & Hp & [= <- <- ->])%result_bind_ok)%result_bind_ok Hm.
  unfold _tcp_loop in H. destruct (sys_clock k) as [k0 base].
  destruct (begun_turns _ print_destination _ _ _ _ _ _ _ _ _ _ _ _ H Hp Hm) as (l & th & Ht). by eexists _, _, l, th.
Qed.

End Threads.

(** ** Invariant of a thread *)

Section ThreadInvariant.
Context {K A : Type} `{HK : Kernel K} `{HA : SocketAdapter K A} `{HR : Resolver}.
Context (reads : Reads) (td : Z) (So Si : bytes) (io ii : WrappingInt32).
Context `{HV : PairView K} `{HP : !StreamPair K td} {ok : A → Prop} `{HPA : !PeerAdapter K A ok}.
Context (HSo8 : Forall is_u8 So) (Hii : wf_WrappingInt32 ii) (HSi : slen Si < 0x80000000).

Abbreviation tinv := (tinv So Si io ii).
Abbreviation socket_inv := (socket_inv td So Si io ii (ok := ok)).

(** [k0] is the kernel at an earlier time. *)
Definition thread_inv (k0 k : K) (th : Thread K A) : Prop :=
  match phase th with
  | Finished => ∃ c, tinv k0 k c
  | _ => socket_inv k0 (k, socket th) ∧ sublist (rules th) (tcp_rules reads)
  end.

Lemma thread_inv_tinv k0 k th : thread_inv k0 k th → ∃ c, tinv k0 k c.
Proof using Type.
  unfold thread_inv. destruct (phase th); [intros [Hs _]..|done];
    destruct (so_tcp _ _ _ _ _ _ _ Hs) as (c & _ & Ht); by exists c.
Qed.

(** What another thread does to the kernel does not matter, if what it has put
    on the network carries the peer's stream, and what it has written for this
    thread is a part of the owner's. *)
Lemma tinv_move k0 k k' c :
  (consumed k', delivered k', sent k') = (consumed k, delivered k, sent k) →
  Forall (carries Si ii) (arriving k') → tinv k0 k c → tinv k' k' c.
Proof using HP. intros [= E1 E2 E3] Ha []. split; rewrite ?E1, ?E2, ?E3; done. Qed.

Lemma thread_inv_move k0 k k' th :
  (consumed k', delivered k', sent k') = (consumed k, delivered k, sent k) →
  Forall (carries Si ii) (arriving k') →
  (promise So (offered k) (owner_done k) → promise So (offered k') (owner_done k')) →
  thread_inv k0 k th → thread_inv k' k' th.
Proof using HP.
  intros Ev Ha Hpr. pose proof Ev as [= E1 _ _].
  assert (∀ s, socket_inv k0 (k, s) → socket_inv k' (k', s)) as Hm.
  { intros s [Hf Ho He Hp Hok (c & Hc & Ht)]. split; simpl in *; try done; [by rewrite E1|auto|].
    exists c. split; [done|]. by eapply tinv_move. }
  unfold thread_inv. destruct (phase th); [intros [??]; auto..|].
  intros (c & Ht). exists c. by eapply tinv_move.
Qed.

Lemma rules_respect k0 rs :
  sublist rs (tcp_rules reads) → Forall (respects (socket_inv k0) (owner_gone So)) rs.
Proof using Hii HSi HPA HP HSo8. intros Hs. eapply Forall_of_sublist; [exact Hs|]. by apply tcp_rules_respect. Qed.

Lemma clock_inv k0 k s k' t : socket_inv k0 (k, s) → sys_clock k = (k', t) → socket_inv k0 (k', s).
Proof using HP.
  intros [Hf Ho He Hpr Hok (c & Hc & Ht)] Hck. pose proof (pair_clock _ _ _ Hck) as Ev.
  pose proof Ev as [[= E1 _ _] (E2 & E3 & _)].
  split; simpl in *; try done; [by rewrite E1|by rewrite E2, E3|]. exists c. split; [done|]. by eapply tinv_same.
Qed.

Lemma main_begin_inv k0 k rs s k' th :
  socket_inv k0 (k, s) → sublist rs (tcp_rules reads) → main_begin k rs s = Ok (k', th) → thread_inv k0 k' th.
Proof using HP.
  intros Hs Hr. unfold main_begin. destruct (_tcp s); [|done]. destruct (sys_clock k) as [k1 now] eqn:Hck.
  intros [= <- <-]. split; [by eapply clock_inv|done].
Qed.

Lemma turn_keeps k0 abort k th k' th' :
  thread_inv k0 k th → turn abort k th = Ok (k', th') → thread_inv k0 k' th'.
Proof using Hii HSi HPA HP HSo8.
  assert (∀ base go rs k1 s1 base1, socket_inv k0 (k, socket th) ∧ sublist (rules th) (tcp_rules reads) →
    tcp_loop_round abort (rules th) (k, socket th) base = Ok (go, rs, (k1, s1), base1) →
    socket_inv k0 (k1, s1) ∧ sublist rs (tcp_rules reads)) as Hround.
  { intros base go rs k1 s1 base1 [Hs Hr] H.
    destruct (tcp_loop_round_keeps td So Si io ii k0 _ _ _ _ _ _ _ _ (rules_respect k0 _ Hr) Hs H) as [? ?].
    split; [done|by etrans]. }
  unfold turn, thread_inv at 1. destruct (phase th) as [cond msg base|base|] eqn:Hp.
  - intros Hi. destruct (negb _).
    { intros (_ & _ & H)%result_bind_ok. destruct Hi. by eapply main_begin_inv. }
    intros ([[[go rs] [k1 s1]] b1] & H1 & H2)%result_bind_ok. destruct (Hround _ _ _ _ _ _ Hi H1) as [? ?].
    destruct go; [by injection H2 as <- <-|]. apply result_bind_ok in H2 as (_ & _ & H2). by eapply main_begin_inv.
  - intros Hi ([[[go rs] [k1 s1]] b1] & H1 & H2)%result_bind_ok. destruct (Hround _ _ _ _ _ _ Hi H1) as [Hs1 ?].
    destruct go; [by injection H2 as <- <-|]. apply result_bind_ok in H2 as ([k2 w] & H3 & [= <- <-]).
    unfold Socket.shutdown in H3. destruct (sys_shutdown _ _ _) as [k3 r] eqn:Hsh.
    pose proof (pair_finish _ _ _ _ Hsh) as [[= E1 E2 E3 E4] Hsi].
    apply result_bind_ok in H3 as (x & _ & [= <- <-]).
    destruct (so_tcp _ _ _ _ _ _ _ Hs1) as (c & _ & []). exists c.
    split; rewrite ?E1, ?E2, ?E3, ?E4; try done. by etrans.
  - intros Hi [= <- <-]. unfold thread_inv. by rewrite Hp.
Qed.

(** Both ways to begin establish it. *)
Definition begins (st : K * TCPSpongeSocket A) cfg c_ad random (k : K) (th : Thread K A) : Prop :=
  connect_begin reads st cfg c_ad random = Ok (k, th) ∨ listen_begin reads st cfg c_ad random = Ok (k, th).

Lemma begins_inv k s cfg c_ad random k' th :
  fresh td So k s → ok (_datagram_adapter (configure s c_ad)) → Forall (carries Si ii) (arriving k) → good_config io cfg random → slen So < 0x80000000 →
  begins (k, s) cfg c_ad random k' th → thread_inv k k' th.
Proof using HSi HP HPA.
  intros Hf Hok Ha Hg HSo.
  assert (∀ s' c, _thread_data s' = _thread_data s → ok (_datagram_adapter s') → _tcp s' = Some c →
    (c = TCPConnection_new cfg random ∨ TCPConnection.connect (TCPConnection_new cfg random) = Ok c) →
    socket_inv k (k, s')) as Hnew by (intros; by eapply fresh_inv).
  unfold begins, connect_begin, listen_begin. destruct (_tcp s); [by intros [?|?]|]. cbn [_initialize_TCP].
  destruct (sys_clock k) as [k1 now] eqn:Hck. intros [H|H].
  - apply result_bind_ok in H as (_ & _ & (c & H1 & (c1 & H2 & H3)%result_bind_ok)%result_bind_ok).
    apply Ok_inj in H1 as <-. destruct (negb _); [done|]. injection H3 as <- <-.
    split; [|done]. eapply clock_inv; [|exact Hck]. eapply (Hnew _ c1); try done. by right.
  - injection H as <- <-. split; [|done]. eapply clock_inv; [|exact Hck].
    eapply (Hnew _ (TCPConnection_new cfg random)); try done; [by apply (peer_listen _ Hok)|by left].
Qed.

End ThreadInvariant.

(** ** Two sockets *)

(** What can be seen of one end. *)
Definition end_view {K} (V : PairView K) (k : K) := (offered k, owner_done k, (consumed k, delivered k, sent k)).

(** A kernel and a network for two sockets, which may belong to different
    processes with system calls of their own.  What may arrive at one end is
    what the other end has sent, so that segments can be lost, repeated and
    reordered but not made up; the calls of one end do not show at the other. *)
Class SocketNetwork (K A B : Type) {HKa HKb : Kernel K} `{HA : SocketAdapter K A} `{HB : SocketAdapter K B}
    {Va Vb : PairView K} (oka : A → Prop) (okb : B → Prop) (tda tdb : Z) : Prop := {
  left_pair : StreamPair (HK := HKa) (HV := Va) K tda;
  right_pair : StreamPair (HK := HKb) (HV := Vb) K tdb;
  left_adapter : PeerAdapter (HK := HKa) (HA := HA) (HV := Va) K A oka;
  right_adapter : PeerAdapter (HK := HKb) (HA := HB) (HV := Vb) K B okb;
  left_arriving k : arriving (PairView := Va) k = sent (PairView := Vb) k;
  right_arriving k : arriving (PairView := Vb) k = sent (PairView := Va) k;
  left_since k k' : since (PairView := Va) k k' → end_view Vb k' = end_view Vb k;
  right_since k k' : since (PairView := Vb) k k' → end_view Va k' = end_view Va k
}.

Inductive Side := Left | Right.

Section Pair.
Context {K A B : Type} {HKa HKb : Kernel K} `{HA : SocketAdapter K A} `{HB : SocketAdapter K B} `{HR : Resolver}.

(** The threads take turns in the order of a schedule, which also says what
    each of them finds in [_abort]. *)
Fixpoint interleave (schedule : list (Side * bool)) (k : K) (a : Thread K A) (b : Thread K B)
    : result (K * Thread K A * Thread K B) :=
  match schedule with
  | [] => Ok (k, a, b)
  | (Left, abort) :: schedule => '(k, a) ← turn (HK := HKa) abort k a; interleave schedule k a b
  | (Right, abort) :: schedule => '(k, b) ← turn (HK := HKb) abort k b; interleave schedule k a b
  end.

Context {Va Vb : PairView K}.
Context (reads : Reads) (tda tdb : Z) (Sa Sb : bytes) (ia ib : WrappingInt32).
Context {oka : A → Prop} {okb : B → Prop}.
Context {HN : SocketNetwork (HKa := HKa) (HKb := HKb) (Va := Va) (Vb := Vb) K A B oka okb tda tdb}.
Context (HSa8 : Forall is_u8 Sa) (HSb8 : Forall is_u8 Sb).
Context (Hia : wf_WrappingInt32 ia) (Hib : wf_WrappingInt32 ib).
Context (HSa : slen Sa < 0x80000000) (HSb : slen Sb < 0x80000000).

Definition left_inv (k0 k : K) (a : Thread K A) : Prop :=
  thread_inv (HK := HKa) (HV := Va) (ok := oka) reads tda Sa Sb ia ib k0 k a.
Definition right_inv (k0 k : K) (b : Thread K B) : Prop :=
  thread_inv (HK := HKb) (HV := Vb) (ok := okb) reads tdb Sb Sa ib ia k0 k b.

(** A turn at one end, or its beginning, keeps the other's invariant. *)
Lemma left_moved k k' a b : left_inv k k' a → right_inv k k b → left_inv k' k' a ∧ right_inv k' k' b.
Proof using HN.
  destruct HN as [HPa HPb _ _ Hal Har Hsl Hsr]. unfold left_inv, right_inv.
  intros Ha Hb. destruct (thread_inv_tinv _ _ _ _ _ _ _ _ _ Ha) as (c & Ht).
  pose proof (Hsl _ _ (ti_since _ _ _ _ _ _ _ Ht)) as Ev. unfold end_view in Ev. injection Ev as E1 E2 E3 E4 E5.
  split; [eapply thread_inv_move; [exact HPa|reflexivity|apply Ht|done|exact Ha]|].
  eapply thread_inv_move; [exact HPb|rewrite E3, E4, E5; reflexivity| |by rewrite E1, E2|exact Hb]. rewrite Har. apply Ht.
Qed.

Lemma right_moved k k' a b : right_inv k k' b → left_inv k k a → left_inv k' k' a ∧ right_inv k' k' b.
Proof using HN.
  destruct HN as [HPa HPb _ _ Hal Har Hsl Hsr]. unfold left_inv, right_inv.
  intros Hb Ha. destruct (thread_inv_tinv _ _ _ _ _ _ _ _ _ Hb) as (c & Ht).
  pose proof (Hsr _ _ (ti_since _ _ _ _ _ _ _ Ht)) as Ev. unfold end_view in Ev. injection Ev as E1 E2 E3 E4 E5.
  split; [|eapply thread_inv_move; [exact HPb|reflexivity|apply Ht|done|exact Hb]].
  eapply thread_inv_move; [exact HPa|rewrite E3, E4, E5; reflexivity| |by rewrite E1, E2|exact Ha]. rewrite Hal. apply Ht.
Qed.

Lemma interleave_keeps schedule : ∀ k a b k' a' b',
  left_inv k k a → right_inv k k b → interleave schedule k a b = Ok (k', a', b') →
  left_inv k' k' a' ∧ right_inv k' k' b'.
Proof using HN Hia Hib HSa HSb HSb8 HSa8.
  pose proof left_pair as HPa. pose proof right_pair as HPb.
  pose proof left_adapter as HAa. pose proof right_adapter as HAb.
  induction schedule as [|[[] abort] schedule IH]; intros k a b k' a' b' Ha Hb; cbn [interleave].
  - by intros [= <- <- <-].
  - intros ([k1 a1] & H1 & H2)%result_bind_ok.
    destruct (left_moved k k1 a1 b) as [??]; [by eapply (turn_keeps _ tda Sa Sb)|done|]. by eapply IH.
  - intros ([k1 b1] & H1 & H2)%result_bind_ok.
    destruct (right_moved k k1 a b1) as [??]; [by eapply (turn_keeps _ tdb Sb Sa)|done|]. by eapply IH.
Qed.

(** The second socket begins after the first. *)
Lemma both_begin k sa sb cfga cfgb ada adb rnda rndb k1 a k2 b :
  fresh (HV := Va) tda Sa k sa → fresh (HV := Vb) tdb Sb k sb →
  oka (_datagram_adapter (configure sa ada)) → okb (_datagram_adapter (configure sb adb)) → good_config ia cfga rnda → good_config ib cfgb rndb →
  begins (HK := HKa) reads (k, sa) cfga ada rnda k1 a →
  begins (HK := HKb) reads (k1, sb) cfgb adb rndb k2 b →
  left_inv k2 k2 a ∧ right_inv k2 k2 b.
Proof using HN HSa HSb.
  intros Hfa Hfb Hoa Hob Hga Hgb Ba Bb. destruct Hfb as [? ? ? Fc Fd Fs Fp].
  pose proof left_pair as HPa. pose proof right_pair as HPb.
  pose proof left_adapter as HAa. pose proof right_adapter as HAb.
  assert (left_inv k k1 a) as Ha.
  { eapply (begins_inv _ tda Sa Sb); try done. rewrite left_arriving, Fs. constructor. }
  destruct (thread_inv_tinv _ _ _ _ _ _ _ _ _ Ha) as (c & Ht).
  pose proof (left_since _ _ (ti_since _ _ _ _ _ _ _ Ht)) as Ev. unfold end_view in Ev. injection Ev as E1 E2 E3 E4 E5.
  apply (right_moved k1 k2).
  - eapply (begins_inv _ tdb Sb Sa); try done; [split; congruence|]. rewrite right_arriving. apply Ht.
  - eapply thread_inv_move; [exact HPa|reflexivity|apply Ht|done|exact Ha].
Qed.

End Pair.

(** ** Properties *)

(** C4: two sockets.  The owner of one writes [Sa], the owner of the other [Sb],
    each shorter than [2^31] bytes; the initial sequence numbers are fixed or
    random.  Each socket connects or listens, and their threads take turns in
    any order, each until it is told to stop or its connection ends, over a
    network that loses, repeats and reorders segments.  At every moment of a run
    in which no call has thrown, whatever the undefined reads of the code have
    yielded, what either owner has been given is a prefix of what the other
    writes.  The adapters are any that satisfy [PeerAdapter]. *)
Theorem sockets_deliver {K A B : Type} {HKa HKb : Kernel K} {HA : SocketAdapter K A} {HB : SocketAdapter K B}
    {HR : Resolver} {Va Vb : PairView K}
    (reads : Reads) (tda tdb : Z) (Sa Sb : bytes) (ia ib : WrappingInt32)
    {oka : A → Prop} {okb : B → Prop}
    {HN : SocketNetwork (HKa := HKa) (HKb := HKb) (Va := Va) (Vb := Vb) K A B oka okb tda tdb}
    (k : K) (sa : TCPSpongeSocket A) (sb : TCPSpongeSocket B) (cfga cfgb : TCPConfig)
    (ada adb : FdAdapterConfig) (rnda rndb : Z) (schedule : list (Side * bool)) k1 a k2 b k' a' b' :
  wf_WrappingInt32 ia → wf_WrappingInt32 ib →
  slen Sa < 0x80000000 → slen Sb < 0x80000000 → Forall is_u8 Sa → Forall is_u8 Sb →
  fresh (HV := Va) tda Sa k sa → fresh (HV := Vb) tdb Sb k sb →
  oka (_datagram_adapter (configure sa ada)) → okb (_datagram_adapter (configure sb adb)) → good_config ia cfga rnda → good_config ib cfgb rndb →
  begins (HK := HKa) reads (k, sa) cfga ada rnda k1 a →
  begins (HK := HKb) reads (k1, sb) cfgb adb rndb k2 b →
  interleave (HKa := HKa) (HKb := HKb) schedule k2 a b = Ok (k', a', b') →
  delivered (PairView := Vb) k' = stake (slen (delivered (PairView := Vb) k')) Sa ∧
  delivered (PairView := Va) k' = stake (slen (delivered (PairView := Va) k')) Sb.
Proof.
  intros Hia Hib HSa HSb HSa8 HSb8 Hfa Hfb Hoa Hob Hga Hgb Ba Bb Hrun.
  destruct (both_begin reads tda tdb Sa Sb ia ib HSa HSb _ _ _ _ _ _ _ _ _ _ _ _ _ Hfa Hfb Hoa Hob Hga Hgb Ba Bb).
  destruct (interleave_keeps reads tda tdb Sa Sb ia ib HSa8 HSb8 Hia Hib HSa HSb _ _ _ _ _ _ _
    ltac:(done) ltac:(done) Hrun) as [[c Ht]%thread_inv_tinv [d Hu]%thread_inv_tinv].
  split; [exact (tinv_prefix _ _ _ _ _ _ _ Hu)|exact (tinv_prefix _ _ _ _ _ _ _ Ht)].
Qed.

(** A kernel with two socket pairs, whose thread ends are [3] and [13], and a
    wire between the adapters' descriptors [5] and [15]. *)
Record wire_end := mkend { pos : nat; out : bytes; wrote : list TCPSegment; taken_in : nat }.
Record wire := mkwire { left_end : wire_end; right_end : wire_end; time : Z }.

Definition left_stream : bytes := [1; 2; 3].
Definition right_stream : bytes := [4; 5].

Definition end_read (S : bytes) (e : wire_end) (len : Z) : wire_end * bytes :=
  let data := take_from S (pos e) (Z.to_nat len) in
  (mkend (pos e + length data) (out e) (wrote e) (taken_in e), data).
Definition end_write (e : wire_end) (s : bytes) : wire_end := mkend (pos e) (out e ++ s) (wrote e) (taken_in e).
Definition end_send (e : wire_end) (seg : TCPSegment) : wire_end :=
  mkend (pos e) (out e) (wrote e ++ [seg]) (taken_in e).
Definition end_take (e : wire_end) : wire_end := mkend (pos e) (out e) (wrote e) (S (taken_in e)).

Definition wire_ready (k : wire) (p : pollfd) : Z :=
  if (fd p =? 5) && (events p =? POLLIN) && (length (wrote (right_end k)) <=? taken_in (left_end k))%nat then 0
  else if (fd p =? 15) && (events p =? POLLIN) && (length (wrote (left_end k)) <=? taken_in (right_end k))%nat then 0
  else events p.

Definition wire_kernel : Kernel wire := {|
  sys_read k n len :=
    if n =? 3 then let '(e, data) := end_read left_stream (left_end k) len in (mkwire e (right_end k) (time k), inr data)
    else let '(e, data) := end_read right_stream (right_end k) len in (mkwire (left_end k) e (time k), inr data);
  sys_writev k n iov :=
    let s := concat (map fst iov) in
    (if n =? 3 then mkwire (end_write (left_end k) s) (right_end k) (time k)
     else mkwire (left_end k) (end_write (right_end k) s) (time k), inr (slen s));
  sys_close k _ := (k, inr 0);
  sys_getfl k _ := (k, inr 0);
  sys_setfl k _ _ := (k, inr 0);
  sys_poll k ps _ := (k, inr (slen ps, map (wire_ready k) ps));
  sys_socket k _ _ := (k, inl 1);
  sys_getsockopt k _ _ := (k, inl 1);
  sys_setsockopt k _ _ _ := (k, inl 1);
  sys_name k _ _ := (k, inl 1);
  sys_bind k _ _ := (k, inl 1);
  sys_connect k _ _ := (k, inl 1);
  sys_listen k _ _ := (k, inl 1);
  sys_accept k _ := (k, inl 1);
  sys_shutdown k _ _ := (k, inr 0);
  sys_recvfrom k _ _ := (k, inl 1);
  sys_sendmsg k _ _ _ := (k, inl 1);
  sys_socketpair k _ _ := (k, inl 1);
  sys_open k _ _ := (k, inl 1);
  sys_ioctl k _ _ _ := (k, inl 1);
  sys_clock k := (mkwire (left_end k) (right_end k) (time k + 10), time k)
|}.

Definition left_wire : SocketAdapter wire (FDWrapper * FdAdapterBase) := {|
  sa_fd := fst;
  sa_read k a := Ok (mkwire (end_take (left_end k)) (right_end k) (time k), (register_read a.1, a.2),
                     wrote (right_end k) !! taken_in (left_end k));
  sa_write k a seg := Ok (mkwire (end_send (left_end k) seg) (right_end k) (time k), (register_write a.1, a.2), seg);
  sa_tick k a _ := Ok (k, a);
  sa_base := snd;
  sa_set_base a b := (a.1, b)
|}.

Definition right_wire : SocketAdapter wire (FDWrapper * FdAdapterBase) := {|
  sa_fd := fst;
  sa_read k a := Ok (mkwire (left_end k) (end_take (right_end k)) (time k), (register_read a.1, a.2),
                     wrote (left_end k) !! taken_in (right_end k));
  sa_write k a seg := Ok (mkwire (left_end k) (end_send (right_end k) seg) (time k), (register_write a.1, a.2), seg);
  sa_tick k a _ := Ok (k, a);
  sa_base := snd;
  sa_set_base a b := (a.1, b)
|}.

(** One end, as its thread sees it: nothing shows of the other end's calls. *)
Definition wire_view (S : bytes) (this that : wire → wire_end) : PairView wire := {|
  offered _ := S;
  owner_done _ := true;
  consumed k := consumed_to S (pos (this k));
  delivered k := out (this k);
  sent k := wrote (this k);
  arriving k := wrote (that k);
  since k k' := that k' = that k
|}.
Definition left_view : PairView wire := wire_view left_stream left_end right_end.
Definition right_view : PairView wire := wire_view right_stream right_end left_end.

(** The descriptors of the pairs report no hangup. *)
Lemma wire_poll_law td S finished consumed (step : wire → wire → Prop) :
  td = 3 ∨ td = 13 → (∀ k, step k k) → @hangup_law wire wire_kernel td S finished consumed step.
Proof.
  intros Htd Hstep k ps t k' answer [= <- <-]. split; [done|].
  intros n revents i p re [= <- <-] Hp Hre Hfd Hev Hup. rewrite list_lookup_fmap, Hp in Hre. simpl in Hre.
  unfold wire_ready in Hre. rewrite Hfd, Hev in Hre. destruct Htd as [->| ->]; by simplify_eq.
Qed.

Lemma wire_since (that : wire → wire_end) : PreOrder (λ k k', that k' = that k).
Proof. split; [done|]. intros x y z H1 H2. by rewrite H2. Qed.

Lemma left_wire_pair : @StreamPair wire wire_kernel left_view 3.
Proof.
  split.
  - apply wire_since.
  - intros k n k' data Hn [= <- <-].
    destruct (take_from_spec left_stream (pos (left_end k)) (Z.to_nat n)) as (? & ? & Hnil).
    split_and!; try done. intros ? ?. split; [done|]. apply Hnil; [done|lia].
  - intros k iov k' m [= <- <-]. pose proof (slen_nonneg (concat (map fst iov))).
    split_and!; try done. cbn. by rewrite stake_all by lia.
  - apply wire_poll_law; [by left|done].
  - by intros k k' r [= <- <-].
  - by intros k n k' r [= <- <-].
  - by intros k k' t [= <- <-].
Qed.

Lemma right_wire_pair : @StreamPair wire wire_kernel right_view 13.
Proof.
  split.
  - apply wire_since.
  - intros k n k' data Hn [= <- <-].
    destruct (take_from_spec right_stream (pos (right_end k)) (Z.to_nat n)) as (? & ? & Hnil).
    split_and!; try done. intros ? ?. split; [done|]. apply Hnil; [done|lia].
  - intros k iov k' m [= <- <-]. pose proof (slen_nonneg (concat (map fst iov))).
    split_and!; try done. cbn. by rewrite stake_all by lia.
  - apply wire_poll_law; [by right|done].
  - by intros k k' r [= <- <-].
  - by intros k n k' r [= <- <-].
  - by intros k k' t [= <- <-].
Qed.

Lemma wire_adapter (S : bytes) (this that : wire → wire_end) (a : SocketAdapter wire (FDWrapper * FdAdapterBase)) :
  (a = left_wire ∧ this = left_end ∧ that = right_end) ∨ (a = right_wire ∧ this = right_end ∧ that = left_end) →
  @PeerAdapter wire (FDWrapper * FdAdapterBase) wire_kernel a (wire_view S this that) (λ _, True).
Proof.
  intros [(-> & -> & ->)|(-> & -> & ->)]; split; [..|done| | | |done].
  1, 4: intros k a k' a' o _ [= <- <- <-]; split_and!; [done..|]; intros seg Hseg; by eapply list_elem_of_lookup_2.
  1, 3: intros k a seg k' a' seg' _ _ _ [= <- <- <-]; split_and!; try done; exists [seg]; split; [done|];
    intros S' isn Hc; constructor; [done|constructor].
  all: by intros k a ms k' a' _ [= <- <-].
Qed.

Lemma wire_network :
  @SocketNetwork wire (FDWrapper * FdAdapterBase) (FDWrapper * FdAdapterBase) wire_kernel wire_kernel left_wire right_wire
    left_view right_view (λ _, True) (λ _, True) 3 13.
Proof.
  split; [apply left_wire_pair|apply right_wire_pair|apply wire_adapter; by left|apply wire_adapter; by right|done|done|..];
    intros k k' Hs; unfold end_view; cbn in *; by rewrite Hs.
Qed.

Definition wire_socket (owner td device : Z) : TCPSpongeSocket (FDWrapper * FdAdapterBase) :=
  mkSocket (mkFDWrapper owner false false 0 0) (mkFDWrapper td false false 0 0)
    (mkFDWrapper device false false 0 0, mkFdAdapterBase relay_cfg false) None false false false.
Definition wire_start : wire := mkwire (mkend 0 [] [] 0) (mkend 0 [] [] 0) 0.

(** The two threads in turn, [n] times each. *)
Fixpoint in_turn (n : nat) : list (Side * bool) :=
  match n with O => [] | S n => (Left, false) :: (Right, false) :: in_turn n end.

Lemma sockets_deliver_witness :
  ∃ k1 a k2 b k' a' b',
    @connect_begin _ _ wire_kernel left_wire numeric_resolver some_reads
      (wire_start, wire_socket 4 3 5) (sample_cfg 7) relay_cfg 0 = Ok (k1, a) ∧
    @listen_begin _ _ wire_kernel right_wire numeric_resolver some_reads
      (k1, wire_socket 14 13 15) (sample_cfg 9) relay_cfg 0 = Ok (k2, b) ∧
    @interleave _ _ _ wire_kernel wire_kernel left_wire right_wire (in_turn 10) k2 a b = Ok (k', a', b') ∧
    (out (right_end k') = stake (slen (out (right_end k'))) left_stream ∧
     out (left_end k') = stake (slen (out (left_end k'))) right_stream) ∧
    out (right_end k') = [1; 2; 3] ∧ out (left_end k') = [4; 5].
Proof.
  destruct (result_run3
    (@connect_begin _ _ wire_kernel left_wire numeric_resolver some_reads
      (wire_start, wire_socket 4 3 5) (sample_cfg 7) relay_cfg 0)
    (λ x, @listen_begin _ _ wire_kernel right_wire numeric_resolver some_reads
      (x.1, wire_socket 14 13 15) (sample_cfg 9) relay_cfg 0)
    (λ x y, @interleave _ _ _ wire_kernel wire_kernel left_wire right_wire (in_turn 10) y.1 x.2 y.2)
    (λ z, (out (right_end z.1.1), out (left_end z.1.1))) ([1; 2; 3], [4; 5]))
    as ([k1 a] & [k2 b] & [[k' a'] b'] & H1 & H2 & H3 & Hk).
  { vm_compute. reflexivity. }
  injection Hk as Hk1 Hk2. cbn [fst snd] in H2, H3.
  exists k1, a, k2, b, k', a', b'. split; [exact H1|]. split; [exact H2|]. split; [exact H3|]. split; [|split; [exact Hk1|exact Hk2]].
  refine (@sockets_deliver wire (FDWrapper * FdAdapterBase) (FDWrapper * FdAdapterBase) wire_kernel wire_kernel left_wire right_wire
    numeric_resolver left_view right_view some_reads 3 13 left_stream right_stream (mkWrappingInt32 7) (mkWrappingInt32 9)
    (λ _, True) (λ _, True) wire_network wire_start (wire_socket 4 3 5) (wire_socket 14 13 15) (sample_cfg 7) (sample_cfg 9)
    relay_cfg relay_cfg 0 0 (in_turn 10) k1 a k2 b k' a' b' _ _ _ _ _ _ _ _ _ _ _ _ _ _ _).
  - concrete.
  - concrete.
  - concrete.
  - concrete.
  - repeat constructor; concrete.
  - repeat constructor; concrete.
  - split; try reflexivity. apply promise_all.
  - split; try reflexivity. apply promise_all.
  - exact I.
  - exact I.
  - split; concrete.
  - split; concrete.
  - left. exact H1.
  - right. exact H2.
  - exact H3.
Defined.
