(* ===== verification/AdapterDevices.v ===== *)
(** * Adapters on their devices

    The adapters of [FdAdapter], [TCPOverIP] and [TunTapAdapter] are given what
    their device delivers and keep what is to be written.  Here they are plugged
    into the kernel's descriptors, as the code has them: UDP sockets for
    [TCPOverUDPSocketAdapter], devices for the other two.  A call of an
    adapter's method reads first and then writes what the method wrote, in
    order; the only work between the writes and the end of a method is on the
    adapter's own state. *)

From stdpp Require Import gmap.
From S2P Require Import Prelude Buffer TCPSegment EthernetHeader Address FileDescriptor Socket Tun.
From S2P Require Import NetworkInterface FdAdapter TCPOverIP TunTapAdapter TCPSpongeSocket.
From stdpp Require Import options.

Local Open Scope Z_scope.

(** The adapter, and the descriptor that it owns. *)
Record Plugged (A : Type) := mkPlugged { adapter : A; device : FDWrapper }.
Arguments mkPlugged {A} _ _.
Arguments adapter {A} _.
Arguments device {A} _.

(** How an adapter that is delivered values of [In] uses its descriptor. *)
Class Device (K A In : Type) := {
  dev_read : K → FDWrapper → result (K * FDWrapper * In);
  dev_flush : K → FDWrapper → A → result (K * FDWrapper * A)
}.

Definition SIZE_MAX : Z := 0xffffffffffffffff.
Definition UDP_MTU : Z := 65536.

Section Devices.
Context {K : Type} `{HK : Kernel K} `{HR : Resolver}.

(** ** The socket's adapter *)

Section Plug.
Context {A In : Type} `{HA : FdAdapter A In} `{HD : Device K A In}.

Definition plugged_read (k : K) (p : Plugged A) : result (K * Plugged A * option TCPSegment) :=
  '(k, w, input) ← dev_read k (device p);
  '(a, seg) ← adapter_read (adapter p) input;
  '(k, w, a) ← dev_flush k w a;
  Ok (k, mkPlugged a w, seg).

Definition plugged_write (k : K) (p : Plugged A) (seg : TCPSegment) : result (K * Plugged A * TCPSegment) :=
  '(a, seg) ← adapter_write (adapter p) seg;
  '(k, w, a) ← dev_flush k (device p) a;
  Ok (k, mkPlugged a w, seg).

Definition plugged_tick (k : K) (p : Plugged A) (ms_since_last_tick : Z) : result (K * Plugged A) :=
  a ← adapter_tick (adapter p) ms_since_last_tick;
  '(k, w, a) ← dev_flush k (device p) a;
  Ok (k, mkPlugged a w).

#[export] Instance plugged_adapter : SocketAdapter K (Plugged A) := {|
  sa_fd := device;
  sa_read := plugged_read;
  sa_write := plugged_write;
  sa_tick := plugged_tick;
  sa_base p := adapter_base (adapter p);
  sa_set_base p b := mkPlugged (adapter_set_base (adapter p) b) (device p)
|}.

End Plug.

(** ** UDP sockets *)

Fixpoint send_datagrams (k : K) (w : FDWrapper) (l : list (Address * BufferList)) : result (K * FDWrapper) :=
  match l with
  | [] => Ok (k, w)
  | (destination, payload) :: l =>
      '(k, w) ← sendto k w destination (BufferViewList_of_list payload); send_datagrams k w l
  end.

Definition udp_flush (k : K) (w : FDWrapper) (a : TCPOverUDPSocketAdapter)
    : result (K * FDWrapper * TCPOverUDPSocketAdapter) :=
  '(k, w) ← send_datagrams k w (_sock a); Ok (k, w, mkUDP (udp_base a) []).

#[export] Instance udp_device : Device K TCPOverUDPSocketAdapter received_datagram := {|
  dev_read k w := recv k w UDP_MTU;
  dev_flush := udp_flush
|}.

(** ** TUN and TAP devices *)

Fixpoint write_buffers (k : K) (w : FDWrapper) (l : list BufferList) : result (K * FDWrapper) :=
  match l with
  | [] => Ok (k, w)
  | b :: l => '(k, w, _) ← FileDescriptor.write k w (BufferViewList_of_list b) true; write_buffers k w l
  end.

Definition tun_flush (k : K) (w : FDWrapper) (a : TCPOverIPv4OverTunFdAdapter)
    : result (K * FDWrapper * TCPOverIPv4OverTunFdAdapter) :=
  '(k, w) ← write_buffers k w (_tun a); Ok (k, w, mkTun (tun_base a) []).

Definition eth_flush (k : K) (w : FDWrapper) (a : TCPOverIPv4OverEthernetAdapter)
    : result (K * FDWrapper * TCPOverIPv4OverEthernetAdapter) :=
  '(k, w) ← write_buffers k w (_tap a); Ok (k, w, mkEth (eth_base a) [] (_interface a) (_next_hop a)).

#[export] Instance tun_device : Device K TCPOverIPv4OverTunFdAdapter bytes := {|
  dev_read k w := FileDescriptor.read k w SIZE_MAX;
  dev_flush := tun_flush
|}.

#[export] Instance eth_device : Device K TCPOverIPv4OverEthernetAdapter bytes := {|
  dev_read k w := FileDescriptor.read k w SIZE_MAX;
  dev_flush := eth_flush
|}.

(** ** Random loss: the device is that of the adapter below. *)

#[export] Instance lossy_device {mt19937 A In : Type} `{HD : Device K A In}
    : Device K (@LossyFdAdapter mt19937 A) In := {|
  dev_read := dev_read;
  dev_flush k w l := '(k, w, a) ← dev_flush (In := In) k w (_adapter l); Ok (k, w, mkLossy (_rand l) a)
|}.

(** ** Construction *)

Definition udp_plugged (w : FDWrapper) : result (Plugged TCPOverUDPSocketAdapter) :=
  a ← TCPOverUDPSocketAdapter_new; Ok (mkPlugged a w).

Definition tun_plugged (w : FDWrapper) : result (Plugged TCPOverIPv4OverTunFdAdapter) :=
  a ← TCPOverIPv4OverTunFdAdapter_new; Ok (mkPlugged a w).

(** The constructor writes a frame. *)
Definition eth_plugged (k : K) (w : FDWrapper) (eth_address : EthernetAddress) (ip_address next_hop : Address)
    : result (K * Plugged TCPOverIPv4OverEthernetAdapter) :=
  a ← TCPOverIPv4OverEthernetAdapter_new eth_address ip_address next_hop;
  '(k, w, a) ← eth_flush k w a;
  Ok (k, mkPlugged a w).

Definition lossy_plugged {mt19937 A : Type} (rand : mt19937) (p : Plugged A) : Plugged (@LossyFdAdapter mt19937 A) :=
  mkPlugged (mkLossy rand (adapter p)) (device p).

End Devices.
