(* ===== verification/AdapterPeers.v ===== *)
(** * The adapters as ends of a network of segments

    The adapters over UDP sockets and TUN devices, with or without random loss,
    satisfy what the theorems on sockets rely on ([PeerAdapter]): a segment that
    is written reaches the wire as bytes that parse as a segment with the same
    contents, and a segment is read only if bytes on the wire parse as it.  Of
    the kernel it is only said that a datagram or packet is written and read as
    a whole.  The Ethernet adapter is not treated here: its network interface
    also writes frames of its own when it reads. *)

From S2P Require Import Prelude WrappingIntegers Buffer Parser TCPHeader TCPSegment IPv4Header IPv4Datagram.
From S2P Require Import TCPConfig StreamSegments TCPSender Address FileDescriptor EventLoop Socket FdAdapter TCPOverIP.
From S2P Require Import TCPSpongeSocket SocketDelivery AdapterDevices.
From stdpp Require Import options.

Local Open Scope Z_scope.

(** ** Segments on the wire *)

(** The segment in a UDP datagram. *)
Definition udp_segment (b : bytes) : option TCPSegment :=
  match TCPSegment.parse TCPSegment_default (Buffer_of b) 0 with
  | Ok (seg, NoError) => Some seg
  | _ => None
  end.

(** The segment in an IPv4 packet. *)
Definition ip_segment (b : bytes) : option TCPSegment :=
  match IPv4Datagram.parse IPv4Datagram_default (Buffer_of b) with
  | Ok (d, NoError) =>
      match to_Buffer (IPv4Datagram.payload d) with
      | Ok p =>
          match TCPSegment.parse TCPSegment_default p (pseudo_cksum (IPv4Datagram.header d)) with
          | Ok (seg, NoError) => Some seg
          | _ => None
          end
      | Throw _ => None
      end
  | _ => None
  end.

(** What the device has been given, and what it may deliver. *)
Class Wire (K : Type) := {
  wire_out : K → list bytes;
  wire_in : K → list bytes
}.

(** The segments that are observed are those in the bytes on the wire. *)
Class Carried (K : Type) `{HV : PairView K} `{HW : Wire K} (segment_of : bytes → option TCPSegment) : Prop := {
  carried_out k : sent k = omap segment_of (wire_out k);
  carried_in k : arriving k = omap segment_of (wire_in k)
}.

(** Only the wire has changed. *)
Definition quiet {K} `{PairView K} (k k' : K) : Prop :=
  (consumed k', delivered k') = (consumed k, delivered k) ∧ pair_rest k k'.

(** A UDP socket: a datagram that fits the buffer is received as it is, and a
    datagram is sent as a whole. *)
Class UdpSocket (K : Type) `{HK : Kernel K} `{HV : PairView K} `{HW : Wire K} (dfd : Z) : Prop := {
  udp_recvfrom k k' data len from : sys_recvfrom k dfd UDP_MTU = (k', inr (data, len, from)) →
    pair_same k k' ∧ (len <= UDP_MTU → sresize len data ∈ wire_in k);
  udp_sendmsg k dest iov k' n : sys_sendmsg k dfd dest iov = (k', inr n) →
    quiet k k' ∧ wire_out k' = wire_out k ++ [concat (map fst iov)]
}.

(** A TUN device: every read answers a packet, if anything, and every write is
    taken as one. *)
Class TunDevice (K : Type) `{HK : Kernel K} `{HV : PairView K} `{HW : Wire K} (dfd : Z) : Prop := {
  tun_sys_read k len k' data : sys_read k dfd len = (k', inr data) →
    pair_same k k' ∧ (data = [] ∨ data ∈ wire_in k);
  tun_sys_writev k iov k' m : sys_writev k dfd iov = (k', inr m) →
    m = slen (concat (map fst iov)) ∧ quiet k k' ∧ wire_out k' = wire_out k ++ [concat (map fst iov)]
}.

(** ** Lemmas *)

(** Ports and checksum do not matter. *)
Lemma carries_reparsed S isn seg seg' sport dport c :
  TCPSegment.header seg' = TCPHeader.with_cksum (with_ports (TCPSegment.header seg) sport dport) c →
  str (TCPSegment.payload seg') = str (TCPSegment.payload seg) → carries S isn seg → carries S isn seg'.
Proof. intros Hh Hp. unfold carries. by rewrite Hh, Hp. Qed.

Lemma sendable_seg_ok seg : sendable seg → Forall is_u8 (str (TCPSegment.payload seg)) → seg_ok seg.
Proof.
  intros (Hw & Hd & Hl) Hb. split; [done|done|]. unfold TCPSegment.header in Hd. rewrite Hd. unfold MAX_PAYLOAD_SIZE, TCPSegment.payload in *. lia.
Qed.

Lemma datagram_parse_addresses b d r :
  IPv4Datagram.parse IPv4Datagram_default b = Ok (d, r) →
  is_u32 (src (IPv4Datagram.header d)) ∧ is_u32 (dst (IPv4Datagram.header d)).
Proof.
  unfold IPv4Datagram.parse. intros ([[p h] res] & Hh & Hd)%result_bind_ok.
  assert (IPv4Datagram.header d = h) as -> by (destruct (negb _); by injection Hd as <- _).
  unfold IPv4Header.parse in Hh. destruct (_ <? _); [by injection Hh as _ <- _|].
  do 8 (apply result_bind_ok in Hh as ([? ?] & _ & Hh)).
  apply result_bind_ok in Hh as ([p1 v1] & H1%parse_int_range & Hh).
  apply result_bind_ok in Hh as ([p2 v2] & H2%parse_int_range & Hh).
  assert (src h = v1 ∧ dst h = v2) as [-> ->]; [|done]. unfold parse_checks in Hh.
  do 4 (match type of Hh with (if ?c then _ else _) = _ => destruct c end; [by injection Hh as _ <- _|]).
  apply result_bind_ok in Hh as (p3 & _ & Hh). destruct (Parser.error p3); [|destruct (negb _)]; by injection Hh as _ <- _.
Qed.

Lemma fd_num_register w : fd_num (register_read w) = fd_num w ∧ fd_num (register_write w) = fd_num w.
Proof. done. Qed.

Section Peers.
Context {K : Type} `{HK : Kernel K} `{HR : Resolver} `{HV : PairView K} `{HW : Wire K} (td dfd : Z).
Context {HP : StreamPair K td}.

Lemma port_range a p : port a = Ok p → is_u16 p.
Proof using Type.
  unfold port, ip_port. destruct (getnameinfo a) as [|[h s]]; [done|].
  destruct (StdString.stoi s) as [n|]; [|done]. intros [= <-]. apply u16_range.
Qed.

Lemma quiet_refl k : quiet k k.
Proof using HP. split; [done|]. split_and!; done. Qed.

(** ** UDP *)

Definition udp_ok (p : Plugged TCPOverUDPSocketAdapter) : Prop := fd_num (device p) = dfd ∧ _sock (adapter p) = [].

Lemma udp_write_wire a seg a' seg' :
  sendable seg → Forall is_u8 (str (TCPSegment.payload seg)) → udp_write a seg = Ok (a', seg') →
  ∃ d l s, a' = mkUDP (udp_base a) (_sock a ++ [(d, l)]) ∧ udp_segment (concatenate l) = Some s ∧
    ∀ S isn, carries S isn seg → carries S isn s.
Proof using Type.
  intros Hs Hb. pose proof (sendable_seg_ok seg Hs Hb) as Hok. unfold udp_write, set_ports.
  intros (s1 & (sp & Hsp%port_range & (dp & Hdp%port_range & [= <-])%result_bind_ok)%result_bind_ok & H)%result_bind_ok.
  fold (addressed seg sp dp) in H. pose proof (addressed_ok seg sp dp Hok Hsp Hdp) as Hok'.
  pose proof (serialize_segment_eq (addressed seg sp dp) 0 ltac:(apply Hok')) as Hser.
  fold (segment_bytes (addressed seg sp dp) 0) in Hser. set (hb := segment_bytes (addressed seg sp dp) 0) in *.
  apply result_bind_ok in H as (l & Hl & H). rewrite Hser in Hl. injection Hl as <-. injection H as <- <-.
  destruct (segment_reparse (addressed seg sp dp) TCPSegment_default 0
    (Buffer_of (hb ++ str (TCPSegment._payload (addressed seg sp dp))))) as (s & Hp & Hh & Hpl & _); try apply Hok'.
  - by apply cksum_fits_ok.
  - apply wf_of. destruct Hok' as [Hw _ Hl]. pose proof (segment_bytes_slen _ 0 Hw). rewrite slen_app. destruct Hw. unfold hb. slia.
  - apply str_of.
  - eexists _, _, s. split; [done|]. split; [|intros S isn; exact (carries_reparsed S isn seg s sp dp _ Hh Hpl)].
    rewrite !concatenate_cons, str_of. change (concatenate []) with (@nil Z). rewrite app_nil_r.
    unfold udp_segment. change (TCPSegment._payload seg) with (TCPSegment._payload (addressed seg sp dp)). by rewrite Hp.
Qed.

Lemma udp_read_wire a d a' o :
  udp_read a d = Ok (a', o) → _sock a' = _sock a ∧ ∀ seg, o = Some seg → udp_segment (Socket.payload d) = Some seg.
Proof using Type.
  unfold udp_read, udp_segment. destruct (_ && _); [by intros [= <- <-]|].
  intros ([s res] & -> & H)%result_bind_ok. case_bool_decide as E; cbn [negb] in H; [subst res|by injection H as <- <-].
  destruct (listening _); [destruct (_ && _)|]; injection H as <- <-; (split; [done|]); by intros ? [= <-].
Qed.

Lemma sendto_wire {HU : UdpSocket K dfd} k w d l k' w' :
  fd_num w = dfd → sendto k w d (BufferViewList_of_list l) = Ok (k', w') →
  quiet k k' ∧ wire_out k' = wire_out k ++ [concatenate l] ∧ fd_num w' = dfd.
Proof using Type.
  intros Hw. unfold sendto, sendmsg_helper. rewrite Hw. destruct (sys_sendmsg _ _ _ _) as [k1 [e|n]] eqn:Hs; [done|].
  destruct (udp_sendmsg _ _ _ _ _ Hs) as [Hq Ho]. cbn [SystemCall mbind result_bind].
  destruct (negb _); [done|]. cbn [mbind result_bind]. intros [= <- <-].
  rewrite concat_iovecs in Ho. rewrite concatenate_concat. done.
Qed.

Lemma udp_peer {HU : UdpSocket K dfd} {HC : Carried K udp_segment} : PeerAdapter K (Plugged TCPOverUDPSocketAdapter) udp_ok.
Proof using HP.
  split.
  - intros k p k' p' o [Hw Hn]. cbn [sa_read plugged_adapter]. unfold plugged_read. cbn [dev_read udp_device dev_flush].
    unfold recv. rewrite Hw. destruct (sys_recvfrom _ _ _) as [k1 [e|[[data len] [from fl]]]] eqn:Hr; [done|].
    destruct (udp_recvfrom _ _ _ _ _ Hr) as [Hsame Hin]. cbn [SystemCall mbind result_bind].
    destruct (_ <? _) eqn:El; [done|].
    intros ([[k2 w] i] & (a0 & _ & [= <- <- <-])%result_bind_ok & ([a s] & Ha & H)%result_bind_ok)%result_bind_ok.
    destruct (udp_read_wire _ _ _ _ Ha) as [Hs Hseg]. unfold udp_flush in H. rewrite Hs, Hn in H.
    injection H as <- <- <-. split; [done|]. split; [done|]. intros seg Ho. rewrite carried_in.
    apply list_elem_of_omap. eexists. split; [apply Hin; lia|]. by apply Hseg.
  - intros k p seg k' p' seg' [Hw Hn] Hs Hb. cbn [sa_write plugged_adapter]. unfold plugged_write.
    intros ([a s] & Ha & H)%result_bind_ok. destruct (udp_write_wire _ _ _ _ Hs Hb Ha) as (d & l & s1 & -> & Hseg & Hc).
    cbn [dev_flush udp_device] in H. unfold udp_flush in H. cbn [_sock] in H. rewrite Hn in H. cbn [app send_datagrams] in H.
    apply result_bind_ok in H as ([[k1 w1] a1] & ([k2 w2] & ([k3 w3] & H1 & [= <- <-])%result_bind_ok & H)%result_bind_ok & H3).
    destruct (sendto_wire _ _ _ _ _ _ Hw H1) as ([Hq Hre] & Ho & Hf).
    injection H as <- <- <-. injection H3 as <- <- <-. split; [done|]. split; [done|]. split; [done|].
    exists [s1]. split; [|intros S isn Hca; constructor; [by apply Hc|constructor]].
    rewrite !carried_out, Ho, omap_app. simpl. by rewrite Hseg.
  - intros k p ms k' p' [Hw Hn]. cbn. unfold plugged_tick. cbn. unfold udp_flush. cbn. rewrite Hn. cbn.
    intros [= <- <-]. split; [done|]. split; [done|]. by apply quiet_refl.
  - intros p [Hw Hn]. done.
Qed.

(** ** TUN *)

Definition known (b : FdAdapterBase) : Prop :=
  ∃ ips ps ipd pd, is_u32 ips ∧ is_u16 ps ∧ is_u32 ipd ∧ is_u16 pd ∧
    source (config b) = Address_in ips ps ∧ destination (config b) = Address_in ipd pd.

Definition tun_ok (p : Plugged TCPOverIPv4OverTunFdAdapter) : Prop :=
  fd_num (device p) = dfd ∧ _tun (adapter p) = [] ∧ known (tun_base (adapter p)).

Lemma tun_write_wire {HN : NumericResolver} a seg a' seg' :
  known (tun_base a) → sendable seg → Forall is_u8 (str (TCPSegment.payload seg)) → tun_write a seg = Ok (a', seg') →
  ∃ l s, a' = mkTun (tun_base a) (_tun a ++ [l]) ∧ slen (concatenate l) < 0x10000 ∧ ip_segment (concatenate l) = Some s ∧
    ∀ S isn, carries S isn seg → carries S isn s.
Proof using Type.
  intros (ips & ps & ipd & pd & Hips & Hps & Hipd & Hpd & Hs & Hd) Hsd Hb.
  pose proof (sendable_seg_ok seg Hsd Hb) as Hok. pose proof (addressed_ok seg ps pd Hok Hps Hpd) as Hok'.
  destruct (wrap_eq (tun_base a) seg ips ps ipd pd Hips Hps Hipd Hpd Hs Hd Hok) as [Hw Hwf].
  pose proof (serialize_datagram_eq _ Hwf) as Hser. set (h := datagram_header ips ipd seg) in *.
  match type of Hser with _ = Ok ?x => remember x as l eqn:El end.
  unfold tun_write. rewrite Hw. cbn [mbind result_bind]. rewrite Hser. cbn [mbind result_bind]. intros [= <- <-].
  cut (slen (concatenate l) < 0x10000 ∧ ∃ s, ip_segment (concatenate l) = Some s ∧
    ∀ S isn, carries S isn seg → carries S isn s); [intros (? & s & ? & ?); by exists l, s|].
  rewrite El, concatenate_cons, str_of. set (bs := _ ++ concatenate _).
  assert (slen bs < 0x10000) as Hlen.
  { destruct Hwf as [Hh Hl]. unfold bs. rewrite !slen_app, ipv4_head_bytes_slen, ipv4_tail_bytes_slen, be_bytes_slen
      by (destruct Hh; lia). destruct Hh. unfold_width. lia. }
  split; [done|].
  destruct (reparse_wrapped seg ips ps ipd pd (Buffer_of bs) Hips Hps Hipd Hpd Hok Hwf) as (pl & Hp & Hpl & Hstr).
  { apply wf_of. slia. }
  { apply str_of. }
  destruct (segment_reparse (addressed seg ps pd) TCPSegment_default (pseudo_cksum h) pl)
    as (s & Hparse & Hh & Hpay & _); try apply Hok'; try done.
  { apply cksum_fits_ok; [done|]. apply pseudo_cksum_small. by apply datagram_header_wf. }
  exists s. split; [|intros S isn; exact (carries_reparsed S isn seg s ps pd _ Hh Hpay)].
  unfold ip_segment. rewrite Hp. cbn [IPv4Datagram.payload IPv4Datagram._payload to_Buffer].
  change (pseudo_cksum (IPv4Datagram.header _)) with (pseudo_cksum h). by rewrite Hparse.
Qed.

Lemma unwrap_wire {HN : NumericResolver} b d b' o :
  known b → is_u32 (src (IPv4Datagram.header d)) → is_u32 (dst (IPv4Datagram.header d)) →
  unwrap_tcp_in_ip b d = Ok (b', o) →
  known b' ∧ ∀ seg, o = Some seg → ∃ p, to_Buffer (IPv4Datagram.payload d) = Ok p ∧
    TCPSegment.parse TCPSegment_default p (pseudo_cksum (IPv4Datagram.header d)) = Ok (seg, NoError).
Proof using Type.
  intros Hk Hsrc Hdst. assert (∀ b' seg' o', from_peer b' seg' = Ok (b', o') → o' = Some seg' ∨ o' = None) as Hfrom.
  { unfold from_peer. intros b1 s1 o1 (p & _ & [= <-])%result_bind_ok. case_match; auto. }
  assert (∀ b' seg' r o', from_peer b' seg' = Ok (r, o') → r = b') as Hsame
    by (unfold from_peer; by intros b1 s1 r o1 (p & _ & [= <- _])%result_bind_ok).
  unfold unwrap_tcp_in_ip. intros (fu & _ & H)%result_bind_ok. destruct fu; [|by injection H as <- <-].
  apply result_bind_ok in H as (ft & _ & H). destruct ft; [|by injection H as <- <-]. cbn [negb] in H.
  destruct (negb _); [by injection H as <- <-|].
  apply result_bind_ok in H as (p & Hp & ([s res] & Hs & H)%result_bind_ok).
  case_bool_decide as E; cbn [negb] in H; [subst res|by injection H as <- <-].
  apply result_bind_ok in H as (q & Hq%port_range & H). destruct (negb _); [by injection H as <- <-|].
  assert (∀ r, from_peer r s = Ok (b', o) → r = b' ∧ ∀ seg, o = Some seg → seg = s) as Hend.
  { intros r Hr. pose proof (Hsame _ _ _ _ Hr) as ->. split; [done|]. intros seg ->.
    destruct (Hfrom _ _ _ Hr) as [[= ->]|]; done. }
  destruct (listening b).
  - destruct (_ && _); [|by injection H as <- <-]. apply result_bind_ok in H as (b1 & Hb1 & H).
    destruct (Hend _ H) as [<- Hseg]. split; [|intros seg ->%Hseg; by exists p].
    destruct Hk as (ips & ps & ipd & pd & ? & ? & ? & ? & Es & _). pose proof (segment_parse_ports _ _ _ _ Hs) as [? _].
    rewrite (accept_peer_eq b _ s ips ps) in Hb1 by done. injection Hb1 as <-.
    eexists _, _, _, _. split_and!; [..|done|done]; done.
  - destruct (Hend _ H) as [<- Hseg]. split; [done|]. intros seg ->%Hseg. by exists p.
Qed.

Lemma tun_read_wire {HN : NumericResolver} a data a' o :
  known (tun_base a) → tun_read a data = Ok (a', o) →
  _tun a' = _tun a ∧ known (tun_base a') ∧ ∀ seg, o = Some seg → ip_segment data = Some seg.
Proof using Type.
  intros Hk. unfold tun_read, ip_segment. intros ([d res] & Hd & H)%result_bind_ok. rewrite Hd.
  case_bool_decide as E; cbn [negb] in H; [subst res|by injection H as <- <-].
  apply result_bind_ok in H as ([b s] & Hu & [= <- <-]). destruct (datagram_parse_addresses _ _ _ Hd) as [Hs Ht].
  destruct (unwrap_wire _ _ _ _ Hk Hs Ht Hu) as [Hb Hseg]. split_and!; [done|done|].
  intros seg (p & -> & ->)%Hseg. done.
Qed.

Lemma write_packet {HT : TunDevice K dfd} k w l k' w' n :
  fd_num w = dfd → slen (concatenate l) < 0x10000 →
  FileDescriptor.write k w (BufferViewList_of_list l) true = Ok (k', w', n) →
  quiet k k' ∧ wire_out k' = wire_out k ++ [concatenate l] ∧ fd_num w' = dfd.
Proof using Type.
  intros Hw Hl. rewrite concatenate_concat in *. change (map str l) with (BufferViewList_of_list l) in *.
  set (v := BufferViewList_of_list l) in *. unfold FileDescriptor.write. cbn [write_loop]. rewrite Hw.
  destruct (sys_writev _ _ _) as [k1 [e|m]] eqn:Hs; [done|].
  destruct (tun_sys_writev _ _ _ _ Hs) as (-> & Hq & Ho). rewrite concat_iovecs in *. cbn [SystemCall mbind result_bind].
  destruct (_ && _); [done|]. destruct (_ <? _); [done|].
  destruct (view_remove_prefix_eq v (slen (concat v))) as (v' & -> & Hv); [slia|slia|]. cbn [mbind result_bind].
  rewrite sdrop_all in Hv by lia. rewrite (view_size_eq v') by (by rewrite Hv). rewrite Hv. cbn.
  intros [= <- <- <-]. done.
Qed.

Lemma tun_peer {HN : NumericResolver} {HT : TunDevice K dfd} {HC : Carried K ip_segment} :
  PeerAdapter K (Plugged TCPOverIPv4OverTunFdAdapter) tun_ok.
Proof using HP.
  split.
  - intros k p k' p' o (Hw & Hn & Hk). cbn [sa_read plugged_adapter]. unfold plugged_read. cbn [dev_read tun_device dev_flush].
    unfold FileDescriptor.read. rewrite Hw. destruct (sys_read _ _ _) as [k1 [e|data]] eqn:Hr; [done|].
    destruct (tun_sys_read _ _ _ _ Hr) as [Hsame Hin]. cbn [SystemCall mbind result_bind].
    destruct (_ <? slen data) eqn:El; [done|]. cbn [mbind result_bind].
    intros ([a s] & Ha & H)%result_bind_ok. destruct (tun_read_wire _ _ _ _ Hk Ha) as (Hs & Hk' & Hseg).
    unfold tun_flush in H. rewrite Hs, Hn in H. cbn in H. injection H as <- <- <-.
    split; [split_and!; [by case_match|done|done]|]. split; [done|]. intros seg Ho. apply Hseg in Ho.
    destruct Hin as [->|Hin]; [done|]. rewrite carried_in. apply list_elem_of_omap. by exists data.
  - intros k p seg k' p' seg' (Hw & Hn & Hk) Hs Hb. cbn [sa_write plugged_adapter]. unfold plugged_write.
    intros ([a s] & Ha & H)%result_bind_ok. destruct (tun_write_wire _ _ _ _ Hk Hs Hb Ha) as (l & s1 & -> & Hl & Hseg & Hc).
    cbn [dev_flush tun_device] in H. unfold tun_flush in H. cbn [_tun] in H. rewrite Hn in H. cbn [app write_buffers] in H.
    apply result_bind_ok in H as ([[k1 w1] a1] & ([k2 w2] & ([[k3 w3] n] & H1 & [= <- <-])%result_bind_ok & H)%result_bind_ok & H3).
    destruct (write_packet _ _ _ _ _ _ Hw Hl H1) as ([Hq Hre] & Ho & Hf).
    injection H as <- <- <-. injection H3 as <- <- <-. split; [done|]. split; [done|]. split; [done|].
    exists [s1]. split; [|intros S isn Hca; constructor; [by apply Hc|constructor]].
    rewrite !carried_out, Ho, omap_app. simpl. by rewrite Hseg.
  - intros k p ms k' p' (Hw & Hn & Hk). cbn. unfold plugged_tick. cbn. unfold tun_flush. cbn. rewrite Hn. cbn.
    intros [= <- <-]. split; [done|]. split; [done|]. by apply quiet_refl.
  - intros p (Hw & Hn & Hk). done.
Qed.

(** ** Random loss *)

Section Lossy.
Context {mt19937 : Type} (draw : mt19937 → Z * mt19937) {A In : Type} `{HA : FdAdapter A In} `{HD : Device K A In}.
#[local] Existing Instance lossy_adapter.

(** The adapter below. *)
Definition below (p : Plugged (@LossyFdAdapter mt19937 A)) : Plugged A := mkPlugged (_adapter (adapter p)) (device p).

Lemma should_drop_adapter l up : _adapter (_should_drop draw l up).1 = _adapter l.
Proof using Type. unfold _should_drop. destruct (negb _); [|done]. by destruct (draw _). Qed.

(** The loss hides what is read or keeps what is written from the adapter below,
    which has nothing left to write then. *)
Lemma lossy_peer (ok : Plugged A → Prop) {HPA : PeerAdapter K (Plugged A) ok} :
  (∀ k p, ok p → dev_flush k (device p) (adapter p) = Ok (k, device p, adapter p)) →
  PeerAdapter (HA := plugged_adapter (HA := lossy_adapter draw)) K (Plugged (@LossyFdAdapter mt19937 A)) (ok ∘ below).
Proof using HP.
  intros Hflush. split.
  - intros k p k' p' o Hok. cbn. unfold plugged_read. cbn. unfold lossy_read.
    intros ([[k1 w1] i] & H1 & ([l s] & ([a r] & H2 & H3)%result_bind_ok & ([[k2 w2] l2] & ([[k3 w3] a3] & H4 & [= <- <- <-])%result_bind_ok & [= <- <- <-])%result_bind_ok)%result_bind_ok)%result_bind_ok.
    pose proof (should_drop_adapter (mkLossy (_rand (adapter p)) a) false) as Hd.
    destruct (_should_drop _ _ _) as [l1 drop]. injection H3 as <- <-. cbn in Hd. rewrite Hd in H4.
    destruct (peer_read k (below p) k3 (mkPlugged a3 w3) r Hok) as (Hok' & Hsame & Hin).
    { cbn. unfold plugged_read. cbn. rewrite H1. cbn. rewrite H2. cbn. by rewrite H4. }
    split; [done|]. split; [done|]. intros seg. destruct drop; [done|apply Hin].
  - intros k p seg k' p' seg' Hok Hs Hb. cbn. unfold plugged_write. cbn. unfold lossy_write.
    pose proof (should_drop_adapter (adapter p) true) as Hd. destruct (_should_drop _ _ _) as [l1 drop]. cbn in Hd.
    destruct drop; cbn [mbind result_bind].
    + pose proof (Hflush k (below p) Hok) as Hf. cbn in Hf. rewrite Hd, Hf. cbn. intros [= <- <- <-].
      split; [done|]. split; [done|]. split; [apply quiet_refl|]. exists []. split; [by rewrite app_nil_r|constructor].
    + intros ([l s] & ([a r] & H2 & [= <- <-])%result_bind_ok & ([[k2 w2] l2] & ([[k3 w3] a3] & H4 & [= <- <- <-])%result_bind_ok & [= <- <- <-])%result_bind_ok)%result_bind_ok.
      rewrite Hd in H2. cbn in H4. apply (peer_write k (below p) seg k3 (mkPlugged a3 w3) r Hok Hs Hb).
      cbn. unfold plugged_write. cbn. rewrite H2. cbn. by rewrite H4.
  - intros k p ms k' p' Hok. cbn. unfold plugged_tick. cbn. unfold lossy_tick.
    intros (l & (a & H2 & [= <-])%result_bind_ok & ([[k2 w2] l2] & ([[k3 w3] a3] & H4 & [= <- <- <-])%result_bind_ok & [= <- <-])%result_bind_ok)%result_bind_ok.
    apply (peer_tick k (below p) ms k3 (mkPlugged a3 w3) Hok). cbn. unfold plugged_tick. cbn. rewrite H2. cbn. cbn in H4. by rewrite H4.
  - intros p Hok. exact (peer_listen (below p) Hok).
Qed.

End Lossy.

Lemma udp_flush_nothing k p : udp_ok p → dev_flush k (device p) (adapter p) = Ok (k, device p, adapter p).
Proof using Type. intros [_ Hn]. cbn. unfold udp_flush. rewrite Hn. by destruct p as [[] ?]; cbn in *; subst. Qed.

Lemma tun_flush_nothing k p : tun_ok p → dev_flush k (device p) (adapter p) = Ok (k, device p, adapter p).
Proof using Type. intros (_ & Hn & _). cbn. unfold tun_flush. rewrite Hn. by destruct p as [[] ?]; cbn in *; subst. Qed.

End Peers.
