(* ===== verification/FullStackSocket.v ===== *)
(** * Sockets on the TUN and TAP devices (the end of tcp_helpers/tcp_sponge_socket.cc)

    [CS144TCPSocket] is a TCP socket on the device tun144, [FullStackSocket] one
    on tap10, with fixed local addresses and a random port.  What
    [random_device] draws is an argument. *)

From stdpp Require Import gmap strings.
From S2P Require Import Prelude StreamReassembler Buffer StdString EthernetHeader Address FileDescriptor EventLoop Socket Tun.
From S2P Require Import TCPConfig FdAdapter TCPOverIP TunTapAdapter TCPSpongeSocket AdapterDevices.
From S2P Require TCPConnection.
From stdpp Require Import options.

Local Open Scope Z_scope.

Definition TUN_NAME : bytes := lit "tun144".
Definition TAP_NAME : bytes := lit "tap10".
Definition LOCAL_TUN_IP_ADDRESS : bytes := lit "169.254.144.9".
Definition LOCAL_TAP_IP_ADDRESS : bytes := lit "169.254.10.9".
Definition LOCAL_TAP_NEXT_HOP_ADDRESS : bytes := lit "169.254.10.1".

(** The bytes are those drawn, but for two bits of the first. *)
Definition random_private_ethernet_address (random : nat → Z) : EthernetAddress :=
  match map (λ i, u8 (random i)) (seq 0 6) with
  | b :: addr => Z.land (Z.lor b 0x02) 0xfe :: addr
  | [] => []
  end.

Section Sockets.
Context {K : Type} `{HK : Kernel K} `{HR : Resolver}.
Context (reads : TCPConnection.Reads).

(** Both classes connect with a retransmission timeout of 100 ms, from a
    random port of their local address. *)
Definition connect_config (local : bytes) (address : Address) (random : Z) : result (TCPConfig * FdAdapterConfig) :=
  let tcp_config := with_rt_timeout TCPConfig_default 100 in
  c ← FdAdapterConfig_default;
  s ← Address_of_host local (StdString.to_string (u16 random));
  Ok (tcp_config, with_destination (with_source c s) address).

Definition CS144TCPSocket_new (k : K) : result (K * TCPSpongeSocket (Plugged TCPOverIPv4OverTunFdAdapter)) :=
  '(k, w) ← TunFD_new k TUN_NAME;
  a ← tun_plugged w;
  TCPSpongeSocket_of k a.

Definition CS144TCPSocket_connect (st : K * TCPSpongeSocket (Plugged TCPOverIPv4OverTunFdAdapter))
    (address : Address) (random_port random_isn : Z) (aborts : list bool) :=
  '(tcp_config, multiplexer_config) ← connect_config LOCAL_TUN_IP_ADDRESS address random_port;
  TCPSpongeSocket.connect reads st tcp_config multiplexer_config random_isn aborts.

Definition FullStackSocket_new (k : K) (random : nat → Z)
    : result (K * TCPSpongeSocket (Plugged TCPOverIPv4OverEthernetAdapter)) :=
  '(k, w) ← TapFD_new k TAP_NAME;
  ip ← Address_of_host LOCAL_TAP_IP_ADDRESS (lit "0");
  next_hop ← Address_of_host LOCAL_TAP_NEXT_HOP_ADDRESS (lit "0");
  '(k, a) ← eth_plugged k w (random_private_ethernet_address random) ip next_hop;
  TCPSpongeSocket_of k a.

Definition FullStackSocket_connect (st : K * TCPSpongeSocket (Plugged TCPOverIPv4OverEthernetAdapter))
    (address : Address) (random_port random_isn : Z) (aborts : list bool) :=
  '(tcp_config, multiplexer_config) ← connect_config LOCAL_TAP_IP_ADDRESS address random_port;
  TCPSpongeSocket.connect reads st tcp_config multiplexer_config random_isn aborts.

End Sockets.

(** ** Lemmas *)

(** Six bytes, of which the first has the bits of a locally administered
    unicast address. *)
Lemma random_private_address random :
  let a := random_private_ethernet_address random in
  slen a = 6 ∧ Forall is_u8 a ∧
  ∃ b t, a = b :: t ∧ Z.testbit b 0 = false ∧ Z.testbit b 1 = true.
Proof.
  intros a. unfold a, random_private_ethernet_address. cbn [map seq].
  set (b := u8 (random 0%nat)). assert (is_u8 b) as Hb by apply u8_range.
  assert (is_u8 (Z.land (Z.lor b 2) 254)) as Hb'.
  { assert (Z.land (Z.lor b 2) 254 = u8 (Z.land (Z.lor b 2) 254)) as ->; [|apply u8_range].
    unfold u8. rewrite <- (Z.land_ones _ 8) by done. by rewrite <- Z.land_assoc. }
  split; [done|]. split.
  - apply Forall_cons_2; [done|]. repeat (apply Forall_cons_2; [apply u8_range|]). constructor.
  - exists (Z.land (Z.lor b 2) 254), (map (λ i, u8 (random i)) (seq 1 5)). split; [done|].
    rewrite !Z.land_spec, !Z.lor_spec. change (Z.testbit 2 1) with true. change (Z.testbit 254 1) with true.
    change (Z.testbit 254 0) with false. by rewrite andb_false_r, orb_true_r.
Qed.
