(* ===== verification/BidirectionalStreamCopy.v ===== *)
(** * Copying between the standard streams and a socket (apps/bidirectional_stream_copy.cc)

    The function that the applications share: the standard input is copied to a
    socket and the socket to the standard output, by way of two byte streams and
    four rules of an event loop. *)

From S2P Require Import Prelude ByteStream Buffer FileDescriptor EventLoop Socket.
From stdpp Require Import options.

Local Open Scope Z_scope.

Definition max_copy_length : Z := 65536.
Definition copy_buffer_size : Z := 1048576.
Definition STDIN_FILENO : Z := 0.
Definition STDOUT_FILENO : Z := 1.

(** The local variables of the function, and the socket. *)
Record Copy := mkCopy {
  socket : FDWrapper;
  _input : FDWrapper;
  _output : FDWrapper;
  _outbound : ByteStream;
  _inbound : ByteStream;
  _outbound_shutdown : bool;
  _inbound_shutdown : bool
}.

Definition set_socket (s : Copy) (w : FDWrapper) : Copy :=
  mkCopy w (_input s) (_output s) (_outbound s) (_inbound s) (_outbound_shutdown s) (_inbound_shutdown s).
Definition set_input (s : Copy) (w : FDWrapper) : Copy :=
  mkCopy (socket s) w (_output s) (_outbound s) (_inbound s) (_outbound_shutdown s) (_inbound_shutdown s).
Definition set_output (s : Copy) (w : FDWrapper) : Copy :=
  mkCopy (socket s) (_input s) w (_outbound s) (_inbound s) (_outbound_shutdown s) (_inbound_shutdown s).
Definition set_outbound (s : Copy) (b : ByteStream) : Copy :=
  mkCopy (socket s) (_input s) (_output s) b (_inbound s) (_outbound_shutdown s) (_inbound_shutdown s).
Definition set_inbound (s : Copy) (b : ByteStream) : Copy :=
  mkCopy (socket s) (_input s) (_output s) (_outbound s) b (_outbound_shutdown s) (_inbound_shutdown s).
Definition set_outbound_shutdown (s : Copy) : Copy :=
  mkCopy (socket s) (_input s) (_output s) (_outbound s) (_inbound s) true (_inbound_shutdown s).
Definition set_inbound_shutdown (s : Copy) : Copy :=
  mkCopy (socket s) (_input s) (_output s) (_outbound s) (_inbound s) (_outbound_shutdown s) true.

Section Copy.
Context {K : Type} `{HK : Kernel K}.

(** ** The four rules *)

Definition rule1_callback (st : K * Copy) : result (K * Copy) :=
  let '(k, s) := st in
  '(k, w, data) ← FileDescriptor.read k (_input s) (remaining_capacity (_outbound s));
  '(b, _) ← ByteStream.write (_outbound s) data;
  let s := set_outbound (set_input s w) b in
  Ok (k, if eof (_input s) then set_outbound s (end_input (_outbound s)) else s).

Definition rule1_interest (s : Copy) : bool :=
  negb (error (_outbound s)) && (0 <? remaining_capacity (_outbound s)) && negb (error (_inbound s)).

Definition rule1_cancel (st : K * Copy) : result (K * Copy) :=
  Ok (st.1, set_outbound st.2 (end_input (_outbound st.2))).

Definition rule2_callback (st : K * Copy) : result (K * Copy) :=
  let '(k, s) := st in
  let bytes_to_write := Z.min max_copy_length (buffer_size (_outbound s)) in
  data ← peek_output (_outbound s) bytes_to_write;
  '(k, w, bytes_written) ← FileDescriptor.write k (socket s) (BufferViewList_of_string data) false;
  b ← pop_output (_outbound s) bytes_written;
  let s := set_outbound (set_socket s w) b in
  if ByteStream.eof (_outbound s) then
    '(k, w) ← Socket.shutdown k (socket s) SHUT_WR;
    Ok (k, set_outbound_shutdown (set_socket s w))
  else Ok (k, s).

Definition rule2_interest (s : Copy) : bool :=
  negb (buffer_empty (_outbound s)) || (ByteStream.eof (_outbound s) && negb (_outbound_shutdown s)).

Definition rule2_cancel (st : K * Copy) : result (K * Copy) :=
  Ok (st.1, set_outbound st.2 (set_error (_outbound st.2))).

Definition rule3_callback (st : K * Copy) : result (K * Copy) :=
  let '(k, s) := st in
  '(k, w, data) ← FileDescriptor.read k (socket s) (remaining_capacity (_inbound s));
  '(b, _) ← ByteStream.write (_inbound s) data;
  let s := set_inbound (set_socket s w) b in
  Ok (k, if eof (socket s) then set_inbound s (end_input (_inbound s)) else s).

Definition rule3_interest (s : Copy) : bool :=
  negb (error (_inbound s)) && (0 <? remaining_capacity (_inbound s)) && negb (error (_outbound s)).

Definition rule3_cancel (st : K * Copy) : result (K * Copy) :=
  Ok (st.1, set_inbound st.2 (end_input (_inbound st.2))).

Definition rule4_callback (st : K * Copy) : result (K * Copy) :=
  let '(k, s) := st in
  let bytes_to_write := Z.min max_copy_length (buffer_size (_inbound s)) in
  data ← peek_output (_inbound s) bytes_to_write;
  '(k, w, bytes_written) ← FileDescriptor.write k (_output s) (BufferViewList_of_string data) false;
  b ← pop_output (_inbound s) bytes_written;
  let s := set_inbound (set_output s w) b in
  if ByteStream.eof (_inbound s) then
    '(k, w) ← FileDescriptor.close k (_output s);
    Ok (k, set_inbound_shutdown (set_output s w))
  else Ok (k, s).

Definition rule4_interest (s : Copy) : bool :=
  negb (buffer_empty (_inbound s)) || (ByteStream.eof (_inbound s) && negb (_inbound_shutdown s)).

Definition rule4_cancel (st : K * Copy) : result (K * Copy) :=
  Ok (st.1, set_inbound st.2 (set_error (_inbound st.2))).

Definition copy_rules : list (@Rule K Copy) :=
  add_rule (add_rule (add_rule (add_rule []
    (mkRule _input In rule1_callback rule1_interest rule1_cancel))
    (mkRule socket Out rule2_callback rule2_interest rule2_cancel))
    (mkRule socket In rule3_callback rule3_interest rule3_cancel))
    (mkRule _output Out rule4_callback rule4_interest rule4_cancel).

(** ** The function *)

(** What is done before the rules are added. *)
Definition copy_start (k : K) (sock : FDWrapper) : result (K * Copy) :=
  input ← FDWrapper_new STDIN_FILENO;
  output ← FDWrapper_new STDOUT_FILENO;
  k ← set_blocking k sock false;
  k ← set_blocking k input false;
  k ← set_blocking k output false;
  Ok (k, mkCopy sock input output (ByteStream_new copy_buffer_size) (ByteStream_new copy_buffer_size) false false).

(** At most [rounds] rounds; the last component of the result says whether the
    loop has ended. *)
Fixpoint copy_loop (rounds : nat) (rules : list (@Rule K Copy)) (st : K * Copy)
    : result (list (@Rule K Copy) * (K * Copy) * bool) :=
  match rounds with
  | O => Ok (rules, st, false)
  | S rounds =>
      '(rules, st, ret) ← wait_next_event rules st (-1);
      match ret with
      | Exit => Ok (rules, st, true)
      | _ => copy_loop rounds rules st
      end
  end.

(** At the end the two descriptors are destroyed. *)
Definition bidirectional_stream_copy (rounds : nat) (k : K) (sock : FDWrapper) : result (K * Copy * bool) :=
  st ← copy_start k sock;
  '(_, (k, s), ended) ← copy_loop rounds copy_rules st;
  if ended : bool then Ok (destruct_wrapper (destruct_wrapper k (_output s)) (_input s), s, true)
  else Ok (k, s, false).

End Copy.

(** ** A byte stream between two descriptors *)

(** [S] goes through the stream [b]: [consumed] bytes of it have been read, and
    [done] has been written. *)
Record pumped (S : bytes) (consumed : Z) (done : bytes) (b : ByteStream) : Prop := {
  pu_wf : ByteStream.wf b;
  pu_range : 0 <= consumed <= slen S;
  pu_bytes : done ++ _buffer b = stake consumed S;
  pu_end : input_ended b = true → consumed = slen S
}.

Section Pump.
Context (S : bytes).

Lemma pumped_new cap : is_u64 cap → pumped S 0 [] (ByteStream_new cap).
Proof using Type. intros Hc. split; [by apply wf_new|slia|by rewrite stake_0|done]. Qed.

Lemma pumped_end consumed done b : pumped S consumed done b → consumed = slen S → pumped S consumed done (end_input b).
Proof using Type. intros [[Hc Hb] Hr Hd He] Hs. by split. Qed.

Lemma pumped_error consumed done b : pumped S consumed done b → pumped S consumed done (set_error b).
Proof using Type. intros [[Hc Hb] Hr Hd He]. by split. Qed.

Lemma stake_add n m (l : bytes) : 0 <= n → 0 <= m → stake (n + m) l = stake n l ++ stake m (sdrop n l).
Proof using Type.
  intros Hn Hm. rewrite !stake_take, sdrop_drop, Z2Nat.inj_add by lia.
  rewrite <- (take_drop (Z.to_nat n) (take (Z.to_nat n + Z.to_nat m) l)), take_take, take_drop_commute.
  f_equal. f_equal. lia.
Qed.

(** What was read and fits is taken whole. *)
Lemma pumped_fill consumed done b data :
  pumped S consumed done b → slen data <= remaining_capacity b →
  data = stake (slen data) (sdrop consumed S) →
  ∃ b', ByteStream.write b data = Ok (b', slen data) ∧ pumped S (consumed + slen data) done b'.
Proof using Type.
  intros [Hwf Hr Hd He] Hl Hdata. rewrite remaining_capacity_eq in Hl by done.
  assert (accepts b data = slen data) as Ha by (unfold accepts; lia).
  rewrite write_eq by done. rewrite Ha. eexists. split; [done|].
  assert (consumed + slen data <= slen S) as Hle by (rewrite Hdata, slen_stake, slen_sdrop; slia).
  rewrite stake_all by lia. split; simpl.
  - destruct Hwf. split; simpl; [done|]. rewrite slen_app. lia.
  - slia.
  - rewrite app_assoc, Hd, stake_add by slia. by rewrite <- Hdata.
  - intros Hi. specialize (He Hi). slia.
Qed.

(** What was written is removed. *)
Lemma pumped_drain consumed done b m :
  pumped S consumed done b → 0 <= m <= slen (_buffer b) →
  ∃ b', pop_output b m = Ok b' ∧ pumped S consumed (done ++ stake m (_buffer b)) b'.
Proof using Type.
  intros [[Hc Hb] Hr Hd He] Hm. rewrite pop_output_eq. eexists. split; [done|]. split; simpl; try done.
  - split; simpl; [done|]. rewrite slen_sdrop; lia.
  - by rewrite <- app_assoc, stake_sdrop.
Qed.

(** Writing the beginning of the stream to a descriptor. *)
Lemma peek_write {K : Type} `{HK : Kernel K} n output (step : K → K → Prop) k w b k' w' m :
  sink_law n output step → fd_num w = n →
  FileDescriptor.write k w
    (BufferViewList_of_string (stake (Z.min max_copy_length (buffer_size b)) (_buffer b))) false = Ok (k', w', m) →
  0 <= m <= slen (_buffer b) ∧ output k' = output k ++ stake m (_buffer b) ∧ step k k' ∧ w' = register_write w.
Proof using Type.
  intros Hlaw Hw H. pose proof (slen_nonneg (_buffer b)). unfold buffer_size, max_copy_length in H.
  assert (slen (stake (Z.min 65536 (slen (_buffer b))) (_buffer b)) = Z.min 65536 (slen (_buffer b))) as Hl
    by (rewrite slen_stake; lia).
  destruct (write_spec _ _ _ _ _ _ _ _ _ Hlaw Hw ltac:(rewrite Hl; unfold_width; lia) H) as (Hm & Ho & Hr & ->).
  rewrite Hl in Hm. split_and!; [lia|lia| |done|done]. rewrite Ho. f_equal.
  rewrite !stake_take, take_take. f_equal. lia.
Qed.

(** Everything has been copied when the stream has ended. *)
Lemma pumped_eof consumed done b : pumped S consumed done b → ByteStream.eof b = true → done = S.
Proof using Type.
  intros [Hwf Hr Hd He] Heof. unfold ByteStream.eof in Heof. apply andb_true_iff in Heof as [Hi Hb].
  assert (_buffer b = []) as Hn by (apply slen_zero_nil; unfold buffer_empty, buffer_size in Hb; lia).
  rewrite (He Hi), Hn, app_nil_r, stake_all in Hd by lia. done.
Qed.

Lemma pumped_prefix consumed done b : pumped S consumed done b → done = stake (slen done) S.
Proof using Type.
  intros [Hwf Hr Hd He]. assert (slen done <= consumed) as Hle.
  { apply (f_equal slen) in Hd. rewrite slen_app, slen_stake in Hd by lia. slia. }
  apply (f_equal (stake (slen done))) in Hd. rewrite stake_app_le, stake_all in Hd by lia. rewrite Hd at 1.
  rewrite !stake_take, take_take. f_equal. lia.
Qed.

Lemma pumped_full consumed done more b : pumped S consumed (done ++ more) b → done = S → done ++ more = S.
Proof using Type.
  intros Hp ->. rewrite (pumped_prefix _ _ _ Hp). apply stake_all. rewrite slen_app. slia.
Qed.

End Pump.

(** ** What is relied upon *)

(** What is observed of the kernel: how much has been read from the standard
    input and the socket, what has been written to the socket and the standard
    output, whether the socket has been shut down for writing and whether the
    output has been closed, and what the peer of the socket has written, and
    whether it has finished.  [copy_since] is what else is known of the kernel
    at a later time. *)
Class CopyView (K : Type) := {
  from_input : K → Z;
  from_socket : K → Z;
  to_socket : K → bytes;
  to_output : K → bytes;
  shut : K → bool * bool;
  incoming : K → bytes;
  incoming_ended : K → bool;
  copy_since : K → K → Prop
}.

Definition copied {K} `{CopyView K} (k : K) :=
  (from_input k, from_socket k, to_socket k, to_output k, shut k).

Definition copied_bytes {K} `{CopyView K} (k : K) := (from_input k, from_socket k, to_socket k, to_output k).

Definition copy_rest {K} `{CopyView K} (k k' : K) : Prop :=
  incoming k' = incoming k ∧ incoming_ended k' = incoming_ended k ∧ copy_since k k'.

Definition copy_same {K} `{CopyView K} (k k' : K) : Prop := copied k' = copied k ∧ copy_rest k k'.

(** The kernel, for the socket [sock]: the standard input is [I]. *)
Class CopyKernel (K : Type) `{HK : Kernel K} `{HV : CopyView K} (sock : Z) (I : bytes) : Prop := {
  copy_since_order :: PreOrder copy_since;
  copy_read_input : source_law STDIN_FILENO (λ _, I) (λ _, true) from_input
    (λ k k', (from_socket k', to_socket k', to_output k', shut k') = (from_socket k, to_socket k, to_output k, shut k) ∧
       copy_rest k k');
  copy_read_socket : source_law sock incoming incoming_ended from_socket
    (λ k k', (from_input k', to_socket k', to_output k', shut k') = (from_input k, to_socket k, to_output k, shut k) ∧
       copy_rest k k');
  copy_write_socket : sink_law sock to_socket
    (λ k k', (from_input k', from_socket k', to_output k', shut k') = (from_input k, from_socket k, to_output k, shut k) ∧
       copy_rest k k');
  copy_write_output : sink_law STDOUT_FILENO to_output
    (λ k k', (from_input k', from_socket k', to_socket k', shut k') = (from_input k, from_socket k, to_socket k, shut k) ∧
       copy_rest k k');
  copy_poll_input : hangup_law STDIN_FILENO (λ _, I) (λ _, true) from_input copy_same;
  copy_poll_socket : hangup_law sock incoming incoming_ended from_socket copy_same;
  copy_shutdown k k' r : sys_shutdown k sock SHUT_WR = (k', r) →
    copied_bytes k' = copied_bytes k ∧ copy_rest k k' ∧ (shut k').2 = (shut k).2 ∧
    ((∃ x, r = inr x) → (shut k').1 = true);
  copy_close_input k k' r : sys_close k STDIN_FILENO = (k', r) → copy_same k k';
  copy_close_output k k' r : sys_close k STDOUT_FILENO = (k', r) →
    copied_bytes k' = copied_bytes k ∧ copy_rest k k' ∧ (shut k').1 = (shut k).1 ∧
    ((∃ x, r = inr x) → (shut k').2 = true);
  copy_getfl k n k' r : sys_getfl k n = (k', r) → copy_same k k';
  copy_setfl k n f k' r : sys_setfl k n f = (k', r) → copy_same k k'
}.

Section Copied.
Context {K : Type} `{HK : Kernel K} `{HV : CopyView K} (sock : Z) (I R : bytes) `{HC : !CopyKernel K sock I} (k0 : K).

(** ** Invariant *)

Record copy_inv (st : K * Copy) : Prop := {
  co_socket : fd_num (socket st.2) = sock ∧ closed (socket st.2) = false;
  co_socket_eof : eof (socket st.2) = true → from_socket st.1 = slen R;
  co_input : fd_num (_input st.2) = STDIN_FILENO ∧ closed (_input st.2) = false;
  co_input_eof : eof (_input st.2) = true → from_input st.1 = slen I;
  co_output : fd_num (_output st.2) = STDOUT_FILENO;
  co_outbound : pumped I (from_input st.1) (to_socket st.1) (_outbound st.2);
  co_inbound : pumped R (from_socket st.1) (to_output st.1) (_inbound st.2);
  co_shut : (shut st.1).1 = true → to_socket st.1 = I;
  co_closed : (shut st.1).2 = true → to_output st.1 = R;
  co_outbound_shutdown : _outbound_shutdown st.2 = true → (shut st.1).1 = true;
  co_inbound_shutdown : _inbound_shutdown st.2 = true → (shut st.1).2 = true;
  co_incoming : promise R (incoming st.1) (incoming_ended st.1);
  co_since : copy_since k0 st.1
}.

(** The stream that a rule reads has been read to its end. *)
Definition stream_gone (r : @Rule K Copy) (st : K * Copy) : Prop :=
  direction r = In →
  (rule_fd r = _input → from_input st.1 = slen I) ∧ (rule_fd r = socket → from_socket st.1 = slen R).

Lemma copy_keeps st st' :
  copy_inv st' → from_input st.1 <= from_input st'.1 → from_socket st.1 <= from_socket st'.1 →
  keeps copy_inv stream_gone st st'.
Proof using Type.
  intros Hs' Hi Hr. split; [done|]. intros r Hg Hd. destruct (Hg Hd) as [Hg1 Hg2].
  pose proof (pu_range _ _ _ _ (co_outbound _ Hs')). pose proof (pu_range _ _ _ _ (co_inbound _ Hs')).
  split; intros Hf; [specialize (Hg1 Hf)|specialize (Hg2 Hf)]; lia.
Qed.

Lemma copy_inv_same k k' s : copy_same k k' → copy_inv (k, s) → copy_inv (k', s).
Proof using HC.
  unfold copy_same, copied. intros [[= E1 E2 E3 E4 E5] (Ei & Ee & Hsi)] []. simpl in *.
  split; simpl; rewrite ?E1, ?E2, ?E3, ?E4, ?E5, ?Ei, ?Ee; try done. by etrans.
Qed.

Lemma copy_rule1_keeps st st' : copy_inv st → rule1_callback st = Ok st' → keeps copy_inv stream_gone st st'.
Proof using HC.
  intros Hs. destruct st as [k s]. unfold rule1_callback.
  intros ([[k1 w] data] & H1 & ([b n] & H2 & <-%Ok_inj)%result_bind_ok)%result_bind_ok.
  destruct (co_input _ Hs) as [Hfd Hcl]. simpl in Hfd, Hcl.
  assert (0 <= remaining_capacity (_outbound s)) as Hcap by apply u64_range.
  destruct (read_spec _ _ _ _ _ _ _ _ _ _ _ copy_read_input Hfd Hcap H1) as (Hl & Hd & Ec & [[= E1 E2 E3 E4] (Ei & Ee & Hsi)] & Hfd' & Hcl' & He). pose proof (slen_nonneg data).
  pose proof (co_outbound _ Hs) as Hp0. simpl in Hp0.
  destruct (pumped_fill I _ _ _ data Hp0 Hl Hd) as (b' & Hw & Hp).
  rewrite H2 in Hw. apply Ok_inj in Hw as [= <- ->]. rewrite <- Ec, <- E2 in Hp.
  assert (eof w = true → from_input k1 = slen I) as Hall.
  { pose proof (pu_range _ _ _ _ Hp). intros Hw. destruct (He Hw) as [Heof|(_ & ? & _)]; [|lia].
    apply (co_input_eof _ Hs) in Heof. simpl in Heof. lia. }
  assert (pumped I (from_input k1) (to_socket k) (if eof w then end_input b else b)) as Hp1
    by (rewrite E2 in Hp; destruct (eof w); auto using pumped_end).
  apply copy_keeps; [|simpl; lia..]. change (eof (_input (set_outbound (set_input s w) b))) with (eof w).
  destruct Hs. simpl in *. revert Hp1 Hall.
  by destruct (eof w) eqn:Ew; split; simpl; rewrite ?E1, ?E2, ?E3, ?E4, ?Hcl', ?Ew, ?Ei, ?Ee; try done; etrans.
Qed.

Lemma copy_rule2_keeps st st' : copy_inv st → rule2_callback st = Ok st' → keeps copy_inv stream_gone st st'.
Proof using HC.
  intros Hs. destruct st as [k s]. unfold rule2_callback. rewrite peek_output_eq. cbn [mbind result_bind].
  intros ([[k1 w] n] & H1 & (b & H2 & H3)%result_bind_ok)%result_bind_ok.
  destruct (co_socket _ Hs) as [Hfd Hcl]. simpl in Hfd, Hcl. pose proof (co_outbound _ Hs) as Hp0. simpl in Hp0.
  destruct (peek_write _ _ _ _ _ _ _ _ _ copy_write_socket Hfd H1) as (Hn & Ed & [[= E1 E2 E3 E4] (Ei & Ee & Hsi)] & ->).
  destruct (pumped_drain I _ _ _ n Hp0 Hn) as (b' & Hw & Hp). rewrite H2 in Hw. apply Ok_inj in Hw as <-.
  rewrite <- Ed, <- E1 in Hp.
  assert (copy_inv (k1, set_outbound (set_socket s (register_write (socket s))) b)) as Hs1.
  { destruct Hs. simpl in *. split; simpl; rewrite ?E1, ?E2, ?E3, ?E4, ?Ei, ?Ee; try done; [by rewrite <- E1| |by etrans].
    intros Hsh. rewrite Ed in *. eapply pumped_full; [exact Hp|auto]. }
  destruct (ByteStream.eof _) eqn:Heof; [|apply Ok_inj in H3 as <-; apply copy_keeps; [done|simpl; lia..]].
  apply result_bind_ok in H3 as ([k2 w2] & H3 & <-%Ok_inj). simpl in Heof.
  unfold Socket.shutdown in H3. destruct (sys_shutdown _ _ _) as [k3 r] eqn:Hsh.
  apply result_bind_ok in H3 as (x & Hx & [= <- <-]). change (sys_shutdown k1 (fd_num (socket s)) SHUT_WR = (k3, r)) in Hsh. rewrite Hfd in Hsh.
  destruct (copy_shutdown _ _ _ Hsh) as ([= F1 F2 F3 F4] & (F5 & F6 & F7) & F8 & F9).
  assert (to_socket k3 = I) as Hall by (rewrite F3; by eapply pumped_eof).
  apply copy_keeps; [|simpl; lia..]. destruct Hs1. simpl in *.
  split; simpl; rewrite ?F1, ?F2, ?F4, ?F5, ?F6, ?F8; try done; [by rewrite F3| |by etrans].
  intros _. apply F9. destruct r as [e|y]; [done|by exists y].
Qed.

Lemma copy_rule3_keeps st st' : copy_inv st → rule3_callback st = Ok st' → keeps copy_inv stream_gone st st'.
Proof using HC.
  intros Hs. destruct st as [k s]. unfold rule3_callback.
  intros ([[k1 w] data] & H1 & ([b n] & H2 & <-%Ok_inj)%result_bind_ok)%result_bind_ok.
  destruct (co_socket _ Hs) as [Hfd Hcl]. simpl in Hfd, Hcl.
  assert (0 <= remaining_capacity (_inbound s)) as Hcap by apply u64_range.
  destruct (read_spec _ _ _ _ _ _ _ _ _ _ _ copy_read_socket Hfd Hcap H1) as (Hl & Hd & Ec & [[= E1 E2 E3 E4] (Ei & Ee & Hsi)] & Hfd' & Hcl' & He). pose proof (slen_nonneg data).
  pose proof (co_inbound _ Hs) as Hp0. pose proof (co_incoming _ Hs) as Hpr. simpl in Hp0, Hpr.
  apply (promise_read R) with (finished := incoming_ended k) in Hd; [|done|apply (pu_range _ _ _ _ Hp0)].
  destruct (pumped_fill R _ _ _ data Hp0 Hl Hd) as (b' & Hw & Hp).
  rewrite H2 in Hw. apply Ok_inj in Hw as [= <- ->]. rewrite <- Ec, <- E3 in Hp.
  assert (eof w = true → from_socket k1 = slen R) as Hall.
  { pose proof (pu_range _ _ _ _ Hp). intros Hw. destruct (He Hw) as [Heof|(Hfin & Hlen & _)].
    - apply (co_socket_eof _ Hs) in Heof. simpl in Heof. lia.
    - rewrite (proj2 Hpr Hfin) in Hlen. lia. }
  assert (pumped R (from_socket k1) (to_output k) (if eof w then end_input b else b)) as Hp1
    by (rewrite E3 in Hp; destruct (eof w); auto using pumped_end).
  apply copy_keeps; [|simpl; lia..]. change (eof (socket (set_inbound (set_socket s w) b))) with (eof w).
  destruct Hs. simpl in *. revert Hp1 Hall.
  by destruct (eof w) eqn:Ew; split; simpl; rewrite ?E1, ?E2, ?E3, ?E4, ?Hcl', ?Ew, ?Ei, ?Ee; try done; etrans.
Qed.

Lemma copy_rule4_keeps st st' : copy_inv st → rule4_callback st = Ok st' → keeps copy_inv stream_gone st st'.
Proof using HC.
  intros Hs. destruct st as [k s]. unfold rule4_callback. rewrite peek_output_eq. cbn [mbind result_bind].
  intros ([[k1 w] n] & H1 & (b & H2 & H3)%result_bind_ok)%result_bind_ok.
  pose proof (co_output _ Hs) as Hfd. pose proof (co_inbound _ Hs) as Hp0. simpl in Hp0, Hfd.
  destruct (peek_write _ _ _ _ _ _ _ _ _ copy_write_output Hfd H1) as (Hn & Ed & [[= E1 E2 E3 E4] (Ei & Ee & Hsi)] & ->).
  destruct (pumped_drain R _ _ _ n Hp0 Hn) as (b' & Hw & Hp). rewrite H2 in Hw. apply Ok_inj in Hw as <-.
  rewrite <- Ed, <- E2 in Hp.
  assert (copy_inv (k1, set_inbound (set_output s (register_write (_output s))) b)) as Hs1.
  { destruct Hs. simpl in *. split; simpl; rewrite ?E1, ?E2, ?E3, ?E4, ?Ei, ?Ee; try done; [by rewrite <- E2| |by etrans].
    intros Hsh. rewrite Ed in *. eapply pumped_full; [exact Hp|auto]. }
  destruct (ByteStream.eof _) eqn:Heof; [|apply Ok_inj in H3 as <-; apply copy_keeps; [done|simpl; lia..]].
  apply result_bind_ok in H3 as ([k2 w2] & H3 & <-%Ok_inj). simpl in Heof.
  unfold FileDescriptor.close in H3. destruct (sys_close _ _) as [k3 r] eqn:Hcl.
  apply result_bind_ok in H3 as (x & Hx & [= <- <-]). change (sys_close k1 (fd_num (_output s)) = (k3, r)) in Hcl. rewrite Hfd in Hcl.
  destruct (copy_close_output _ _ _ Hcl) as ([= F1 F2 F3 F4] & (F5 & F6 & F7) & F8 & F9).
  assert (to_output k3 = R) as Hall by (rewrite F4; by eapply pumped_eof).
  apply copy_keeps; [|simpl; lia..]. destruct Hs1. simpl in *.
  split; simpl; rewrite ?F1, ?F2, ?F3, ?F5, ?F6, ?F8; try done; [by rewrite F4| |by etrans].
  intros _. apply F9. destruct r as [e|y]; [done|by exists y].
Qed.

Lemma cancel_keeps k s s' :
  copy_inv (k, s) → copy_inv (k, s') → keeps copy_inv stream_gone (k, s) (k, s').
Proof using Type. intros Hs Hs'. apply copy_keeps; [done|simpl; lia..]. Qed.

Lemma copy_rules_respect : Forall (respects copy_inv stream_gone) copy_rules.
Proof using HC.
  assert (∀ r : @Rule K Copy,
    (∀ st st', copy_inv st → callback r st = Ok st' → keeps copy_inv stream_gone st st') →
    (∀ st st', copy_inv st → stream_gone r st → cancel r st = Ok st' → keeps copy_inv stream_gone st st') →
    respects copy_inv stream_gone r) as Hr.
  { intros r Hcb Hca. split; [done|done|..].
    - intros st Hs _ He _. split; intros Hf; rewrite Hf in He; [by apply (co_input_eof _ Hs)|by apply (co_socket_eof _ Hs)].
    - intros st Hs Hcl _. destruct (co_input _ Hs) as [_ Hci]. destruct (co_socket _ Hs) as [_ Hcs].
      split; intros Hf; rewrite Hf in Hcl; congruence. }
  unfold copy_rules, add_rule. simpl. repeat (apply Forall_cons_2; [apply Hr; simpl|]); [..|constructor].
  - apply copy_rule1_keeps.
  - intros [k s] st' Hs Hg <-%Ok_inj. destruct (Hg eq_refl) as [Hg' _]. specialize (Hg' eq_refl). simpl in *.
    apply cancel_keeps; [done|]. destruct Hs. split; simpl in *; try done. by apply pumped_end.
  - apply copy_rule2_keeps.
  - intros [k s] st' Hs _ <-%Ok_inj. apply cancel_keeps; [done|]. destruct Hs. split; simpl in *; try done.
    by apply pumped_error.
  - apply copy_rule3_keeps.
  - intros [k s] st' Hs Hg <-%Ok_inj. destruct (Hg eq_refl) as [_ Hg']. specialize (Hg' eq_refl). simpl in *.
    apply cancel_keeps; [done|]. destruct Hs. split; simpl in *; try done. by apply pumped_end.
  - apply copy_rule4_keeps.
  - intros [k s] st' Hs _ <-%Ok_inj. apply cancel_keeps; [done|]. destruct Hs. split; simpl in *; try done.
    by apply pumped_error.
Qed.

Lemma copy_poll timeout_ms : poll_respects copy_inv stream_gone timeout_ms.
Proof using HC.
  intros k s ps k' answer Hs Hp. destruct (copy_poll_input _ _ _ _ _ Hp) as (Hk & Hi).
  destruct (copy_poll_socket _ _ _ _ _ Hp) as (_ & Hso). split.
  - apply copy_keeps; [by apply (copy_inv_same k)|destruct Hk as [[= E1 E2 E3 E4 E5] _]; simpl; lia..].
  - intros n revents i r p re Ha (st0 & Hs0 & Hpf & Hev) Hip Hire (Hup & Hne & Hrdy) Hd. simpl.
    rewrite Hd in Hev. destruct Hev as [?|Hev]; [done|]. simpl in Hev. rewrite Hev in Hrdy.
    split; intros Hf; rewrite Hf in Hpf.
    + rewrite (proj1 (co_input _ Hs0)) in Hpf. destruct (Hi n revents i p re) as [_ Hl]; try done.
      destruct Hk as [[= E1 _ _ _ _] _]. by rewrite E1.
    + rewrite (proj1 (co_socket _ Hs0)) in Hpf. destruct (Hso n revents i p re) as [Hfin Hl]; try done.
      destruct Hk as [[= _ E2 _ _ _] _]. rewrite E2, Hl.
      pose proof (proj2 (co_incoming _ Hs) Hfin) as Hinc. simpl in Hinc. by rewrite Hinc.
Qed.

(** One round of the loop. *)
Lemma copy_round_keeps rules st rules' st' ret :
  sublist rules copy_rules → copy_inv st → wait_next_event rules st (-1) = Ok (rules', st', ret) →
  copy_inv st' ∧ sublist rules' copy_rules.
Proof using HC.
  intros Hr Hs H.
  assert (Forall (respects copy_inv stream_gone) rules) as Hrs
    by (eapply Forall_of_sublist; [exact Hr|apply copy_rules_respect]).
  destruct (wait_next_event_keeps _ _ _ _ _ _ _ _ Hrs (copy_poll (-1)) Hs H) as [[Hs1 _] Hsub].
  split; [done|by etrans].
Qed.

Lemma copy_loop_keeps rounds : ∀ rules st rules' st' ended,
  sublist rules copy_rules → copy_inv st → copy_loop rounds rules st = Ok (rules', st', ended) → copy_inv st'.
Proof using HC.
  induction rounds as [|rounds IH]; intros rules st rules' st' ended Hr Hs; cbn [copy_loop]; [by intros [= <- <- <-]|].
  intros ([[rs st1] ret] & H1 & H2)%result_bind_ok. destruct (copy_round_keeps _ _ _ _ _ Hr Hs H1) as [Hs1 Hrs].
  destruct ret; [by eapply IH|by eapply IH|by simplify_eq].
Qed.

Lemma copy_same_trans k1 k2 k3 : copy_same k1 k2 → copy_same k2 k3 → copy_same k1 k3.
Proof using HC.
  intros (E1 & E2 & E3 & E4) (F1 & F2 & F3 & F4).
  split; [congruence|]. split_and!; [congruence..|by etrans].
Qed.

Lemma set_blocking_same k w b k' : set_blocking k w b = Ok k' → copy_same k k'.
Proof using HC.
  unfold set_blocking. destruct (sys_getfl _ _) as [k1 r1] eqn:H1. intros (fl & _ & H2)%result_bind_ok.
  destruct (sys_setfl _ _ _) as [k2 r2] eqn:H3. apply result_bind_ok in H2 as (_ & _ & [= <-]).
  eapply copy_same_trans; [by eapply copy_getfl|by eapply copy_setfl].
Qed.


(** The invariant holds before the first round. *)
Lemma copy_start_inv k w st :
  fd_num w = sock → closed w = false → eof w = false → copied k = (0, 0, [], [], (false, false)) →
  promise R (incoming k) (incoming_ended k) → copy_since k0 k → copy_start k w = Ok st → copy_inv st.
Proof using HC.
  intros Hw Hcl He H0 Hp Hsi H1. unfold copy_start in H1.
  cbn [mbind result_bind FDWrapper_new STDIN_FILENO STDOUT_FILENO] in H1.
  apply result_bind_ok in H1 as (i & <-%Ok_inj & (o & <-%Ok_inj & (ka & Ha & H1)%result_bind_ok)%result_bind_ok).
  apply result_bind_ok in H1 as (kb & Hb & (kc & Hc & <-%Ok_inj)%result_bind_ok).
  assert (copy_same k kc) as (Hk & Ei & Ee & Hs).
  { eapply copy_same_trans; [|by eapply set_blocking_same]. eapply copy_same_trans; by eapply set_blocking_same. }
  rewrite H0 in Hk. injection Hk as E1 E2 E3 E4 E5.
  split; simpl; rewrite ?E1, ?E2, ?E3, ?E4, ?E5, ?Ei, ?Ee; try done; try congruence; try by apply pumped_new. by etrans.
Qed.

(** At the end of the function the two descriptors are destroyed: the output is
    closed if it is still open. *)
Lemma copy_end_rest st : copy_inv st →
  let k' := destruct_wrapper (destruct_wrapper st.1 (_output st.2)) (_input st.2) in
  copied_bytes k' = copied_bytes st.1 ∧ copy_rest st.1 k' ∧ (shut k').1 = (shut st.1).1.
Proof using HC.
  intros Hs. pose proof (co_output _ Hs) as Ho. destruct (co_input _ Hs) as [Hi _].
  assert (∀ k, copy_same k (destruct_wrapper k (_input st.2))) as Hin.
  { intros k. unfold destruct_wrapper. destruct (_closed _); [done|]. unfold fd_num in Hi. rewrite Hi.
    destruct (sys_close _ _) as [k1 r] eqn:E. by eapply copy_close_input. }
  assert (∀ k, let k1 := destruct_wrapper k (_output st.2) in
    copied_bytes k1 = copied_bytes k ∧ copy_rest k k1 ∧ (shut k1).1 = (shut k).1) as Hout.
  { intros k. unfold destruct_wrapper. destruct (_closed _); [done|]. unfold fd_num in Ho. rewrite Ho.
    destruct (sys_close _ _) as [k1 r] eqn:E. destruct (copy_close_output _ _ _ E) as (? & ? & ? & _). done. }
  cbn zeta. set (k1 := destruct_wrapper st.1 _). destruct (Hout st.1) as (E1 & (F1 & F2 & F3) & E3). fold k1 in E1, F1, F2, F3, E3.
  destruct (Hin k1) as [[= G1 G2 G3 G4 G5] (H1 & H2 & H3)]. unfold copied_bytes in *. rewrite G1, G2, G3, G4, G5.
  split_and!; [done| |done]. split_and!; [congruence..|by etrans].
Qed.

End Copied.

(** ** Properties *)

(** C14: copying is faithful in both directions.  At any time, what has been
    written to the socket is a prefix of the standard input and what has been
    written to the standard output is a prefix of what the peer sends.  The
    kernel is told to shut the socket down for writing only after all of the
    input has been written to it, and to close the output only after all that
    the peer sent has been written to it, but for the destructor that closes it
    at the end.  The function's two flags say that the calls have been made. *)
Theorem copy_faithful {K : Type} {HK : Kernel K} {HV : CopyView K} (sock : Z) (I R : bytes)
    {HC : CopyKernel K sock I} (rounds : nat) (k : K) (w : FDWrapper) k' s ended :
  fd_num w = sock → closed w = false → eof w = false → copied k = (0, 0, [], [], (false, false)) →
  promise R (incoming k) (incoming_ended k) →
  bidirectional_stream_copy rounds k w = Ok (k', s, ended) →
  to_socket k' = stake (slen (to_socket k')) I ∧ to_output k' = stake (slen (to_output k')) R ∧
  ((shut k').1 = true → to_socket k' = I) ∧
  ((shut k').2 = true → to_output k' = R ∨ (ended = true ∧ _inbound_shutdown s = false)) ∧
  (_outbound_shutdown s = true → (shut k').1 = true) ∧
  (_inbound_shutdown s = true → to_output k' = R ∧ (ended = false → (shut k').2 = true)).
Proof.
  intros Hw Hcl He H0 Hp. unfold bidirectional_stream_copy.
  intros (st & H1 & ([[rules [k1 s1]] e] & H2 & H3)%result_bind_ok)%result_bind_ok.
  assert (copy_inv sock I R k st) as Hst by (by eapply copy_start_inv).
  pose proof (copy_loop_keeps sock I R k _ _ _ _ _ _ (reflexivity copy_rules) Hst H2) as Hs1.
  assert (copied_bytes k' = copied_bytes k1 ∧ (shut k').1 = (shut k1).1 ∧ s = s1 ∧ ended = e ∧
    (e = false → shut k' = shut k1)) as (Hk & Hsh & -> & -> & Hcl').
  { destruct e; apply Ok_inj in H3 as [= <- <- <-]; [|done].
    destruct (copy_end_rest sock I R k _ Hs1) as (? & _ & ?). done. }
  injection Hk as E1 E2 E3 E4. rewrite E3, E4, Hsh. destruct Hs1. simpl in *.
  split_and!; [by eapply pumped_prefix..|done| |done|].
  - destruct e, (_inbound_shutdown s1); auto. rewrite Hcl' by done. auto.
  - intros Hin. split; [auto|]. intros He'. rewrite Hcl' by done. auto.
Qed.

(** A kernel for the socket [3]: everything is ready, and the standard input is
    read in pieces of at most [piece + 1] bytes. *)
Record pipes := mkpipes {
  pos_in : nat; pos_sock : nat; sock_out : bytes; std_out : bytes; gone : bool * bool; piece : nat
}.

Definition pipes_kernel (I R : bytes) : Kernel pipes := {|
  sys_read k n len :=
    if n =? 0 then
      let data := take_from I (pos_in k) (min (Z.to_nat len) (S (piece k))) in
      (mkpipes (pos_in k + length data) (pos_sock k) (sock_out k) (std_out k) (gone k) (piece k), inr data)
    else
      let data := take_from R (pos_sock k) (Z.to_nat len) in
      (mkpipes (pos_in k) (pos_sock k + length data) (sock_out k) (std_out k) (gone k) (piece k), inr data);
  sys_writev k n iov :=
    let s := concat (map fst iov) in
    (if n =? 1 then mkpipes (pos_in k) (pos_sock k) (sock_out k) (std_out k ++ s) (gone k) (piece k)
     else mkpipes (pos_in k) (pos_sock k) (sock_out k ++ s) (std_out k) (gone k) (piece k), inr (slen s));
  sys_close k n :=
    (mkpipes (pos_in k) (pos_sock k) (sock_out k) (std_out k) ((gone k).1, (gone k).2 || (n =? 1)) (piece k), inr 0);
  sys_getfl k _ := (k, inr 0);
  sys_setfl k _ _ := (k, inr 0);
  sys_poll k ps _ := (k, inr (slen ps, map events ps));
  sys_socket k _ _ := (k, inl 1);
  sys_getsockopt k _ _ := (k, inl 1);
  sys_setsockopt k _ _ _ := (k, inl 1);
  sys_name k _ _ := (k, inl 1);
  sys_bind k _ _ := (k, inl 1);
  sys_connect k _ _ := (k, inl 1);
  sys_listen k _ _ := (k, inl 1);
  sys_accept k _ := (k, inl 1);
  sys_shutdown k _ _ :=
    (mkpipes (pos_in k) (pos_sock k) (sock_out k) (std_out k) (true, (gone k).2) (piece k), inr 0);
  sys_recvfrom k _ _ := (k, inl 1);
  sys_sendmsg k _ _ _ := (k, inl 1);
  sys_socketpair k _ _ := (k, inl 1);
  sys_open k _ _ := (k, inl 1);
  sys_ioctl k _ _ _ := (k, inl 1);
  sys_clock k := (k, 0)
|}.

Definition pipes_view (I R : bytes) : CopyView pipes := {|
  from_input k := consumed_to I (pos_in k);
  from_socket k := consumed_to R (pos_sock k);
  to_socket := sock_out;
  to_output := std_out;
  shut := gone;
  incoming _ := R;
  incoming_ended _ := true;
  copy_since _ _ := True
|}.

Lemma pipes_copy I R : @CopyKernel pipes (pipes_kernel I R) (pipes_view I R) 3 I.
Proof.
  split.
  - done.
  - intros k len k' data Hn [= <- <-].
    destruct (take_from_spec I (pos_in k) (min (Z.to_nat len) (S (piece k)))) as (? & ? & Hnil).
    split_and!; try done. intros ? ?. split; [done|]. apply Hnil; [done|lia].
  - intros k len k' data Hn [= <- <-].
    destruct (take_from_spec R (pos_sock k) (Z.to_nat len)) as (? & ? & Hnil).
    split_and!; try done. intros ? ?. split; [done|]. apply Hnil; [done|lia].
  - intros k iov k' m [= <- <-]. pose proof (slen_nonneg (concat (map fst iov))).
    split_and!; try done. simpl. by rewrite stake_all by lia.
  - intros k iov k' m [= <- <-]. pose proof (slen_nonneg (concat (map fst iov))).
    split_and!; try done. simpl. by rewrite stake_all by lia.
  - intros k ps t k' answer [= <- <-]. split; [done|]. intros n revents i p re [= <- <-] Hp Hre Hfd Hev Hup.
    rewrite list_lookup_fmap, Hp in Hre. simpl in Hre. simplify_eq. by rewrite Hev in Hup.
  - intros k ps t k' answer [= <- <-]. split; [done|]. intros n revents i p re [= <- <-] Hp Hre Hfd Hev Hup.
    rewrite list_lookup_fmap, Hp in Hre. simpl in Hre. simplify_eq. by rewrite Hev in Hup.
  - by intros k k' r [= <- <-].
  - intros k k' r [= <- <-]. split; [|done]. unfold copied. cbn. rewrite orb_false_r. by destruct (gone k).
  - intros k k' r [= <- <-]. cbn. by rewrite orb_true_r.
  - by intros k n k' r [= <- <-].
  - by intros k n f k' r [= <- <-].
Defined.

Definition pipes_start (p : nat) : pipes := mkpipes 0 0 [] [] (false, false) p.
Definition pipes_socket : FDWrapper := mkFDWrapper 3 false false 0 0.

Lemma copy_faithful_witness :
  ∃ k s, @bidirectional_stream_copy pipes (pipes_kernel [1; 2; 3] [4; 5]) 9 (pipes_start 7) pipes_socket = Ok (k, s, true) ∧
    sock_out k = stake (slen (sock_out k)) [1; 2; 3] ∧ sock_out k = [1; 2; 3] ∧ std_out k = [4; 5].
Proof.
  destruct (result_run (Ok ()) (λ _, @bidirectional_stream_copy pipes (pipes_kernel [1; 2; 3] [4; 5]) 9 (pipes_start 7) pipes_socket)
    (λ y, (sock_out y.1.1, std_out y.1.1, y.2)) ([1; 2; 3], [4; 5], true)) as (x & [[k s] ended] & _ & Hr & Hk).
  { vm_compute. reflexivity. }
  injection Hk as Hs Ho ->. exists k, s. split; [exact Hr|]. split; [|split; assumption].
  apply (@copy_faithful pipes (pipes_kernel [1; 2; 3] [4; 5]) (pipes_view [1; 2; 3] [4; 5]) 3 [1; 2; 3] [4; 5]
    (pipes_copy [1; 2; 3] [4; 5]) 9 (pipes_start 7) pipes_socket k s true);
    [reflexivity|reflexivity|reflexivity|reflexivity|apply promise_all|exact Hr].
Defined.

(** The end of what the peer sends cuts off the input: closing the output makes
    the event loop cancel the rule that writes to it, which sets the error flag
    that stops the rule that reads the input.  The peer sends nothing; of the
    input, read byte by byte, the tail is never read and the socket is not
    shut down for writing. *)
Lemma peer_end_cuts_input :
  ∃ k s, @bidirectional_stream_copy pipes (pipes_kernel [1; 2; 3; 4; 5; 6] []) 20 (pipes_start 0) pipes_socket = Ok (k, s, true) ∧
    sock_out k = [1; 2; 3] ∧ _outbound_shutdown s = false ∧ gone k = (false, true).
Proof. eexists _, _. split; [vm_compute; reflexivity|]. done. Qed.
