(* ===== verification/TCPProcess.v ===== *)
(** * The programs tcp_udp, tcp_ipv4 and tcp_ip_ethernet as processes

    Once its socket is built, each of these programs opens a connection, copies
    between the socket and the standard streams, and waits until the socket is
    closed.  The connection is opened by the main thread; from then on the TCP
    thread runs beside it.  The two share the kernel and the owner's end of the
    socket pair.  Two such processes over a network that loses, repeats and
    reorders segments: what one prints is a prefix of what the other reads. *)

From S2P Require Import Prelude WrappingIntegers ByteStream StreamReassembler Buffer TCPHeader TCPSegment.
From S2P Require Import TCPConfig StreamSegments TCPReceiver TCPSender TCPConnection EndToEnd.
From S2P Require Import TCPState Address FileDescriptor EventLoop Socket FdAdapter TCPSpongeSocket SocketDelivery SocketPair.
From S2P Require Import AdapterDevices AdapterPeers.
From S2P Require BidirectionalStreamCopy.
From stdpp Require Import options.

Local Open Scope Z_scope.

Module BSC := BidirectionalStreamCopy.
#[local] Existing Instance BSC.copy_since_order.

(** ** A process *)

(** Where the main thread is: in [connect] or [listen_and_accept], in
    [bidirectional_stream_copy], in [wait_until_closed], or at the end. *)
Inductive Main (K : Type) :=
| Connecting
| Copying (copy_rules : list (@Rule K BSC.Copy)) (copy : BSC.Copy)
| Closing
| Exited (status : Z).
Arguments Connecting {K}.
Arguments Copying {K} _ _.
Arguments Closing {K}.
Arguments Exited {K} _.

Record Process (K A : Type) := mkProcess { tcp_thread : Thread K A; main : Main K }.
Arguments mkProcess {K A} _ _.
Arguments tcp_thread {K A} _.
Arguments main {K A} _.

Section Process.
Context {K A : Type} `{HK : Kernel K} `{HA : SocketAdapter K A} `{HR : Resolver}.

Definition set_socket (th : Thread K A) (s : TCPSpongeSocket A) : Thread K A := mkThread (rules th) s (phase th).

(** The owner's end of the pair, which both threads use. *)
Definition owner (p : Process K A) : FDWrapper := _owner (socket (tcp_thread p)).

(** The main thread is in the loop of [connect] or [listen_and_accept]. *)
Definition opening (p : Process K A) : bool :=
  match main p, phase (tcp_thread p) with Connecting, Opening _ _ _ => true | _, _ => false end.

Definition finished (th : Thread K A) : bool := match phase th with Finished => true | _ => false end.

(** One turn of the main thread: a round of a loop, or what follows it. *)
Definition main_turn (k : K) (p : Process K A) : result (K * Process K A) :=
  let th := tcp_thread p in
  match main p with
  | Connecting =>
      match phase th with
      | Opening _ _ _ => '(k, th) ← turn false k th; Ok (k, mkProcess th Connecting)
      | _ => '(k, c) ← BSC.copy_start k (owner p); Ok (k, mkProcess th (Copying BSC.copy_rules c))
      end
  | Copying rules c =>
      '(rules, (k, c), ret) ← wait_next_event rules (k, BSC.set_socket c (owner p)) (-1);
      let s := set_owner (socket th) (BSC.socket c) in
      match ret with
      | Exit =>
          let k := destruct_wrapper (destruct_wrapper k (BSC._output c)) (BSC._input c) in
          '(k, s) ← wait_until_closed k s; Ok (k, mkProcess (set_socket th s) Closing)
      | _ => Ok (k, mkProcess (set_socket th s) (Copying rules c))
      end
  | Closing => Ok (k, if finished th then mkProcess th (Exited EXIT_SUCCESS) else p)
  | Exited _ => Ok (k, p)
  end.

(** The exit status, once a turn of the main thread has ended or has thrown. *)
Definition main_status (r : result (K * Process K A)) : option Z :=
  match r with
  | Ok (_, p) => match main p with Exited status => Some status | _ => None end
  | Throw _ => exit_status r
  end.

(** One turn of the TCP thread, once it has been started. *)
Definition tcp_turn (k : K) (p : Process K A) : result (K * Process K A) :=
  match phase (tcp_thread p) with
  | Running _ => '(k, th) ← turn false k (tcp_thread p); Ok (k, mkProcess th (main p))
  | _ => Ok (k, p)
  end.

(** [~TCPSpongeSocket]: [_abort] is set and a thread that still runs is waited
    for. *)
Definition destroy (k : K) (th : Thread K A) : result (K * Thread K A) :=
  match phase th with Running _ => turn true k th | _ => Ok (k, th) end.

(** The wait is for at most one round of the loop. *)
Lemma destroy_ends k th k' th' base_time :
  phase th = Running base_time → destroy k th = Ok (k', th') → finished th' = true ∧ _tcp (socket th') = None.
Proof using Type.
  intros Hp. unfold destroy, turn. rewrite Hp. intros ([[[go rs] [k1 s1]] base] & H1 & H2)%result_bind_ok.
  unfold tcp_loop_round in H1. apply result_bind_ok in H1 as ([[rs1 [k2 s2]] res] & _ & H1). rewrite orb_true_r in H1.
  injection H1 as <- <- <- <- <-. by apply result_bind_ok in H2 as ([k3 w] & _ & [= <- <-]).
Qed.

(** ** The owner's end is not touched by the TCP thread *)

Definition same_end (w w' : FDWrapper) : Prop := fd_num w' = fd_num w ∧ eof w' = eof w ∧ closed w' = closed w.

Definition owner_is (w : FDWrapper) (st : K * TCPSpongeSocket A) : Prop := _owner st.2 = w.

Lemma owner_keeps w st st' : owner_is w st' → keeps (owner_is w) (λ _ _, True) st st'.
Proof using Type. by split. Qed.

Lemma tcp_rules_owner reads w : Forall (respects (owner_is w) (λ _ _, True)) (tcp_rules reads).
Proof using Type.
  assert (∀ r : @Rule K (TCPSpongeSocket A),
    (∀ st st', callback r st = Ok st' → _owner st'.2 = _owner st.2) →
    (∀ st st', cancel r st = Ok st' → _owner st'.2 = _owner st.2) → respects (owner_is w) (λ _ _, True) r) as Hr.
  { intros r H1 H2. split; try done; intros st st' Hs; [intros H|intros _ H]; apply owner_keeps; unfold owner_is in *;
      [by rewrite (H1 _ _ H)|by rewrite (H2 _ _ H)]. }
  unfold tcp_rules, add_rule. simpl.
  repeat (apply Forall_cons_2; [apply Hr; simpl; [|try by intros st st' <-%Ok_inj]|]); [..|constructor].
  - intros [k s] st'. unfold rule1_callback. intros ([[k1 a] o] & _ & (s1 & H2 & H3)%result_bind_ok)%result_bind_ok.
    assert (_owner s1 = _owner s) as Hs1.
    { destruct o; [|by injection H2 as <-].
      apply result_bind_ok in H2 as (c & _ & (c1 & _ & <-%Ok_inj)%result_bind_ok). done. }
    simpl. rewrite <- Hs1. destruct (eof _); [|by apply Ok_inj in H3 as <-].
    apply result_bind_ok in H3 as (c & _ & H3). destruct (_ && _); [|by apply Ok_inj in H3 as <-].
    by apply result_bind_ok in H3 as (_ & _ & <-%Ok_inj).
  - intros [k s] st'. unfold rule2_callback.
    intros (c & _ & ([[k1 w1] d] & _ & ([c1 n] & _ & H)%result_bind_ok)%result_bind_ok)%result_bind_ok.
    destruct (negb _); [done|]. destruct (eof _); [|by apply Ok_inj in H as <-].
    by apply result_bind_ok in H as (c2 & _ & (_ & _ & <-%Ok_inj)%result_bind_ok).
  - intros [k s] st'. unfold rule2_cancel. by intros (c & _ & (c1 & _ & <-%Ok_inj)%result_bind_ok)%result_bind_ok.
  - intros [k s] st'. unfold rule3_callback.
    intros (c & _ & (b & _ & ([[k1 w1] n] & _ & (i & _ & H)%result_bind_ok)%result_bind_ok)%result_bind_ok)%result_bind_ok.
    destruct (_ || _); [|by apply Ok_inj in H as <-].
    by apply result_bind_ok in H as ([k2 w2] & _ & (_ & _ & <-%Ok_inj)%result_bind_ok).
  - intros [k s] st'. unfold rule4_callback. by intros (c & _ & ([k1 a] & _ & <-%Ok_inj)%result_bind_ok)%result_bind_ok.
Qed.

Lemma loop_round_owner reads abort rs k s base go rs' k' s' base' :
  sublist rs (tcp_rules reads) → tcp_loop_round abort rs (k, s) base = Ok (go, rs', (k', s'), base') →
  _owner s' = _owner s.
Proof using Type.
  intros Hs. unfold tcp_loop_round. intros ([[rs1 [k1 s1]] res] & H1 & H2)%result_bind_ok.
  assert (_owner s1 = _owner s) as Ho.
  { assert (Forall (respects (owner_is (_owner s)) (λ _ _, True)) rs) as Hr
      by (eapply Forall_of_sublist; [exact Hs|apply tcp_rules_owner]).
    eapply (wait_next_event_keeps _ _ _ _ _ _ _ _ Hr) in H1 as [[? _] _]; [done| |done].
    intros k2 w2 ps k3 answer Hw _. split; [by apply owner_keeps|done]. }
  destruct (_ || _); [by simplify_eq|]. apply result_bind_ok in H2 as (c & _ & H2).
  destruct (active c); [|by simplify_eq]. destruct (sys_clock k1) as [k2 t].
  apply result_bind_ok in H2 as ([k3 a] & _ & [= <- <- <- <-]). done.
Qed.

(** A turn of the TCP thread leaves the end's descriptor and flags as they are. *)
Lemma turn_owner reads abort k th k' th' :
  (finished th = false → sublist (rules th) (tcp_rules reads)) → turn abort k th = Ok (k', th') →
  same_end (_owner (socket th)) (_owner (socket th')).
Proof using Type.
  assert (∀ k rs (s : TCPSpongeSocket A) k' th, main_begin k rs s = Ok (k', th) → socket th = s) as Hmain.
  { intros k1 rs s k2 th2. unfold main_begin. destruct (_tcp s); [|done]. destruct (sys_clock k1). by intros [= _ <-]. }
  unfold turn, finished. destruct (phase th) as [cond msg base|base|]; intros Hs; [specialize (Hs eq_refl)..|].
  - destruct (negb _).
    { intros (_ & _ & H)%result_bind_ok. by rewrite (Hmain _ _ _ _ _ H). }
    intros ([[[go rs] [k1 s1]] b1] & H1 & H2)%result_bind_ok. apply (loop_round_owner _ _ _ _ _ _ _ _ _ _ _ Hs) in H1.
    destruct go; [by injection H2 as _ <-; rewrite <- H1|]. apply result_bind_ok in H2 as (_ & _ & H2).
    by rewrite (Hmain _ _ _ _ _ H2), H1.
  - intros ([[[go rs] [k1 s1]] b1] & H1 & H2)%result_bind_ok. apply (loop_round_owner _ _ _ _ _ _ _ _ _ _ _ Hs) in H1.
    destruct go; [by injection H2 as _ <-; rewrite <- H1|]. apply result_bind_ok in H2 as ([k2 w] & H3 & [= _ <-]).
    unfold Socket.shutdown in H3. destruct (sys_shutdown _ _ _) as [k3 r].
    apply result_bind_ok in H3 as (x & _ & [= _ <-]). cbn. by rewrite H1.
  - by intros [= _ <-].
Qed.

End Process.

(** ** What is relied upon *)

(** A stream grows, until it has ended. *)
Definition extends (s : bytes) (ended : bool) (s' : bytes) (ended' : bool) : Prop :=
  s `prefix_of` s' ∧ (ended = true → ended' = true ∧ s' = s).

Lemma extends_promise S s e s' e' : extends s e s' e' → promise S s' e' → promise S s e.
Proof.
  intros [Hp He] [Hp' He']. split; [by etrans|]. intros [-> <-]%He. by apply He'.
Qed.

Lemma extends_refl s e : extends s e s e.
Proof. by split. Qed.

Lemma extends_trans s1 e1 s2 e2 s3 e3 : extends s1 e1 s2 e2 → extends s2 e2 s3 e3 → extends s1 e1 s3 e3.
Proof.
  intros [H1 H2] [H3 H4]. split; [by etrans|]. intros [-> ->]%H2. by apply H4.
Qed.

Section Views.
Context {K : Type} {VC : BSC.CopyView K} {VP : PairView K}.

(** Both directions of the socket pair. *)
Definition grows (k k' : K) : Prop :=
  extends (offered k) (owner_done k) (offered k') (owner_done k') ∧
  extends (BSC.incoming k) (BSC.incoming_ended k) (BSC.incoming k') (BSC.incoming_ended k').

Definition thread_view (k : K) := (consumed k, delivered k, sent k).

(** All of a process that its peer could disturb. *)
Definition process_view (k : K) := (BSC.copied k, owner_done k, BSC.incoming_ended k, thread_view k).
End Views.

(** The kernel of a process, for the two ends [sock] and [td] of its socket pair
    and the standard input [I].  The two threads see one pair; the calls of one
    do not change what the other has read and written. *)
Class Host (K A : Type) `{HK : Kernel K} `{HA : SocketAdapter K A} {VC : BSC.CopyView K} {VP : PairView K}
    (sock td : Z) (I : bytes) (ok : A → Prop) : Prop := {
  host_copy :: BSC.CopyKernel K sock I;
  host_pair :: StreamPair K td;
  host_adapter :: PeerAdapter K A ok;
  host_up k : offered k = BSC.to_socket k;
  host_down k : BSC.incoming k = delivered k;
  host_since k k' : since k k' → BSC.copied k' = BSC.copied k ∧ grows k k';
  host_copy_since k k' : BSC.copy_since k k' →
    thread_view k' = thread_view k ∧ arriving k' = arriving k ∧ grows k k'
}.

(** A stream that the sockets can carry. *)
Definition short (S : bytes) : Prop := slen S < 0x80000000 ∧ Forall is_u8 S.

Lemma short_prefix S S' : S `prefix_of` S' → short S' → short S.
Proof.
  intros [x ->] [Hl Hb]. rewrite slen_app in Hl. pose proof (slen_nonneg x). apply Forall_app in Hb as [??].
  split; [lia|done].
Qed.

Lemma grows_trans {K} {VC : BSC.CopyView K} {VP : PairView K} (k1 k2 k3 : K) :
  grows k1 k2 → grows k2 k3 → grows k1 k3.
Proof. intros [??] [??]. split; by eapply extends_trans. Qed.

(** ** Invariant of the main thread *)

Section MainInvariant.
Context {K A : Type} `{HK : Kernel K} `{HA : SocketAdapter K A} `{HR : Resolver} {VC : BSC.CopyView K} {VP : PairView K}.
Context (sock td : Z) (I : bytes) {ok : A → Prop} {HH : Host K A sock td I ok}.

(** The TCP thread will have written [R] to its end of the pair. *)
Definition main_inv (R : bytes) (k : K) (p : Process K A) : Prop :=
  let w := owner p in
  match main p with
  | Connecting => BSC.copied k = (0, 0, [], [], (false, false)) ∧ fd_num w = sock ∧ closed w = false ∧ eof w = false
  | Copying rs c => BSC.copy_inv sock I R k (k, BSC.set_socket c w) ∧ sublist rs BSC.copy_rules
  | _ => BSC.to_socket k `prefix_of` I ∧ BSC.to_output k `prefix_of` R
  end.

Lemma copy_inv_prefix R k0 st :
  BSC.copy_inv sock I R k0 st → BSC.to_socket st.1 `prefix_of` I ∧ BSC.to_output st.1 `prefix_of` R.
Proof using Type. intros []. split; apply prefix_stake; by eapply BSC.pumped_prefix. Qed.

Lemma main_inv_prefix R k p : main_inv R k p → BSC.to_socket k `prefix_of` I ∧ BSC.to_output k `prefix_of` R.
Proof using Type.
  unfold main_inv. destruct (main p) as [|rs c| |]; [|intros [Hc _]; by apply copy_inv_prefix in Hc|done..].
  intros [[= _ _ -> -> _] _]. split; apply prefix_nil.
Qed.

(** What is kept does not depend on the time before, nor on the counts of the
    end of the pair. *)
Lemma copy_inv_move R k0 k k' c c' :
  BSC.copied k' = BSC.copied k → promise R (BSC.incoming k') (BSC.incoming_ended k') →
  same_end (BSC.socket c) (BSC.socket c') → c' = BSC.set_socket c (BSC.socket c') →
  BSC.copy_inv sock I R k0 (k, c) → BSC.copy_inv sock I R k' (k', c').
Proof using HH.
  intros [= E1 E2 E3 E4 E5] Hp (F1 & F2 & F3) -> []. simpl in *.
  split; simpl; rewrite ?E1, ?E2, ?E3, ?E4, ?E5, ?F1, ?F2, ?F3; try done.
Qed.

Lemma main_inv_move R k k' p p' :
  BSC.copied k' = BSC.copied k → promise R (BSC.incoming k') (BSC.incoming_ended k') →
  main p' = main p → same_end (owner p) (owner p') → main_inv R k p → main_inv R k' p'.
Proof using HH.
  intros E Hp Hm Hw. unfold main_inv. rewrite Hm. destruct (main p) as [|rs c| |].
  - destruct Hw as (F1 & F2 & F3). by rewrite E, F1, F2, F3.
  - intros [Hc Hr]. split; [|done]. by apply (copy_inv_move R k k k' (BSC.set_socket c (owner p))).
  - intros [??]. injection E as _ _ -> -> _. done.
  - intros [??]. injection E as _ _ -> -> _. done.
Qed.

(** What a turn of the main thread does to the kernel: calls of the copy, and the
    shutdown at the end. *)
Definition main_step (k k' : K) : Prop := ∃ k1, BSC.copy_since k k1 ∧ since k1 k' ∧
  thread_view k' = thread_view k1 ∧ arriving k' = arriving k1.

Lemma copy_main_step k k' : BSC.copy_since k k' → main_step k k'.
Proof using HH. intros H. exists k'. split_and!; [done|apply (since_order (StreamPair := host_pair))|done|done]. Qed.

Lemma main_step_view k k' :
  main_step k k' → thread_view k' = thread_view k ∧ arriving k' = arriving k ∧ grows k k'.
Proof using HH.
  intros (k1 & (E1 & E2 & G1)%host_copy_since & (_ & G2)%host_since & E3 & E4).
  split_and!; [congruence|congruence|by eapply grows_trans].
Qed.

Lemma copy_start_socket k w k' c : BSC.copy_start k w = Ok (k', c) → BSC.socket c = w.
Proof using Type.
  unfold BSC.copy_start.
  intros (i & _ & (o & _ & (k1 & _ & (k2 & _ & (k3 & _ & [= <- <-])%result_bind_ok)%result_bind_ok)%result_bind_ok)%result_bind_ok)%result_bind_ok.
  done.
Qed.

(** A round of the copy. *)
Lemma copying_keeps R k th rs c k' p' :
  BSC.copy_inv sock I R k (k, BSC.set_socket c (_owner (socket th))) → sublist rs BSC.copy_rules →
  main_turn k (mkProcess th (Copying rs c)) = Ok (k', p') →
  main_step k k' ∧ (∃ w, tcp_thread p' = set_socket th (set_owner (socket th) w)) ∧ main_inv R k' p'.
Proof using HH.
  pose proof host_copy as HC. pose proof host_pair as HP. intros Hc Hr. unfold main_turn. cbn [main tcp_thread].
  intros ([[rs1 [k1 c1]] ret] & H1 & H2)%result_bind_ok.
  destruct (BSC.copy_round_keeps _ _ _ _ _ _ _ _ _ Hr Hc H1) as [Hc1 Hr1]. pose proof (BSC.co_since _ _ _ _ _ Hc1) as Hs1.
  assert (∀ th', owner (mkProcess th' (Copying rs1 c1)) = BSC.socket c1 →
    main_inv R k1 (mkProcess th' (Copying rs1 c1))) as Hstay.
  { intros th' Ho. split; [|done]. cbn zeta. rewrite Ho. apply (copy_inv_move R k k1 k1 c1); [done|apply Hc1|done|by destruct c1|done]. }
  destruct ret; [injection H2 as <- <-; split_and!; [by apply copy_main_step|by eexists|by apply Hstay]..|].
  apply result_bind_ok in H2 as ([k2 s2] & H2 & [= <- <-]). unfold wait_until_closed in H2.
  apply result_bind_ok in H2 as ([k3 w] & H3 & [= <- <-]). unfold Socket.shutdown in H3.
  destruct (BSC.copy_end_rest _ _ _ _ _ Hc1) as (E1 & (_ & _ & Hs2) & _). cbn [fst snd] in E1, Hs2.
  set (kd := destruct_wrapper _ _) in *.
  destruct (sys_shutdown _ _ _) as [k4 r] eqn:Hsh. apply result_bind_ok in H3 as (x & _ & [= <- <-]).
  pose proof (pair_finish _ _ _ _ Hsh) as [[= F1 F2 F3 F4] Hs3]. pose proof (host_since _ _ Hs3) as [E2 _].
  split_and!.
  - exists kd. unfold thread_view. rewrite F1, F2, F3, F4. split_and!; [by etrans|done..].
  - by eexists.
  - unfold main_inv. cbn [main]. destruct (copy_inv_prefix _ _ _ Hc1) as [P1 P2]. simpl in P1, P2.
    injection E2 as _ _ -> -> _. injection E1 as _ _ -> ->. done.
Qed.

(** The main thread keeps its invariant; of the thread's state it changes the
    owner's end only. *)
Lemma main_turn_keeps R k p k' p' :
  promise R (BSC.incoming k) (BSC.incoming_ended k) → main_inv R k p → opening p = false →
  main_turn k p = Ok (k', p') →
  main_step k k' ∧ (∃ w, tcp_thread p' = set_socket (tcp_thread p) (set_owner (socket (tcp_thread p)) w)) ∧
  main_inv R k' p'.
Proof using HH.
  pose proof host_copy as HC. intros Hp Hi Hop. destruct p as [th [|rs c| |status]].
  - destruct Hi as (H0 & Hw & Hcl & He). unfold main_turn. cbn [main tcp_thread].
    assert (('(k, c) ← BSC.copy_start k (owner (mkProcess th Connecting));
      Ok (k, mkProcess th (Copying BSC.copy_rules c))) = Ok (k', p') →
      main_step k k' ∧ (∃ w, tcp_thread p' = set_socket th (set_owner (socket th) w)) ∧ main_inv R k' p') as Hstart.
    { intros ([k1 c] & H1 & [= <- <-])%result_bind_ok.
      pose proof (BSC.copy_start_inv sock I R k _ _ _ Hw Hcl He H0 Hp (reflexivity k) H1) as Hc.
      pose proof (BSC.co_since _ _ _ _ _ Hc) as Hs. pose proof (copy_start_socket _ _ _ _ H1) as Hso.
      unfold owner in Hso. cbn in Hso. split_and!; [by apply copy_main_step| |].
      - exists (_owner (socket th)). by destruct th as [? [] ?].
      - split; [|done]. apply (copy_inv_move R k k1 k1 c); [done|apply Hc|..|exact Hc].
        + unfold same_end, owner. cbn. by rewrite Hso.
        + unfold owner. cbn. rewrite <- Hso. by destruct c. }
    unfold opening in Hop. cbn in Hop. by destruct (phase th).
  - destruct Hi as [Hc Hr]. intros H. by eapply copying_keeps.
  - intros [= <- <-]. split_and!; [apply copy_main_step; reflexivity| |by destruct (finished th)].
    exists (_owner (socket th)). by destruct (finished th), th as [? [] ?].
  - intros [= <- <-]. split_and!; [apply copy_main_step; reflexivity| |done].
    exists (_owner (socket th)). by destruct th as [? [] ?].
Qed.

End MainInvariant.

(** ** Two processes *)

(** Two processes with kernels of their own, which share nothing but the network:
    what may arrive at one is what the other has sent. *)
Class Hosts (K A B : Type) {HKa HKb : Kernel K} {HA : SocketAdapter K A} {HB : SocketAdapter K B}
    {VCa VCb : BSC.CopyView K} {VPa VPb : PairView K}
    (socka tda : Z) (Ia : bytes) (oka : A → Prop) (sockb tdb : Z) (Ib : bytes) (okb : B → Prop) : Prop := {
  left_host : Host (HK := HKa) (VC := VCa) (VP := VPa) K A socka tda Ia oka;
  right_host : Host (HK := HKb) (VC := VCb) (VP := VPb) K B sockb tdb Ib okb;
  left_network k : arriving (PairView := VPa) k = sent (PairView := VPb) k;
  right_network k : arriving (PairView := VPb) k = sent (PairView := VPa) k;
  left_quiet k k' : since (PairView := VPa) k k' ∨ BSC.copy_since (CopyView := VCa) k k' →
    process_view (VC := VCb) (VP := VPb) k' = process_view (VC := VCb) (VP := VPb) k;
  right_quiet k k' : since (PairView := VPb) k k' ∨ BSC.copy_since (CopyView := VCb) k k' →
    process_view (VC := VCa) (VP := VPa) k' = process_view (VC := VCa) (VP := VPa) k
}.

Lemma hosts_sym {K A B HKa HKb HA HB VCa VCb VPa VPb socka tda Ia oka sockb tdb Ib okb} :
  @Hosts K A B HKa HKb HA HB VCa VCb VPa VPb socka tda Ia oka sockb tdb Ib okb →
  @Hosts K B A HKb HKa HB HA VCb VCa VPb VPa sockb tdb Ib okb socka tda Ia oka.
Proof. intros []. by split. Qed.

Section Processes.
Context {K A B : Type} {HKa HKb : Kernel K} {HA : SocketAdapter K A} {HB : SocketAdapter K B} {HR : Resolver}.
Context {VCa VCb : BSC.CopyView K} {VPa VPb : PairView K}.
Context (reads : Reads) (socka tda : Z) (Ia : bytes) (sockb tdb : Z) (Ib : bytes).
Context (ia ib : WrappingInt32) {oka : A → Prop} {okb : B → Prop}.

(** Whatever the four streams of the two pairs will be, as far as this can still
    be said. *)
Record processes_inv (k : K) (a : Process K A) (b : Process K B) : Prop := {
  pr_left R : promise R (BSC.incoming (CopyView := VCa) k) (BSC.incoming_ended (CopyView := VCa) k) →
    main_inv (HK := HKa) (VC := VCa) socka Ia R k a;
  pr_right R : promise R (BSC.incoming (CopyView := VCb) k) (BSC.incoming_ended (CopyView := VCb) k) →
    main_inv (HK := HKb) (VC := VCb) sockb Ib R k b;
  pr_threads Sa Sb : short Sa → short Sb →
    promise Sa (offered (PairView := VPa) k) (owner_done (PairView := VPa) k) →
    promise Sb (offered (PairView := VPb) k) (owner_done (PairView := VPb) k) →
    thread_inv (HK := HKa) (HV := VPa) (ok := oka) reads tda Sa Sb ia ib k k (tcp_thread a) ∧
    thread_inv (HK := HKb) (HV := VPb) (ok := okb) reads tdb Sb Sa ib ia k k (tcp_thread b)
}.

Context {HH : @Hosts K A B HKa HKb HA HB VCa VCb VPa VPb socka tda Ia oka sockb tdb Ib okb}.
Context (Hia : wf_WrappingInt32 ia) (Hib : wf_WrappingInt32 ib).
Context (HIa : short Ia) (HIb : short Ib).

(** A step of the left process: its streams grow, and nothing of the right one
    changes. *)
Lemma left_moves k k' a a' b :
  processes_inv k a b → grows (VC := VCa) (VP := VPa) k k' →
  process_view (VC := VCb) (VP := VPb) k' = process_view (VC := VCb) (VP := VPb) k →
  (∀ R, promise R (BSC.incoming (CopyView := VCa) k') (BSC.incoming_ended (CopyView := VCa) k') →
    main_inv (HK := HKa) (VC := VCa) socka Ia R k a → main_inv (HK := HKa) (VC := VCa) socka Ia R k' a') →
  (∀ Sa Sb, short Sa → short Sb →
    thread_inv (HK := HKa) (HV := VPa) (ok := oka) reads tda Sa Sb ia ib k k (tcp_thread a) →
    promise Sa (offered (PairView := VPa) k') (owner_done (PairView := VPa) k') →
    thread_inv (HK := HKa) (HV := VPa) (ok := oka) reads tda Sa Sb ia ib k' k' (tcp_thread a')) →
  processes_inv k' a' b.
Proof using HH.
  intros [Hl Hr Ht] [G1 G2] Ev Hm Hth. destruct HH as [Ha Hb Na Nb _ _].
  unfold process_view, thread_view in Ev. injection Ev as E1 E2 E3 E4 Esh E5 E6 E7 E8 E9.
  assert (BSC.incoming (CopyView := VCb) k' = BSC.incoming (CopyView := VCb) k) as Einc
    by (by rewrite !(@host_down _ _ _ _ _ _ _ _ _ _ Hb)).
  assert (offered (PairView := VPb) k' = offered (PairView := VPb) k) as Eoff
    by (by rewrite !(@host_up _ _ _ _ _ _ _ _ _ _ Hb)).
  split.
  - intros R HR'. apply Hm; [done|]. apply Hl. by eapply extends_promise.
  - intros R HR'. eapply (main_inv_move sockb tdb Ib (HH := Hb) R k k' b b); [|done|done|done|].
    + unfold BSC.copied. by rewrite E1, E2, E3, E4, Esh.
    + apply Hr. by rewrite <- Einc, <- E6.
  - intros Sa Sb HSa HSb Pa Pb. rewrite Eoff, E5 in Pb.
    destruct (Ht Sa Sb HSa HSb) as [Ta Tb]; [by eapply extends_promise|done|].
    pose proof (Hth Sa Sb HSa HSb Ta Pa) as Ta'. split; [done|].
    destruct (thread_inv_tinv _ _ _ _ _ _ _ _ _ Ta') as (c & Hc).
    eapply thread_inv_move; [apply Hb|by rewrite E7, E8, E9| |by rewrite Eoff, E5|exact Tb].
    rewrite Nb. apply Hc.
Qed.

(** What the left owner has written so far is short. *)
Lemma left_short k a b : processes_inv k a b → short (offered (PairView := VPa) k).
Proof using HH HIa.
  intros [Hl _ _]. destruct HH as [Ha _ _ _ _ _].
  destruct (main_inv_prefix socka Ia _ _ _ (Hl _ (promise_all _ _))) as [Hx _].
  rewrite (@host_up _ _ _ _ _ _ _ _ _ _ Ha). by eapply short_prefix.
Qed.

Lemma right_short k a b : processes_inv k a b → short (offered (PairView := VPb) k).
Proof using HH HIb.
  intros [_ Hr _]. destruct HH as [_ Hb _ _ _ _].
  destruct (main_inv_prefix sockb Ib _ _ _ (Hr _ (promise_all _ _))) as [Hx _].
  rewrite (@host_up _ _ _ _ _ _ _ _ _ _ Hb). by eapply short_prefix.
Qed.

(** A turn of the left TCP thread. *)
Lemma left_thread_turn k a b k' th m :
  processes_inv k a b → main a = m → turn (HK := HKa) false k (tcp_thread a) = Ok (k', th) →
  processes_inv k' (mkProcess th m) b.
Proof using HH HIa HIb Hia Hib.
  intros Hi Hm Ht. pose proof HH as [Ha Hb Na Nb Qa _].
  pose proof (@host_pair _ _ _ _ _ _ _ _ _ _ Ha) as HPa. pose proof (@host_adapter _ _ _ _ _ _ _ _ _ _ Ha) as HAa.
  assert (∀ Sa Sb, short Sa → short Sb →
    thread_inv (HK := HKa) (HV := VPa) (ok := oka) reads tda Sa Sb ia ib k k (tcp_thread a) →
    thread_inv (HK := HKa) (HV := VPa) (ok := oka) reads tda Sa Sb ia ib k k' th) as Hk
    by (intros ?? [??] [??] ?; by eapply (turn_keeps _ tda)).
  destruct (pr_threads _ _ _ Hi _ _ (left_short _ _ _ Hi) (right_short _ _ _ Hi)) as [Ta _]; [apply promise_all..|].
  pose proof (Hk _ _ (left_short _ _ _ Hi) (right_short _ _ _ Hi) Ta) as Ta'.
  destruct (thread_inv_tinv _ _ _ _ _ _ _ _ _ Ta') as (c & Hc).
  pose proof (ti_since _ _ _ _ _ _ _ Hc) as Hs. destruct (host_since _ _ Hs) as [Ec Hg].
  apply (left_moves k k' a _ b); [done|done|apply Qa; by left|..].
  - intros R HR' HM. eapply (main_inv_move socka tda Ia (HH := Ha) R k k' a); try done.
    eapply (turn_owner (HK := HKa) reads); [|exact Ht]. unfold thread_inv, finished in *.
    destruct (phase (tcp_thread a)); [intros _; apply Ta..|done].
  - intros Sa Sb HSa HSb T P. pose proof (Hk _ _ HSa HSb T) as T'. destruct (thread_inv_tinv _ _ _ _ _ _ _ _ _ T') as (d & Hd).
    eapply thread_inv_move; [apply Ha|reflexivity|apply Hd|done|exact T'].
Qed.

Lemma left_tcp_turn k a b k' a' :
  processes_inv k a b → tcp_turn (HK := HKa) k a = Ok (k', a') → processes_inv k' a' b.
Proof using HH HIa HIb Hia Hib.
  intros Hi. unfold tcp_turn. destruct (phase _); [by intros [= <- <-]| |by intros [= <- <-]].
  intros ([k1 th] & H1 & [= <- <-])%result_bind_ok. by eapply left_thread_turn.
Qed.

(** The owner's end is not a part of the TCP thread's invariant. *)
Lemma thread_inv_owner Sa Sb k0 k (th : Thread K A) w :
  thread_inv (HK := HKa) (HV := VPa) (ok := oka) reads tda Sa Sb ia ib k0 k th →
  thread_inv (HK := HKa) (HV := VPa) (ok := oka) reads tda Sa Sb ia ib k0 k (set_socket th (set_owner (socket th) w)).
Proof using Type.
  unfold thread_inv. destruct th as [rs s ph]. cbn. destruct ph; [intros [[] ?]; by split..|done].
Qed.

(** A turn of the left main thread. *)
Lemma left_main_turn k a b k' a' :
  processes_inv k a b → main_turn (HK := HKa) k a = Ok (k', a') → processes_inv k' a' b.
Proof using HH HIa HIb Hia Hib.
  intros Hi Ht. pose proof HH as [Ha Hb Na Nb Qa _]. destruct (opening a) eqn:Hop.
  { unfold opening in Hop. unfold main_turn in Ht. destruct (main a) eqn:Hm; try done.
    destruct (phase (tcp_thread a)) eqn:Hph; try done. apply result_bind_ok in Ht as ([k1 th] & H1 & [= <- <-]).
    by eapply left_thread_turn. }
  assert (∀ R (HR' : promise R (BSC.incoming (CopyView := VCa) k) (BSC.incoming_ended (CopyView := VCa) k)), _) as Hk
    by (intros R HR'; exact (main_turn_keeps socka tda Ia R _ _ _ _ HR' (pr_left _ _ _ Hi R HR') Hop Ht)).
  destruct (Hk _ (promise_all _ _)) as (Hs & (w & Hw) & _).
  destruct (main_step_view socka tda Ia _ _ Hs) as (Ev & Ea & Hg).
  assert (process_view (VC := VCb) (VP := VPb) k' = process_view (VC := VCb) (VP := VPb) k) as Eb.
  { destruct Hs as (k1 & S1 & S2 & _). rewrite (Qa _ _ (or_introl S2)). apply Qa. by right. }
  apply (left_moves k k' a a' b); try done.
  - intros R HR' _. apply Hk. eapply extends_promise; [apply Hg|done].
  - intros Sa Sb HSa HSb T P. rewrite Hw. apply thread_inv_owner.
    destruct (thread_inv_tinv _ _ _ _ _ _ _ _ _ T) as (d & Hd).
    eapply thread_inv_move; [apply Ha|exact Ev| |done|exact T]. rewrite Ea. apply Hd.
Qed.

(** What the right process prints comes from the left one's input. *)
Lemma right_prints k a b : processes_inv k a b → BSC.to_output (CopyView := VCb) k `prefix_of` Ia.
Proof using HH HIa HIb.
  intros Hi. pose proof HH as [Ha Hb _ _ _ _].
  destruct (main_inv_prefix sockb Ib _ _ _ (pr_right _ _ _ Hi _ (promise_all _ _))) as [_ H1].
  destruct (main_inv_prefix socka Ia _ _ _ (pr_left _ _ _ Hi _ (promise_all _ _))) as [H2 _].
  destruct (pr_threads _ _ _ Hi _ _ (left_short _ _ _ Hi) (right_short _ _ _ Hi)) as [_ Tb]; [apply promise_all..|].
  destruct (thread_inv_tinv _ _ _ _ _ _ _ _ _ Tb) as (c & Hc). apply tinv_prefix in Hc. apply prefix_stake in Hc.
  rewrite (@host_down _ _ _ _ _ _ _ _ _ _ Hb) in H1. rewrite (@host_up _ _ _ _ _ _ _ _ _ _ Ha) in Hc.
  etrans; [exact H1|]. by etrans.
Qed.

End Processes.

Section System.
Context {K A B : Type} {HKa HKb : Kernel K} {HA : SocketAdapter K A} {HB : SocketAdapter K B} {HR : Resolver}.

(** Which thread of which process takes a turn. *)
Inductive Actor := MainThread | TCPThread.

Fixpoint run_processes (schedule : list (Side * Actor)) (k : K) (a : Process K A) (b : Process K B)
    : result (K * Process K A * Process K B) :=
  match schedule with
  | [] => Ok (k, a, b)
  | (Left, MainThread) :: schedule => '(k, a) ← main_turn (HK := HKa) k a; run_processes schedule k a b
  | (Left, TCPThread) :: schedule => '(k, a) ← tcp_turn (HK := HKa) k a; run_processes schedule k a b
  | (Right, MainThread) :: schedule => '(k, b) ← main_turn (HK := HKb) k b; run_processes schedule k a b
  | (Right, TCPThread) :: schedule => '(k, b) ← tcp_turn (HK := HKb) k b; run_processes schedule k a b
  end.

Context {VCa VCb : BSC.CopyView K} {VPa VPb : PairView K}.
Context (reads : Reads) (socka tda : Z) (Ia : bytes) (sockb tdb : Z) (Ib : bytes).
Context (ia ib : WrappingInt32) {oka : A → Prop} {okb : B → Prop}.
Context {HH : @Hosts K A B HKa HKb HA HB VCa VCb VPa VPb socka tda Ia oka sockb tdb Ib okb}.
Context (Hia : wf_WrappingInt32 ia) (Hib : wf_WrappingInt32 ib).
Context (HIa : short Ia) (HIb : short Ib).

Abbreviation inv := (processes_inv (HKa := HKa) (HKb := HKb) (VCa := VCa) (VCb := VCb) (VPa := VPa) (VPb := VPb)
  (oka := oka) (okb := okb) reads socka tda Ia sockb tdb Ib ia ib).
Abbreviation swapped := (processes_inv (HKa := HKb) (HKb := HKa) (VCa := VCb) (VCb := VCa) (VPa := VPb) (VPb := VPa)
  (oka := okb) (okb := oka) reads sockb tdb Ib socka tda Ia ib ia).

Lemma inv_swap k (a : Process K A) (b : Process K B) : inv k a b ↔ swapped k b a.
Proof using Type.
  split; (intros [H1 H2 H3]; split; [exact H2|exact H1|]; intros Sa Sb ? ? ? ?; destruct (H3 Sb Sa) as [? ?]; done).
Qed.

Lemma run_processes_keeps schedule : ∀ k a b k' a' b',
  inv k a b → run_processes schedule k a b = Ok (k', a', b') → inv k' a' b'.
Proof using HH Hia Hib HIa HIb.
  pose proof (hosts_sym HH) as HS.
  induction schedule as [|[[] []] schedule IH]; intros k a b k' a' b' Hi; cbn [run_processes].
  { by intros [= <- <- <-]. }
  all: intros ([k1 x] & H1 & H2)%result_bind_ok; eapply IH; [|exact H2].
  - by eapply (left_main_turn _ socka tda Ia sockb tdb Ib).
  - by eapply (left_tcp_turn _ socka tda Ia sockb tdb Ib).
  - apply (proj2 (inv_swap _ _ _)). apply (proj1 (inv_swap _ _ _)) in Hi. by eapply (left_main_turn _ sockb tdb Ib socka tda Ia).
  - apply (proj2 (inv_swap _ _ _)). apply (proj1 (inv_swap _ _ _)) in Hi. by eapply (left_tcp_turn _ sockb tdb Ib socka tda Ia).
Qed.

(** ** The beginning *)

Lemma hosts_network : @SocketNetwork K A B HKa HKb HA HB VPa VPb oka okb tda tdb.
Proof using HH.
  destruct HH as [Ha Hb Na Nb Qa Qb]. split; [apply Ha|apply Hb|apply Ha|apply Hb|exact Na|exact Nb|..].
  - intros k k' Hs. pose proof (Qa _ _ (or_introl Hs)) as Ev. unfold process_view, thread_view in Ev.
    injection Ev as E1 E2 E3 E4 Esh E5 E6 E7 E8 E9. unfold end_view. rewrite !(@host_up _ _ _ _ _ _ _ _ _ _ Hb). congruence.
  - intros k k' Hs. pose proof (Qb _ _ (or_introl Hs)) as Ev. unfold process_view, thread_view in Ev.
    injection Ev as E1 E2 E3 E4 Esh E5 E6 E7 E8 E9. unfold end_view. rewrite !(@host_up _ _ _ _ _ _ _ _ _ _ Ha). congruence.
Qed.

(** The first loop begins with a look at the clock. *)
Lemma begins_clock {D} {HD : SocketAdapter K D} {HK : Kernel K} k (s : TCPSpongeSocket D) cfg c_ad random k' th :
  begins reads (k, s) cfg c_ad random k' th → ∃ t, sys_clock k = (k', t) ∧ _owner (socket th) = _owner s.
Proof using Type.
  unfold begins, connect_begin, listen_begin. destruct (_tcp s); [by intros [?|?]|]. cbn [_initialize_TCP].
  destruct (sys_clock k) as [k1 now]. intros [H|H].
  - apply result_bind_ok in H as (_ & _ & (c & H1 & (c1 & H2 & H3)%result_bind_ok)%result_bind_ok).
    destruct (negb _); [done|]. injection H3 as <- <-. by exists now.
  - injection H as <- <-. by exists now.
Qed.

(** A new socket in a new process. *)
Record fresh_process {VC : BSC.CopyView K} {VP : PairView K} {D : Type} (sock td : Z) (k : K) (s : TCPSpongeSocket D)
    : Prop := {
  fp_thread : fresh td (offered k) k s;
  fp_copied : BSC.copied k = (0, 0, [], [], (false, false));
  fp_fd : fd_num (_owner s) = sock;
  fp_open : closed (_owner s) = false;
  fp_eof : eof (_owner s) = false
}.

Lemma fresh_promise {VP : PairView K} {D : Type} td S0 S k (s : TCPSpongeSocket D) :
  fresh td S0 k s → promise S (offered k) (owner_done k) → fresh td S k s.
Proof using Type. intros [] Hp. by split. Qed.

Lemma processes_begin k (sa : TCPSpongeSocket A) (sb : TCPSpongeSocket B) cfga cfgb ada adb rnda rndb k1 ta k2 tb :
  fresh_process (VC := VCa) (VP := VPa) socka tda k sa → fresh_process (VC := VCb) (VP := VPb) sockb tdb k sb →
  oka (_datagram_adapter (configure sa ada)) → okb (_datagram_adapter (configure sb adb)) →
  good_config ia cfga rnda → good_config ib cfgb rndb →
  begins (HK := HKa) reads (k, sa) cfga ada rnda k1 ta →
  begins (HK := HKb) reads (k1, sb) cfgb adb rndb k2 tb →
  inv k2 (mkProcess ta Connecting) (mkProcess tb Connecting).
Proof using HH.
  intros Fa Fb Oka Okb Ga Gb Ba Bb. pose proof hosts_network as HN. pose proof HH as [Ha Hb _ _ Qa Qb].
  destruct (begins_clock _ _ _ _ _ _ _ Ba) as (t1 & C1 & Oa). destruct (begins_clock _ _ _ _ _ _ _ Bb) as (t2 & C2 & Ob).
  pose proof (pair_clock (HV := VPa) _ _ _ C1) as [_ (A1 & A2 & _ & Sa1)].
  pose proof (pair_clock (HV := VPb) _ _ _ C2) as [_ (B1 & B2 & _ & Sb1)].
  pose proof (Qa _ _ (or_introl Sa1)) as Vb1. pose proof (Qb _ _ (or_introl Sb1)) as Va2.
  destruct (host_since (VP := VPa) (VC := VCa) _ _ Sa1) as [Ca1 _].
  destruct (host_since (VP := VPb) (VC := VCb) _ _ Sb1) as [Cb2 _].
  unfold process_view in Vb1, Va2. pose proof (f_equal (λ x, x.1.1.1) Vb1) as Cb1. pose proof (f_equal (λ x, x.1.1.1) Va2) as Ca2.
  pose proof (f_equal (λ x, x.1.1.2) Vb1) as Db1. pose proof (f_equal (λ x, x.1.1.2) Va2) as Da2. simpl in *.
  assert (offered (PairView := VPa) k2 = offered (PairView := VPa) k) as Ea
    by (rewrite !(@host_up _ _ _ _ _ _ _ _ _ _ Ha); rewrite Ca1 in Ca2; by injection Ca2).
  assert (offered (PairView := VPb) k2 = offered (PairView := VPb) k) as Eb
    by (rewrite !(@host_up _ _ _ _ _ _ _ _ _ _ Hb); rewrite Cb1 in Cb2; by injection Cb2).
  split.
  - intros R _. destruct Fa. unfold main_inv, owner. cbn. rewrite Oa, Ca2, Ca1. done.
  - intros R _. destruct Fb. unfold main_inv, owner. cbn. rewrite Ob, Cb2, Cb1. done.
  - intros Sa Sb HSa HSb Pa Pb.
    eapply (both_begin _ tda tdb Sa Sb ia ib (HN := HN) (proj1 HSa) (proj1 HSb) k sa sb); [..|exact Ba|exact Bb]; try done.
    + eapply fresh_promise; [apply Fa|]. by rewrite <- Ea, <- A2, <- Da2.
    + eapply fresh_promise; [apply Fb|]. by rewrite <- Eb, <- Db1, <- B2.
Qed.

End System.

(** ** Properties *)

(** C1: two programs.  Two processes of tcp_udp or tcp_ipv4 read [Ia] and [Ib],
    each shorter than [2^31] bytes, from their standard input; their initial
    sequence numbers are fixed or random.  One connects and the other listens,
    or any other way; their main threads and TCP threads take turns in any
    order; the network loses, repeats and reorders segments.  At every moment
    of a run in which no call has thrown, whatever the undefined reads of the
    code have yielded, what either process has printed is a prefix of what the
    other has been given to read.  The adapters are those that satisfy
    [PeerAdapter]: over UDP sockets and TUN devices, with or without random
    loss, by [udp_peer], [tun_peer] and [lossy_peer]. *)
Theorem programs_deliver {K A B : Type} {HKa HKb : Kernel K} {HA : SocketAdapter K A} {HB : SocketAdapter K B}
    {HR : Resolver} {VCa VCb : BSC.CopyView K} {VPa VPb : PairView K}
    (reads : Reads) (socka tda : Z) (Ia : bytes) (sockb tdb : Z) (Ib : bytes)
    (ia ib : WrappingInt32) {oka : A → Prop} {okb : B → Prop}
    {HH : @Hosts K A B HKa HKb HA HB VCa VCb VPa VPb socka tda Ia oka sockb tdb Ib okb}
    (k : K) (sa : TCPSpongeSocket A) (sb : TCPSpongeSocket B) (cfga cfgb : TCPConfig)
    (ada adb : FdAdapterConfig) (rnda rndb : Z) k1 ta k2 tb (schedule : list (Side * Actor)) k' a b :
  wf_WrappingInt32 ia → wf_WrappingInt32 ib →
  slen Ia < 0x80000000 → slen Ib < 0x80000000 → Forall is_u8 Ia → Forall is_u8 Ib →
  fresh_process (VC := VCa) (VP := VPa) socka tda k sa → fresh_process (VC := VCb) (VP := VPb) sockb tdb k sb →
  oka (_datagram_adapter (configure sa ada)) → okb (_datagram_adapter (configure sb adb)) →
  good_config ia cfga rnda → good_config ib cfgb rndb →
  begins (HK := HKa) reads (k, sa) cfga ada rnda k1 ta →
  begins (HK := HKb) reads (k1, sb) cfgb adb rndb k2 tb →
  run_processes (HKa := HKa) (HKb := HKb) schedule k2 (mkProcess ta Connecting) (mkProcess tb Connecting) = Ok (k', a, b) →
  BSC.to_output (CopyView := VCb) k' `prefix_of` Ia ∧ BSC.to_output (CopyView := VCa) k' `prefix_of` Ib.
Proof.
  intros Hia Hib Ha Hb Ha8 Hb8 Fa Fb Oa Ob Ga Gb Ba Bb Hrun.
  pose proof (conj Ha Ha8 : short Ia) as HIa. pose proof (conj Hb Hb8 : short Ib) as HIb.
  pose proof (run_processes_keeps reads socka tda Ia sockb tdb Ib ia ib Hia Hib HIa HIb _ _ _ _ _ _ _
    (processes_begin reads socka tda Ia sockb tdb Ib ia ib _ _ _ _ _ _ _ _ _ _ _ _ _ Fa Fb Oa Ob Ga Gb Ba Bb) Hrun) as Hi.
  split; [exact (right_prints _ _ _ _ _ _ _ _ _ HIa HIb _ _ _ Hi)|].
  apply (proj1 (inv_swap _ _ _ _ _ _ _ _ _ _ _ _)) in Hi. pose proof (hosts_sym HH) as HS.
  exact (right_prints _ _ _ _ _ _ _ _ _ HIb HIa _ _ _ Hi).
Qed.

(** ** Two processes that run *)

(** What the kernel keeps for a process: the position in the standard input, what
    has been printed, the two directions of the socket pair with the position
    of the reader and whether the writer has finished, and the datagrams that
    its UDP socket has sent and received; at last, whether the socket has been
    shut down for writing and the standard output closed. *)
Record ends := mkends {
  in_pos : nat; printed : bytes;
  up : bytes; up_pos : nat; up_shut : bool;
  down : bytes; down_pos : nat; down_shut : bool;
  wrote : list bytes; taken_in : nat;
  closing : bool * bool
}.
Record world := mkworld { left_end : ends; right_end : ends; time : Z }.

Definition EAGAIN : Z := 11.
Definition EPIPE : Z := 32.

(** One process: its part of the world is [this], its descriptors are 3 and 4
    for the ends of the socket pair and 5 for the UDP socket, which receives
    from [peer]. *)
Section Machine.
Context (this that : world → ends) (put : world → ends → world) (I : bytes) (peer : Address).

Definition can_read (s : bytes) (pos : nat) (shut : bool) : bool := shut || (pos <? length s)%nat.

(** An empty answer only at the end of a stream that has been shut. *)
Definition pipe_read (s : bytes) (pos : nat) (shut : bool) (len : Z) : Z + bytes :=
  let data := take_from s pos (Z.to_nat len) in
  if bool_decide (data = []) && negb (shut && (pos =? length s)%nat) then inl EAGAIN else inr data.

Definition machine_ready (w : world) (p : pollfd) : Z :=
  let e := this w in
  if negb (events p =? POLLIN) then events p
  else if fd p =? 3 then (if can_read (up e) (up_pos e) (up_shut e) then POLLIN else 0)
  else if fd p =? 4 then (if can_read (down e) (down_pos e) (down_shut e) then POLLIN else 0)
  else if fd p =? 5 then (if (taken_in e <? length (wrote (that w)))%nat then POLLIN else 0)
  else POLLIN.

Definition machine : Kernel world := {|
  sys_read w n len :=
    let e := this w in
    if n =? 0 then
      let data := take_from I (in_pos e) (Z.to_nat len) in
      (put w (mkends (in_pos e + length data) (printed e) (up e) (up_pos e) (up_shut e) (down e) (down_pos e)
         (down_shut e) (wrote e) (taken_in e) (closing e)), inr data)
    else if n =? 3 then
      match pipe_read (up e) (up_pos e) (up_shut e) len with
      | inl errno => (w, inl errno)
      | inr data => (put w (mkends (in_pos e) (printed e) (up e) (up_pos e + length data) (up_shut e) (down e)
          (down_pos e) (down_shut e) (wrote e) (taken_in e) (closing e)), inr data)
      end
    else
      match pipe_read (down e) (down_pos e) (down_shut e) len with
      | inl errno => (w, inl errno)
      | inr data => (put w (mkends (in_pos e) (printed e) (up e) (up_pos e) (up_shut e) (down e)
          (down_pos e + length data) (down_shut e) (wrote e) (taken_in e) (closing e)), inr data)
      end;
  sys_writev w n iov :=
    let e := this w in
    let s := concat (map fst iov) in
    if n =? 1 then
      (put w (mkends (in_pos e) (printed e ++ s) (up e) (up_pos e) (up_shut e) (down e) (down_pos e) (down_shut e)
         (wrote e) (taken_in e) (closing e)), inr (slen s))
    else if n =? 3 then
      if down_shut e then (w, inl EPIPE)
      else (put w (mkends (in_pos e) (printed e) (up e) (up_pos e) (up_shut e) (down e ++ s) (down_pos e)
              (down_shut e) (wrote e) (taken_in e) (closing e)), inr (slen s))
    else
      if up_shut e then (w, inl EPIPE)
      else (put w (mkends (in_pos e) (printed e) (up e ++ s) (up_pos e) (up_shut e) (down e) (down_pos e)
              (down_shut e) (wrote e) (taken_in e) (closing e)), inr (slen s));
  sys_close w n :=
    let e := this w in
    (put w (mkends (in_pos e) (printed e) (up e) (up_pos e) (up_shut e) (down e) (down_pos e) (down_shut e)
       (wrote e) (taken_in e) ((closing e).1, (closing e).2 || (n =? 1))), inr 0);
  sys_getfl w _ := (w, inr 0);
  sys_setfl w _ _ := (w, inr 0);
  sys_poll w ps _ :=
    let revents := map (machine_ready w) ps in
    (w, inr (slen (filter (λ r, r ≠ 0) revents), revents));
  sys_socket w _ _ := (w, inl 1);
  sys_getsockopt w _ _ := (w, inl 1);
  sys_setsockopt w _ _ _ := (w, inl 1);
  sys_name w _ _ := (w, inl 1);
  sys_bind w _ _ := (w, inl 1);
  sys_connect w _ _ := (w, inl 1);
  sys_listen w _ _ := (w, inl 1);
  sys_accept w _ := (w, inl 1);
  sys_shutdown w n how :=
    let e := this w in
    let both := how =? SHUT_RDWR in
    (put w (mkends (in_pos e) (printed e) (up e) (up_pos e) (up_shut e || both || ((n =? 4) && (how =? SHUT_WR)))
       (down e) (down_pos e) (down_shut e || both || ((n =? 3) && (how =? SHUT_WR))) (wrote e) (taken_in e)
       ((closing e).1 || ((n =? 4) && (how =? SHUT_WR)), (closing e).2)), inr 0);
  sys_recvfrom w _ _ :=
    let e := this w in
    match wrote (that w) !! taken_in e with
    | None => (w, inl EAGAIN)
    | Some data =>
        (put w (mkends (in_pos e) (printed e) (up e) (up_pos e) (up_shut e) (down e) (down_pos e) (down_shut e)
           (wrote e) (S (taken_in e)) (closing e)), inr (data, slen data, (_address peer, _size peer)))
    end;
  sys_sendmsg w _ _ iov :=
    let e := this w in
    let s := concat (map fst iov) in
    (put w (mkends (in_pos e) (printed e) (up e) (up_pos e) (up_shut e) (down e) (down_pos e) (down_shut e)
       (wrote e ++ [s]) (taken_in e) (closing e)), inr (slen s));
  sys_socketpair w _ _ := (w, inl 1);
  sys_open w _ _ := (w, inl 1);
  sys_ioctl w _ _ _ := (w, inl 1);
  sys_clock w := (mkworld (left_end w) (right_end w) (time w + 10), time w)
|}.

(** What has been observed of one part, and what both threads can rely on. *)
Definition copy_part (e : ends) := (consumed_to I (in_pos e), Z.of_nat (down_pos e), up e, printed e, closing e).
Definition thread_part (e : ends) := (Z.of_nat (up_pos e), down e, wrote e).
Definition grown (e e' : ends) : Prop :=
  extends (up e) (up_shut e) (up e') (up_shut e') ∧ extends (down e) (down_shut e) (down e') (down_shut e').

Definition machine_copy : BSC.CopyView world := {|
  BSC.from_input w := consumed_to I (in_pos (this w));
  BSC.from_socket w := Z.of_nat (down_pos (this w));
  BSC.to_socket w := up (this w);
  BSC.to_output w := printed (this w);
  BSC.shut w := closing (this w);
  BSC.incoming w := down (this w);
  BSC.incoming_ended w := down_shut (this w);
  BSC.copy_since w w' := that w' = that w ∧ thread_part (this w') = thread_part (this w) ∧ grown (this w) (this w')
|}.

Definition machine_pair : PairView world := {|
  offered w := up (this w);
  owner_done w := up_shut (this w);
  consumed w := Z.of_nat (up_pos (this w));
  delivered w := down (this w);
  sent w := omap udp_segment (wrote (this w));
  arriving w := omap udp_segment (wrote (that w));
  since w w' := that w' = that w ∧ copy_part (this w') = copy_part (this w) ∧ grown (this w) (this w')
|}.

Definition machine_wire : Wire world := {|
  wire_out w := wrote (this w);
  wire_in w := wrote (that w)
|}.

Lemma pipe_read_spec s pos shut len data :
  0 <= len → pipe_read s pos shut len = inr data →
  data = stake (slen data) (sdrop (Z.of_nat pos) s) ∧ Z.of_nat (pos + length data) = Z.of_nat pos + slen data ∧
  (data = [] → 0 < len → shut = true ∧ Z.of_nat pos = slen s).
Proof using Type.
  intros Hl. unfold pipe_read. destruct (_ && _) eqn:E; [done|]. intros [= <-].
  set (data := take_from s pos (Z.to_nat len)) in *. unfold slen at 2. split_and!; [|lia|].
  - unfold data, take_from. rewrite stake_take, sdrop_drop. unfold slen. rewrite !Nat2Z.id, length_take, length_drop.
    destruct (decide (Z.to_nat len <= length s - pos)%nat); [by rewrite Nat.min_l by lia|].
    rewrite Nat.min_r by lia. rewrite !take_ge; [done|rewrite length_drop; lia..].
  - intros Hd _. rewrite bool_decide_eq_true_2 in E by done. cbn in E. apply negb_false_iff, andb_true_iff in E as [? Hpos%Nat.eqb_eq].
    split; [done|]. by rewrite Hpos.
Qed.

Lemma grown_refl e : grown e e.
Proof using Type. split; apply extends_refl. Qed.

Lemma grown_trans e1 e2 e3 : grown e1 e2 → grown e2 e3 → grown e1 e3.
Proof using Type. intros [] []. split; by eapply extends_trans. Qed.

Lemma extends_app s x : extends s false (s ++ x) false.
Proof using Type. split; [by apply prefix_app_r|done]. Qed.

Lemma extends_shut s e e' : extends s e s (e || e').
Proof using Type. split; [done|]. by intros ->. Qed.
End Machine.

(** The left process is 10.0.0.1 port 4000, the right one 10.0.0.2 port 80. *)
Definition left_address : Address := Address_in 0x0a000001 4000.
Definition right_address : Address := Address_in 0x0a000002 80.
Definition left_kernel (I : bytes) : Kernel world :=
  machine left_end right_end (λ w e, mkworld e (right_end w) (time w)) I right_address.
Definition right_kernel (I : bytes) : Kernel world :=
  machine right_end left_end (λ w e, mkworld (left_end w) e (time w)) I left_address.

(** The adapter of tcp_udp.  The generator counts, so that a loss rate of one
    loses the first segment. *)
Definition count (n : Z) : Z * Z := (n, n + 1).
Abbreviation Adapter := (Plugged (@LossyFdAdapter Z TCPOverUDPSocketAdapter)).
#[local] Existing Instance numeric_resolver.
Definition lossy_udp (M : Kernel world) : SocketAdapter world Adapter :=
  plugged_adapter (HA := lossy_adapter count) (HD := lossy_device (HD := udp_device (HK := M))).
Definition left_device (I : bytes) := lossy_udp (left_kernel I).
Definition right_device (I : bytes) := lossy_udp (right_kernel I).

Definition left_cfg : FdAdapterConfig := mkFdAdapterConfig left_address right_address 0 1.
Definition right_cfg : FdAdapterConfig := mkFdAdapterConfig right_address (Address_in 0 0) 0 0.

Definition no_ends : ends := mkends 0 [] [] 0 false [] 0 false [] 0 (false, false).
Definition world_start : world := mkworld no_ends no_ends 0.
Definition machine_socket : TCPSpongeSocket Adapter :=
  mkSocket (mkFDWrapper 4 false false 0 0) (mkFDWrapper 3 false false 0 0)
    (mkPlugged (mkLossy 0 (mkUDP (mkFdAdapterBase right_cfg false) [])) (mkFDWrapper 5 false false 0 0))
    None false false false.

(** Each thread once, [n] times. *)
Fixpoint rounds (n : nat) : list (Side * Actor) :=
  match n with
  | O => []
  | S n => (Left, MainThread) :: (Right, MainThread) :: (Left, TCPThread) :: (Right, TCPThread) :: rounds n
  end.

(** ** The machines obey the laws *)

#[local] Hint Resolve grown_refl extends_refl extends_app extends_shut : sponge.

Section MachineLaws.
Context (this that : world → ends) (put : world → ends → world) (I : bytes) (peer : Address).
Context (Hthis : ∀ w e, this (put w e) = e) (Hthat : ∀ w e, that (put w e) = that w).
Context (Hclock : ∀ w t, this (mkworld (left_end w) (right_end w) t) = this w ∧
                         that (mkworld (left_end w) (right_end w) t) = that w).

Abbreviation M := (machine this that put I peer).
Abbreviation VC := (machine_copy this that I).
Abbreviation VP := (machine_pair this that I).

Lemma machine_since_order : PreOrder (since (PairView := VP)).
Proof using Type.
  split; [intros w; split_and!; auto with sponge|]. intros w1 w2 w3 (E1 & E2 & E3) (F1 & F2 & F3).
  split_and!; [congruence|congruence|by eapply grown_trans].
Qed.

Lemma machine_copy_since_order : PreOrder (BSC.copy_since (CopyView := VC)).
Proof using Type.
  split; [intros w; split_and!; auto with sponge|]. intros w1 w2 w3 (E1 & E2 & E3) (F1 & F2 & F3).
  split_and!; [congruence|congruence|by eapply grown_trans].
Qed.

(** No hangup is reported. *)
Lemma machine_poll n S fin cons (step : world → world → Prop) :
  (∀ w, step w w) → @hangup_law world M n S fin cons step.
Proof using Type.
  intros Hs w ps t w' answer [= <- <-]. split; [done|].
  intros c revents i p re [= _ <-] Hp Hre Hfd Hev Hup. rewrite list_lookup_fmap, Hp in Hre. simpl in Hre.
  unfold machine_ready in Hre. rewrite Hev in Hre. cbn [negb Z.eqb] in Hre.
  revert Hre. cbn. repeat case_match; intros [= <-]; done.
Qed.

Ltac by_parts :=
  unfold pair_same, pair_rest, BSC.copy_same, BSC.copy_rest, BSC.copied, BSC.copied_bytes; cbn; unfold grown, copy_part, thread_part;
  rewrite ?Hthis, ?Hthat; cbn; rewrite ?andb_false_r, ?orb_false_r, <- ?orb_assoc; split_and!; auto with sponge;
  try by destruct (closing _).

Lemma machine_stream_pair : @StreamPair world M VP 3.
Proof using Hthis Hthat Hclock.
  split.
  - apply machine_since_order.
  - intros w n w' data Hn. cbn. destruct (pipe_read _ _ _ _) as [e|d] eqn:Hr; [done|]. intros [= <- <-].
    destruct (pipe_read_spec _ _ _ _ _ Hn Hr) as (? & ? & ?). by_parts.
  - intros w iov w' m. cbn. destruct (down_shut _) eqn:Hd; [done|]. intros [= <- <-].
    pose proof (slen_nonneg (concat (map fst iov))). by_parts; [by rewrite stake_all by lia|rewrite Hd; auto with sponge].
  - apply machine_poll. intros w. by_parts.
  - intros w w' r [= <- <-]. by_parts.
  - intros w n w' r [= <- <-]. by_parts.
  - intros w w' t [= <- <-]. destruct (Hclock w (time w + 10)) as [E1 E2]. by_parts; rewrite ?E1, ?E2; auto with sponge.
Qed.

Lemma machine_copy_kernel : @BSC.CopyKernel world M VC 4 I.
Proof using Hthis Hthat Hclock.
  split.
  - apply machine_copy_since_order.
  - intros w n w' data Hn. cbn. intros [= <- <-].
    destruct (take_from_spec I (in_pos (this w)) (Z.to_nat n)) as (? & ? & Hnil). by_parts. intros. split; [done|]. apply Hnil; [done|lia].
  - intros w n w' data Hn. cbn. destruct (pipe_read _ _ _ _) as [e|d] eqn:Hr; [done|]. intros [= <- <-].
    destruct (pipe_read_spec _ _ _ _ _ Hn Hr) as (? & ? & ?). by_parts.
  - intros w iov w' m. cbn. destruct (up_shut _) eqn:Hd; [done|]. intros [= <- <-].
    pose proof (slen_nonneg (concat (map fst iov))). by_parts; [by rewrite stake_all by lia|rewrite Hd; auto with sponge].
  - intros w iov w' m. cbn. intros [= <- <-]. pose proof (slen_nonneg (concat (map fst iov))).
    by_parts. by rewrite stake_all by lia.
  - apply machine_poll. intros w. by_parts.
  - apply machine_poll. intros w. by_parts.
  - intros w w' r [= <- <-]. by_parts. intros _. apply orb_true_r.
  - intros w w' r [= <- <-]. by_parts.
  - intros w w' r [= <- <-]. by_parts. intros _. apply orb_true_r.
  - intros w n w' r [= <- <-]. by_parts.
  - intros w n f w' r [= <- <-]. by_parts.
Qed.

Abbreviation VW := (machine_wire this that).

Lemma machine_udp : @UdpSocket world M VP VW 5.
Proof using Hthis Hthat.
  split.
  - intros w w' data len from. cbn. destruct (wrote (that w) !! taken_in (this w)) as [d|] eqn:Hd; [|done].
    intros [= <- <- <- <-]. split; [by_parts|]. intros _. unfold sresize.
    rewrite stake_all, Z.sub_diag, app_nil_r by lia. by eapply list_elem_of_lookup_2.
  - intros w dest iov w' n. cbn. intros [= <- <-]. split; [unfold quiet; by_parts|]. cbn. by rewrite Hthis.
Qed.

Lemma machine_carried : @Carried world VP VW udp_segment.
Proof using Type. by split. Qed.

Definition adapter_ok : Adapter → Prop := udp_ok 5 ∘ below.

Lemma machine_host : @Host world Adapter M (lossy_udp M) VC VP 4 3 I adapter_ok.
Proof using Hthis Hthat Hclock.
  pose proof machine_stream_pair as HP. pose proof machine_udp as HU. pose proof machine_carried as HC.
  split; [apply machine_copy_kernel|exact HP| |done|done|..].
  - apply (lossy_peer (HK := M) 3 count (HA := udp_adapter) (HD := udp_device (HK := M)) (udp_ok 5)
      (HPA := udp_peer (HW := VW) 3 5)). apply udp_flush_nothing.
  - intros w w' (E1 & E2 & E3). split; [exact E2|exact E3].
  - intros w w' (E1 & E2 & E3). split_and!; [unfold thread_view, thread_part in *; cbn; congruence| |exact E3]. cbn. by rewrite E1.
Qed.

End MachineLaws.

Definition left_input : bytes := [1; 2; 3].
Definition right_input : bytes := [4; 5].

Lemma machines_hosts :
  @Hosts world Adapter Adapter (left_kernel left_input) (right_kernel right_input)
    (left_device left_input) (right_device right_input) (machine_copy left_end right_end left_input) (machine_copy right_end left_end right_input)
    (machine_pair left_end right_end left_input) (machine_pair right_end left_end right_input)
    4 3 left_input adapter_ok 4 3 right_input adapter_ok.
Proof.
  split; [by apply machine_host|by apply machine_host|done|done|..];
    intros w w' [(E & _)|(E & _)]; unfold process_view, thread_view, BSC.copied; cbn in *; by rewrite E.
Qed.

Lemma programs_deliver_witness :
  ∃ k1 ta k2 tb k a b,
    @connect_begin _ _ (left_kernel left_input) (left_device left_input) numeric_resolver some_reads
      (world_start, machine_socket) (sample_cfg 7) left_cfg 0 = Ok (k1, ta) ∧
    @listen_begin _ _ (right_kernel right_input) (right_device right_input) numeric_resolver some_reads
      (k1, machine_socket) (sample_cfg 9) right_cfg 0 = Ok (k2, tb) ∧
    @run_processes _ _ _ (left_kernel left_input) (right_kernel right_input) (left_device left_input) (right_device right_input) (rounds 110) k2
      (mkProcess ta Connecting) (mkProcess tb Connecting) = Ok (k, a, b) ∧
    (printed (right_end k) `prefix_of` left_input ∧ printed (left_end k) `prefix_of` right_input) ∧
    printed (right_end k) = left_input ∧ printed (left_end k) = right_input ∧ main b = Exited EXIT_SUCCESS.
Proof.
  destruct (result_run3
    (@connect_begin _ _ (left_kernel left_input) (left_device left_input) numeric_resolver some_reads
      (world_start, machine_socket) (sample_cfg 7) left_cfg 0)
    (λ x, @listen_begin _ _ (right_kernel right_input) (right_device right_input) numeric_resolver some_reads
      (x.1, machine_socket) (sample_cfg 9) right_cfg 0)
    (λ x y, @run_processes _ _ _ (left_kernel left_input) (right_kernel right_input) (left_device left_input) (right_device right_input) (rounds 110) y.1
      (mkProcess x.2 Connecting) (mkProcess y.2 Connecting))
    (λ z, (printed (right_end z.1.1), printed (left_end z.1.1), main z.2)) (left_input, right_input, Exited EXIT_SUCCESS))
    as ([k1 ta] & [k2 tb] & [[k a] b] & H1 & H2 & H3 & Hk).
  { vm_compute. reflexivity. }
  injection Hk as Hk1 Hk2 Hk3. cbn [fst snd] in H2, H3.
  exists k1, ta, k2, tb, k, a, b. split; [exact H1|]. split; [exact H2|]. split; [exact H3|].
  split; [|split; [exact Hk1|split; [exact Hk2|exact Hk3]]].
  refine (@programs_deliver world Adapter Adapter (left_kernel left_input)
    (right_kernel right_input) (left_device left_input) (right_device right_input) numeric_resolver _ _ _ _ some_reads
    4 3 left_input 4 3 right_input (mkWrappingInt32 7) (mkWrappingInt32 9) adapter_ok adapter_ok machines_hosts world_start machine_socket
    machine_socket (sample_cfg 7) (sample_cfg 9) left_cfg right_cfg 0 0 k1 ta k2 tb (rounds 110) k a b _ _ _ _ _ _ _ _ _ _ _ _ _ _ _).
  - concrete.
  - concrete.
  - concrete.
  - concrete.
  - repeat constructor; concrete.
  - repeat constructor; concrete.
  - split; [split; try reflexivity; apply promise_all|reflexivity..].
  - split; [split; try reflexivity; apply promise_all|reflexivity..].
  - split; reflexivity.
  - split; reflexivity.
  - split; concrete.
  - split; concrete.
  - left. exact H1.
  - right. exact H2.
  - exact H3.
Defined.
