(* ===== verification/Printing.v ===== *)
(** * Functions that print (to_string and summary of the headers, hexdump of util/util.cc)

    A stream of the standard library is the string of what is written to it.
    The base is that of the manipulator in force ([hex_string] after [hex],
    [to_string] otherwise), and widths are filled with zeros where the source
    says so. *)

From stdpp Require Import strings.
From S2P Require Import Prelude WrappingIntegers StdString TCPHeader IPv4Header EthernetHeader ARPMessage Parser.
From stdpp Require Import options.

Local Open Scope Z_scope.

(** ** Numbers *)

Definition hex_digit (n : Z) : Z := if n <? 10 then 48 + n else 87 + n.

Fixpoint hex_digits (fuel : nat) (n : Z) : bytes :=
  match fuel with
  | O => []
  | S fuel => if n <? 16 then [hex_digit n] else hex_digits fuel (n / 16) ++ [hex_digit (n mod 16)]
  end.

(** 16 digits are enough for 64 bits. *)
Definition hex_string (n : Z) : bytes := hex_digits 16 n.

(** [setw(w)] with [setfill('0')]. *)
Definition pad (w : Z) (s : bytes) : bytes := replicate (Z.to_nat (w - slen s)) 48 ++ s.

(** [boolalpha] *)
Definition bool_string (b : bool) : bytes := if b then lit "true" else lit "false".

Definition newline : bytes := [10].

(** ** Headers *)

Definition TCPHeader_to_string (h : TCPHeader) : bytes :=
  lit "TCP source port: " ++ hex_string (sport h) ++ newline ++
  lit "TCP dest port: " ++ hex_string (dport h) ++ newline ++
  lit "TCP seqno: " ++ hex_string (raw_value (seqno h)) ++ newline ++
  lit "TCP ackno: " ++ hex_string (raw_value (ackno h)) ++ newline ++
  lit "TCP doff: " ++ hex_string (doff h) ++ newline ++
  lit "Flags: urg: " ++ bool_string (urg h) ++ lit " ack: " ++ bool_string (ack h) ++
  lit " psh: " ++ bool_string (psh h) ++ lit " rst: " ++ bool_string (rst h) ++
  lit " syn: " ++ bool_string (syn h) ++ lit " fin: " ++ bool_string (fin h) ++ newline ++
  lit "TCP winsize: " ++ hex_string (win h) ++ newline ++
  lit "TCP cksum: " ++ hex_string (TCPHeader.cksum h) ++ newline ++
  lit "TCP uptr: " ++ hex_string (uptr h) ++ newline.

Definition TCPHeader_summary (h : TCPHeader) : bytes :=
  lit "Header(flags=" ++ (if syn h then lit "S" else []) ++ (if ack h then lit "A" else []) ++
  (if rst h then lit "R" else []) ++ (if fin h then lit "F" else []) ++
  lit ",seqno=" ++ to_string (raw_value (seqno h)) ++ lit ",ack=" ++ to_string (raw_value (ackno h)) ++
  lit ",win=" ++ to_string (win h) ++ lit ")".

Definition IPv4Header_to_string (h : IPv4Header) : bytes :=
  lit "IP version: " ++ hex_string (ver h) ++ newline ++
  lit "IP hdr len: " ++ hex_string (hlen h) ++ newline ++
  lit "IP tos: " ++ hex_string (tos h) ++ newline ++
  lit "IP dgram len: " ++ hex_string (len h) ++ newline ++
  lit "IP id: " ++ hex_string (id h) ++ newline ++
  lit "Flags: df: " ++ bool_string (df h) ++ lit " mf: " ++ bool_string (mf h) ++ newline ++
  lit "Offset: " ++ hex_string (offset h) ++ newline ++
  lit "TTL: " ++ hex_string (ttl h) ++ newline ++
  lit "Protocol: " ++ hex_string (proto h) ++ newline ++
  lit "Checksum: " ++ hex_string (IPv4Header.cksum h) ++ newline ++
  lit "Src addr: " ++ hex_string (IPv4Header.src h) ++ newline ++
  lit "Dst addr: " ++ hex_string (IPv4Header.dst h) ++ newline.

Definition IPv4Header_summary (h : IPv4Header) : bytes :=
  lit "IPv" ++ hex_string (ver h) ++ lit ", len=" ++ hex_string (len h) ++
  lit ", protocol=" ++ hex_string (proto h) ++ lit ", " ++
  (if 10 <=? ttl h then [] else lit "ttl=" ++ to_string (ttl h) ++ lit ", ") ++
  lit "src=" ++ inet_ntoa (be_bytes 4 (IPv4Header.src h)) ++ lit ", dst=" ++ inet_ntoa (be_bytes 4 (IPv4Header.dst h)).

(** An Ethernet address: two digits per byte, separated by colons. *)
Fixpoint EthernetAddress_to_string (a : EthernetAddress) : bytes :=
  match a with
  | [] => []
  | [b] => pad 2 (hex_string b)
  | b :: a => pad 2 (hex_string b) ++ [58] ++ EthernetAddress_to_string a
  end.

Definition EthernetHeader_to_string (h : EthernetHeader) : bytes :=
  lit "dst=" ++ EthernetAddress_to_string (EthernetHeader.dst h) ++
  lit ", src=" ++ EthernetAddress_to_string (EthernetHeader.src h) ++
  lit ", type=" ++
  (if type h =? TYPE_IPv4 then lit "IPv4" else if type h =? TYPE_ARP then lit "ARP"
   else lit "[unknown type " ++ hex_string (type h) ++ lit "!]").

Definition ARPMessage_to_string (m : ARPMessage) : bytes :=
  let opcode_str := lit "(unknown type)" in
  let opcode_str := if opcode m =? OPCODE_REQUEST then lit "REQUEST" else opcode_str in
  let opcode_str := if opcode m =? OPCODE_REPLY then lit "REPLY" else opcode_str in
  lit "opcode=" ++ opcode_str ++ lit ", sender=" ++ EthernetAddress_to_string (sender_ethernet_address m) ++
  lit "/" ++ inet_ntoa (be_bytes 4 (sender_ip_address m)) ++ lit ", target=" ++
  EthernetAddress_to_string (target_ethernet_address m) ++ lit "/" ++ inet_ntoa (be_bytes 4 (target_ip_address m)).

(** ** hexdump *)

(** A [stringstream]: its contents and the position of the next write, which
    replaces what is there.  [str] sets the contents and goes to the start. *)
Record stringstream := mkss { contents : bytes; put_pos : nat }.

Definition ss_new (s : bytes) : stringstream := mkss s 0.

Definition ss_put (ss : stringstream) (c : Z) : stringstream :=
  mkss (take (put_pos ss) (contents ss) ++ [c] ++ drop (S (put_pos ss)) (contents ss)) (S (put_pos ss)).

Definition isprint (c : Z) : bool := (32 <=? c) && (c <=? 126).

Definition printable (c : Z) : Z := if isprint c then c else 46.

Definition spaces (n : Z) : bytes := replicate (Z.to_nat n) 32.

(** One round of the loop but for the counter: what has been printed and
    [pchars]. *)
Definition hexdump_put (indent : Z) (out : bytes) (printed : Z) (pchars : stringstream) (b : Z) : bytes * stringstream :=
  let '(out, pchars) :=
    if Z.land printed 0xf =? 0 then
      let '(out, pchars) :=
        if negb (printed =? 0) then (out ++ spaces 4 ++ contents pchars ++ newline, ss_new [32])
        else (out, pchars) in
      (out ++ spaces indent ++ pad 8 (hex_string printed) ++ lit ":    ", pchars)
    else if Z.land printed 1 =? 0 then (out ++ [32], pchars)
    else (out, pchars) in
  (out ++ pad 2 (hex_string b), ss_put pchars (printable b)).

Definition INT_MAX : Z := 0x7fffffff.

(** The counter [printed] is an [int]. *)
Definition int_increment (n : Z) : result Z := if n =? INT_MAX then Throw Undefined else Ok (n + 1).

(** The loop.  Its variable [i] is as large as [printed], and does not wrap around
    before [printed] overflows. *)
Fixpoint hexdump_loop (indent : Z) (data : bytes) (st : bytes * Z * stringstream) : result (bytes * Z * stringstream) :=
  match data with
  | [] => Ok st
  | b :: data =>
      let '(out, printed, pchars) := st in
      let '(out, pchars) := hexdump_put indent out printed pchars b in
      printed ← int_increment printed;
      hexdump_loop indent data (out, printed, pchars)
  end.

Definition hexdump (data : bytes) (indent : Z) : result bytes :=
  '(out, printed, pchars) ← hexdump_loop indent data ([], 0, ss_new [32]);
  let print_rem := (16 - Z.land printed 0xf) mod 16 in
  Ok (out ++ spaces (2 * print_rem + print_rem / 2 + 4) ++ contents pchars ++ newline ++ newline).

(** ** Reference definition of hexdump *)

(** The digits of a row's bytes from position [j] on: a blank before every
    other one. *)
Fixpoint hex_from (j : Z) (row : bytes) : bytes :=
  match row with
  | [] => []
  | b :: row => (if (negb (j =? 0)) && (j mod 2 =? 0) then [32] else []) ++ pad 2 (hex_string b) ++ hex_from (j + 1) row
  end.

(** The width of sixteen bytes: 32 digits and 7 blanks. *)
Definition HEX_WIDTH : Z := 39.

Definition pad_right (w : Z) (s : bytes) : bytes := s ++ spaces (w - slen s).

(** One row: the offset, the bytes, the characters. *)
Definition dump_row (indent : Z) (k : nat) (row : bytes) : bytes :=
  spaces indent ++ pad 8 (hex_string (16 * Z.of_nat k)) ++ lit ":    " ++
  pad_right HEX_WIDTH (hex_from 0 row) ++ spaces 4 ++ map printable row ++ newline.

Definition rows_of (data : bytes) : list bytes :=
  reshape (replicate ((length data + 15) / 16) 16%nat) data.

Definition hexdump_rows (data : bytes) (indent : Z) : bytes :=
  match data with
  | [] => spaces 5 ++ newline ++ newline
  | _ => concat (imap (dump_row indent) (rows_of data)) ++ newline
  end.

(** ** Lemmas *)

(** A round without overflow. *)
Definition advance (indent : Z) (st : bytes * Z * stringstream) (b : Z) : bytes * Z * stringstream :=
  let '(out, printed, pchars) := st in
  let '(out, pchars) := hexdump_put indent out printed pchars b in (out, printed + 1, pchars).

Lemma hexdump_loop_eq indent data : ∀ out printed pchars,
  0 <= printed <= INT_MAX →
  hexdump_loop indent data (out, printed, pchars) =
    if printed + slen data <=? INT_MAX then Ok (foldl (advance indent) (out, printed, pchars) data) else Throw Undefined.
Proof.
  induction data as [|b data IH]; intros out printed pchars Hp; cbn [hexdump_loop foldl].
  { rewrite slen_nil. destruct (_ <=? _) eqn:E; [done|lia]. }
  rewrite slen_cons. pose proof (slen_nonneg data). unfold advance at 2.
  destruct (hexdump_put indent out printed pchars b) as [out' pchars']. unfold int_increment.
  destruct (printed =? INT_MAX) eqn:E; cbn [mbind result_bind].
  { destruct (_ <=? _) eqn:E2; [lia|done]. }
  rewrite IH by lia. by replace (printed + 1 + slen data) with (printed + (1 + slen data)) by lia.
Qed.

Lemma ss_put_end chars c :
  ss_put (mkss chars (length chars)) c = mkss (chars ++ [c]) (length (chars ++ [c])).
Proof.
  unfold ss_put. cbn [put_pos contents]. rewrite take_ge, drop_ge by lia. rewrite app_nil_r, length_app. f_equal. simpl. lia.
Qed.

Lemma low_bits k j : 0 <= k → 0 <= j < 16 → Z.land (16 * k + j) 0xf = j ∧ Z.land (16 * k + j) 1 = j mod 2.
Proof.
  intros Hk Hj. change 0xf with (Z.ones 4). change 1 with (Z.ones 1). rewrite !Z.land_ones by done.
  change (2 ^ 4) with 16. change (2 ^ 1) with 2. mlia.
Qed.

Lemma step_inside indent k out j chars b :
  0 <= k → 0 < j < 16 →
  advance indent (out, 16 * k + j, mkss chars (length chars)) b =
    (out ++ (if j mod 2 =? 0 then [32] else []) ++ pad 2 (hex_string b), 16 * k + (j + 1),
     mkss (chars ++ [printable b]) (length (chars ++ [printable b]))).
Proof.
  intros Hk Hj. unfold advance, hexdump_put. destruct (low_bits k j) as [-> ->]; [lia|lia|].
  destruct (j =? 0) eqn:E; [lia|].
  destruct (j mod 2 =? 0); rewrite ss_put_end, <- Z.add_assoc; [by rewrite <- app_assoc|done].
Qed.

(** The rest of a row. *)
Lemma fold_row indent k row : ∀ out j chars,
  0 <= k → 0 < j → j + slen row <= 16 →
  foldl (advance indent) (out, 16 * k + j, mkss chars (length chars)) row =
    (out ++ hex_from j row, 16 * k + j + slen row,
     mkss (chars ++ map printable row) (length (chars ++ map printable row))).
Proof.
  induction row as [|b row IH]; intros out j chars Hk Hj Hl; cbn [foldl map hex_from].
  { rewrite slen_nil, !app_nil_r, Z.add_0_r. done. }
  rewrite slen_cons in *. pose proof (slen_nonneg row).
  rewrite step_inside, IH by lia. destruct (j =? 0) eqn:E; [lia|]. cbn [negb andb].
  rewrite <- !app_assoc. f_equal. f_equal. lia.
Qed.

(** What ends the previous row. *)
Definition row_end (k : Z) (out : bytes) (pchars : stringstream) : bytes :=
  if k =? 0 then out else out ++ spaces 4 ++ contents pchars ++ newline.

Lemma row_end_next k out pchars : k ≠ 0 → row_end k out pchars = out ++ spaces 4 ++ contents pchars ++ newline.
Proof. intros Hk. unfold row_end. case_match; [lia|done]. Qed.

Definition row_head (indent k : Z) : bytes :=
  spaces indent ++ pad 8 (hex_string (16 * k)) ++ lit ":    ".

(** The first byte of a row replaces the blank in [pchars]. *)
Lemma step_first indent k out pchars b :
  0 <= k → (k = 0 → pchars = ss_new [32]) →
  advance indent (out, 16 * k, pchars) b =
    (row_end k out pchars ++ row_head indent k ++ pad 2 (hex_string b), 16 * k + 1, mkss [printable b] 1).
Proof.
  intros Hk H0. unfold advance, hexdump_put, row_end, row_head. destruct (low_bits k 0) as [Hl _]; [lia|lia|].
  rewrite Z.add_0_r in Hl. rewrite Hl. cbn [Z.eqb]. destruct (k =? 0) eqn:E.
  - assert (k = 0) as -> by lia. rewrite (H0 eq_refl). change (16 * 0 =? 0) with true. cbn [negb]. by rewrite <- !app_assoc.
  - destruct (16 * k =? 0) eqn:E2; [lia|]. cbn [negb]. by rewrite <- !app_assoc.
Qed.

(** A whole row, from its start. *)
Lemma fold_whole_row indent k row out pchars :
  0 <= k → (k = 0 → pchars = ss_new [32]) → row ≠ [] → slen row <= 16 →
  foldl (advance indent) (out, 16 * k, pchars) row =
    (row_end k out pchars ++ row_head indent k ++ hex_from 0 row, 16 * k + slen row,
     mkss (map printable row) (length (map printable row))).
Proof.
  intros Hk H0 Hne Hl. destruct row as [|b row]; [done|]. rewrite slen_cons in *. pose proof (slen_nonneg row).
  cbn [foldl map hex_from]. rewrite step_first by done.
  change (mkss [printable b] 1) with (mkss [printable b] (length [printable b])).
  rewrite fold_row by lia. rewrite <- !app_assoc. cbn [negb andb Z.eqb app]. f_equal. f_equal. lia.
Qed.

Lemma hex_digits_length fuel n : 0 <= n → slen (hex_digits fuel n) <= Z.of_nat fuel.
Proof.
  revert n. induction fuel as [|fuel IH]; intros n Hn; cbn [hex_digits]; [done|].
  destruct (n <? 16); [rewrite slen_one; lia|]. rewrite slen_app, slen_one. specialize (IH (n / 16)). mlia.
Qed.

Lemma pad_two b : is_u8 b → slen (pad 2 (hex_string b)) = 2.
Proof.
  intros Hb. unfold pad. rewrite slen_app. assert (slen (hex_string b) = 1 ∨ slen (hex_string b) = 2) as Hl.
  { unfold hex_string. cbn [hex_digits]. destruct (b <? 16) eqn:E; [by left|].
    destruct (b / 16 <? 16) eqn:E2; [by right|]. unfold_width. mlia. }
  unfold slen at 1. rewrite length_replicate. lia.
Qed.

Lemma hex_from_length row : ∀ j,
  Forall is_u8 row → 0 <= j → slen (hex_from j row) = 2 * slen row + ((j + slen row + 1) / 2 - (j + 1) / 2) -
    (if (j =? 0) && negb (bool_decide (row = [])) then 1 else 0).
Proof.
  induction row as [|b row IH]; intros j Hr Hj; cbn [hex_from].
  { rewrite slen_nil, andb_false_r. rewrite Z.add_0_r. lia. }
  apply Forall_cons_1 in Hr as [Hb Hr]. rewrite !slen_app, slen_cons, (pad_two _ Hb), IH by (done || lia).
  destruct (j + 1 =? 0) eqn:E; [lia|]. cbn [andb]. rewrite bool_decide_eq_false_2 by done. cbn [negb]. rewrite andb_true_r.
  destruct (j =? 0) eqn:E0; cbn [negb andb].
  - rewrite slen_nil. assert (j = 0) as -> by lia. mlia.
  - destruct (j mod 2 =? 0) eqn:E2; rewrite ?slen_one, ?slen_nil; mlia.
Qed.

(** The part after the loop. *)
Definition hexdump_end (st : bytes * Z * stringstream) : bytes :=
  let '(out, printed, pchars) := st in
  let print_rem := (16 - Z.land printed 0xf) mod 16 in
  out ++ spaces (2 * print_rem + print_rem / 2 + 4) ++ contents pchars ++ newline ++ newline.

Lemma spaces_app n m : 0 <= n → 0 <= m → spaces (n + m) = spaces n ++ spaces m.
Proof. intros Hn Hm. unfold spaces. by rewrite Z2Nat.inj_add, replicate_add by lia. Qed.

Lemma row_eq indent k row :
  dump_row indent k row =
    row_head indent (Z.of_nat k) ++ pad_right HEX_WIDTH (hex_from 0 row) ++ spaces 4 ++ map printable row ++ newline.
Proof. unfold dump_row, row_head. by rewrite <- !app_assoc. Qed.

(** The last row. *)
Lemma last_row indent (k : nat) row out pchars :
  (k = 0%nat → pchars = ss_new [32]) → row ≠ [] → slen row <= 16 → Forall is_u8 row →
  hexdump_end (foldl (advance indent) (out, 16 * Z.of_nat k, pchars) row) =
    row_end (Z.of_nat k) out pchars ++ dump_row indent k row ++ newline.
Proof.
  intros H0 Hne Hl Hr. rewrite fold_whole_row by (done || lia || (intros ?; apply H0; lia)).
  pose proof (slen_nonneg row). assert (0 < slen row) by (destruct (decide (slen row = 0)) as [Hz|]; [by apply slen_zero_nil in Hz|lia]).
  pose proof (hex_from_length row 0 Hr ltac:(lia)) as Hlen. rewrite bool_decide_eq_false_2 in Hlen by done. cbn [Z.eqb negb andb] in Hlen.
  unfold hexdump_end. cbn [contents]. rewrite row_eq. unfold pad_right, HEX_WIDTH.
  assert ((16 - Z.land (16 * Z.of_nat k + slen row) 0xf) mod 16 = 16 - slen row) as ->.
  { destruct (decide (slen row = 16)) as [E|].
    - rewrite E. replace (16 * Z.of_nat k + 16) with (16 * (Z.of_nat k + 1) + 0) by lia.
      destruct (low_bits (Z.of_nat k + 1) 0) as [-> _]; [lia|lia|done].
    - destruct (low_bits (Z.of_nat k) (slen row)) as [-> _]; [lia|lia|]. rewrite Z.mod_small by lia. done. }
  assert (spaces (2 * (16 - slen row) + (16 - slen row) / 2 + 4) = spaces (39 - slen (hex_from 0 row)) ++ spaces 4) as ->.
  { rewrite <- spaces_app by (rewrite ?Hlen; mlia). f_equal. rewrite Hlen. mlia. }
  by rewrite <- !app_assoc.
Qed.

Lemma row_count n m : n = ((m + 15) / 16)%nat ↔ (m <= 16 * n < m + 16)%nat.
Proof.
  pose proof (Nat.div_mod (m + 15) 16 ltac:(done)). pose proof (Nat.mod_upper_bound (m + 15) 16 ltac:(done)). lia.
Qed.

Lemma all_rows indent n : ∀ (k : nat) data out pchars,
  (k = 0%nat → pchars = ss_new [32]) → data ≠ [] → n = ((length data + 15) / 16)%nat → Forall is_u8 data →
  hexdump_end (foldl (advance indent) (out, 16 * Z.of_nat k, pchars) data) =
    row_end (Z.of_nat k) out pchars ++
    concat (imap (λ i, dump_row indent (k + i)) (reshape (replicate n 16%nat) data)) ++ newline.
Proof.
  induction n as [|n IH]; intros k data out pchars H0 Hne Hn%row_count Hr.
  { destruct data as [|b data]; [done|]. simpl in Hn. lia. }
  cbn [replicate reshape imap concat]. rewrite Nat.add_0_r, <- (take_drop 16 data) at 1.
  destruct (decide (length data <= 16)%nat) as [Hs|Hs].
  - rewrite (drop_ge data 16), app_nil_r, (take_ge data 16) by lia.
    assert (n = 0%nat) as -> by lia.
    cbn [replicate reshape imap concat]. rewrite app_nil_r. apply last_row; [done|done|unfold slen; lia|done].
  - rewrite foldl_app, fold_whole_row.
    2: lia. 2: intros ?; apply H0; lia. 2: { intros E%(f_equal length). rewrite length_take, length_nil in E. lia. }
    2: { unfold slen. rewrite length_take. lia. }
    assert (slen (take 16 data) = 16) as Hl16 by (unfold slen; rewrite length_take; lia). rewrite Hl16.
    replace (16 * Z.of_nat k + 16) with (16 * Z.of_nat (S k)) by lia.
    rewrite IH; [|done| |apply row_count; rewrite length_drop; lia|by apply Forall_drop].
    2: { intros E%(f_equal length). rewrite length_drop, length_nil in E. lia. }
    rewrite (row_end_next (Z.of_nat (S k))) by lia. cbn [contents].
    rewrite row_eq. pose proof (hex_from_length (take 16 data) 0 ltac:(by apply Forall_take) ltac:(lia)) as Hlen.
    rewrite Hl16 in Hlen. rewrite bool_decide_eq_false_2 in Hlen by (intros E2; by rewrite E2 in Hl16).
    unfold pad_right, HEX_WIDTH. rewrite Hlen. change (spaces (39 - _)) with (@nil Z). rewrite app_nil_r.
    rewrite <- !app_assoc. do 6 f_equal.
    f_equal. f_equal. apply imap_ext. intros i x _. unfold compose. by rewrite Nat.add_succ_r.
Qed.

Lemma hexdump_eq data indent :
  Forall is_u8 data →
  hexdump data indent = if slen data <? 0x80000000 then Ok (hexdump_rows data indent) else Throw Undefined.
Proof.
  intros Hr. unfold hexdump. rewrite hexdump_loop_eq by concrete. unfold INT_MAX.
  destruct (_ <=? _) eqn:E, (slen data <? _) eqn:E2; try lia; [|done].
  cbn [mbind result_bind]. transitivity (Ok (hexdump_end (foldl (advance indent) ([], 0, ss_new [32]) data))).
  { by destruct (foldl _ _ data) as [[??]?]. }
  f_equal. destruct (decide (data = [])) as [->|Hne]; [done|].
  transitivity (concat (imap (dump_row indent) (rows_of data)) ++ newline); [|by destruct data].
  exact (all_rows indent _ 0 data [] (ss_new [32]) (λ _, eq_refl) Hne eq_refl Hr).
Qed.

Lemma hexdump_ok data indent : Forall is_u8 data → slen data < 0x80000000 → hexdump data indent = Ok (hexdump_rows data indent).
Proof. intros Hr Hl. rewrite hexdump_eq by done. destruct (_ <? _) eqn:E; [done|lia]. Qed.

(** ** Reading what was printed *)

Definition hex_value (s : bytes) : Z :=
  foldl (λ a c, 16 * a + (if c <? 58 then c - 48 else c - 87)) 0 s.

Lemma hex_value_snoc s c : hex_value (s ++ [c]) = 16 * hex_value s + (if c <? 58 then c - 48 else c - 87).
Proof. unfold hex_value. by rewrite foldl_app. Qed.

Lemma hex_digit_value n : 0 <= n < 16 → (if hex_digit n <? 58 then hex_digit n - 48 else hex_digit n - 87) = n.
Proof. intros Hn. unfold hex_digit. destruct (n <? 10) eqn:E; case_match; lia. Qed.

Lemma hex_value_digits fuel n : 0 <= n < 16 ^ Z.of_nat fuel → hex_value (hex_digits fuel n) = n.
Proof.
  revert n. induction fuel as [|fuel IH]; intros n Hn; cbn [hex_digits]; [simpl in *; unfold hex_value; simpl; lia|].
  destruct (n <? 16) eqn:E; [unfold hex_value; cbn [foldl]; rewrite hex_digit_value; lia|].
  rewrite hex_value_snoc, hex_digit_value by mlia. rewrite Nat2Z.inj_succ, Z.pow_succ_r in Hn by lia.
  rewrite IH; [mlia|]. split; [mlia|]. apply Z.div_lt_upper_bound; lia.
Qed.

Lemma hex_value_pad w s : hex_value (pad w s) = hex_value s.
Proof. unfold pad. induction (Z.to_nat (w - slen s)) as [|n IH]; [done|]. exact IH. Qed.

(** The bytes of an address are read back from its digits. *)
Fixpoint read_address (fuel : nat) (s : bytes) : EthernetAddress :=
  match fuel with
  | O => []
  | S fuel => hex_value (take 2 s) :: read_address fuel (drop 3 s)
  end.

(** ** Properties *)

(** C40: hexdump prints rows.  The loop, with its counter and its stream of
    characters, prints what the definition by rows says: the data is cut into
    rows of sixteen bytes, and each row has its offset, its bytes in groups of
    two, filled with blanks to the same width, and its characters.  From [2^31]
    bytes on the counter overflows, which is undefined. *)
Theorem hexdump_by_rows (data : bytes) (indent : Z) :
  Forall is_u8 data →
  hexdump data indent = if slen data <? 0x80000000 then Ok (hexdump_rows data indent) else Throw Undefined.
Proof. apply hexdump_eq. Qed.

Lemma hexdump_by_rows_witness :
  hexdump (lit "GET / HTTP/1.1" ++ [13; 10; 7]) 2 = Ok (hexdump_rows (lit "GET / HTTP/1.1" ++ [13; 10; 7]) 2) ∧
  hexdump_rows [71; 10] 0 = lit "00000000:    470a                                       G." ++ [10; 10].
Proof.
  split; [|vm_compute; reflexivity]. refine (hexdump_by_rows _ _ _). repeat constructor; vm_compute; congruence.
Defined.

(** The printed form of an Ethernet address determines it: it has 17
    characters, and the six bytes can be read back from it. *)
Theorem ethernet_address_readable (a : EthernetAddress) :
  wf_address a →
  slen (EthernetAddress_to_string a) = 17 ∧ read_address 6 (EthernetAddress_to_string a) = a.
Proof.
  intros [Hl Hr].
  assert (∀ b (t : bytes), is_u8 b → take 2 (pad 2 (hex_string b) ++ t) = pad 2 (hex_string b) ∧
    drop 2 (pad 2 (hex_string b) ++ t) = t ∧ hex_value (pad 2 (hex_string b)) = b) as Hb.
  { intros b t Hb. pose proof (pad_two b Hb) as H2. unfold slen in H2. split_and!.
    - rewrite take_app_le, take_ge by lia. done.
    - rewrite drop_app_ge by lia. replace (2 - length (pad 2 (hex_string b)))%nat with 0%nat by lia. done.
    - rewrite hex_value_pad. apply hex_value_digits. change (16 ^ Z.of_nat 16) with 0x10000000000000000. unfold_width. lia. }
  destruct a as [|a1 [|a2 [|a3 [|a4 [|a5 [|a6 [|]]]]]]]; try discriminate Hl.
  do 6 (apply Forall_cons_1 in Hr as [? Hr]).
  cbn [EthernetAddress_to_string]. split.
  - rewrite !slen_app, !pad_two, !slen_one by done. done.
  - assert (∀ b t, is_u8 b → ∀ n, read_address (S n) (pad 2 (hex_string b) ++ [58] ++ t) = b :: read_address n t) as Hstep.
    { intros b t Hb1 n. cbn [read_address]. destruct (Hb b ([58] ++ t) Hb1) as (-> & Hd & ->).
      change 3%nat with (2 + 1)%nat. rewrite <- drop_drop, Hd. done. }
    rewrite !Hstep by done. cbn [read_address].
    destruct (Hb a6 [] ltac:(done)) as (Ht & _ & Hv). rewrite app_nil_r in Ht. by rewrite Ht, Hv.
Qed.

Lemma ethernet_address_readable_witness :
  read_address 6 (EthernetAddress_to_string [2; 0; 0xab; 0xc; 0xff; 16]) = [2; 0; 0xab; 0xc; 0xff; 16] ∧
  EthernetAddress_to_string [2; 0; 0xab; 0xc; 0xff; 16] = lit "02:00:ab:0c:ff:10".
Proof.
  split; [|vm_compute; reflexivity]. apply (ethernet_address_readable [2; 0; 0xab; 0xc; 0xff; 16]).
  split; [reflexivity|]. repeat constructor; vm_compute; congruence.
Defined.
