(* ===== verification/TCPBenchmark.v ===== *)
(** * The benchmark (apps/tcp_benchmark.cc)

    Two connections in one process exchange their segments, in order or in
    reverse, until the second has received all that was written to the first.
    The string that is sent, and the numbers that the senders draw, are
    arguments, as are the times that are measured.  The rate is a double of
    [SpecFloat], with a mantissa of 53 bits, and is printed with two digits. *)

From Stdlib Require Import Floats.SpecFloat.
From stdpp Require Import strings.

From S2P Require Import Prelude WrappingIntegers ByteStream StreamReassembler Buffer TCPHeader TCPSegment.
From S2P Require Import TCPConfig StreamSegments TCPReceiver TCPSender TCPConnection EndToEnd StdString Printing.
From stdpp Require Import options.

Local Open Scope Z_scope.

Definition len : Z := 100 * 1024 * 1024.

(** ** The printed rate *)

Definition double_prec : Z := 53.
Definition double_emax : Z := 1024.

Definition double (n : Z) : spec_float := binary_normalize double_prec double_emax n 0 false.

Definition gigabits_per_second (duration : Z) : spec_float :=
  SFdiv double_prec double_emax (SFmul double_prec double_emax (double len) (double 8)) (double duration).

(** The integer nearest to [num / den], the even one of two. *)
Definition nearest (num den : Z) : Z :=
  let q := num / den in
  let r := num mod den in
  if (2 * r <? den) || ((2 * r =? den) && Z.even q) then q else q + 1.

(** [fixed << setprecision(2)]: the exact value of the double, rounded to
    hundredths. *)
Definition fixed2 (f : spec_float) : bytes :=
  let sign (s : bool) := if s then lit "-" else [] in
  match f with
  | S754_zero s => sign s ++ lit "0.00"
  | S754_infinity s => sign s ++ lit "inf"
  | S754_nan => lit "nan"
  | S754_finite s m e =>
      let n := if 0 <=? e then 100 * Zpos m * 2 ^ e else nearest (100 * Zpos m) (2 ^ (- e)) in
      sign s ++ digits 400 (n / 100) ++ lit "." ++ pad 2 (StdString.to_string (n mod 100))
  end.

Definition rate_line (reorder : bool) (duration : Z) : bytes :=
  lit "CPU-limited throughput" ++ (if reorder then lit " with reordering: " else lit "                : ") ++
  fixed2 (gigabits_per_second duration) ++ lit " Gbit/s" ++ newline.

Section Benchmark.
Context (reads : Reads).

Fixpoint receive_all (y : TCPConnection) (segments : list TCPSegment) : result TCPConnection :=
  match segments with
  | [] => Ok y
  | seg :: segments => y ← segment_received reads y seg; receive_all y segments
  end.

(** [segments] is empty before and after every call. *)
Definition move_segments (x y : TCPConnection) (reorder : bool) : result (TCPConnection * TCPConnection) :=
  let segments := segments_out x in
  y ← receive_all y (if reorder then reverse segments else segments);
  Ok (set_segments_out x [], y).

(** The variables that the function [loop] captures. *)
Record Bench := mkBench {
  x : TCPConnection;
  y : TCPConnection;
  bytes_to_send : Buffer;
  x_closed : bool;
  string_received : bytes
}.

(** The first loop: every round removes a byte, so the size is enough fuel. *)
Fixpoint write_input (fuel : nat) (x : TCPConnection) (b : Buffer) : result (TCPConnection * Buffer) :=
  if negb (size b =? 0) && negb (remaining_outbound_capacity x =? 0) then
    match fuel with
    | O => Throw OutOfFuel
    | S fuel =>
        let want := Z.min (remaining_outbound_capacity x) (size b) in
        data ← substr (str b) 0 want;
        '(x, written) ← TCPConnection.write x data;
        if negb (want =? written) then Throw RuntimeError
        else b ← remove_prefix b written; write_input fuel x b
    end
  else Ok (x, b).

Definition loop (reorder : bool) (s : Bench) : result Bench :=
  '(x, b) ← write_input (Z.to_nat (size (bytes_to_send s))) (x s) (bytes_to_send s);
  '(x, x_closed) ← (if (size b =? 0) && negb (x_closed s)
                    then x ← end_input_stream x; Ok (x, true) else Ok (x, x_closed s));
  '(x, y) ← move_segments x (y s) reorder;
  '(y, x) ← move_segments y x false;
  let available_output := buffer_size (inbound_stream y) in
  '(y, received) ← (if 0 <? available_output then
                      '(y, s') ← read_inbound y available_output; Ok (y, string_received s ++ s')
                    else Ok (y, string_received s));
  Ok (mkBench (TCPConnection.tick x 1000) (TCPConnection.tick y 1000) b x_closed received).

(** [while (not y.inbound_stream().eof()) loop();] for at most [rounds] rounds. *)
Fixpoint receive_loop (rounds : nat) (reorder : bool) (s : Bench) : result Bench :=
  if ByteStream.eof (inbound_stream (y s)) then Ok s
  else match rounds with
       | O => Throw OutOfFuel
       | S rounds => s ← loop reorder s; receive_loop rounds reorder s
       end.

Fixpoint finish_loop (rounds : nat) (reorder : bool) (s : Bench) : result Bench :=
  if active (x s) || active (y s) then
    match rounds with
    | O => Throw OutOfFuel
    | S rounds => s ← loop reorder s; finish_loop rounds reorder s
    end
  else Ok s.

Definition bench_start (string_to_send : bytes) (random_x random_y : Z) : result Bench :=
  x ← TCPConnection.connect (TCPConnection_new TCPConfig_default random_x);
  y ← end_input_stream (TCPConnection_new TCPConfig_default random_y);
  Ok (mkBench x y (Buffer_of string_to_send) false []).

Definition main_loop (rounds : nat) (reorder : bool) (string_to_send : bytes) (random_x random_y : Z) : result Bench :=
  s ← bench_start string_to_send random_x random_y;
  s ← receive_loop rounds reorder s;
  if negb (bool_decide (string_received s = string_to_send)) then Throw RuntimeError
  else finish_loop rounds reorder s.

(** What one call of [main_loop] sends: characters drawn from [rand]. *)
Definition string_to_send (rand : nat → Z) : bytes := map (λ i, u8 (rand i)) (seq 0 (Z.to_nat len)).

(** Both measurements, with what they print; [rand] goes on from one to the
    other. *)
Definition benchmark (rounds : nat) (rand : nat → Z) (random : bool → Z * Z) (duration : bool → Z) : result bytes :=
  _ ← main_loop rounds false (string_to_send rand) (random false).1 (random false).2;
  _ ← main_loop rounds true (string_to_send (λ i, rand (Z.to_nat len + i)%nat)) (random true).1 (random true).2;
  Ok (rate_line false (duration false) ++ rate_line true (duration true)).

Definition main (rounds : nat) (rand : nat → Z) (random : bool → Z * Z) (duration : bool → Z) : option Z :=
  exit_status (benchmark rounds rand random duration).

End Benchmark.

(** [n] rounds. *)
Fixpoint loop_n (reads : Reads) (n : nat) (reorder : bool) (s : Bench) : result Bench :=
  match n with
  | O => Ok s
  | S n => s ← loop reads reorder s; loop_n reads n reorder s
  end.

Section Invariant.
Context (reads : Reads) (S : bytes) (ix iy : WrappingInt32).
Context (Hx : wf_WrappingInt32 ix) (Hy : wf_WrappingInt32 iy) (HS : slen S < 0x80000000).

(** [x] sends [S], of which [bytes_to_send] is the rest, and [y] sends nothing. *)
Record bench_inv (s : Bench) : Prop := {
  be_x : cinv S [] ix iy (x s);
  be_y : cinv [] S iy ix (y s);
  be_wf : Buffer.wf (bytes_to_send s);
  be_rest : str (bytes_to_send s) = sdrop (written (x s)) S;
  be_taken : taken (y s) = slen (string_received s);
  be_received : agree S 0 (string_received s)
}.

Lemma write_input_spec fuel : ∀ x b,
  cinv S [] ix iy x → Buffer.wf b → str b = sdrop (written x) S → size b <= Z.of_nat fuel →
  ∃ x' b', write_input fuel x b = Ok (x', b') ∧ cinv S [] ix iy x' ∧ Buffer.wf b' ∧ str b' = sdrop (written x') S.
Proof using Type.
  induction fuel as [|fuel IH]; intros x b Hc Hb Hs Hf; cbn [write_input].
  { pose proof (slen_nonneg (str b)). unfold size in *. destruct (slen (str b) =? 0) eqn:E; [|lia]. by eexists _, _. }
  destruct (size b =? 0) eqn:E1; [by eexists _, _|]. destruct (remaining_outbound_capacity x =? 0) eqn:E2; [by eexists _, _|].
  cbn [negb andb]. set (want := Z.min _ _). unfold size in *.
  assert (0 <= remaining_outbound_capacity x) as Hcap by apply u64_range.
  pose proof (slen_nonneg (str b)). rewrite substr_ok by lia. rewrite sdrop_0. cbn [mbind result_bind].
  assert (slen (stake want (str b)) = want) as Hl by (rewrite slen_stake; lia).
  destruct (write_takes S [] ix iy x (stake want (str b)) Hc) as (x1 & -> & Hc1 & Hw1 & _); [lia|by rewrite Hl, <- Hs|].
  rewrite Hl in *. cbn [mbind result_bind]. rewrite Z.eqb_refl. cbn [negb].
  pose proof (remove_prefix_spec b want Hb ltac:(lia)) as Hrp. case_decide; [|lia].
  destruct Hrp as (b1 & -> & Hb1 & Hs1). cbn [mbind result_bind].
  apply IH; [done|done|..].
  - rewrite Hs1, Hs, Hw1. pose proof (written_range _ _ _ _ _ Hc). rewrite sdrop_sdrop by lia. done.
  - unfold size. rewrite Hs1, slen_sdrop by lia. lia.
Qed.

Lemma receive_all_spec So Si io ii segs : ∀ c,
  wf_WrappingInt32 ii → slen Si < 0x80000000 → cinv So Si io ii c → Forall (carries Si ii) segs →
  or_undefined (receive_all reads c segs)
    (λ c', cinv So Si io ii c' ∧ taken c' = taken c ∧ written c' = written c).
Proof using Type.
  induction segs as [|seg segs IH]; intros c Hii HSi Hc Hl; cbn [receive_all]; [done|].
  apply Forall_cons_1 in Hl as [Hseg Hl].
  pose proof (cinv_segment_received So Si io ii reads Hii HSi c seg Hc Hseg) as H.
  destruct (segment_received reads c seg) as [c1|] eqn:H1; [|done]. destruct H as [Hc1 Ht1].
  pose proof (segment_received_written _ _ _ _ H1) as Hw1. cbn [mbind result_bind].
  eapply or_undefined_impl; [by apply (IH c1)|]. intros c2 (Hc2 & Ht2 & Hw2). split_and!; [done|congruence|congruence].
Qed.

(** From a peer that sends an empty stream everything is taken, if the read past
    the end does not stop the program. *)
Lemma receive_all_nothing So io ii segs : ∀ c,
  wf_WrappingInt32 ii → (∀ l, end_header reads l ≠ None) → cinv So [] io ii c → Forall (carries [] ii) segs →
  is_ok (receive_all reads c segs).
Proof using Type.
  induction segs as [|seg segs IH]; intros c Hii He Hc Hl; cbn [receive_all]; [by eexists|].
  apply Forall_cons_1 in Hl as [Hseg Hl]. assert (slen (@nil Z) < 0x80000000) as H0 by done.
  destruct (segment_received_cases So [] io ii reads Hii H0 c seg Hc Hseg) as [[c1 H1]|[_ [[_ Hw]|[_ [l Hn]]]]].
  - destruct (or_undefined_ok _ _ _ (cinv_segment_received So [] io ii reads Hii H0 c seg Hc Hseg) H1) as [Hc1 _].
    rewrite H1. by apply IH.
  - destruct Hw. destruct (rinv_r _ _ _ (ci_receiver _ _ _ _ _ Hc)) as (_ & _ & Hch).
    destruct (_unassembled_bytes _) as [|b l]; [done|]. destruct Hch as (_ & (Hb & _) & _). rewrite (@slen_nil Z) in Hb. lia.
  - by destruct (He l).
Qed.

Lemma move_segments_spec So Si io ii a b reorder :
  wf_WrappingInt32 io → slen So < 0x80000000 → cinv So Si io ii a → cinv Si So ii io b →
  or_undefined (move_segments reads a b reorder) (λ '(a', b'), cinv So Si io ii a' ∧ cinv Si So ii io b' ∧
    written a' = written a ∧ taken a' = taken a ∧ written b' = written b ∧ taken b' = taken b).
Proof using Type.
  intros Hio HSo Ha Hb. unfold move_segments. pose proof (emits_carries _ _ _ (ci_out _ _ _ _ _ Ha)) as Hout.
  eapply or_undefined_bind; [apply (receive_all_spec Si So ii io); try done; destruct reorder; [by apply Forall_reverse|done]|].
  intros b' (Hb' & Ht & Hw). simpl. split_and!; try done. by destruct Ha; split.
Qed.

(** The part of a round before the exchange. *)
Definition before_exchange (s : Bench) : result (TCPConnection * Buffer * bool) :=
  '(x, b) ← write_input (Z.to_nat (size (bytes_to_send s))) (x s) (bytes_to_send s);
  '(x, x_closed) ← (if (size b =? 0) && negb (x_closed s)
                    then x ← end_input_stream x; Ok (x, true) else Ok (x, x_closed s));
  Ok (x, b, x_closed).

(** The part after it. *)
Definition after_exchange (s : Bench) (x y : TCPConnection) (b : Buffer) (x_closed : bool) : result Bench :=
  let available_output := buffer_size (inbound_stream y) in
  '(y, received) ← (if 0 <? available_output then
                      '(y, s') ← read_inbound y available_output; Ok (y, string_received s ++ s')
                    else Ok (y, string_received s));
  Ok (mkBench (TCPConnection.tick x 1000) (TCPConnection.tick y 1000) b x_closed received).

Lemma loop_eq reorder s :
  loop reads reorder s =
    ('(x2, b, cl) ← before_exchange s; '(x3, y3) ← move_segments reads x2 (y s) reorder;
     '(y4, x4) ← move_segments reads y3 x3 false; after_exchange s x4 y4 b cl).
Proof using Type.
  unfold loop, before_exchange. destruct (write_input _ _ _) as [[x1 b1]|]; [|done]. cbn [mbind result_bind].
  by destruct (if (size b1 =? 0) && negb (x_closed s) then _ else _) as [[x2 cl]|].
Qed.

Lemma before_exchange_spec s :
  bench_inv s → ∃ x2 b cl, before_exchange s = Ok (x2, b, cl) ∧ cinv S [] ix iy x2 ∧ Buffer.wf b ∧
    str b = sdrop (written x2) S.
Proof using Type.
  intros []. unfold before_exchange. pose proof (slen_nonneg (str (bytes_to_send s))).
  destruct (write_input_spec (Z.to_nat (size (bytes_to_send s))) (x s) (bytes_to_send s))
    as (x1 & b1 & -> & Hx1 & Hb1 & Hr1); try done; [unfold size; lia|]. cbn [mbind result_bind].
  destruct (_ && _) eqn:E; [|by eexists _, _, _]. apply andb_true_iff in E as [E _].
  destruct (cinv_end_ok S [] ix iy x1 Hx1) as (x2 & He & Hx2 & _).
  { pose proof (written_range _ _ _ _ _ Hx1). change (written x1 = slen S).
    unfold size in E. rewrite Hr1, slen_sdrop in E by lia. lia. }
  pose proof (end_input_written _ _ He) as Hw. rewrite He. cbn [mbind result_bind].
  eexists _, _, _. split_and!; [done|done|done|by rewrite Hw].
Qed.

Lemma after_exchange_spec s x4 y4 b cl :
  bench_inv s → cinv S [] ix iy x4 → cinv [] S iy ix y4 → taken y4 = taken (y s) → Buffer.wf b →
  str b = sdrop (written x4) S → ∃ s', after_exchange s x4 y4 b cl = Ok s' ∧ bench_inv s'.
Proof using Hx HS.
  intros [] Hx4 Hy4 Ht4 Hb Hr. unfold after_exchange.
  assert (∃ y5 rec, (if 0 <? buffer_size (inbound_stream y4) then
      '(y, s') ← read_inbound y4 (buffer_size (inbound_stream y4)); Ok (y, string_received s ++ s')
    else Ok (y4, string_received s)) = Ok (y5, rec) ∧
    cinv [] S iy ix y5 ∧ taken y5 = slen rec ∧ agree S 0 rec) as (y5 & rec & -> & Hy5 & Ht5 & Ha5).
  { destruct (0 <? _) eqn:E; [|by eexists _, _; split_and!; [done|done|congruence|done]].
    destruct (cinv_read_inbound [] S iy ix Hx HS y4 (buffer_size (inbound_stream y4)) Hy4)
      as (y5 & out & -> & Hy5 & Ht5 & Ha5); [lia|]. cbn [mbind result_bind]. eexists _, _. split; [done|].
    rewrite Ht4, be_taken0 in *. split_and!; [done|by rewrite slen_app|].
    rewrite agree_app by lia. by rewrite Z.add_0_l. }
  cbn [mbind result_bind]. eexists. split; [done|]. split; simpl; [by apply cinv_tick..|done| |by rewrite taken_tick|done].
  by rewrite tick_written.
Qed.

Lemma loop_spec reorder s : bench_inv s → or_undefined (loop reads reorder s) bench_inv.
Proof using Hx Hy HS.
  intros Hs. rewrite loop_eq. destruct (before_exchange_spec s Hs) as (x2 & b & cl & -> & Hx2 & Hb & Hr).
  cbn [mbind result_bind]. pose proof Hs as [].
  eapply or_undefined_bind; [by apply (move_segments_spec S [] ix iy x2 (y s) reorder)|].
  intros [x3 y3] (Hx3 & Hy3 & Hw3 & _ & _ & Ht3).
  eapply or_undefined_bind; [by apply (move_segments_spec [] S iy ix y3 x3 false)|].
  intros [y4 x4] (Hy4 & Hx4 & _ & Ht4 & Hw4 & _).
  destruct (after_exchange_spec s x4 y4 b cl Hs Hx4 Hy4) as (s' & -> & ?); [congruence|done|by rewrite Hw4, Hw3|done].
Qed.

(** A round returns if [y] takes all that [x] has sent. *)
Lemma loop_defined s x2 b cl :
  (∀ l, end_header reads l ≠ None) → bench_inv s → before_exchange s = Ok (x2, b, cl) →
  is_ok (receive_all reads (y s) (segments_out x2)) → ∃ s', loop reads false s = Ok s' ∧ bench_inv s'.
Proof using Hx Hy HS.
  intros He Hs Hbe [y3 H3]. enough (is_ok (loop reads false s)) as [s' Hl].
  { exists s'. split; [done|]. exact (or_undefined_ok _ _ _ (loop_spec false s Hs) Hl). }
  rewrite loop_eq. destruct (before_exchange_spec s Hs) as (x2' & b' & cl' & Hbe' & Hx2 & Hb & Hr).
  rewrite Hbe in Hbe'. injection Hbe' as <- <- <-. rewrite Hbe. cbn [mbind result_bind]. pose proof Hs as [].
  assert (move_segments reads x2 (y s) false = Ok (set_segments_out x2 [], y3)) as Hm by (unfold move_segments; by rewrite H3).
  destruct (or_undefined_ok _ _ _ (move_segments_spec S [] ix iy x2 (y s) false Hx HS Hx2 be_y0) Hm)
    as (Hx3 & Hy3 & Hw3 & _ & _ & Ht3). rewrite Hm. cbn [mbind result_bind].
  destruct (receive_all_nothing S ix iy (segments_out y3) (set_segments_out x2 []) Hy He Hx3 (emits_carries _ _ _ (ci_out _ _ _ _ _ Hy3))) as [x4 H4].
  assert (move_segments reads y3 (set_segments_out x2 []) false = Ok (set_segments_out y3 [], x4)) as Hm4
    by (unfold move_segments; by rewrite H4).
  destruct (or_undefined_ok _ _ _ (move_segments_spec [] S iy ix y3 (set_segments_out x2 []) false Hy ltac:(done) Hy3 Hx3) Hm4)
    as (Hy4 & Hx4 & _ & Ht4 & Hw4 & _). rewrite Hm4. cbn [mbind result_bind].
  destruct (after_exchange_spec s x4 (set_segments_out y3 []) b cl Hs Hx4 Hy4) as (s' & -> & ?);
    [congruence|done|by rewrite Hw4, Hw3|by eexists].
Qed.

Lemma loop_n_spec n reorder : ∀ s, bench_inv s → or_undefined (loop_n reads n reorder s) bench_inv.
Proof using Hx Hy HS.
  induction n as [|n IH]; intros s Hs; cbn [loop_n]; [done|].
  eapply or_undefined_bind; [by apply loop_spec|]. done.
Qed.

End Invariant.

Lemma cinv_new_random So Si ii random :
  slen So < 0x80000000 → slen Si < 0x80000000 →
  cinv So Si (WrappingInt32_of random) ii (TCPConnection_new TCPConfig_default random).
Proof.
  intros HSo HSi. pose proof (slen_nonneg So). pose proof (slen_nonneg Si).
  apply cinv_new; [done|apply u32_range|unfold TCPConfig_default; cbn [send_capacity recv_capacity]; unfold DEFAULT_CAPACITY; unfold_width; lia..].
Qed.

Lemma bench_start_spec S random_x random_y :
  slen S < 0x80000000 →
  ∃ s, bench_start S random_x random_y = Ok s ∧
    bench_inv S (WrappingInt32_of random_x) (WrappingInt32_of random_y) s ∧
    TCPConnection.connect (TCPConnection_new TCPConfig_default random_x) = Ok (x s) ∧
    end_input_stream (TCPConnection_new TCPConfig_default random_y) = Ok (y s) ∧ x_closed s = false.
Proof.
  intros HS. pose proof (slen_nonneg S). unfold bench_start.
  assert (slen (@nil Z) < 0x80000000) as H0 by done.
  pose proof (cinv_new_random S [] (WrappingInt32_of random_y) random_x HS H0) as Hx.
  pose proof (cinv_new_random [] S (WrappingInt32_of random_x) random_y H0 HS) as Hy.
  pose proof (written_new TCPConfig_default random_x) as Hw0.
  pose proof (written_new TCPConfig_default random_y) as Hwy.
  pose proof (taken_new TCPConfig_default random_y) as Hty.
  revert Hx Hy Hw0 Hwy Hty. generalize (TCPConnection_new TCPConfig_default random_x), (TCPConnection_new TCPConfig_default random_y).
  intros cx cy Hx Hy Hw0 Hwy Hty.
  destruct (cinv_connect _ _ _ _ _ Hx) as (x1 & -> & Hx1 & _ & Hw1). cbn [mbind result_bind].
  destruct (cinv_end_ok _ _ _ _ _ Hy) as (y1 & -> & Hy1 & Ht1); [by apply Hwy|].
  cbn [mbind result_bind]. eexists. split; [done|]. split; [|done]. split; simpl; try done.
  - apply wf_of. unfold_width. lia.
  - by rewrite str_of, Hw1, Hw0, sdrop_0.
  - by rewrite Ht1, Hty.
  - apply agree_nil.
Qed.

(** ** Properties *)

(** C33: the benchmark's exchange works in both orders.  For every string of less
    than [2^31] bytes, random initial numbers and every number of rounds: no call
    throws, and unless an undefined read, of [rend()] or past the end of the
    outstanding segments, stops the program, what [y] has received, followed by
    what it has buffered, is a prefix of the string, whether the segments of [x]
    arrive in order or reversed. *)
Theorem benchmark_rounds (reads : Reads) (S : bytes) (random_x random_y : Z)
    (reorder : bool) (n : nat) :
  slen S < 0x80000000 →
  ∃ s0, bench_start S random_x random_y = Ok s0 ∧
    or_undefined (loop_n reads n reorder s0) (λ s,
      string_received s ++ _buffer (inbound_stream (y s)) = stake (bytes_written (inbound_stream (y s))) S).
Proof.
  intros HS. destruct (bench_start_spec S random_x random_y HS) as (s0 & H0 & Hs0 & _).
  exists s0. split; [done|].
  eapply or_undefined_impl; [by apply (loop_n_spec reads S (WrappingInt32_of random_x) (WrappingInt32_of random_y)
    (u32_range _) (u32_range _) HS)|].
  intros s Hi. pose proof (ci_receiver _ _ _ _ _ (be_y _ _ _ _ Hi)) as Hrec.
  destruct (bytes_written_index _ _ _ Hrec) as (Hbw & _). unfold inbound_stream. rewrite Hbw.
  apply delivered_prefix; [apply Hrec|apply Hi|apply Hi].
Qed.

Lemma benchmark_rounds_witness :
  ∃ s0 s, bench_start [1; 2; 3] 5 0xfffffff0 = Ok s0 ∧ loop_n some_reads 4 true s0 = Ok s ∧
    string_received s ++ _buffer (inbound_stream (y s)) = stake (bytes_written (inbound_stream (y s))) [1; 2; 3].
Proof.
  destruct (result_run (bench_start [1; 2; 3] 5 0xfffffff0) (loop_n some_reads 4 true) (λ _, ()) ()) as (s0 & s & H1 & H2 & _).
  { vm_compute. reflexivity. }
  exists s0, s. split; [exact H1|]. split; [exact H2|].
  destruct (benchmark_rounds some_reads [1; 2; 3] 5 0xfffffff0 true 4) as (s1 & H3 & H4); [concrete|].
  rewrite H1 in H3. injection H3 as <-. rewrite H2 in H4. exact H4.
Defined.

(** A whole run of the benchmark, in both orders: everything arrives, and both
    connections end. *)
Lemma benchmark_completes :
  forallb (λ reorder,
    match main_loop some_reads 40 reorder (map Z.of_nat (seq 0 200)) 5 0xfffffff0 with
    | Ok s => bool_decide (string_received s = map Z.of_nat (seq 0 200))
    | Throw _ => false
    end) [false; true] = true.
Proof. vm_compute. reflexivity. Qed.

(** 100 MiB in a second are 0.84 Gbit/s; a measured time of 0 divides by 0. *)
Lemma rate_line_examples :
  rate_line false 1000000000 = lit "CPU-limited throughput                : 0.84 Gbit/s" ++ newline ∧
  rate_line true 7000000 = lit "CPU-limited throughput with reordering: 119.84 Gbit/s" ++ newline ∧
  fixed2 (gigabits_per_second 0) = lit "inf".
Proof. split_and!; vm_compute; reflexivity. Qed.
