(* ===== verification/BenchmarkRounds.v ===== *)
(** * The rounds of the benchmark (apps/tcp_benchmark.cc)

    A round of the loop moves all segments of [x] to [y], all answers of [y] to
    [x], empties [y]'s stream and lets a second pass.  The invariant [boundary]
    holds between two rounds while segments are exchanged in order; every round
    advances the position of [y], or delivers the end of the stream, after
    which [closing] holds. *)

From S2P Require Import Prelude WrappingIntegers ByteStream StreamReassembler Buffer TCPHeader TCPSegment.
From S2P Require Import TCPConfig StreamSegments TCPReceiver TCPSender TCPState TCPConnection EndToEnd InOrder.
From S2P Require Import TCPBenchmark.
From stdpp Require Import options.

Local Open Scope Z_scope.

Local Notation "'CAP'" := DEFAULT_CAPACITY.

Section Rounds.
Context (reads : Reads) (S : bytes) (ix iy : WrappingInt32).
Context (Hx : wf_WrappingInt32 ix) (Hy : wf_WrappingInt32 iy) (HS : slen S < 0x80000000).
Context (Hread : ∀ l, end_header reads l ≠ None).
Context (Hroomx : roomy S ix) (Hroomy : roomy [] iy).

(** ** What the endpoints send each other *)

(** A segment of [x] that occupies the positions from [i] on. *)
Definition piece (i : Z) (seg : TCPSegment) : Prop :=
  0 < length_in_sequence_space seg ∧ syn (header seg) = false ∧ seqno (header seg) = wrap (1 + i) ix ∧
  consistent S (Push (str (payload seg)) i (fin (header seg))).

(** A segment of [x] acknowledges SYN of [y] ([j = 0]) or also its FIN ([j = 1]). *)
Definition stamped (j : Z) (seg : TCPSegment) : Prop :=
  0 <= j <= 1 ∧ rst (header seg) = false ∧ ack (header seg) = true ∧
  TCPHeader.ackno (header seg) = wrap (1 + j) iy ∧ win (header seg) = CAP.

(** What [x] has queued, for a [y] at position [p]: new segments up to position
    [p'], in order, and [k] repetitions; the acknowledgments go from [j] to
    [j'].  The first new segment reaches at least [g] beyond [base]. *)
Inductive arrives (g base : Z) : Z → Z → list TCPSegment → Z → Z → Z → Prop :=
| arr_nil j p : arrives g base j p [] j p 0
| arr_ack j p j1 seg q j' p' k :
    j <= j1 → stamped j1 seg → str (payload seg) = [] → fin (header seg) = false →
    length_in_sequence_space seg = 0 →
    arrives g base j1 p q j' p' k → arrives g base j p (seg :: q) j' p' k
| arr_new j p j1 seg q j' p' k :
    j <= j1 → stamped j1 seg → piece p seg → base + g <= p + length_in_sequence_space seg →
    arrives g base j1 (p + length_in_sequence_space seg) q j' p' k → arrives g base j p (seg :: q) j' p' k
| arr_dup j p j1 i seg q j' p' k :
    j <= j1 → stamped j1 seg → piece i seg → i + length_in_sequence_space seg <= p → base + g <= p →
    arrives g base j1 p q j' p' k → arrives g base j p (seg :: q) j' p' (k + 1).

(** A segment of [y], which has got position [p] and whose application has read
    [st] bytes. *)
Definition reply (st p : Z) (seg : TCPSegment) : Prop :=
  rst (header seg) = false ∧ ack (header seg) = true ∧ TCPHeader.ackno (header seg) = wrap (1 + p) ix ∧
  win (header seg) = CAP - (Z.min p (slen S) - st) ∧ 0 <= Z.min p (slen S) - st <= CAP ∧ carries [] iy seg ∧
  (syn (header seg) = true → p = 0).

(** The replies of [y] take [x] from position [p] to [p']; [z] of them announce
    a window of 0. *)
Inductive replies (st : Z) : Z → list TCPSegment → Z → Z → Prop :=
| rep_nil p : replies st p [] p 0
| rep_cons p p1 seg R p' z :
    p <= p1 → reply st p1 seg → replies st p1 R p' z →
    replies st p (seg :: R) p' (z + (if p1 =? st + CAP then 1 else 0)).

Lemma arrives_le g base j p q j' p' k : arrives g base j p q j' p' k → p <= p' ∧ j <= j' ∧ 0 <= k.
Proof using Type. induction 1 as [| |? ? ? ? ? ? ? ? ? ? [? _]|]; lia. Qed.

(** Something new reaches the gap. *)
Lemma arrives_gap g base j p q j' p' k :
  arrives g base j p q j' p' k → p < p' → base + g <= p'.
Proof using Type.
  induction 1 as [| |? ? ? ? ? ? ? ? ? ? [? _] ? Ha|]; intros; try lia; auto.
  pose proof (arrives_le _ _ _ _ _ _ _ _ Ha). lia.
Qed.

Lemma arrives_app g base j p q j1 p1 k q' j' p' k' :
  arrives g base j p q j1 p1 k → arrives g base j1 p1 q' j' p' k' →
  arrives g base j p (q ++ q') j' p' (k + k').
Proof using Type.
  induction 1; intros H'; simpl; [done|eapply arr_ack; eauto|eapply arr_new; eauto|].
  replace (k + 1 + k') with (k + k' + 1) by lia. eapply arr_dup; eauto.
Qed.

Lemma replies_le st p R p' z : replies st p R p' z → p <= p' ∧ 0 <= z.
Proof using Type. induction 1 as [|? ? ? ? ? ? ? ? ? [? ?]]; [lia|]. case_match; lia. Qed.

(** No window is closed before the buffer is full. *)
Lemma replies_open st p R p' z : replies st p R p' z → p' < st + CAP → z = 0.
Proof using Type.
  induction 1 as [|? ? ? ? ? ? ? ? Hr IH]; intros; [done|]. pose proof (replies_le _ _ _ _ _ Hr).
  rewrite IH by done. case_match; lia.
Qed.

Lemma replies_weaken st p0 p R p' z :
  p0 <= p → replies st p R p' z → p0 = p' ∨ R ≠ [] → replies st p0 R p' z.
Proof using Type. intros Hp Hr H. destruct Hr; [destruct H as [->|[]]; [constructor|done]|econstructor; eauto; lia]. Qed.

Lemma replies_app st p R p1 z R' p' z' :
  replies st p R p1 z → replies st p1 R' p' z' → replies st p (R ++ R') p' (z + z').
Proof using Type.
  induction 1 as [|p p1 seg R p2 z]; intros H'; simpl; [done|].
  replace (z + (if p1 =? st + CAP then 1 else 0) + z') with (z + z' + (if p1 =? st + CAP then 1 else 0)) by lia.
  econstructor; eauto.
Qed.

(** ** The endpoint [y] *)

(** [y] has ended its empty stream at once.  [kk] counts the acknowledged ones
    among its two numbers, SYN and FIN. *)
Record yst (kk st p : Z) (c : TCPConnection) : Prop := {
  y_inv : cinv [] S iy ix c;
  y_active : _active c = true;
  y_linger : _linger_after_streams_finish c = true;
  y_drained : TCPSender._segments_out (_sender c) = [];
  y_recv : inorder S ix st p (_receiver c);
  y_ended : input_ended (_stream (_sender c)) = true;
  y_kk : 0 <= kk <= 2;
  y_next : _next_seqno (_sender c) = Z.min (kk + 1) 2;
  y_flight : flight kk (_sender c);
  y_highest : _highest_ackno (_sender c) <= raw_value iy + kk;
  y_right : kk = 0 → _highest_ackno (_sender c) < 0 ∧ _highest_ackno_right (_sender c) < 0;
  y_cons : 0 <= _consecutive_retransmissions (_sender c) <= 1;
  y_cfg : rt_timeout (_cfg c) = TIMEOUT_DFLT
}.

Lemma stamp_reply st p r q :
  inorder S ix st p r → rst (header q) = false → carries [] iy q → (syn (header q) = true → p = 0) →
  reply st p (stamp r q).
Proof using Type.
  intros Hr Hq Hc Hsyn. destruct (inorder_window S ix st p r Hr) as [Hw Hb].
  pose proof (carries_stamp [] iy r q Hc) as Hc'. unfold reply.
  assert (stamp r q = set_header q (with_ack (header q) (wrap (1 + p) ix) (CAP - (Z.min p (slen S) - st)))) as E.
  { unfold stamp. rewrite (inorder_ackno S ix st p r Hr), Hw, u16_small; [done|].
    unfold DEFAULT_CAPACITY in *. unfold_width. lia. }
  rewrite E in *. destruct Hb. by split_and!.
Qed.

Lemma numbered_not_syn n f :
  carries [] iy f → seqno (header f) = wrap n iy → 1 <= n <= 0x10002 → syn (header f) = false.
Proof using Hroomy.
  intros (Hs & _) Hseq Hn. destruct (syn (header f)); [|done]. destruct (Hs eq_refl) as (Hw & _).
  rewrite Hseq in Hw. apply (f_equal raw_value) in Hw.
  rewrite (wrap_no_wrap _ _ _ Hroomy) in Hw by (rewrite ?(@slen_nil Z); lia). lia.
Qed.

(** The FIN of [y] is sent as soon as its SYN is acknowledged. *)
Lemma y_acked kk j st p c s :
  yst kk st p c → kk <= 1 + j → j <= kk → 0 <= j <= 1 → acked [] (1 + j) CAP (_sender c) s →
  _next_seqno s = 2 ∧ flight (1 + j) s ∧
  _highest_ackno s = raw_value iy + (1 + j) ∧
  (kk ≠ 0 → TCPSender._segments_out s = []) ∧
  (kk = 0 → ∃ f, TCPSender._segments_out s = [f] ∧ fin (header f) = true ∧ rst (header f) = false ∧
     carries [] iy f ∧ syn (header f) = false).
Proof using Hroomy.
  intros [] Hk1 Hk2 Hj []. pose proof (ci_isn _ _ _ _ _ y_inv0) as Hi. rewrite Hi in *.
  pose proof (sinv_next [] s ak_inv) as Hn. rewrite (@slen_nil Z) in Hn.
  destruct ak_new as (new & Hq & Hnew). rewrite y_drained0 in Hq. simpl in Hq.
  assert (_next_seqno s = 2) as Hn2.
  { destruct (decide (kk = 0)) as [->|]; [|lia]. destruct (y_right0 eq_refl) as [_ Hr].
    unfold edge in ak_edge. destruct Hroomy as [? _]. change (CAP =? 0) with false in ak_edge.
    unfold DEFAULT_CAPACITY in *. destruct (_ <? _) eqn:E in ak_edge; [|lia].
    destruct ak_filled as [?|[_ Hfin]]; [lia|]. rewrite ak_ended, y_ended0 in Hfin.
    destruct ak_inv as [[] [?|Hnx]]; [lia|]. rewrite Hfin in Hnx by done. lia. }
  split; [done|]. split.
  { destruct (ak_flight kk ltac:(lia) y_flight0) as (lo' & Hfl & H1 & H2 & H3).
    assert (lo' = 1 + j) as -> by (destruct (decide (kk = 1 + j)); lia). done. }
  split; [done|]. split; intros Hkk.
  - destruct new as [|f new]; [done|]. destruct Hnew as (_ & ? & ?%contiguous_le). lia.
  - subst kk. destruct new as [|f new]; [simpl in Hnew; lia|]. destruct Hnew as ([Hseq Hrst] & Hlen & Hnew).
    pose proof (contiguous_le _ _ _ _ Hnew).
    destruct new as [|f2 new]; [|destruct Hnew as (_ & ? & ?%contiguous_le); lia].
    pose proof (emits_carries _ _ _ (si_out _ _ (proj1 ak_inv))) as Ho. rewrite Hq, ak_isn in Ho. apply Forall_cons_1 in Ho as [Hcar _].
    pose proof (numbered_not_syn _ _ Hcar Hseq ltac:(lia)) as Hsyn.
    exists f. split_and!; [done| |done|done|done]. destruct Hcar as (_ & Hd & _).
    unfold length_in_sequence_space in Hlen. rewrite Hsyn in Hlen. specialize (Hd Hsyn).
    destruct Hd as [[Hp Hf]|(i & ? & _ & _ & _ & Hl & _)]; [rewrite Hp, Hf, (@slen_nil Z) in Hlen; lia|].
    rewrite (@slen_nil Z) in Hl. destruct (fin (header f)); [done|]. pose proof (slen_nonneg (str (payload f))). lia.
Qed.

Lemma y_receives kk st p c seg j p' :
  yst kk st p c → stamped j seg → kk <= 1 + j → j <= kk → lands S ix st p seg p' →
  ∃ c' R, segment_received reads c seg = Ok c' ∧ yst (1 + j) st p' c' ∧
    _segments_out c' = _segments_out c ++ R ∧
    _consecutive_retransmissions (_sender c') <= _consecutive_retransmissions (_sender c) ∧
    (kk = 0 → _consecutive_retransmissions (_sender c') = 0) ∧
    ((R = [] ∧ kk ≠ 0 ∧ length_in_sequence_space seg <= 0) ∨
     ∃ f, R = [f] ∧ reply st p' f ∧ (kk = 0 → fin (header f) = true) ∧
       (kk ≠ 0 → 0 < length_in_sequence_space seg)).
Proof using Hx Hroomy Hread HS.
  intros Hyst (Hj & Hrst & Hack & Hackno & Hwin) Hk1 Hk2 Hl. assert (H0 := Hyst). destruct H0.
  destruct (connection_receives reads [] S iy ix Hread Hx HS Hroomy c seg st p p' (1 + j) CAP)
    as (r & s & Hr & Hak & Hc & ->); try done; [lia|lia|].
  destruct (y_acked kk j st p c s) as (Hn & Hfl & Hh & Hq & Hq0); try done.
  assert (update_connection_status (received c seg r s) = received c seg r s) as ->.
  { unfold update_connection_status. simpl. unfold stream_in. rewrite (ak_ended _ _ _ _ _ Hak), y_ended0, y_linger0.
    simpl. rewrite andb_false_r. by case_match. }
  pose proof (ak_consecutive _ _ _ _ _ Hak) as Hcons. rewrite (ci_isn _ _ _ _ _ y_inv0) in Hcons.
  eexists _, (map (stamp r) (answer s seg)). split; [done|]. split.
  { split; simpl; try done; try lia; [by rewrite (ak_ended _ _ _ _ _ Hak)|]. case_match; lia. }
  split; [done|]. simpl. split; [case_match; lia|]. split.
  { intros ->. destruct (y_right0 eq_refl) as [? _]. destruct Hroomy. case_match; lia. }
  unfold answer. destruct (decide (kk = 0)) as [->|Hkk].
  - destruct (Hq0 eq_refl) as (f & -> & Hfin & Hf & Hcar & Hsyn). right. exists (stamp r f).
    split_and!; [done|apply stamp_reply; try done; by rewrite Hsyn| |done]. intros _. unfold stamp. by destruct (TCPReceiver.ackno r).
  - rewrite (Hq Hkk). destruct (0 <? length_in_sequence_space seg) eqn:El; [right|left; split_and!; [done|done|lia]].
    eexists. split; [done|]. split; [|split; [done|lia]]. apply stamp_reply; [done|done|by apply carries_empty|done].
Qed.

Lemma piece_lands st p i seg :
  piece i seg → i <= p → i + length_in_sequence_space seg <= st + CAP →
  lands S ix st p seg (Z.max p (i + length_in_sequence_space seg)).
Proof using Type.
  intros (Hl & Hsyn & Hseq & Hc) Hi Hf. right. exists i. unfold length_in_sequence_space in *. rewrite Hsyn in *.
  destruct Hc as (? & ? & ? & ?).
  split_and!; try done; [destruct (fin (header seg)); lia|f_equal; lia].
Qed.

(** [y] receives [q] and answers with [R]. *)
Definition answers (st g kk p : Z) (c : TCPConnection) (q : list TCPSegment) (j' p' k : Z) : Prop :=
  ∃ c' R z, receive_all reads c q = Ok c' ∧
    yst (match q with [] => kk | _ => 1 + j' end) st p' c' ∧
    _segments_out c' = _segments_out c ++ R ∧
    _consecutive_retransmissions (_sender c') <= _consecutive_retransmissions (_sender c) ∧
    (kk = 0 → q ≠ [] → _consecutive_retransmissions (_sender c') = 0 ∧ Exists (λ f, fin (header f) = true) R) ∧
    replies st p R p' z ∧ z <= k + (if p <? st + CAP then 1 else 0) ∧
    (kk ≠ 0 → R = [] ∨ replies st (st + g) R p' z).

Lemma answers_cons st g kk p c seg q j1 p1 j' p' k d :
  yst kk st p c → stamped j1 seg → kk <= 1 + j1 → j1 <= kk → lands S ix st p seg p1 → p <= p1 <= st + CAP →
  (kk = 0 → p < st + CAP) → 0 <= d → (0 < length_in_sequence_space seg → st + g <= p1 ∧ (p < p1 ∨ d = 1)) →
  (∀ c1, yst (1 + j1) st p1 c1 → answers st g (1 + j1) p1 c1 q j' p' k) → (q = [] → j' = j1) → 0 <= j1 →
  (length_in_sequence_space seg <= 0 → p1 = p) →
  answers st g kk p c (seg :: q) j' p' (k + d).
Proof using Hx HS Hread Hroomy.
  intros Hc Hst Hk1 Hk2 Hl Hp Hp0 Hd Hlen IH Hj Hj0 Hlen0.
  destruct (y_receives kk st p c seg j1 p1) as (c1 & R1 & H1 & Hc1 & Hq1 & Hn1 & Hn0 & HR); try done.
  destruct (IH c1 Hc1) as (c2 & R2 & z & H2 & Hc2 & Hq2 & Hn2 & _ & Hr2 & Hz2 & Hg2).
  unfold answers. cbn [receive_all]. rewrite H1. cbn [mbind result_bind]. rewrite H2.
  assert (yst (1 + j') st p' c2) as Hy2 by (destruct q; [by rewrite Hj|done]).
  pose proof (y_cons _ _ _ _ Hc2). exists c2, (R1 ++ R2).
  destruct HR as [(-> & Hkk & Hz)|(f & -> & Hfr & Hff & Hff')].
  - rewrite (Hlen0 Hz) in *. exists z.
    split_and!; [done|done|by rewrite Hq2, Hq1, app_nil_r|lia|done|done|lia|intros _; apply Hg2; lia].
  - exists (z + (if p1 =? st + CAP then 1 else 0)).
    split_and!; [done|done|by rewrite Hq2, Hq1, <- app_assoc|lia| |econstructor; [lia|done|done]| |].
    + intros Hkk _. specialize (Hn0 Hkk). split; [lia|]. apply Exists_cons. auto.
    + destruct (decide (0 < length_in_sequence_space seg)); repeat case_match; lia.
    + intros Hkk. right. specialize (Hff' Hkk). econstructor; [lia|done|done].
Qed.

(** All that [x] has queued arrives at [y]. *)
Lemma y_receives_all st g j p q j' p' k :
  arrives g st j p q j' p' k → ∀ kk c,
  yst kk st p c → kk <= 1 + j → j' <= kk → p' <= st + CAP → (kk = 0 → p < st + CAP) →
  answers st g kk p c q j' p' k.
Proof using Hx HS Hread Hroomy.
  intros Harr. induction Harr as [j p|j p j1 seg q j' p' k Hj Hst Hp Hf Hl Hq IH|
    j p j1 seg q j' p' k Hj Hst Hp Hg Hq IH|j p j1 i seg q j' p' k Hj Hst Hp Hi Hg Hq IH];
    intros kk c Hc Hk1 Hk2 Hfit Hp0.
  { exists c, [], 0. split_and!; try done; [by rewrite app_nil_r|constructor|case_match; lia|by left]. }
  all: destruct (arrives_le _ _ _ _ _ _ _ _ Hq) as (Hp' & Hj' & Hk').
  all: pose proof (proj1 Hst).
  - rewrite <- (Z.add_0_r k).
    apply (answers_cons st g kk p c seg q j1 p); try done; try lia; [by left| |by intros ->; inv Hq].
    intros c1 Hc1. apply IH; [done|lia|lia|lia|lia].
  - rewrite <- (Z.add_0_r k). pose proof (proj1 Hp).
    apply (answers_cons st g kk p c seg q j1 (p + length_in_sequence_space seg)); try done; try lia.
    + replace (p + length_in_sequence_space seg) with (Z.max p (p + length_in_sequence_space seg)) by lia.
      apply piece_lands; [done|lia|lia].
    + intros c1 Hc1. apply IH; [done|lia|lia|lia|lia].
    + intros ->. by inv Hq.
  - pose proof (proj1 Hp). apply (answers_cons st g kk p c seg q j1 p); try done; try lia.
    + replace p with (Z.max p (i + length_in_sequence_space seg)) at 2 by lia. apply piece_lands; [done|lia|lia].
    + intros c1 Hc1. apply IH; [done|lia|lia|lia|lia].
    + intros ->. by inv Hq.
Qed.

(** ** The endpoint [x] *)

(** [x] before an acknowledgment of position [p]; it has got [j] of the two
    numbers of [y]. *)
Record xpre (j p : Z) (c : TCPConnection) : Prop := {
  xp_inv : cinv S [] ix iy c;
  xp_active : _active c = true;
  xp_drained : TCPSender._segments_out (_sender c) = [];
  xp_recv : inorder [] iy 0 j (_receiver c);
  xp_cap : ByteStream._capacity (_stream (_sender c)) = CAP;
  xp_next : 0 <= p < _next_seqno (_sender c);
  xp_highest : _highest_ackno (_sender c) <= raw_value ix + (1 + p);
  xp_flight : ∃ lo, 0 <= lo <= 1 + p ∧ flight lo (_sender c) ∧ (1 <= lo ∨ _next_seqno (_sender c) = 1 + p);
  xp_right : _highest_ackno_right (_sender c) <= raw_value ix + edge (_sender c);
  xp_cons : 0 <= _consecutive_retransmissions (_sender c) <= 1;
  xp_cfg : rt_timeout (_cfg c) = TIMEOUT_DFLT
}.

(** [x] after such an acknowledgment: it may send beyond [p]. *)
Record xbase (j p : Z) (c : TCPConnection) : Prop := {
  x_inv : cinv S [] ix iy c;
  x_active : _active c = true;
  x_drained : TCPSender._segments_out (_sender c) = [];
  x_recv : inorder [] iy 0 j (_receiver c);
  x_cap : ByteStream._capacity (_stream (_sender c)) = CAP;
  x_next : 0 <= p < _next_seqno (_sender c);
  x_highest : _highest_ackno (_sender c) = raw_value ix + (1 + p);
  x_flight : ∃ lo, 1 <= lo <= 1 + p ∧ flight lo (_sender c);
  x_idle : _next_seqno (_sender c) = 1 + p → TCPSender._outstanding_segments (_sender c) = [];
  x_right : _highest_ackno_right (_sender c) <= raw_value ix + edge (_sender c);
  x_edge : 1 + p < edge (_sender c);
  x_cons : 0 <= _consecutive_retransmissions (_sender c) <= 1;
  x_cfg : rt_timeout (_cfg c) = TIMEOUT_DFLT
}.

Definition xst (j p : Z) (c : TCPConnection) : Prop := xbase j p c ∧ filled (_sender c).

Lemma xbase_pre j p p1 c : xbase j p c → p <= p1 < _next_seqno (_sender c) → xpre j p1 c.
Proof using Type.
  intros [] Hp. destruct x_flight0 as (lo & Hlo & Hfl). split; try done; [lia|lia|].
  exists lo. split; [lia|]. split; [done|]. left; lia.
Qed.

(** All of the stream has been sent when the buffer is empty and FIN is out. *)
Lemma fin_sent_next s :
  sinv S s → 0 < _next_seqno s → _fin_sent s = true → _next_seqno s = slen S + 2.
Proof using Type.
  intros [[] Hn] Hpos Hf. rewrite Hf in Hn. destruct (andb_prop _ _ (si_fin Hf)) as [He Hb].
  specialize (si_eof He). unfold buffer_empty, buffer_size in Hb. lia.
Qed.

(** Before its FIN is acknowledged, [x] is not finished. *)
Lemma x_busy j p c : xst j p c → p <= slen S → ¬ finished c.
Proof using Hroomx HS.
  intros [[] Hfill] Hp (_ & He & Hfl). destruct x_flight0 as (lo & Hlo & Hf).
  pose proof (ci_sender _ _ _ _ _ x_inv0) as Hs. pose proof (sinv_next S _ Hs). destruct Hroomx as [? ?].
  unfold bytes_in_flight in Hfl. rewrite (bytes_in_flight_eq lo) in Hfl by (try done; lia).
  unfold edge in *. destruct Hfill as [?|[_ Hfin]]; [lia|]. specialize (Hfin He).
  pose proof (fin_sent_next _ Hs ltac:(lia) Hfin). lia.
Qed.

Lemma status_busy c : ¬ finished c → ∃ lg, update_connection_status c = set_linger c lg.
Proof using Type.
  intros Hn. assert (c = set_linger c (_linger_after_streams_finish c)) as Hc by (by destruct c).
  unfold update_connection_status. destruct (input_ended _) eqn:E1; [|by eexists].
  destruct (input_ended (stream_in _)) eqn:E2; cbn [negb]; [|by eexists].
  destruct (bytes_in_flight c =? 0) eqn:E3; simpl; [|by eexists].
  destruct Hn. split; [done|]. split; [done|lia].
Qed.

Lemma xst_set_linger j p c lg : xst j p c → xst j p (set_linger c lg).
Proof using Type. intros [[[] ?] ?]. by split; [split|]. Qed.

(** ** What [x] queues *)

Lemma carries_piece n seg :
  carries S ix seg → seqno (header seg) = wrap (1 + n) ix → 0 < length_in_sequence_space seg →
  0 <= n <= slen S → piece n seg.
Proof using HS Hroomx.
  intros (Hs & Hd & _) Hseq Hl Hn. split; [done|]. unfold length_in_sequence_space in Hl.
  destruct (syn (header seg)) eqn:E.
  - destruct (Hs eq_refl) as (Hw & _). rewrite Hseq in Hw. apply (f_equal raw_value) in Hw.
    rewrite (wrap_no_wrap _ _ _ Hroomx) in Hw by lia. lia.
  - split; [done|]. split; [done|]. destruct (Hd eq_refl) as [[Hp Hf]|(i & Hi & Hq & Hc)].
    + rewrite Hp, Hf, (@slen_nil Z) in Hl. lia.
    + assert (i <= slen S) by (destruct Hc as (_ & _ & ? & _); pose proof (slen_nonneg (str (payload seg))); lia).
      rewrite Hseq in Hq. apply wrap_inj_near in Hq; [by subst n|lia|lia].
Qed.

Lemma stamp_stamped j r q :
  inorder [] iy 0 j r → rst (header q) = false → stamped j (stamp r q).
Proof using Type.
  intros Hr Hq. destruct (inorder_window [] iy 0 j r Hr) as [Hw Hb]. pose proof (io_range _ _ _ _ _ Hr) as Hj.
  rewrite (@slen_nil Z) in *. unfold stamped, stamp. rewrite (inorder_ackno [] iy 0 j r Hr), Hw.
  split; [lia|]. split; [done|]. split; [done|]. split; [done|]. simpl. rewrite Z.min_r by lia. done.
Qed.

Lemma stamp_same r q :
  str (payload (stamp r q)) = str (payload q) ∧ length_in_sequence_space (stamp r q) = length_in_sequence_space q ∧
  fin (header (stamp r q)) = fin (header q) ∧ (∀ i, piece i q → piece i (stamp r q)).
Proof using Type. unfold stamp. by destruct (TCPReceiver.ackno r). Qed.

Lemma arrives_contiguous g base r j l : ∀ n n',
  inorder [] iy 0 j r → contiguous ix (1 + n) l (1 + n') → Forall (carries S ix) l → 0 <= n → n' <= slen S + 1 →
  (∀ seg rest, l = seg :: rest → base + g <= n + length_in_sequence_space seg) →
  arrives g base j n (map (stamp r) l) j n' 0.
Proof using HS Hroomx.
  induction l as [|q l IH]; intros n n' Hr Hl Hc Hn Hn' Hg; simpl.
  { simpl in Hl. replace n' with n by lia. constructor. }
  destruct Hl as ([Hseq Hrst] & Hlen & Hl). apply Forall_cons_1 in Hc as [Hq Hc].
  pose proof (contiguous_le _ _ _ _ Hl) as Hle. destruct (stamp_same r q) as (_ & El & _ & Hp).
  eapply arr_new; [reflexivity|by apply stamp_stamped|apply Hp, carries_piece; try done; lia| |].
  - rewrite El. by apply (Hg q l).
  - rewrite El. apply IH; [done| |done|lia|lia|].
    + by replace (1 + (n + length_in_sequence_space q)) with (1 + n + length_in_sequence_space q) by lia.
    + intros q2 l2 ->. destruct Hl as (_ & ? & _). specialize (Hg q (q2 :: l2) eq_refl). lia.
Qed.

Lemma arrives_start g base j0 j p q j' p' k :
  arrives g base j p q j' p' k → j0 <= j → (q = [] → j0 = j) → arrives g base j0 p q j' p' k.
Proof using Type.
  intros Ha Hj Hq. destruct Ha; [rewrite Hq by done; apply arr_nil|eapply arr_ack; [|eassumption..]; lia|
    eapply arr_new; [|eassumption..]; lia|eapply arr_dup; [|eassumption..]; lia].
Qed.

(** [x] queues what takes [y] from the position before [c] to that of [c']. *)
Record xgoes (j j' : Z) (c c' : TCPConnection) : Prop := {
  xg_next : _next_seqno (_sender c) <= _next_seqno (_sender c');
  xg_ended : input_ended (_stream (_sender c)) = true → input_ended (_stream (_sender c')) = true;
  xg_queue : ∃ Q, _segments_out c' = _segments_out c ++ Q ∧
    ∀ g base, base + g <= _next_seqno (_sender c) →
      arrives g base j (_next_seqno (_sender c) - 1) Q j' (_next_seqno (_sender c') - 1) 0
}.

Lemma xgoes_trans j j1 j' c c1 c' : xgoes j j1 c c1 → xgoes j1 j' c1 c' → xgoes j j' c c'.
Proof using Type.
  intros [Hn1 He1 (Q1 & Hq1 & Ha1)] [Hn2 He2 (Q2 & Hq2 & Ha2)]. split; [lia|auto|].
  exists (Q1 ++ Q2). split; [by rewrite Hq2, Hq1, app_assoc|]. intros g base Hg.
  apply (arrives_app g base j _ Q1 j1 (_next_seqno (_sender c1) - 1) 0 Q2 j' _ 0); [by apply Ha1|apply Ha2; lia].
Qed.

Lemma xgoes_refl j c : xgoes j j c c.
Proof using Type. split; [lia|done|]. exists []. split; [by rewrite app_nil_r|]. intros. constructor. Qed.

Lemma carries_lands seg j :
  carries [] iy seg → 0 <= j <= 1 → lands [] iy 0 j seg (if fin (header seg) then 1 else j).
Proof using Type.
  intros (Hs & Hd & _) Hj. destruct (syn (header seg)).
  { destruct (Hs eq_refl) as (_ & Hp & Hf). left. by rewrite Hf. }
  destruct (Hd eq_refl) as [[Hp Hf]|(i & Hi & Hseq & Hc)]; [left; by rewrite Hf|]. right. exists i.
  assert (i + slen (str (payload seg)) <= 0) as Hz by (destruct Hc as (_ & _ & H & _); by rewrite (@slen_nil Z) in H).
  pose proof (slen_nonneg (str (payload seg))). split; [done|]. split; [done|]. unfold DEFAULT_CAPACITY.
  split; [lia|]. split; [lia|]. destruct (fin (header seg)); lia.
Qed.

(** The segments of an answer, as [y] will see them. *)
Lemma answer_arrives g base j c seg r s a w :
  let j' := if fin (header seg) then 1 else j in
  cinv S [] ix iy c → TCPSender._segments_out (_sender c) = [] → inorder [] iy 0 j' r → 0 <= j <= 1 →
  acked S a w (_sender c) s → 0 < _next_seqno (_sender c) →
  (∀ q rest, TCPSender._segments_out s = q :: rest →
     base + g <= _next_seqno (_sender c) - 1 + length_in_sequence_space q) →
  arrives g base j (_next_seqno (_sender c) - 1) (map (stamp r) (answer s seg)) j' (_next_seqno s - 1) 0.
Proof using HS Hroomx.
  intros j' Hc Hd Hr Hj Hak Hn Hg. assert (H := Hak). destruct H. destruct ak_new as (new & Hq & Hnew).
  rewrite Hd in Hq. simpl in Hq. rewrite (ci_isn _ _ _ _ _ Hc) in *. pose proof (sinv_next S s ak_inv).
  assert (j <= j') as Hjj by (unfold j'; destruct (fin _); lia). unfold answer. rewrite Hq in *.
  destruct new as [|q new]; simpl in Hnew.
  - rewrite <- Hnew. destruct (0 <? length_in_sequence_space seg) eqn:El; simpl.
    + eapply arr_ack; [done|by apply stamp_stamped|..]; [..|constructor].
      all: destruct (stamp_same r (empty_answer s)) as (E1 & E2 & E3 & _); by rewrite ?E1, ?E2, ?E3.
    + assert (j' = j) as ->; [|constructor]. unfold j', length_in_sequence_space in *.
      pose proof (slen_nonneg (str (payload seg))). destruct (fin _), (syn _); lia.
  - eapply arrives_start; [|exact Hjj|done]. apply arrives_contiguous; try done; try lia.
    + by replace (1 + (_next_seqno (_sender c) - 1)) with (_next_seqno (_sender c)) by lia;
        replace (1 + (_next_seqno s - 1)) with (_next_seqno s) by lia.
    + rewrite <- Hq, <- ak_isn. apply emits_carries, ak_inv.
Qed.

(** The state of [x] after an acknowledgment. *)
Lemma acked_xst st j p c seg r s j' :
  xpre j p c → p <= slen S → _highest_ackno_right (_sender c) <= raw_value ix + (1 + st + CAP) →
  0 <= p - st <= CAP → inorder [] iy 0 j' r → acked S (1 + p) (CAP - (p - st)) (_sender c) s →
  cinv S [] ix iy (received c seg r s) → xst j' p (received c seg r s).
Proof using Type.
  intros [] Hp Hhr Hst Hr Hak Hc. assert (H := Hak). destruct H. rewrite (ci_isn _ _ _ _ _ xp_inv0) in *.
  destruct xp_flight0 as (lo & Hlo & Hfl & Hlo1). destruct (ak_flight lo ltac:(lia) Hfl) as (lo' & Hfl' & Hl1 & Hl2 & Hl3).
  split; [|done]. split; simpl; try done; try lia.
  - exists lo'. split; [lia|done].
  - intros Hn. unfold flight in Hfl'. replace lo' with (_next_seqno s) in Hfl' by lia.
    destruct (TCPSender._outstanding_segments s) as [|q l]; [done|]. destruct Hfl' as (_ & ? & ?%contiguous_le). lia.
  - change (edge (TCPSender.set_segments_out s [])) with (edge s). rewrite ak_right, ak_edge.
    unfold edge in *. destruct (_ =? 0) eqn:E; [lia|]. destruct (_ <? _) eqn:E'; lia.
  - change (edge (TCPSender.set_segments_out s [])) with (edge s). rewrite ak_edge.
    unfold edge in *. destruct (_ =? 0) eqn:E; [lia|]. destruct (_ <? _) eqn:E'; lia.
  - rewrite ak_consecutive. case_match; lia.
Qed.

(** One reply arrives at [x]. *)
Lemma x_receives st j p c seg :
  xpre j p c → reply st p seg → p <= slen S →
  _highest_ackno_right (_sender c) <= raw_value ix + (1 + st + CAP) →
  let j' := if fin (header seg) then 1 else j in
  ∃ c', segment_received reads c seg = Ok c' ∧ xst j' p c' ∧ xgoes j j' c c' ∧
    edge (_sender c') =
      (if p =? st + CAP then _next_seqno (_sender c) + 1
       else if _highest_ackno_right (_sender c) <? raw_value ix + (1 + st + CAP)
       then _next_seqno (_sender c) + (CAP - (p - st)) else edge (_sender c)) ∧
    _highest_ackno_right (_sender c') =
      (if p =? st + CAP then _highest_ackno_right (_sender c) else raw_value ix + (1 + st + CAP)) ∧
    _consecutive_retransmissions (_sender c') =
      (if _highest_ackno (_sender c) <? raw_value ix + (1 + p) then 0
       else _consecutive_retransmissions (_sender c)) ∧
    (3 <= slen (ByteStream._buffer (_stream (_sender c))) → p + 3 <= st + CAP →
     _highest_ackno_right (_sender c) < raw_value ix + (1 + st + CAP) →
     ∃ Q, _segments_out c' = _segments_out c ++ Q ∧
       arrives 3 (_next_seqno (_sender c) - 1) j (_next_seqno (_sender c) - 1) Q j' (_next_seqno (_sender c') - 1) 0 ∧
       _next_seqno (_sender c) + 3 <= _next_seqno (_sender c')).
Proof using Hy HS Hread Hroomx.
  intros Hpre (Hrst & Hack & Hackno & Hwin & Hst & Hcar & _) Hp Hhr j'. assert (H := Hpre). destruct H.
  rewrite Z.min_l in Hwin, Hst by lia. pose proof (io_range _ _ _ _ _ xp_recv0) as Hj. rewrite (@slen_nil Z) in Hj.
  destruct (connection_receives reads S [] ix iy Hread Hy ltac:(done) Hroomx c seg 0 j j' (1 + p) (CAP - (p - st)))
    as (r & s & Hr & Hak & Hc & ->); try done; [by apply carries_lands|unfold DEFAULT_CAPACITY in *; unfold_width; lia|lia|].
  pose proof (acked_xst st j p c seg r s j' Hpre Hp Hhr Hst Hr Hak Hc) as Hx1.
  destruct (status_busy _ (x_busy _ _ _ Hx1 Hp)) as (lg & ->).
  eexists. split; [done|]. split; [by apply xst_set_linger|]. assert (H := Hak). destruct H. rewrite (ci_isn _ _ _ _ _ xp_inv0) in *.
  split.
  { split; simpl; [done|congruence|]. eexists. split; [done|]. intros g base Hg.
    apply (answer_arrives g base j c seg r s (1 + p) (CAP - (p - st))); try done; [lia|].
    intros q rest Hq. destruct ak_new as (new & Hq' & Hnew). rewrite xp_drained0, Hq in Hq'. simpl in Hq'. subst new.
    destruct Hnew as (_ & ? & _). lia. }
  replace (raw_value ix + (1 + p) + (CAP - (p - st))) with (raw_value ix + (1 + st + CAP)) in * by lia.
  replace (p =? st + CAP) with (CAP - (p - st) =? 0) by lia. simpl. split; [exact ak_edge|]. split.
  { rewrite ak_right. destruct (_ =? 0); lia. }
  split; [exact ak_consecutive|]. intros Hbuf Hw Hlt. eexists. split; [done|].
  destruct (ak_first xp_drained0 Hbuf ltac:(lia) Hlt) as (q & rest & Hq & Hl). destruct ak_new as (new & Hq' & Hnew).
  rewrite xp_drained0, Hq in Hq'. simpl in Hq'. subst new. destruct Hnew as (_ & _ & ?%contiguous_le).
  assert (3 <= length_in_sequence_space q) as Hl3 by (clear -Hl; unfold length_in_sequence_space; repeat case_match; lia).
  split; [|simpl; lia]. apply (answer_arrives 3 _ j c seg r s (1 + p) (CAP - (p - st))); try done; [lia|].
  intros q' rest' Hq'. rewrite Hq in Hq'. injection Hq' as <- <-. lia.
Qed.

(** [x] receives [R] and ends with its edge below [e]. *)
Definition proceeds (st j p : Z) (c : TCPConnection) (R : list TCPSegment) (p' e : Z) : Prop :=
  ∃ j' c', receive_all reads c R = Ok c' ∧ xst j' p' c' ∧ xgoes j j' c c' ∧
    (Exists (λ f, fin (header f) = true) R → j' = 1) ∧ j <= j' ∧
    edge (_sender c') <= e ∧
    _highest_ackno_right (_sender c') <= raw_value ix + (1 + st + CAP) ∧
    _consecutive_retransmissions (_sender c') <= _consecutive_retransmissions (_sender c) ∧
    (p < p' → _consecutive_retransmissions (_sender c') = 0).

Lemma xst_j j p c : xst j p c → 0 <= j <= 1.
Proof using Type. intros [[] _]. pose proof (io_range _ _ _ _ _ x_recv0) as H. by rewrite (@slen_nil Z) in H. Qed.

Lemma proceeds_cons st j p p1 c c1 seg R p' e e' :
  let j1 := if fin (header seg) then 1 else j in
  xst j p c → segment_received reads c seg = Ok c1 → xgoes j j1 c c1 → p <= p1 →
  _consecutive_retransmissions (_sender c1) =
    (if _highest_ackno (_sender c) <? raw_value ix + (1 + p1) then 0 else _consecutive_retransmissions (_sender c)) →
  proceeds st j1 p1 c1 R p' e → e <= e' → proceeds st j p c (seg :: R) p' e'.
Proof using Type.
  intros j1 Hc H1 Hg1 Hp Hn1 (j2 & c2 & H2 & Hc2 & Hg2 & Hf2 & Hj2 & He2 & Hr2 & Hn2 & Hn2') He.
  rewrite (x_highest _ _ _ (proj1 Hc)) in Hn1. pose proof (xst_j _ _ _ Hc) as Hj. pose proof (xst_j _ _ _ Hc2) as Hj2'.
  pose proof (x_cons _ _ _ (proj1 Hc2)). pose proof (x_cons _ _ _ (proj1 Hc)).
  exists j2, c2. cbn [receive_all]. rewrite H1. cbn [mbind result_bind]. unfold j1 in *.
  split_and!; try done; [apply Hc2..|by eapply xgoes_trans| | |lia| |].
  - rewrite Exists_cons. intros [Hf|Hf]; [|auto]. rewrite Hf in Hj2. lia.
  - destruct (fin (header seg)); lia.
  - destruct (_ <? _) eqn:E in Hn1; lia.
  - intros Hlt. destruct (decide (p < p1)); [destruct (_ <? _) eqn:E in Hn1; lia|]. apply Hn2'. lia.
Qed.

(** The right edge that [y] announces does not change within a round: only a
    closed window moves the edge of [x] further. *)
Lemma proceeds_rest st p R p' z : replies st p R p' z → ∀ j c,
  xst j p c → p' <= slen S → p' < _next_seqno (_sender c) → p' <= st + CAP →
  _highest_ackno_right (_sender c) <= raw_value ix + (1 + st + CAP) →
  (_highest_ackno_right (_sender c) = raw_value ix + (1 + st + CAP) ∨ p = st + CAP) →
  proceeds st j p c R p' (edge (_sender c) + z).
Proof using Hy HS Hread Hroomx.
  induction 1 as [p|p p1 seg R p' z Hp Hrep HR IH]; intros j c Hc Hp' Hn Hfit Hhr Hor.
  { exists j, c. split_and!; try done; [apply Hc..|apply xgoes_refl|by rewrite Exists_nil|lia|lia]. }
  pose proof (replies_le _ _ _ _ _ HR) as [Hle Hz].
  destruct (x_receives st j p1 c seg) as (c1 & H1 & Hc1 & Hg1 & He1 & Hr1 & Hn1 & _);
    [apply (xbase_pre j p); [apply Hc|lia]|done|lia|done|].
  apply (proceeds_cons st j p p1 c c1 seg R p' (edge (_sender c1) + z)); try done.
  - apply IH; [done|done|pose proof (xg_next _ _ _ _ Hg1); lia|done|destruct (p1 =? _); lia|destruct (p1 =? _) eqn:E; lia].
  - pose proof (si_window _ _ (proj1 (ci_sender _ _ _ _ _ (x_inv _ _ _ (proj1 Hc))))) as Hw.
    unfold edge in *. unfold_width. destruct (p1 =? _) eqn:E in He1 |- *; [lia|].
    destruct Hor as [Hor|Hor]; [|lia]. rewrite Hor, Z.ltb_irrefl in He1. lia.
Qed.

(** A whole round of replies: the first one opens the window. *)
Lemma x_receives_all st p m R p' z j c :
  replies st m R p' z → p <= m → xst j p c → p' <= slen S → p' < _next_seqno (_sender c) → p' <= st + CAP →
  (R = [] → p = p') → _highest_ackno_right (_sender c) <= raw_value ix + (1 + st + CAP) →
  proceeds st j p c R p'
    (Z.max (edge (_sender c)) (if _highest_ackno_right (_sender c) <? raw_value ix + (1 + st + CAP)
       then _next_seqno (_sender c) + (CAP - (m - st)) else 0) + z).
Proof using Hy HS Hread Hroomx.
  intros HR Hpm Hc Hp' Hn Hfit Hnil Hhr. destruct HR as [p'|p0 p1 seg R p' z Hp Hrep HR].
  { rewrite <- Hnil by done. exists j, c. split_and!; try done; [apply Hc..|apply xgoes_refl|by rewrite Exists_nil|lia|lia]. }
  pose proof (replies_le _ _ _ _ _ HR) as [Hle Hz].
  destruct (x_receives st j p1 c seg) as (c1 & H1 & Hc1 & Hg1 & He1 & Hr1 & Hn1 & _);
    [apply (xbase_pre j p); [apply Hc|lia]|done|lia|done|].
  apply (proceeds_cons st j p p1 c c1 seg R p' (edge (_sender c1) + z)); try done; [lia|..].
  - apply proceeds_rest; [done|done|done|pose proof (xg_next _ _ _ _ Hg1); lia|done|destruct (p1 =? _); lia|destruct (p1 =? _) eqn:E; lia].
  - pose proof (si_window _ _ (proj1 (ci_sender _ _ _ _ _ (x_inv _ _ _ (proj1 Hc))))) as Hw.
    unfold edge in *. unfold_width. destruct (p1 =? _) eqn:E in He1 |- *; [lia|].
    destruct (_ <? _) eqn:E' in He1 |- *; lia.
Qed.

(** ** The end of the stream at [x] *)

(** [x] has sent its FIN, which the next reply acknowledges. *)
Record xlast (j : Z) (c : TCPConnection) : Prop := {
  xl_inv : cinv S [] ix iy c;
  xl_drained : TCPSender._segments_out (_sender c) = [];
  xl_recv : inorder [] iy 0 j (_receiver c);
  xl_next : _next_seqno (_sender c) = slen S + 2;
  xl_highest : _highest_ackno (_sender c) <= raw_value ix + (slen S + 2);
  xl_flight : ∃ lo, 0 <= lo <= slen S + 2 ∧ flight lo (_sender c);
  xl_cons : 0 <= _consecutive_retransmissions (_sender c) <= 1;
  xl_cfg : rt_timeout (_cfg c) = TIMEOUT_DFLT
}.

(** A connection that is not active any more. *)
Definition dead (c : TCPConnection) : Prop := _active c = false ∧ _linger_after_streams_finish c = false.

(** The FIN of [x] is acknowledged; [x] may have closed. *)
Record xend (j : Z) (c : TCPConnection) : Prop := {
  xe_last : xlast j c;
  xe_flight : TCPSender._outstanding_segments (_sender c) = [];
  xe_ended : input_ended (_stream (_sender c)) = true;
  xe_status : _active c = true ∨ dead c ∧ j = 1
}.

Lemma xbase_last j p c : xbase j p c → p <= slen S → _next_seqno (_sender c) = slen S + 2 → xlast j c.
Proof using Type.
  intros [] Hp Hn. destruct x_flight0 as (lo & Hlo & Hfl). split; try done; [lia|]. exists lo. split; [lia|done].
Qed.

(** With FIN sent, the stream has ended. *)
Lemma last_ended s : sinv S s → _next_seqno s = slen S + 2 → input_ended (_stream s) = true.
Proof using Type.
  intros [[] Hn] Hl. pose proof (slen_nonneg (ByteStream._buffer (_stream s))). pose proof (slen_nonneg S).
  destruct (_fin_sent s) eqn:E; [|lia]. by apply andb_prop in si_fin as [? _].
Qed.

Lemma xend_status j c :
  xlast j c → _active c = true → TCPSender._outstanding_segments (_sender c) = [] →
  input_ended (_stream (_sender c)) = true → xend j (update_connection_status c).
Proof using Type.
  intros Hl Ha Ho He. unfold update_connection_status. pose proof (inorder_ended [] iy 0 j _ (xl_recv _ _ Hl)) as Hj.
  destruct (input_ended (TCPReceiver.stream_out _)); [|split; auto].
  pose proof (io_range _ _ _ _ _ (xl_recv _ _ Hl)) as Hr. rewrite (@slen_nil Z) in *.
  unfold stream_in. rewrite He. cbn [negb]. destruct (_ && _); [|split; auto].
  split; simpl; try done; [|right; split; [done|lia]]. destruct Hl as [[]]. by split.
Qed.

(** [x] answers, if at all, with an acknowledgment. *)
Definition xacks (j j' : Z) (c c' : TCPConnection) : Prop :=
  ∃ Q, _segments_out c' = _segments_out c ++ Q ∧
    arrives 2 (slen S) j (slen S + 1) Q j' (slen S + 1) 0.

Lemma x_closes st j c seg :
  xlast j c → _active c = true → reply st (slen S + 1) seg →
  let j' := if fin (header seg) then 1 else j in
  ∃ c', segment_received reads c seg = Ok c' ∧ xend j' c' ∧ xacks j j' c c'.
Proof using Hy HS Hread Hroomx.
  intros [] Ha (Hrst & Hack & Hackno & Hwin & Hst & Hcar & _) j'. pose proof (slen_nonneg S).
  rewrite Z.min_r in Hwin, Hst by lia. pose proof (io_range _ _ _ _ _ xl_recv0) as Hj. rewrite (@slen_nil Z) in Hj.
  destruct (connection_receives reads S [] ix iy Hread Hy ltac:(done) Hroomx c seg 0 j j' (slen S + 2) (CAP - (slen S - st)))
    as (r & s & Hr & Hak & Hc & ->); try done; [by apply carries_lands| |unfold DEFAULT_CAPACITY in *; unfold_width; lia|lia|].
  { rewrite Hackno. f_equal. lia. }
  assert (H' := Hak). destruct H'. rewrite (ci_isn _ _ _ _ _ xl_inv0) in *. destruct xl_flight0 as (lo & Hlo & Hfl).
  destruct (ak_flight lo ltac:(lia) Hfl) as (lo' & Hfl' & _ & _ & Hlo'). rewrite (Hlo' (eq_sym xl_next0)) in Hfl'.
  pose proof (sinv_next S s ak_inv). assert (_next_seqno s = slen S + 2) as Hn by lia.
  assert (TCPSender._outstanding_segments s = []) as Ho.
  { unfold flight in Hfl'. rewrite Hn in Hfl'. destruct (TCPSender._outstanding_segments s); [done|].
    destruct Hfl' as (_ & ? & ?%contiguous_le). lia. }
  pose proof (last_ended s ak_inv Hn) as Hen.
  assert (xlast j' (received c seg r s)) as Hl.
  { split; simpl; try done; [lia|exists (slen S + 2); split; [lia|done]|rewrite ak_consecutive; case_match; lia]. }
  eexists. split; [done|]. split; [by apply xend_status|].
  destruct (update_status_same (received c seg r s)) as (Eq & _). eexists. split; [exact Eq|].
  pose proof (answer_arrives 2 (slen S) j c seg r s (slen S + 2) (CAP - (slen S - st))) as Harr. cbn zeta in Harr.
  rewrite xl_next0, Hn in Harr. replace (slen S + 2 - 1) with (slen S + 1) in Harr by lia. apply Harr; try done; [lia|].
  destruct ak_new as (new & Hq & Hnew). rewrite xl_drained0 in Hq. simpl in Hq. intros q rest Hq'. rewrite <- Hq, Hq' in Hnew.
  destruct Hnew as (_ & ? & ?%contiguous_le). lia.
Qed.

(** A closed connection takes no notice of segments other than SYN. *)
Lemma dead_receives c seg :
  dead c → syn (header seg) = false → segment_received reads c seg = Ok (set_time c 0).
Proof using Type. intros [Ha _] Hs. unfold segment_received. cbn [_active set_time]. by rewrite Ha, Hs. Qed.

Lemma xend_receives st j c seg :
  xend j c → reply st (slen S + 1) seg →
  let j' := if fin (header seg) then 1 else j in
  ∃ c', segment_received reads c seg = Ok c' ∧ xend j' c' ∧ xacks j j' c c'.
Proof using Hy HS Hread Hroomx.
  intros [] Hrep j'. pose proof (slen_nonneg S). destruct xe_status0 as [Ha|[Hd ->]]; [by apply (x_closes st)|].
  rewrite dead_receives; [|done|].
  2: { destruct Hrep as (_ & _ & _ & _ & _ & _ & Hs). destruct (syn (header seg)); [|done]. specialize (Hs eq_refl). lia. }
  assert (j' = 1) as -> by (unfold j'; by destruct (fin _)). eexists. split; [done|]. split.
  - split; simpl; try done; [|by right]. destruct xe_last0 as [[]]. by split.
  - exists []. split; [by rewrite app_nil_r|constructor].
Qed.

Lemma xacks_trans j j1 j' c c1 c' : xacks j j1 c c1 → xacks j1 j' c1 c' → xacks j j' c c'.
Proof using Type.
  intros (Q1 & Hq1 & Ha1) (Q2 & Hq2 & Ha2). exists (Q1 ++ Q2). split; [by rewrite Hq2, Hq1, app_assoc|].
  by apply (arrives_app 2 (slen S) j _ Q1 j1 (slen S + 1) 0 Q2 j' _ 0).
Qed.

(** The rest of the replies after the FIN of [x] is acknowledged. *)
Lemma xend_receives_all st p R p' z : replies st p R p' z → ∀ j c,
  xend j c → p = slen S + 1 → p' = slen S + 1 →
  ∃ j' c', receive_all reads c R = Ok c' ∧ xend j' c' ∧ xacks j j' c c' ∧ j <= j' ∧
    (Exists (λ f, fin (header f) = true) R → j' = 1).
Proof using Hy HS Hread Hroomx.
  induction 1 as [p|p p1 seg R p' z Hp Hrep HR IH]; intros j c Hc -> Hp'.
  { exists j, c. split_and!; try done; [|by rewrite Exists_nil]. exists []. split; [by rewrite app_nil_r|constructor]. }
  assert (p1 = slen S + 1) as -> by (pose proof (replies_le _ _ _ _ _ HR); lia).
  destruct (xend_receives st j c seg Hc Hrep) as (c1 & H1 & Hc1 & Ha1).
  destruct (IH (if fin (header seg) then 1 else j) c1) as (j2 & c2 & H2 & Hc2 & Ha2 & Hj2 & Hf2); try done.
  exists j2, c2. cbn [receive_all]. rewrite H1. cbn [mbind result_bind].
  pose proof (io_range _ _ _ _ _ (xl_recv _ _ (xe_last _ _ Hc2))) as Hr2. pose proof (io_range _ _ _ _ _ (xl_recv _ _ (xe_last _ _ Hc))) as Hr.
  rewrite (@slen_nil Z) in Hr, Hr2. split; [done|]. split; [done|]. split; [by eapply xacks_trans|].
  rewrite Exists_cons. destruct (fin (header seg)); split; try lia. intros [?|?]; [done|auto].
Qed.

(** All replies of the round in which the FIN of [x] arrives. *)
Lemma x_receives_last st p R p' z : replies st p R p' z → ∀ j c,
  xst j p c → p <= slen S → p' = slen S + 1 → _next_seqno (_sender c) = slen S + 2 →
  _highest_ackno_right (_sender c) <= raw_value ix + (1 + st + CAP) →
  ∃ j' c', receive_all reads c R = Ok c' ∧ xend j' c' ∧ xacks j j' c c' ∧ j <= j' ∧
    (Exists (λ f, fin (header f) = true) R → j' = 1).
Proof using Hy HS Hread Hroomx.
  induction 1 as [p|p p1 seg R p' z Hp Hrep HR IH]; intros j c Hc Hp0 Hp' Hn Hhr; [lia|].
  pose proof (replies_le _ _ _ _ _ HR) as [Hle _]. pose proof (xst_j _ _ _ Hc) as Hj.
  assert (∃ c1, segment_received reads c seg = Ok c1 ∧ xacks j (if fin (header seg) then 1 else j) c c1 ∧
    ∃ j' c', receive_all reads c1 R = Ok c' ∧ xend j' c' ∧ xacks (if fin (header seg) then 1 else j) j' c1 c' ∧
      (if fin (header seg) then 1 else j) <= j' ∧ (Exists (λ f, fin (header f) = true) R → j' = 1))
    as (c1 & H1 & Ha1 & j2 & c2 & H2 & Hc2 & Ha2 & Hj2 & Hf2).
  { destruct (decide (p1 <= slen S)) as [Hp1|Hp1].
    - destruct (x_receives st j p1 c seg) as (c1 & H1 & Hc1 & [Hn1 _ (Q & Hq & Ha)] & _ & Hr1 & _);
        [apply (xbase_pre j p); [apply Hc|lia]|done|lia|done|].
      pose proof (sinv_next S _ (ci_sender _ _ _ _ _ (x_inv _ _ _ (proj1 Hc1)))).
      assert (_next_seqno (_sender c1) = slen S + 2) as Hn1' by lia. exists c1. split; [done|]. split.
      + exists Q. split; [done|]. specialize (Ha 2 (slen S)). rewrite Hn1', Hn in Ha.
        replace (slen S + 2 - 1) with (slen S + 1) in Ha by lia. apply Ha. lia.
      + apply IH; [done|done|done|done|]. destruct (p1 =? _); lia.
    - assert (p1 = slen S + 1) as -> by lia.
      destruct (x_closes st j c seg) as (c1 & H1 & Hc1 & Ha1); [by apply (xbase_last j p); [apply Hc|..]|apply Hc|done|].
      exists c1. split; [done|]. split; [done|]. by apply (xend_receives_all st (slen S + 1) R p' z). }
  exists j2, c2. cbn [receive_all]. rewrite H1. cbn [mbind result_bind].
  pose proof (io_range _ _ _ _ _ (xl_recv _ _ (xe_last _ _ Hc2))) as Hr2. rewrite (@slen_nil Z) in Hr2.
  split; [done|]. split; [done|]. split; [by eapply xacks_trans|].
  rewrite Exists_cons. destruct (fin (header seg)); split; try lia. intros [?|?]; [done|auto].
Qed.

(** ** [x] writes *)

(** Neither the window nor the acknowledgments change. *)
Definition same_window (c c' : TCPConnection) : Prop :=
  edge (_sender c') = edge (_sender c) ∧
  _highest_ackno_right (_sender c') = _highest_ackno_right (_sender c) ∧
  _consecutive_retransmissions (_sender c') = _consecutive_retransmissions (_sender c).

Lemma x_updates j p c :
  xbase j p c →
  ∃ c', update_sender c = Ok c' ∧ xst j p c' ∧ xgoes j j c c' ∧ same_window c c' ∧ written c' = written c.
Proof using HS Hroomx.
  intros Hb. assert (H := Hb). destruct H. pose proof (ci_sender _ _ _ _ _ x_inv0) as Hs.
  destruct (fill_in_order S (_sender c) Hs) as (s & Hf & Hs' & Hfill & Hsent); [lia|].
  destruct (cinv_update_sender S [] ix iy c x_inv0) as (c' & Hu & Hc' & _).
  unfold update_sender in *. rewrite Hf in *. cbn [mbind result_bind] in *. apply Ok_inj in Hu as <-.
  pose proof (ci_isn _ _ _ _ _ x_inv0) as Hi. pose proof Hsent as []. rewrite Hi in *.
  destruct sends_new as (new & Hq & _ & Hnew). rewrite x_drained0 in Hq. simpl in Hq. destruct x_flight0 as (lo & Hlo & Hfl).
  assert (flight lo s) as Hfl'.
  { apply sends_flight; [lia| |done]. rewrite <- Hi. apply (fits_next S); [done|rewrite Hi; by apply roomy_fits|].
    apply (sinv_next S s Hs'). }
  destruct sends_highest as [Hh1 Hh2]. destruct sends_timeout as (_ & _ & Hcons).
  assert (edge s = edge (_sender c)) as Hedge by exact sends_space.
  pose proof (sinv_next S s Hs'). eexists. split; [done|]. split.
  { split; [|exact Hfill]. split; simpl; try done; try lia; try congruence; [by exists lo| |..].
    - intros Hn. assert (_next_seqno s = _next_seqno (_sender c)) as En by lia.
      unfold flight in Hfl, Hfl'. rewrite x_idle0 in Hfl by lia. simpl in Hfl. rewrite En in Hfl'.
      destruct (TCPSender._outstanding_segments s) as [|q l]; [done|]. destruct Hfl' as (_ & ? & ?%contiguous_le). lia.
    - change (edge (TCPSender.set_segments_out s [])) with (edge s). lia.
    - change (edge (TCPSender.set_segments_out s [])) with (edge s). lia. }
  split; [|split; [by split_and!|exact sends_written]].
  split; simpl; [done|congruence|]. eexists. split; [done|]. intros g base Hg.
  unfold TCPSender.segments_out. rewrite Hq. apply arrives_contiguous; try done; try lia.
  - by replace (1 + (_next_seqno (_sender c) - 1)) with (_next_seqno (_sender c)) by lia;
      replace (1 + (_next_seqno s - 1)) with (_next_seqno s) by lia.
  - rewrite <- Hq, <- sends_isn. apply emits_carries, Hs'.
  - intros q rest ->. destruct Hnew as (_ & ? & _). lia.
Qed.

(** Another stream buffer does not change the rest. *)
Lemma xbase_set_stream j p c b :
  xbase j p c → cinv S [] ix iy (set_sender c (set_stream (_sender c) b)) → ByteStream._capacity b = CAP →
  xbase j p (set_sender c (set_stream (_sender c) b)).
Proof using Type. intros [] Hc Hb. by split. Qed.

(** What a call of the application of [x] keeps. *)
Definition xkeeps (j p : Z) (c c' : TCPConnection) : Prop :=
  xst j p c' ∧ xgoes j j c c' ∧ same_window c c'.

Lemma xkeeps_trans j p c c1 c' : xkeeps j p c c1 → xkeeps j p c1 c' → xkeeps j p c c'.
Proof using Type.
  intros (_ & Hg1 & E1 & E2 & E3) (Hc & Hg2 & F1 & F2 & F3). split; [done|]. split; [by eapply xgoes_trans|].
  split_and!; congruence.
Qed.

Lemma x_writes j p c data :
  xst j p c → slen data <= remaining_outbound_capacity c → data = stake (slen data) (sdrop (written c) S) →
  ∃ c', TCPConnection.write c data = Ok (c', slen data) ∧ xkeeps j p c c' ∧ written c' = written c + slen data.
Proof using HS Hroomx.
  intros Hc Hl Hd. pose proof (x_inv _ _ _ (proj1 Hc)) as Hinv.
  destruct (write_takes S [] ix iy c data Hinv Hl Hd) as (c' & Hw & _ & Hwr & _).
  exists c'. split; [done|]. split; [|done]. unfold TCPConnection.write in Hw.
  apply result_bind_ok in Hw as ([b n] & Hb & (c1 & Hu & [= -> ->]%Ok_inj)%result_bind_ok).
  assert (xbase j p (set_sender c (set_stream (_sender c) b))) as Hb'.
  { apply xbase_set_stream; [apply Hc| |].
    - destruct Hinv. split; simpl; try done. apply (write_sinv S _ (slen data) b (slen data)); [done|apply slen_nonneg|].
      change (bytes_written (_stream (_sender c))) with (written c). by rewrite <- Hd.
    - rewrite write_eq in Hb by apply Hinv. apply Ok_inj in Hb as [= <- _]. apply Hc. }
  destruct (x_updates j p _ Hb') as (c2 & Hu2 & Hc2 & Hg2 & Hs2 & _). rewrite Hu in Hu2. apply Ok_inj in Hu2 as <-.
  split; [done|]. split; [|done]. destruct Hg2 as [Hn He Hq]. split; [done| |done].
  intros Hend. apply He. rewrite write_eq in Hb by apply Hinv. by apply Ok_inj in Hb as [= <- _].
Qed.

(** What every write keeps, the first loop of a round keeps. *)
Lemma write_input_keeps (P : TCPConnection → TCPConnection → Prop) fuel :
  (∀ c c1 c', P c c1 → P c1 c' → P c c') →
  (∀ c c', P c c' → cinv S [] ix iy c') →
  (∀ c data, P c c → slen data <= remaining_outbound_capacity c → data = stake (slen data) (sdrop (written c) S) →
     ∃ c', TCPConnection.write c data = Ok (c', slen data) ∧ P c c' ∧ P c' c' ∧ written c' = written c + slen data) →
  ∀ c b, P c c → Buffer.wf b → str b = sdrop (written c) S → size b <= Z.of_nat fuel →
  ∃ c' b', write_input fuel c b = Ok (c', b') ∧ P c c' ∧ P c' c' ∧
    str b' = sdrop (written c') S ∧ (size b' = 0 ∨ remaining_outbound_capacity c' = 0).
Proof using Type.
  intros Htrans Hinv Hwrite. induction fuel as [|fuel IH]; intros c b Hc Hb Hs Hf; cbn [write_input].
  all: destruct (negb (size b =? 0) && negb (remaining_outbound_capacity c =? 0)) eqn:E.
  2, 4: exists c, b; split; [done|]; split; [done|]; split; [done|]; split; [done|lia].
  all: pose proof (slen_nonneg (str b)); unfold size in *.
  { lia. }
  set (want := Z.min _ _). assert (0 <= remaining_outbound_capacity c) as Hcap by apply u64_range.
  rewrite substr_ok by lia. rewrite sdrop_0. cbn [mbind result_bind].
  assert (slen (stake want (str b)) = want) as Hl by (rewrite slen_stake; lia).
  destruct (Hwrite c (stake want (str b)) Hc) as (c1 & -> & Hc1 & Hc1' & Hw1); [lia|by rewrite Hl, <- Hs|].
  rewrite Hl in *. cbn [mbind result_bind]. rewrite Z.eqb_refl. cbn [negb].
  pose proof (remove_prefix_spec b want Hb ltac:(lia)) as Hrp. case_decide; [|lia].
  destruct Hrp as (b1 & -> & Hb1 & Hs1). cbn [mbind result_bind].
  destruct (IH c1 b1 Hc1' Hb1) as (c2 & b2 & H2 & Hc2 & Hc2' & Hs2 & Hor).
  - pose proof (written_range _ _ _ _ _ (Hinv _ _ Hc)). rewrite Hs1, Hs, Hw1, sdrop_sdrop by lia. done.
  - rewrite Hs1, slen_sdrop by lia. lia.
  - exists c2, b2. split_and!; try done. by eapply Htrans.
Qed.

Lemma xkeeps_refl j p c : xst j p c → xkeeps j p c c.
Proof using Type. intros Hc. split; [done|]. split; [apply xgoes_refl|done]. Qed.

Lemma x_write_input j p fuel c b :
  xst j p c → Buffer.wf b → str b = sdrop (written c) S → size b <= Z.of_nat fuel →
  ∃ c' b', write_input fuel c b = Ok (c', b') ∧ xkeeps j p c c' ∧
    str b' = sdrop (written c') S ∧ (size b' = 0 ∨ remaining_outbound_capacity c' = 0).
Proof using HS Hroomx.
  intros Hc Hb Hs Hf. destruct (write_input_keeps (xkeeps j p) fuel) with (c := c) (b := b)
    as (c' & b' & H & Hk & _ & Hs' & Hor); try done.
  - apply xkeeps_trans.
  - intros c1 c2 Hk. apply Hk.
  - intros c1 data Hk Hl Hd. destruct (x_writes j p c1 data) as (c2 & Hw & Hk2 & Hwr); [apply Hk|done|done|].
    exists c2. split; [done|]. split; [done|]. split; [apply xkeeps_refl, Hk2|done].
  - by apply xkeeps_refl.
  - by exists c', b'.
Qed.

Lemma x_ends j p c :
  xst j p c → written c = slen S →
  ∃ c', end_input_stream c = Ok c' ∧ xkeeps j p c c' ∧ input_ended (_stream (_sender c')) = true ∧
    written c' = written c.
Proof using HS Hroomx.
  intros Hc Hw. pose proof (x_inv _ _ _ (proj1 Hc)) as Hinv. unfold end_input_stream.
  set (b := end_input (stream_in (_sender c))).
  assert (xbase j p (set_sender c (set_stream (_sender c) b))) as Hb.
  { apply xbase_set_stream; [apply Hc| |apply Hc]. destruct Hinv. split; simpl; try done.
    by destruct (sstep_sinv S (_sender c) [] _ ci_sender (step_end S (_sender c) Hw)). }
  destruct (x_updates j p _ Hb) as (c2 & Hu2 & Hc2 & [Hn He Hq] & Hs2 & Hw2). exists c2.
  split; [done|]. split; [|split; [by apply He|done]]. split; [done|]. split; [|done]. split; [done|auto|done].
Qed.

(** Either there is something to send beyond [p], or all has been sent. *)
Lemma x_advances j p c :
  xst j p c → p <= slen S → input_ended (_stream (_sender c)) = true ∨ remaining_outbound_capacity c = 0 →
  1 + p < _next_seqno (_sender c).
Proof using Type.
  intros [[] Hfill] Hp Hor. pose proof (ci_sender _ _ _ _ _ x_inv0) as Hs.
  destruct (decide (_next_seqno (_sender c) = 1 + p)) as [Hn|]; [|lia]. unfold edge in *.
  destruct Hfill as [?|[Hbe Hfin]]; [lia|]. destruct Hor as [He|Hr].
  - pose proof (fin_sent_next _ Hs ltac:(lia) (Hfin He)). lia.
  - unfold remaining_outbound_capacity, stream_in in Hr. rewrite remaining_capacity_eq in Hr by apply Hs.
    unfold buffer_empty, buffer_size in Hbe. rewrite x_cap0 in Hr. unfold DEFAULT_CAPACITY in Hr. lia.
Qed.

(** Unless the stream comes to its end, the buffer is full. *)
Lemma x_buffered j p c :
  xst j p c → written c = slen S ∨ remaining_outbound_capacity c = 0 →
  3 <= slen (ByteStream._buffer (_stream (_sender c))) ∨ slen S <= _next_seqno (_sender c) + 1.
Proof using Type.
  intros [[] _] Hor. destruct (ci_sender _ _ _ _ _ x_inv0) as [[] Hn]. destruct Hor as [Hw|Hr].
  - unfold written, stream_in in Hw. destruct Hn as [?|Hn]; [lia|]. destruct (_fin_sent _); lia.
  - left. unfold remaining_outbound_capacity, stream_in in Hr. rewrite remaining_capacity_eq in Hr by done.
    rewrite x_cap0 in Hr. unfold DEFAULT_CAPACITY in Hr. lia.
Qed.

(** The first part of a round: [x] writes, and ends its stream after the last byte. *)
Lemma x_turn j p s :
  bench_inv S ix iy s → xst j p (x s) → p <= slen S →
  (x_closed s = true → input_ended (_stream (_sender (x s))) = true) →
  ∃ x1 b x2 cl,
    write_input (Z.to_nat (size (bytes_to_send s))) (x s) (bytes_to_send s) = Ok (x1, b) ∧
    (if (size b =? 0) && negb (x_closed s) then x ← end_input_stream x1; Ok (x, true)
     else Ok (x1, x_closed s)) = Ok (x2, cl) ∧
    xkeeps j p (x s) x2 ∧ (cl = true → input_ended (_stream (_sender x2)) = true) ∧
    1 + p < _next_seqno (_sender x2) ∧
    (3 <= slen (ByteStream._buffer (_stream (_sender x2))) ∨ slen S <= _next_seqno (_sender x2) + 1).
Proof using HS Hroomx.
  intros [] Hc Hp Hcl. pose proof (slen_nonneg (str (bytes_to_send s))).
  destruct (x_write_input j p (Z.to_nat (size (bytes_to_send s))) (x s) (bytes_to_send s))
    as (x1 & b & H1 & Hk1 & Hs1 & Hor); try done; [unfold size; lia|]. exists x1, b.
  pose proof (written_range _ _ _ _ _ (x_inv _ _ _ (proj1 (proj1 Hk1)))) as Hwr.
  assert (size b = 0 → written x1 = slen S) as Hwb.
  { unfold size. rewrite Hs1, slen_sdrop by lia. lia. }
  destruct ((size b =? 0) && negb (x_closed s)) eqn:E.
  - destruct (x_ends j p x1) as (x2 & H2 & Hk2 & He2 & Hw2); [apply Hk1|apply Hwb; lia|].
    exists x2, true. rewrite H2. split; [done|]. split; [done|]. split; [by eapply xkeeps_trans|]. split; [done|].
    split; [apply (x_advances j p); [apply Hk2|done|by left]|apply (x_buffered j p); [apply Hk2|left]]. rewrite Hw2. apply Hwb. lia.
  - exists x1, (x_closed s). split; [done|]. split; [done|]. split; [done|].
    assert (x_closed s = true → input_ended (_stream (_sender x1)) = true) as He1
      by (intros Hx1; by apply (xg_ended _ _ _ _ (proj1 (proj2 Hk1))), Hcl).
    split; [done|]. split; [apply (x_advances j p); [apply Hk1|done|]|apply (x_buffered j p); [apply Hk1|]].
    + destruct Hor as [Hz|]; [left|by right]. apply He1. destruct (x_closed s); [done|]. rewrite Hz in E. done.
    + destruct Hor as [Hz|]; [left; by apply Hwb|by right].
Qed.

(** ** The end of a round *)

(** The program empties the inbound stream of [y]. *)
Definition read_all (y : TCPConnection) (rec : bytes) : result (TCPConnection * bytes) :=
  if 0 <? buffer_size (inbound_stream y) then
    '(y, s') ← read_inbound y (buffer_size (inbound_stream y)); Ok (y, rec ++ s')
  else Ok (y, rec).

Lemma y_reads kk st p c rec :
  yst kk st p c →
  ∃ c' rec', read_all c rec = Ok (c', rec') ∧ yst kk (Z.min p (slen S)) p c' ∧
    _segments_out c' = _segments_out c ∧ _sender c' = _sender c.
Proof using Type.
  intros []. unfold read_all, inbound_stream, read_inbound.
  destruct (inorder_read S ix st p (_receiver c) y_recv0) as (r & out & -> & Hr). cbn [mbind result_bind].
  destruct (0 <? _) eqn:E.
  - eexists _, _. split; [done|]. split; [|done]. split; simpl; try done. destruct y_inv0. split; simpl; try done. apply Hr.
  - exists c, rec. split; [done|]. split; [|done]. split; try done. destruct y_recv0. split; try done. simpl.
    unfold start in *. unfold buffer_size, TCPReceiver.stream_out, StreamReassembler.stream_out in E.
    pose proof (slen_nonneg (buffered (_reassembler (_receiver c)))). unfold buffered in *. lia.
Qed.

(** [y] is not finished before the FIN of [x] has arrived and its own is acknowledged. *)
Lemma y_open kk st p c : yst kk st p c → p <= slen S ∨ kk < 2 → ¬ finished c.
Proof using Type.
  intros [] Hor (He & _ & Hf). unfold inbound_stream in He. rewrite (inorder_ended S ix st p _ y_recv0) in He.
  destruct Hor as [?|Hk]; [lia|]. unfold bytes_in_flight in Hf. rewrite (bytes_in_flight_eq kk) in Hf by (try done; lia). lia.
Qed.

Lemma y_ticks kk st p c :
  yst kk st p c → (p <= slen S ∨ kk < 2 ∨ 0 <= _time_since_last_segment_received c < 9000) →
  (_consecutive_retransmissions (_sender c) = 0 ∨ kk = 2) → (kk = 0 → p = 0) →
  ∃ R, yst kk st p (tick c 1000) ∧ _segments_out (tick c 1000) = _segments_out c ++ R ∧
    Forall (reply st p) R ∧ (kk = 2 → R = []).
Proof using Hroomy.
  intros Hc Hp Hor Hk0. assert (H := Hc). destruct H.
  assert (kk = 2 → TCPSender._outstanding_segments (_sender c) = []) as Hnil.
  { intros ->. unfold flight in y_flight0. rewrite y_next0 in y_flight0.
    destruct (TCPSender._outstanding_segments (_sender c)) as [|q l]; [done|].
    destruct y_flight0 as (_ & ? & ?%contiguous_le). lia. }
  destruct (busy_ticks c) as (s & dup & t & Ht & [] & Hdup & Hcons); [done|done| |].
  { intros Hf. rewrite y_cfg0. destruct Hp as [Hp|[Hp|Hp]]; [destruct (y_open kk st p c Hc ltac:(lia) Hf)..|].
    rewrite u64_small by (unfold_width; lia). unfold TIMEOUT_DFLT. lia. }
  pose proof (cinv_tick _ _ _ _ c 1000 y_inv0) as Hinv. rewrite Ht in *.
  exists (map (stamp (_receiver c)) dup). split.
  { split; simpl; try done; try congruence; [unfold flight in *; congruence|intros; split; rewrite ?tk_highest, ?tk_right; by apply y_right0|].
    destruct (TCPSender._outstanding_segments (_sender c)) eqn:E; [lia|]. destruct Hor as [?|Hk]; [lia|by specialize (Hnil Hk)]. }
  split; [done|]. split.
  - apply Forall_map. destruct Hdup as [->|(q & rest & Hq & ->)]; [done|]. apply Forall_singleton.
    pose proof (emits_carries _ _ _ (si_outstanding _ _ (proj1 (ci_sender _ _ _ _ _ y_inv0)))) as Ho. rewrite Hq, (ci_isn _ _ _ _ _ y_inv0) in Ho.
    apply Forall_cons_1 in Ho as [Ho _]. unfold flight in y_flight0. rewrite Hq in y_flight0.
    destruct y_flight0 as ([Hseq Hrst] & _). apply stamp_reply; [done|done|done|]. intros Hsyn.
    destruct (decide (kk = 0)) as [E|]; [by apply Hk0|]. rewrite (ci_isn _ _ _ _ _ y_inv0) in Hseq.
    by rewrite (numbered_not_syn _ _ Ho Hseq ltac:(lia)) in Hsyn.
  - intros Hk. destruct Hdup as [->|(q & rest & Hq & _)]; [done|]. by rewrite (Hnil Hk) in Hq.
Qed.

Lemma x_ticks g j0 j p c :
  xst j p c → p <= slen S → _consecutive_retransmissions (_sender c) = 0 →
  arrives g p j0 p (_segments_out c) j (_next_seqno (_sender c) - 1) 0 →
  let c' := tick c 1000 in
  ∃ k, xst j p c' ∧ arrives g p j0 p (_segments_out c') j (_next_seqno (_sender c') - 1) k ∧ k <= 1 ∧
    edge (_sender c') = edge (_sender c) ∧
    _highest_ackno_right (_sender c') = _highest_ackno_right (_sender c) ∧
    _next_seqno (_sender c') = _next_seqno (_sender c) ∧
    _stream (_sender c') = _stream (_sender c).
Proof using HS Hroomx.
  intros Hc Hp Hcons Harr. assert (H := Hc). destruct H as [[] Hfill].
  destruct (busy_ticks c) as (s & dup & t & Ht & [] & Hdup & Hcons'); [done|lia| |].
  { intros Hf. by destruct (x_busy j p c Hc Hp). }
  pose proof (cinv_tick _ _ _ _ c 1000 x_inv0) as Hinv. rewrite Ht in *. simpl.
  assert (edge s = edge (_sender c)) as He by (unfold edge; congruence).
  assert (∃ k, arrives g p j0 p (_segments_out c ++ map (stamp (_receiver c)) dup) j (_next_seqno s - 1) k ∧ k <= 1)
    as (k & Hk & Hk1).
  { rewrite tk_next. destruct Hdup as [->|(q & rest & Hq & ->)]; [exists 0; by rewrite app_nil_r|].
    exists (0 + (0 + 1)). split; [|lia]. eapply arrives_app; [exact Harr|]. destruct x_flight0 as (lo & Hlo & Hfl).
    pose proof (ci_sender _ _ _ _ _ x_inv0) as Hs. pose proof (sinv_next S _ Hs).
    pose proof (emits_carries _ _ _ (si_outstanding _ _ (proj1 Hs))) as Ho. rewrite Hq, (ci_isn _ _ _ _ _ x_inv0) in Ho.
    apply Forall_cons_1 in Ho as [Ho _]. unfold flight in Hfl. rewrite Hq, (ci_isn _ _ _ _ _ x_inv0) in Hfl.
    destruct Hfl as ([Hseq Hrst] & Hlen & Hle%contiguous_le). destruct (stamp_same (_receiver c) q) as (_ & El & _ & Hpc).
    eapply (arr_dup g p j _ j (lo - 1)); [lia|by apply stamp_stamped| |rewrite El; lia| |constructor].
    - apply Hpc, carries_piece; [done| |done|lia]. by replace (1 + (lo - 1)) with lo by lia.
    - eapply arrives_gap; [exact Harr|]. destruct (decide (_next_seqno (_sender c) = 1 + p)) as [E|]; [|lia].
      by rewrite (x_idle0 E) in Hq. }
  exists k. split; [|by split_and!]. split.
  - destruct x_flight0 as (lo & Hlo & Hfl).
    split; simpl; try done; try congruence;
      [exists lo; unfold flight in *; by rewrite tk_isn, tk_outstanding, tk_next|by rewrite tk_next, tk_outstanding|].
    case_match; lia.
  - unfold filled in *. simpl. by rewrite tk_window, tk_stream, tk_fin.
Qed.

(** ** A round *)

Lemma loop_stages s x1 b x2 cl y1 s' :
  write_input (Z.to_nat (size (bytes_to_send s))) (x s) (bytes_to_send s) = Ok (x1, b) →
  (if (size b =? 0) && negb (x_closed s) then x ← end_input_stream x1; Ok (x, true)
   else Ok (x1, x_closed s)) = Ok (x2, cl) →
  receive_all reads (y s) (_segments_out x2) = Ok y1 → loop reads false s = Ok s' →
  ∃ x4 y5 rec, receive_all reads (set_segments_out x2 []) (_segments_out y1) = Ok x4 ∧
    read_all (set_segments_out y1 []) (string_received s) = Ok (y5, rec) ∧
    s' = mkBench (tick x4 1000) (tick y5 1000) b cl rec.
Proof using Type.
  intros H1 H2 H3. unfold loop. rewrite H1. cbn [mbind result_bind]. rewrite H2. cbn [mbind result_bind].
  unfold move_segments, segments_out. rewrite H3. cbn [mbind result_bind].
  intros ([y4 x4] & (x4' & H4 & [= <- <-]%Ok_inj)%result_bind_ok & ([y5 rec] & H5 & <-%Ok_inj)%result_bind_ok)%result_bind_ok.
  by exists x4', y5, rec.
Qed.

Lemma before_exchange_eq s x1 b x2 cl :
  write_input (Z.to_nat (size (bytes_to_send s))) (x s) (bytes_to_send s) = Ok (x1, b) →
  (if (size b =? 0) && negb (x_closed s) then x ← end_input_stream x1; Ok (x, true)
   else Ok (x1, x_closed s)) = Ok (x2, cl) → before_exchange s = Ok (x2, b, cl).
Proof using Type. intros H1 H2. unfold before_exchange. rewrite H1. cbn [mbind result_bind]. by rewrite H2. Qed.

(** Between two rounds, [y] has got the position [Y], and its application has
    read everything.  [y] waits for an acknowledgment of SYN ([j0 + j1 = 0]),
    then of FIN ([j0 + j1 = 1]), then of nothing ([j0 + j1 = 2]); [x] may send
    up to the capacity of [y], and in the steady state one byte less. *)
Record boundary (j0 j1 g Y : Z) (s : Bench) : Prop := {
  bd_inv : bench_inv S ix iy s;
  bd_x : xst j1 Y (x s);
  bd_y : yst (j0 + j1) Y Y (y s);
  bd_queue : ∃ k, arrives g Y j0 Y (_segments_out (x s)) j1 (_next_seqno (_sender (x s)) - 1) k ∧ k <= 1;
  bd_replies : Forall (reply Y Y) (_segments_out (y s));
  bd_closed : x_closed s = true → input_ended (_stream (_sender (x s))) = true;
  bd_edge : edge (_sender (x s)) <= 1 + Y + CAP;
  bd_right : _highest_ackno_right (_sender (x s)) <= raw_value ix + (1 + Y + CAP);
  bd_position : 0 <= Y <= slen S;
  bd_phase :
    (j0 = 0 ∧ j1 = 0 ∧ g = 1 ∧ _highest_ackno_right (_sender (x s)) = raw_value ix + (1 + Y + CAP)) ∨
    (j0 = 0 ∧ j1 = 1 ∧ g = 1 ∧ edge (_sender (x s)) <= Y + CAP) ∨
    (j0 = 1 ∧ j1 = 1 ∧ _segments_out (y s) = [] ∧
     ((g = 1 ∧ (edge (_sender (x s)) <= Y + CAP ∨ slen S < Y + CAP)) ∨
      (g = 3 ∧ Y + 3 <= _next_seqno (_sender (x s)))))
}.

(** The first half of a round: all that [x] has sent arrives at [y]. *)
Lemma round_first j0 j1 g Y s :
  boundary j0 j1 g Y s →
  ∃ x1 b x2 cl y1 R z,
    write_input (Z.to_nat (size (bytes_to_send s))) (x s) (bytes_to_send s) = Ok (x1, b) ∧
    (if (size b =? 0) && negb (x_closed s) then x ← end_input_stream x1; Ok (x, true)
     else Ok (x1, x_closed s)) = Ok (x2, cl) ∧
    receive_all reads (y s) (_segments_out x2) = Ok y1 ∧
    xkeeps j1 Y (x s) x2 ∧ (cl = true → input_ended (_stream (_sender x2)) = true) ∧
    1 + Y < _next_seqno (_sender x2) <= 1 + Y + CAP ∧
    (3 <= slen (ByteStream._buffer (_stream (_sender x2))) ∨ slen S <= _next_seqno (_sender x2) + 1) ∧
    yst (1 + j1) Y (_next_seqno (_sender x2) - 1) y1 ∧ _segments_out y1 = _segments_out (y s) ++ R ∧
    (_consecutive_retransmissions (_sender y1) = 0 ∨ 1 + j1 = 2) ∧
    (j0 + j1 = 0 → Exists (λ f, fin (header f) = true) R) ∧
    replies Y Y R (_next_seqno (_sender x2) - 1) z ∧ z <= 2 ∧
    (j0 + j1 ≠ 0 → replies Y (Y + g) R (_next_seqno (_sender x2) - 1) z).
Proof using Hx Hroomy Hroomx Hread HS.
  intros []. destruct (x_turn j1 Y (s)) as (x1 & b & x2 & cl & H1 & H2 & Hk & Hcl & Hn & Hbuf); try done; [lia|].
  exists x1, b, x2, cl. pose proof Hk as (Hx2 & [Hn2 _ (Q & Hq2 & Ha2)] & He2 & _).
  destruct bd_queue0 as (k & Ha & Hk1).
  assert (_next_seqno (_sender x2) <= 1 + Y + CAP) as Hn3.
  { pose proof (si_window _ _ (proj1 (ci_sender _ _ _ _ _ (x_inv _ _ _ (proj1 Hx2))))) as Hw.
    unfold edge in *. unfold_width. lia. }
  assert (arrives g Y j0 Y (_segments_out x2) j1 (_next_seqno (_sender x2) - 1) (k + 0)) as Harr.
  { rewrite Hq2. eapply arrives_app; [exact Ha|]. apply Ha2. pose proof (x_next _ _ _ (proj1 bd_x0)). lia. }
  rewrite Z.add_0_r in Harr.
  destruct (y_receives_all Y g j0 Y _ j1 _ k Harr (j0 + j1) (y s)) as (y1 & R & z & H3 & Hy1 & Hq1 & Hc1 & H0 & HR & Hz & Hg);
    [done|lia|lia|lia|unfold DEFAULT_CAPACITY; lia|].
  destruct (_segments_out x2) as [|q0 q] eqn:Eq; [inv Harr; lia|].
  exists y1, R, z. split; [done|]. split; [done|]. split; [done|]. split; [done|]. split; [done|]. split; [lia|].
  split; [done|]. split; [done|]. split; [done|]. split.
  { destruct (decide (j0 + j1 = 0)) as [E|]; [left; by apply H0|right; lia]. }
  split; [intros E; by apply H0|]. split; [done|]. split; [destruct (_ <? _); lia|].
  intros E. destruct (Hg E) as [->|]; [inv HR; lia|done].
Qed.

(** [x] after the second half, ready for the next round: its window is one
    below the capacity, or the first segment it has queued is not tiny. *)
Definition ready (j1 Y : Z) (c : TCPConnection) (g : Z) : Prop :=
  xst 1 Y c ∧ arrives g Y j1 Y (_segments_out c) 1 (_next_seqno (_sender c) - 1) 0 ∧
  edge (_sender c) <= 1 + Y + CAP ∧ _highest_ackno_right (_sender c) <= raw_value ix + (1 + Y + CAP) ∧
  _consecutive_retransmissions (_sender c) = 0 ∧
  ((g = 1 ∧ (edge (_sender c) <= Y + CAP ∨ slen S < Y + CAP ∧ j1 = 1)) ∨
   (g = 3 ∧ Y + 3 <= _next_seqno (_sender c) ∧ j1 = 1)).

Lemma xst_no_queue j p c : xst j p c → xst j p (set_segments_out c []).
Proof using Type. intros [[[] ?] ?]. by split; [split|]. Qed.

(** The edge stays one below the capacity. *)
Lemma proceeds_ready st j1 c R Y e :
  let Y' := _next_seqno (_sender c) - 1 in
  proceeds st j1 Y (set_segments_out c []) R Y' e → Y < Y' → st <= Y' →
  (j1 = 1 ∨ Exists (λ f, fin (header f) = true) R) → e <= 1 + Y' + CAP →
  (e <= Y' + CAP ∨ slen S < Y' + CAP ∧ j1 = 1) →
  ∃ c', receive_all reads (set_segments_out c []) R = Ok c' ∧ ready j1 Y' c' 1 ∧
    (input_ended (_stream (_sender c)) = true → input_ended (_stream (_sender c')) = true).
Proof using Type.
  intros Y' (j' & c' & H & Hc' & [Hn He (Q & Hq & Ha)] & Hf & Hj & Hed & Hr & _ & Hcons) HY Hst Hfin He1 He2.
  exists c'. split; [done|]. split; [|done]. pose proof (xst_j _ _ _ Hc').
  assert (j' = 1) as -> by (destruct Hfin as [->|Hfin]; [lia|auto]).
  split; [done|]. split; [rewrite Hq; apply Ha; unfold Y'; simpl; lia|]. split; [lia|]. split; [lia|].
  split; [auto|]. left. split; [done|]. destruct He2; [left; lia|by right].
Qed.

Section Second.
Context (j1 Y : Z) (x2 : TCPConnection).
Context (Hx2 : xst j1 Y x2) (Hn : 1 + Y < _next_seqno (_sender x2) <= 1 + Y + CAP).
Context (HL : _next_seqno (_sender x2) <= slen S + 1).
Context (Hr2 : _highest_ackno_right (_sender x2) <= raw_value ix + (1 + Y + CAP)).

(** What the second half of a round has to show. *)
Definition second (R : list TCPSegment) : Prop :=
  ∃ c' g', receive_all reads (set_segments_out x2 []) R = Ok c' ∧
    ready j1 (_next_seqno (_sender x2) - 1) c' g' ∧
    (input_ended (_stream (_sender x2)) = true → input_ended (_stream (_sender c')) = true).

(** The window moves by what the first answer acknowledges. *)
Lemma second_plain m R z :
  let Y' := _next_seqno (_sender x2) - 1 in
  replies Y m R Y' z → R ≠ [] → Y <= m → (j1 = 1 ∨ Exists (λ f, fin (header f) = true) R) →
  (let e := Z.max (edge (_sender x2)) (if _highest_ackno_right (_sender x2) <? raw_value ix + (1 + Y + CAP)
       then _next_seqno (_sender x2) + (CAP - (m - Y)) else 0) + z in
   e <= 1 + Y' + CAP ∧ (e <= Y' + CAP ∨ slen S < Y' + CAP ∧ j1 = 1)) →
  second R.
Proof using Hy Hx2 Hroomx Hread Hr2 Hn HS HL.
  intros Y' HR Hne Hm Hfin [He1 He2].
  destruct (proceeds_ready Y j1 x2 R Y (Z.max (edge (_sender x2))
    (if _highest_ackno_right (_sender x2) <? raw_value ix + (1 + Y + CAP)
     then _next_seqno (_sender x2) + (CAP - (m - Y)) else 0) + z)) as (c' & H & Hc' & He); try done; try lia.
  - apply (x_receives_all Y Y m R Y' z j1 (set_segments_out x2 [])); try done; simpl; try lia.
    by apply xst_no_queue.
  - by exists c', 1.
Qed.

(** A repeated segment of [y] may open the whole window. *)
Lemma second_raise f R :
  let Y' := _next_seqno (_sender x2) - 1 in
  j1 = 1 → reply Y Y f → replies Y Y R Y' 0 → 3 <= slen (ByteStream._buffer (_stream (_sender x2))) →
  _highest_ackno_right (_sender x2) < raw_value ix + (1 + Y + CAP) →
  second (f :: R).
Proof using Hy Hx2 Hroomx Hread Hr2 Hn HS HL.
  intros Y' Hj Hf HR Hbuf Hlt. set (c := set_segments_out x2 []).
  pose proof (xst_no_queue _ _ _ Hx2) as Hc. fold c in Hc. pose proof (x_next _ _ _ (proj1 Hc)) as HY.
  destruct (x_receives Y j1 Y c f) as (c1 & H1 & Hc1 & Hg1 & He1 & Hr1 & _ & H3);
    [apply (xbase_pre j1 Y); [apply Hc|simpl; lia]|done|lia|done|].
  destruct (H3 Hbuf ltac:(unfold DEFAULT_CAPACITY; lia) Hlt) as (Q & Hq & Ha & Hn3). simpl in *.
  destruct (Y =? Y + CAP) eqn:E; [unfold DEFAULT_CAPACITY in E; lia|]. destruct (_ <? _) eqn:E' in He1; [|lia].
  destruct (proceeds_rest Y Y R Y' 0 HR (if fin (header f) then 1 else j1) c1)
    as (j2 & c2 & H2 & Hc2 & [Hn2 Hend (Q2 & Hq2 & Ha2)] & Hf2 & Hj2 & He2 & Hr2' & Hn2' & Hcons2);
    [done|lia|lia|lia|lia|by left|].
  assert (j2 = 1) as -> by (pose proof (xst_j _ _ _ Hc2); destruct (fin (header f)); lia).
  exists c2, 3. cbn [receive_all]. fold c. rewrite H1. cbn [mbind result_bind]. split; [done|].
  split; [|intros Hen; by apply Hend, (xg_ended _ _ _ _ Hg1)]. fold Y'.
  split; [done|]. split.
  { rewrite Hq2, Hq. apply (arrives_app 3 Y' j1 Y' Q _ _ 0 Q2 1 _ 0 Ha). apply Ha2. unfold Y'. lia. }
  split; [unfold Y'; lia|]. split; [unfold Y'; lia|]. split; [apply Hcons2; unfold Y'; lia|]. right.
  split; [done|]. split; [unfold Y'; lia|done].
Qed.

End Second.

(** What [y] has repeated since it was read. *)
Lemma repeated_replies Y l : Forall (reply Y Y) l → replies Y Y l Y 0.
Proof using Type.
  intros Hl. induction Hl as [|f l Hf _ IH]; [constructor|].
  replace 0 with (0 + (if Y =? Y + CAP then 1 else 0)) by (unfold DEFAULT_CAPACITY; case_match; lia). by econstructor.
Qed.

(** The second half: the answers arrive at [x]. *)
Lemma round_second j0 j1 g Y s x2 R z :
  boundary j0 j1 g Y s → xkeeps j1 Y (x s) x2 →
  1 + Y < _next_seqno (_sender x2) <= 1 + Y + CAP → _next_seqno (_sender x2) <= slen S + 1 →
  (3 <= slen (ByteStream._buffer (_stream (_sender x2))) ∨ slen S <= _next_seqno (_sender x2) + 1) →
  (j0 + j1 = 0 → Exists (λ f, fin (header f) = true) R) →
  replies Y Y R (_next_seqno (_sender x2) - 1) z → z <= 2 →
  (j0 + j1 ≠ 0 → replies Y (Y + g) R (_next_seqno (_sender x2) - 1) z) →
  second j1 x2 (_segments_out (y s) ++ R).
Proof using Hy Hroomx Hread HS.
  intros [] (Hx2 & _ & He2 & Hr2 & _) Hn HL Hbuf Hfin HR Hz Hg. rewrite <- Hr2, <- He2 in *. clear Hr2 He2.
  pose proof (repeated_replies _ _ bd_replies0) as HR0. assert (R ≠ []) as Hne by (intros ->; inv HR; lia).
  pose proof (replies_open _ _ _ _ _ HR) as Hopen.
  pose proof (si_window _ _ (proj1 (ci_sender _ _ _ _ _ (x_inv _ _ _ (proj1 Hx2))))) as Hw.
  assert (_next_seqno (_sender x2) <= edge (_sender x2)) as Hned by (unfold edge; unfold_width; lia). clear Hw.
  pose proof (replies_app _ _ _ _ _ _ _ _ HR0 HR) as HRR. rewrite Z.add_0_l in HRR.
  assert (_segments_out (y s) ++ R ≠ []) as HneR by (by destruct (_segments_out (y s))).
  pose proof (eq_refl : CAP = 64000) as HCAP.
  destruct bd_phase0 as [(-> & -> & -> & Hhr)|[(-> & -> & -> & He)|(-> & -> & Hy0 & Hph)]].
  - apply (second_plain 0 Y x2 Hx2 Hn HL bd_right0 Y _ z); try done.
    + right. apply Exists_app. auto.
    + cbn zeta. rewrite Hhr, Z.ltb_irrefl. lia.
  - destruct (_highest_ackno_right (_sender x2) <? raw_value ix + (1 + Y + CAP)) eqn:Ehr.
    2: { apply (second_plain 1 Y x2 Hx2 Hn HL bd_right0 Y _ z); try done; [by left|]. cbn zeta. rewrite Ehr. lia. }
    destruct (_segments_out (y s)) as [|f R0].
    { apply (second_plain 1 Y x2 Hx2 Hn HL bd_right0 (Y + 1) R z); auto; [lia|]. cbn zeta. rewrite Ehr. lia. }
    destruct Hbuf as [Hbuf|Hbuf].
    + apply Forall_cons_1 in bd_replies0 as [Hf Hfs]. rewrite Hopen in HR by lia.
      apply (second_raise 1 Y x2 Hx2 Hn HL bd_right0 f (R0 ++ R)); try done; [|lia].
      by apply (replies_app _ _ _ _ 0 _ _ 0 (repeated_replies _ _ Hfs)).
    + apply (second_plain 1 Y x2 Hx2 Hn HL bd_right0 Y _ z); try done; [by left|]. cbn zeta. rewrite Ehr. lia.
  - rewrite Hy0. apply (second_plain 1 Y x2 Hx2 Hn HL bd_right0 (Y + g) R z); auto; [lia|]. cbn zeta.
    destruct (_ <? _) eqn:Ehr; lia.
Qed.

(** ** The end of the stream at both endpoints *)

Lemma receive_all_time q : ∀ c c',
  receive_all reads c q = Ok c' →
  match q with [] => c' = c | _ => _time_since_last_segment_received c' = 0 end.
Proof using Type.
  induction q as [|seg q IH]; intros c c'; cbn [receive_all]; [by intros <-%Ok_inj|].
  intros (c1 & H1%segment_received_time & H2)%result_bind_ok. specialize (IH c1 c' H2). destruct q; [by subst c'|done].
Qed.

Lemma read_all_time c rec c' rec' :
  read_all c rec = Ok (c', rec') → _time_since_last_segment_received c' = _time_since_last_segment_received c.
Proof using Type.
  unfold read_all, read_inbound. destruct (_ <? _); [|by intros [= <- _]%Ok_inj].
  by intros ([c1 out] & ([r o] & _ & [= <- _]%Ok_inj)%result_bind_ok & [= <- _]%Ok_inj)%result_bind_ok.
Qed.

(** [x] lives on after its FIN is acknowledged, or closes. *)
Lemma xend_ticks c :
  xend 1 c → 0 <= _time_since_last_segment_received c < 0x100000000 →
  xend 1 (tick c 1000) ∧ _segments_out (tick c 1000) = _segments_out c ∧
  (9000 <= _time_since_last_segment_received c → dead (tick c 1000)).
Proof using Type.
  intros [[] Ho He Hst] Htm. assert (finished c) as Hfin.
  { split; [|split; [done|]].
    - unfold inbound_stream. by rewrite (inorder_ended [] iy 0 1 _ xl_recv0).
    - unfold bytes_in_flight, TCPSender.bytes_in_flight. by rewrite Ho. }
  pose proof (cinv_tick _ _ _ _ c 1000 xl_inv0) as Hinv. destruct xl_flight0 as (lo & Hlo & Hfl).
  destruct (connection_ticks c xl_drained0 xl_cons0) as (s & dup & [] & Hdup & Hcons & Hor). cbn zeta in Hor.
  rewrite u64_small in Hor by (unfold_width; lia). rewrite xl_cfg0 in Hor. rewrite Ho in Hdup, Hcons.
  assert (dup = []) as -> by (destruct Hdup as [?|(? & ? & ? & _)]; done). rewrite app_nil_r in Hor.
  assert (∀ c', _sender c' = s → _receiver c' = _receiver c → cinv S [] ix iy c' → rt_timeout (_cfg c') = TIMEOUT_DFLT →
    xlast 1 c') as Hl.
  { intros c' Es Er Hc' Hcf. split; rewrite ?Es, ?Er; try done; try lia; [..|exists lo]; rewrite ?tk_next, ?tk_highest; try done.
    split; [lia|]. unfold flight in *. by rewrite tk_isn, tk_outstanding, tk_next. }
  destruct Hor as [[E Hlt]|(E & _ & Hle)]; rewrite E in *.
  - split; [|split; [done|]].
    + split; simpl; [by apply Hl|by rewrite tk_outstanding|by rewrite tk_stream|done].
    + specialize (Hlt Hfin). unfold TIMEOUT_DFLT in Hlt. lia.
  - split; [|by split]. split; simpl; [by apply Hl|by rewrite tk_outstanding|by rewrite tk_stream|by right].
Qed.

(** Both streams have been received and read; [x] has closed or lingers, and
    [y] waits for an acknowledgment of its FIN ([j = 0]) or lingers ([j = 1]).
    At most [t] milliseconds have passed since the last segments. *)
Record closing (j t : Z) (s : Bench) : Prop := {
  cl_inv : bench_inv S ix iy s;
  cl_x : xend 1 (x s);
  cl_y : yst (1 + j) (slen S) (slen S + 1) (y s);
  cl_j : 0 <= j <= 1;
  cl_queue : arrives 2 (slen S) j (slen S + 1) (_segments_out (x s)) 1 (slen S + 1) 0;
  cl_replies : Forall (reply (slen S) (slen S + 1)) (_segments_out (y s));
  cl_none : j = 1 → _segments_out (y s) = [];
  cl_closed : x_closed s = true;
  cl_time : 0 <= _time_since_last_segment_received (x s) <= t ∧ 0 <= _time_since_last_segment_received (y s) <= t
}.

(** A second passes after the end has arrived. *)
Lemma closing_ticks j t x4 y5 b rec :
  let s := mkBench (tick x4 1000) (tick y5 1000) b true rec in
  bench_inv S ix iy s → xend 1 x4 → yst (1 + j) (slen S) (slen S + 1) y5 → 0 <= j <= 1 →
  arrives 2 (slen S) j (slen S + 1) (_segments_out x4) 1 (slen S + 1) 0 → _segments_out y5 = [] →
  (_consecutive_retransmissions (_sender y5) = 0 ∨ 1 + j = 2) →
  0 <= _time_since_last_segment_received x4 <= t → 0 <= _time_since_last_segment_received y5 <= t → t < 9000 →
  closing j (t + 1000) s.
Proof using Hroomy.
  intros s Hinv Hx4 Hy5 Hj Ha Hq5 Hc5 Htx Hty Ht.
  destruct (xend_ticks x4 Hx4) as (Hx' & Hqx & _); [lia|].
  destruct (y_ticks (1 + j) (slen S) (slen S + 1) y5) as (R & Hy' & Hq' & HR & Hnil); try done; [lia|lia|].
  rewrite Hq5 in Hq'. simpl in Hq'.
  split; simpl; try done; [by rewrite Hqx|by rewrite Hq'|intros ->; rewrite Hq'; by apply Hnil|].
  rewrite !tick_time, !u64_small by (unfold_width; lia). lia.
Qed.

Lemma eof_tick c ms : ByteStream.eof (inbound_stream (tick c ms)) = ByteStream.eof (inbound_stream c).
Proof using Type. unfold tick, inbound_stream. by repeat case_match. Qed.

Lemma yst_no_queue kk st p c : yst kk st p c → yst kk st p (set_segments_out c []).
Proof using Type. intros [[] ?]. by split. Qed.

(** [y] has got all of [S] and its end. *)
Definition delivered (s : Bench) : Prop :=
  ByteStream.eof (inbound_stream (y s)) = true ∧ string_received s = S.

Lemma round_last kk c s' x' b cl rec :
  yst kk (slen S) (slen S + 1) c → s' = mkBench x' (tick c 1000) b cl rec → bench_inv S ix iy s' → delivered s'.
Proof using Type.
  intros [] -> []. simpl in *. rewrite taken_tick in be_taken. destruct y_recv0. unfold taken in be_taken. split.
  - simpl. rewrite eof_tick. unfold inbound_stream, ByteStream.eof.
    pose proof (inorder_ended S ix _ _ _ ltac:(by split)) as He. unfold input_ended in He. rewrite He.
    unfold buffer_empty, buffer_size, TCPReceiver.stream_out, StreamReassembler.stream_out.
    unfold start, buffered in *. lia.
  - simpl. rewrite (agree_prefix S rec) by (done || lia). rewrite <- be_taken, io_start. apply stake_all. lia.
Qed.

(** The end of the stream has arrived at [y]: the rest of this round. *)
Lemma round_closes j0 j1 g Y s x1 b x2 cl y1 R z x4 y5 rec :
  boundary j0 j1 g Y s →
  (if (size b =? 0) && negb (x_closed s) then x ← end_input_stream x1; Ok (x, true)
   else Ok (x1, x_closed s)) = Ok (x2, cl) →
  xkeeps j1 Y (x s) x2 → _next_seqno (_sender x2) = slen S + 2 →
  receive_all reads (y s) (_segments_out x2) = Ok y1 → 1 + Y < _next_seqno (_sender x2) →
  _segments_out y1 = _segments_out (y s) ++ R →
  (j0 + j1 = 0 → Exists (λ f, fin (header f) = true) R) → replies Y Y R (slen S + 1) z →
  (_consecutive_retransmissions (_sender y1) = 0 ∨ 1 + j1 = 2) →
  receive_all reads (set_segments_out x2 []) (_segments_out y1) = Ok x4 →
  read_all (set_segments_out y1 []) (string_received s) = Ok (y5, rec) → _sender y5 = _sender y1 →
  _segments_out y5 = [] → yst (1 + j1) (slen S) (slen S + 1) y5 →
  bench_inv S ix iy (mkBench (tick x4 1000) (tick y5 1000) b cl rec) →
  closing j1 1000 (mkBench (tick x4 1000) (tick y5 1000) b cl rec).
Proof using Hy Hroomy Hroomx Hread HS.
  intros Hbd H2 (Hx2 & _ & _ & Hr2 & _) Hn H3 Hadv Hq1 Hfin HR Hc1 H4 H5 Es Hq5 Hy5 Hinv. assert (H := Hbd). destruct H.
  pose proof (replies_app _ _ _ _ _ _ _ _ (repeated_replies _ _ bd_replies0) HR) as HRR. rewrite <- Hq1 in HRR.
  destruct (x_receives_last Y Y _ _ _ HRR j1 (set_segments_out x2 [])) as (j' & x4' & H4' & Hx4 & (Q & Hq & Ha) & Hj & Hf);
    [by apply xst_no_queue|lia|done|done|by rewrite <- Hr2 in bd_right0|].
  rewrite H4 in H4'. apply Ok_inj in H4' as <-.
  assert (R ≠ []) as Hne by (intros ->; inv HR; lia). pose proof (xl_recv _ _ (xe_last _ _ Hx4)) as Hr4.
  assert (j' = 1 ∧ 0 <= j1 <= 1) as [-> Hj1].
  { pose proof (io_range _ _ _ _ _ Hr4) as Hj'. rewrite (@slen_nil Z) in Hj'. split; [|lia].
    destruct (decide (j0 + j1 = 0)) as [E|E]; [|lia]. apply Hf. rewrite Hq1. apply Exists_app. auto. }
  assert (_time_since_last_segment_received x4 = 0) as Htx.
  { apply receive_all_time in H4. rewrite Hq1 in H4. destruct (_segments_out (y s) ++ R) eqn:E; [|done].
    by apply app_nil in E as [_ ?]. }
  assert (_time_since_last_segment_received y5 = 0) as Hty.
  { rewrite (read_all_time _ _ _ _ H5). apply receive_all_time in H3. destruct (_segments_out x2); [|done]. subst y1.
    rewrite <- (app_nil_r (_segments_out (y s))) in Hq1 at 1. by apply app_inv_head in Hq1 as <-. }
  assert (cl = true) as ->.
  { pose proof (be_rest _ _ _ _ Hinv) as Hb. simpl in Hb. rewrite tick_written in Hb.
    pose proof (si_eof _ _ (proj1 (ci_sender _ _ _ _ _ (xl_inv _ _ (xe_last _ _ Hx4)))) (xe_ended _ _ Hx4)) as Hw.
    change (bytes_written (_stream (_sender x4))) with (written x4) in Hw. unfold size in H2. rewrite Hb, Hw, sdrop_all in H2 by lia.
    destruct (x_closed s); simpl in H2; [by apply Ok_inj in H2 as [= _ <-]|].
    by apply result_bind_ok in H2 as (? & _ & [= _ <-]%Ok_inj). }
  apply (closing_ticks j1 0); try done; try lia; [by rewrite Hq|by rewrite Es].
Qed.

(** A second passes, and the next round may begin. *)
Lemma round_ticks j1 g Y x4 y5 b cl rec :
  let s := mkBench (tick x4 1000) (tick y5 1000) b cl rec in
  bench_inv S ix iy s → ready j1 Y x4 g → yst (1 + j1) Y Y y5 → 0 <= j1 <= 1 → 0 <= Y <= slen S →
  _segments_out y5 = [] → (_consecutive_retransmissions (_sender y5) = 0 ∨ 1 + j1 = 2) →
  (cl = true → input_ended (_stream (_sender x4)) = true) →
  boundary j1 1 g Y s.
Proof using Hroomx HS Hroomy.
  intros s Hinv (Hx4 & Ha4 & He4 & Hr4 & Hc4 & Hph) Hy5 Hj HY Hq5 Hc5 Hcl.
  destruct (x_ticks g j1 1 Y x4) as (k & Hx' & Ha & Hk & Hxe & Hxr & Hxn & Hxs); try done; [lia|].
  destruct (y_ticks (1 + j1) Y Y y5) as (R0 & Hy' & Hq' & HR0 & Hnil); try done; [lia|lia|].
  rewrite Hq5 in Hq'. simpl in Hq'. split; simpl; try done; rewrite ?Hxe, ?Hxr, ?Hxn, ?Hxs; try done.
  - by rewrite Z.add_comm.
  - by exists k; rewrite Hxn in Ha.
  - by rewrite Hq'.
  - right. rewrite Hq'. destruct (decide (j1 = 0)) as [->|]; [left; lia|right]. assert (j1 = 1) as -> by lia.
    split; [done|]. split; [done|]. split; [by apply Hnil|]. lia.
Qed.

(** A round delivers the end of the stream, or something new. *)
Lemma round_spec j0 j1 g Y s :
  boundary j0 j1 g Y s →
  ∃ s', loop reads false s = Ok s' ∧ 
    (delivered s' ∧ closing j1 1000 s' ∨ ∃ g' Y', boundary j1 1 g' Y' s' ∧ Y < Y').
Proof using Hy Hx Hroomy Hroomx Hread HS.
  intros Hbd. destruct (round_first j0 j1 g Y s Hbd)
    as (x1 & b & x2 & cl & y1 & R & z & H1 & H2 & H3 & Hk & Hcl & Hn & Hbuf & Hy1 & Hq1 & Hc1 & Hfin & HR & Hz & Hg).
  destruct (loop_defined reads S ix iy Hx Hy HS s x2 b cl Hread (bd_inv _ _ _ _ _ Hbd)) as (s' & Hs' & Hinv);
    [by eapply before_exchange_eq|by exists y1|]. exists s'. split; [done|].
  destruct (loop_stages s x1 b x2 cl y1 s') as (x4 & y5 & rec & H4 & H5 & Heq); try done.
  destruct (y_reads _ _ _ _ (string_received s) (yst_no_queue _ _ _ _ Hy1)) as (y5' & rec' & H5' & Hy5 & Hq5 & Hs5).
  rewrite H5 in H5'. apply Ok_inj in H5' as [= <- <-].
  pose proof (sinv_next S _ (ci_sender _ _ _ _ _ (x_inv _ _ _ (proj1 (proj1 Hk))))).
  set (Y' := _next_seqno (_sender x2) - 1) in *. destruct (decide (Y' = slen S + 1)) as [HY'|HY'].
  { left. rewrite HY', Z.min_r in Hy5 by lia. split; [by eapply round_last|]. rewrite Heq in *.
    apply (round_closes j0 j1 g Y s x1 b x2 cl y1 R z x4 y5 rec); try done; try lia; by rewrite <- HY'. }
  right. rewrite Z.min_l in Hy5 by lia.
  destruct (round_second j0 j1 g Y s x2 R z) as (c4 & g' & H4' & Hready & Hend); try done; [lia|].
  rewrite Hq1, H4' in H4. apply Ok_inj in H4 as ->. exists g', Y'. split; [|lia]. rewrite Heq in *.
  apply (round_ticks j1 g' Y' x4 y5 b cl rec); try done; try lia.
  - by apply (xst_j j1 Y x2), Hk.
  - pose proof (bd_position _ _ _ _ _ Hbd). lia.
  - by rewrite Hs5.
  - intros Hc. by apply Hend, Hcl.
Qed.

(** ** All rounds *)

Lemma y_not_eof j0 j1 g Y s : boundary j0 j1 g Y s → ByteStream.eof (inbound_stream (y s)) = false.
Proof using Type.
  intros []. unfold ByteStream.eof, inbound_stream.
  pose proof (inorder_ended S ix Y Y _ (y_recv _ _ _ _ bd_y0)) as He. unfold input_ended in He. rewrite He.
  destruct (_ <? _) eqn:E; [lia|done].
Qed.

(** Every round advances [Y], so the rest of the stream is enough fuel. *)
Lemma receive_rounds n : ∀ j0 j1 g Y s,
  boundary j0 j1 g Y s → slen S - Y < Z.of_nat n →
  ∃ s' j, receive_loop reads n false s = Ok s' ∧ delivered s' ∧ closing j 1000 s'.
Proof using Hx Hy HS Hread Hroomx Hroomy.
  induction n as [|n IH]; intros j0 j1 g Y s Hs Hn; [pose proof (bd_position _ _ _ _ _ Hs); lia|].
  cbn [receive_loop]. rewrite (y_not_eof _ _ _ _ _ Hs).
  destruct (round_spec j0 j1 g Y s Hs) as (s1 & -> & [[Hd Hcl]|(g' & Y' & Hs1 & HY)]); cbn [mbind result_bind].
  - exists s1, j1. split; [|done]. destruct Hd as [He _]. destruct n; cbn [receive_loop]; by rewrite He.
  - apply (IH _ _ _ _ _ Hs1). lia.
Qed.

(** ** The first round *)

(** A SYN without an acknowledgment. *)
Definition plain_syn (isn : WrappingInt32) (seg : TCPSegment) : Prop :=
  syn (header seg) = true ∧ rst (header seg) = false ∧ ack (header seg) = false ∧ seqno (header seg) = isn ∧
  str (payload seg) = [] ∧ fin (header seg) = false ∧ length_in_sequence_space seg = 1.

(** [x] has sent SYN and waits; its application may write, but nothing is sent. *)
Record xsyn (c : TCPConnection) : Prop := {
  xs_inv : cinv S [] ix iy c;
  xs_active : _active c = true;
  xs_drained : TCPSender._segments_out (_sender c) = [];
  xs_recv : _receiver c = TCPReceiver_new CAP;
  xs_cap : ByteStream._capacity (_stream (_sender c)) = CAP;
  xs_next : _next_seqno (_sender c) = 1;
  xs_window : _window_size (_sender c) = 0;
  xs_highest : _highest_ackno (_sender c) = -1 ∧ _highest_ackno_right (_sender c) = -1;
  xs_flight : flight 0 (_sender c);
  xs_cons : _consecutive_retransmissions (_sender c) = 0;
  xs_cfg : rt_timeout (_cfg c) = TIMEOUT_DFLT;
  xs_queue : ∃ seg, _segments_out c = [seg] ∧ plain_syn ix seg
}.

(** With a closed window only the stream buffer changes. *)
Lemma xsyn_update c b :
  xsyn c → cinv S [] ix iy (set_sender c (set_stream (_sender c) b)) → ByteStream._capacity b = CAP →
  update_sender (set_sender c (set_stream (_sender c) b)) = Ok (set_sender c (set_stream (_sender c) b)) ∧
  xsyn (set_sender c (set_stream (_sender c) b)).
Proof using Type.
  intros [] Hc Hb. split; [|by split]. unfold update_sender, fill_window. simpl. rewrite xs_next0. simpl. rewrite xs_window0. simpl.
  f_equal. unfold send_segments. simpl. unfold TCPSender.segments_out. simpl. rewrite xs_drained0. simpl.
  rewrite app_nil_r. destruct c as [? ? [] ? ? ? ?]. simpl in *. by subst.
Qed.

Lemma xsyn_writes c data :
  xsyn c → slen data <= remaining_outbound_capacity c → data = stake (slen data) (sdrop (written c) S) →
  ∃ c', TCPConnection.write c data = Ok (c', slen data) ∧ xsyn c' ∧ written c' = written c + slen data.
Proof using Type.
  intros Hc Hl Hd. pose proof (xs_inv _ Hc) as Hinv.
  destruct (write_takes S [] ix iy c data Hinv Hl Hd) as (c' & Hw & _ & Hwr & _).
  exists c'. split; [done|]. split; [|done]. unfold TCPConnection.write in Hw.
  apply result_bind_ok in Hw as ([b n] & Hb & (c1 & Hu & [= -> ->]%Ok_inj)%result_bind_ok).
  destruct (xsyn_update c b Hc) as [Hu' Hx'].
  - destruct Hinv. split; simpl; try done. apply (write_sinv S _ (slen data) b (slen data)); [done|apply slen_nonneg|].
    change (bytes_written (_stream (_sender c))) with (written c). by rewrite <- Hd.
  - rewrite write_eq in Hb by apply Hinv. apply Ok_inj in Hb as [= <- _]. apply Hc.
  - rewrite Hu in Hu'. by apply Ok_inj in Hu' as ->.
Qed.

(** The first part of the first round. *)
Lemma xsyn_turn s :
  bench_inv S ix iy s → xsyn (x s) → x_closed s = false →
  ∃ x1 b x2 cl,
    write_input (Z.to_nat (size (bytes_to_send s))) (x s) (bytes_to_send s) = Ok (x1, b) ∧
    (if (size b =? 0) && negb (x_closed s) then x ← end_input_stream x1; Ok (x, true)
     else Ok (x1, x_closed s)) = Ok (x2, cl) ∧
    xsyn x2 ∧ (cl = true → input_ended (_stream (_sender x2)) = true).
Proof using Type.
  intros [] Hc Hcl. pose proof (slen_nonneg (str (bytes_to_send s))).
  destruct (write_input_keeps (λ _, xsyn) (Z.to_nat (size (bytes_to_send s)))) with (c := x s) (b := bytes_to_send s)
    as (x1 & b & H1 & Hx1 & _ & Hs1 & _); try done.
  - intros c c' Hk. apply Hk.
  - intros c data Hk Hl Hd. destruct (xsyn_writes c data Hk Hl Hd) as (c' & ? & ? & ?). by exists c'.
  - unfold size. lia.
  - exists x1, b. rewrite Hcl, andb_true_r. destruct (size b =? 0) eqn:E; [|by exists x1, false].
    pose proof (xs_inv _ Hx1) as Hinv. pose proof (written_range _ _ _ _ _ Hinv).
    assert (written x1 = slen S) as Hw by (unfold size in E; rewrite Hs1, slen_sdrop in E by lia; lia).
    unfold end_input_stream. destruct (xsyn_update x1 (end_input (stream_in (_sender x1))) Hx1) as [Hu Hx2].
    + destruct Hinv. split; simpl; try done.
      by destruct (sstep_sinv S (_sender x1) [] _ ci_sender (step_end S (_sender x1) Hw)).
    + apply Hx1.
    + rewrite Hu. by eexists _, true.
Qed.

(** [y] has ended its stream before it is connected. *)
Record ysyn (c : TCPConnection) : Prop := {
  ys_inv : cinv [] S iy ix c;
  ys_active : _active c = false;
  ys_linger : _linger_after_streams_finish c = true;
  ys_drained : TCPSender._segments_out (_sender c) = [];
  ys_recv : _receiver c = TCPReceiver_new CAP;
  ys_ended : input_ended (_stream (_sender c)) = true;
  ys_next : _next_seqno (_sender c) = 1;
  ys_window : _window_size (_sender c) = 0;
  ys_highest : _highest_ackno (_sender c) = -1 ∧ _highest_ackno_right (_sender c) = -1;
  ys_flight : flight 0 (_sender c);
  ys_cons : _consecutive_retransmissions (_sender c) = 0;
  ys_cfg : rt_timeout (_cfg c) = TIMEOUT_DFLT;
  ys_queue : ∃ seg, _segments_out c = [seg] ∧ plain_syn iy seg
}.

(** A SYN without an acknowledgment is answered by an empty segment. *)
Lemma syn_received c seg isn T :
  slen T < 0x80000000 → plain_syn isn seg → _receiver c = TCPReceiver_new CAP →
  TCPSender._segments_out (_sender c) = [] →
  (_active c = true ∨ fill_window (_sender c) = Ok (_sender c)) →
  let r := note_syn (TCPReceiver_new CAP) seg in
  segment_received reads c seg =
    Ok (mkTCPConnection (_cfg c) r (_sender c)
          (_segments_out c ++ [stamp r (empty_answer (_sender c))]) (_linger_after_streams_finish c) true 0) ∧
  inorder T isn 0 0 r.
Proof using Type.
  intros HT (Hs & Hr & Ha & Hi & Hp & Hf & Hl) Hrec Hd Hor r. split; [|by apply inorder_syn].
  unfold segment_received. cbn [_active set_time]. rewrite Hs, andb_false_r.
  assert ((if negb (_active c) then connect_sender (set_time c 0) else Ok (set_time c 0)) =
    Ok (set_active (set_time c 0) true)) as ->.
  { destruct (_active c) eqn:E; simpl.
    - destruct c; simpl in *. by subst.
    - destruct Hor as [?|Hfw]; [done|]. unfold connect_sender. simpl. rewrite Hfw. by destruct c. }
  cbn [mbind result_bind]. rewrite Hr. unfold segment_processed. cbn [_receiver set_active set_time]. rewrite Hrec.
  rewrite segment_received_empty by done. cbn [mbind result_bind]. rewrite Ha. cbn [mbind result_bind _sender set_receiver set_active set_time].
  unfold TCPSender.segments_out at 1. rewrite Hd, Hl. cbn [andb Z.ltb Z.compare].
  assert (input_ended (TCPReceiver.stream_out r) = false) as Hend by (unfold r, note_syn; by destruct (_ && _)).
  fold r. clearbody r. unfold update_connection_status. cbn -[Z.compare]. rewrite Hend. f_equal.
  unfold send_segments. cbn. rewrite Hd. destruct c as [? ? [] ? ? ? ?]. simpl in *. by subst.
Qed.

Lemma y_first c seg :
  ysyn c → plain_syn ix seg →
  ∃ c' f, segment_received reads c seg = Ok c' ∧ yst 0 0 0 c' ∧
    _segments_out c' = _segments_out c ++ [f] ∧ reply 0 0 f ∧ fin (header f) = false ∧
    _consecutive_retransmissions (_sender c') = 0.
Proof using HS Hroomy.
  intros [] Hseg. destruct (syn_received c seg ix S) as [-> Hr]; try done.
  { right. unfold fill_window. rewrite ys_next0. simpl. by rewrite ys_window0. }
  eexists _, _. split; [done|]. split; [|split; [done|split; [|split; [|done]]]].
  - destruct ys_highest0 as [Hh1 Hh2], Hroomy as [? _]. split; simpl; try done; try lia.
    destruct ys_inv0. split; simpl; try done; [apply Hr|].
    apply Forall_app_2; [done|]. apply Forall_singleton, emits_stamp, emits_empty_answer.
  - apply stamp_reply; [done|done|by apply carries_empty|done].
  - destruct (stamp_same (note_syn (TCPReceiver_new CAP) seg) (empty_answer (_sender c))) as (_ & _ & -> & _). done.
Qed.

Lemma x_first c seg :
  xsyn c → plain_syn iy seg →
  ∃ c' f, segment_received reads (set_segments_out c []) seg = Ok c' ∧ xpre 0 0 c' ∧
    _segments_out c' = [f] ∧ arrives 1 0 0 0 [f] 0 0 0 ∧ _sender c' = _sender c.
Proof using Hroomx.
  intros [] Hseg. destruct (syn_received (set_segments_out c []) seg iy []) as [-> Hr]; try done; [by left|].
  eexists _, _. split; [done|]. split; [|split; [done|split; [|done]]].
  - destruct xs_highest0 as [Hh1 Hh2], Hroomx as [? _]. split; simpl; try done; try lia.
    + destruct xs_inv0. split; simpl; try done; [apply Hr|].
      apply Forall_singleton, emits_stamp, emits_empty_answer.
    + exists 0. split; [lia|]. split; [done|]. by right.
    + unfold edge. lia.
  - eapply arr_ack; [done|by apply stamp_stamped|..]; [..|constructor].
    all: destruct (stamp_same (note_syn (TCPReceiver_new CAP) seg) (empty_answer (_sender c))) as (E1 & E2 & E3 & _);
      by rewrite ?E1, ?E2, ?E3.
Qed.

(** The answers of [y] in the first round open the window of [x]. *)
Lemma x_opens c seg f :
  xsyn c → plain_syn iy seg → reply 0 0 f → fin (header f) = false →
  ∃ c', receive_all reads (set_segments_out c []) [seg; f] = Ok c' ∧ xst 0 0 c' ∧
    arrives 1 0 0 0 (_segments_out c') 0 (_next_seqno (_sender c') - 1) 0 ∧
    edge (_sender c') = 1 + CAP ∧ _highest_ackno_right (_sender c') = raw_value ix + (1 + 0 + CAP) ∧
    _consecutive_retransmissions (_sender c') = 0 ∧
    (input_ended (_stream (_sender c)) = true → input_ended (_stream (_sender c')) = true).
Proof using Hy Hroomx Hread HS.
  intros Hc Hseg Hf Hff. pose proof (slen_nonneg S). destruct (xs_highest _ Hc) as [Hh1 Hh2], Hroomx as [? _].
  pose proof (xs_next _ Hc) as Hn2.
  destruct (x_first c seg Hc Hseg) as (c1 & f1 & H1 & Hc1 & Hq1 & Ha1 & Es).
  destruct (x_receives 0 0 0 c1 f) as (c4 & H4 & Hc4 & [_ He (Q & Hq & Ha)] & He4 & Hr4 & Hn4 & _); try done;
    [unfold DEFAULT_CAPACITY; rewrite Es; lia|].
  rewrite Hff, Es, Hh1, Hh2, Hn2 in *. change (0 =? 0 + CAP) with false in *.
  assert ((-1 <? raw_value ix + (1 + 0 + CAP)) = true) as E by (unfold DEFAULT_CAPACITY; lia). rewrite E in He4.
  assert ((-1 <? raw_value ix + (1 + 0)) = true) as E' by lia. rewrite E' in Hn4.
  exists c4. cbn [receive_all]. rewrite H1. cbn [mbind result_bind]. rewrite H4. cbn [mbind result_bind].
  split; [done|]. split; [done|]. split; [|split; [lia|done]].
  rewrite Hq, Hq1. apply (arrives_app 1 0 0 0 [f1] 0 0 0 Q 0 _ 0 Ha1). apply (Ha 1 0). lia.
Qed.

(** The first round exchanges SYN. *)
Lemma first_round s :
  bench_inv S ix iy s → xsyn (x s) → ysyn (y s) → x_closed s = false →
  ∃ s', loop reads false s = Ok s' ∧ boundary 0 0 1 0 s'.
Proof using Hy Hx Hroomy Hroomx Hread HS.
  intros Hinv Hxs Hys Hcl. pose proof (slen_nonneg S).
  destruct (xsyn_turn s Hinv Hxs Hcl) as (x1 & b & x2 & cl & H1 & H2 & Hx2 & Hcl2).
  destruct (xs_queue _ Hx2) as (seg & Hq2 & Hseg). destruct (ys_queue _ Hys) as (seg' & Hqy & Hseg').
  destruct (y_first (y s) seg Hys Hseg) as (y1 & f & H3 & Hy1 & Hq1 & Hf & Hff & Hc1).
  destruct (loop_defined reads S ix iy Hx Hy HS s x2 b cl Hread Hinv) as (s' & Hs' & Hinv');
    [by eapply before_exchange_eq|exists y1; unfold segments_out; rewrite Hq2; cbn [receive_all]; by rewrite H3|].
  exists s'. split; [done|].
  destruct (loop_stages s x1 b x2 cl y1 s') as (x4 & y5 & rec & H4 & H5 & ->); try done.
  { rewrite Hq2. cbn [receive_all]. by rewrite H3. }
  destruct (y_reads _ _ _ _ (string_received s) (yst_no_queue _ _ _ _ Hy1)) as (y5' & rec' & H5' & Hy5 & Hq5 & Hs5).
  rewrite H5 in H5'. apply Ok_inj in H5' as [= <- <-]. rewrite Z.min_l in Hy5 by lia.
  destruct (x_opens x2 seg' f) as (c4 & H4' & Hc4 & Ha4 & He4 & Hr4 & Hn4 & Hend); try done.
  rewrite Hq1, Hqy in H4. cbn [app] in H4. rewrite H4' in H4. apply Ok_inj in H4 as ->.
  destruct (x_ticks 1 0 0 0 x4) as (k & Hx' & Ha & Hk & Hxe & Hxr & Hxn & Hxs'); try done.
  destruct (y_ticks 0 0 0 y5) as (R0 & Hy' & Hq' & HR0 & _); try done; [lia|left; by rewrite Hs5|].
  rewrite Hq5 in Hq'. simpl in Hq'. split; simpl; try done; rewrite ?Hxe, ?Hxr, ?Hxn, ?Hxs'; try done; try lia.
  - by exists k; rewrite Hxn in Ha.
  - by rewrite Hq'.
  - auto.
Qed.

End Rounds.

(** ** The start *)

(** The SYN of a new sender. *)
Lemma new_syn random :
  plain_syn (WrappingInt32_of random)
    (numbered (TCPSender_new CAP TIMEOUT_DFLT None random) TCPSender.syn_segment).
Proof. split_and!; try done. apply wrapping_ext. simpl. by rewrite Z.add_0_r, !u32_u32. Qed.

Lemma first_flight s :
  _next_seqno s = 0 → TCPSender._outstanding_segments s = [] → flight 0 (send_new_segment s TCPSender.syn_segment).
Proof.
  intros Hn Ho. rewrite send_new_segment_eq by (rewrite ?Hn; done). unfold flight. simpl. rewrite Hn, Ho. simpl.
  split; [|done]. split; [|done]. unfold next_seqno. by rewrite Hn.
Qed.

Lemma connect_syn S ii random c :
  TCPConnection.connect (TCPConnection_new TCPConfig_default random) = Ok c →
  cinv S [] (WrappingInt32_of random) ii c → xsyn S (WrappingInt32_of random) ii c.
Proof.
  intros Hc Hinv. apply Ok_inj in Hc. split; [exact Hinv|..]; subst c; try reflexivity.
  - split; reflexivity.
  - by apply (first_flight (TCPSender_new CAP TIMEOUT_DFLT None random)).
  - eexists. split; [|apply new_syn]. reflexivity.
Qed.

Lemma end_syn S ii random c :
  end_input_stream (TCPConnection_new TCPConfig_default random) = Ok c →
  cinv [] S (WrappingInt32_of random) ii c → ysyn S ii (WrappingInt32_of random) c.
Proof.
  intros Hc Hinv. apply Ok_inj in Hc. split; [exact Hinv|..]; subst c; try reflexivity.
  - split; reflexivity.
  - by apply (first_flight (set_stream (TCPSender_new CAP TIMEOUT_DFLT None random) (end_input (ByteStream_new CAP)))).
  - eexists. split; [|apply new_syn]. reflexivity.
Qed.

Lemma bench_start_syn S random_x random_y :
  slen S < 0x80000000 →
  ∃ s, bench_start S random_x random_y = Ok s ∧
    bench_inv S (WrappingInt32_of random_x) (WrappingInt32_of random_y) s ∧
    xsyn S (WrappingInt32_of random_x) (WrappingInt32_of random_y) (x s) ∧
    ysyn S (WrappingInt32_of random_x) (WrappingInt32_of random_y) (y s) ∧ x_closed s = false.
Proof.
  intros HS. destruct (bench_start_spec S random_x random_y HS) as (s & Hs & Hinv & Hx0 & Hy0 & Hcl).
  exists s. split; [done|]. split; [done|]. destruct Hinv as [Hx Hy _ _ _ _].
  split; [by apply connect_syn|]. split; [by apply end_syn|done].
Qed.
