(* ===== verification/BenchmarkLive.v ===== *)
(** * The benchmark delivers everything and ends (apps/tcp_benchmark.cc)

    The rounds after the end of the stream has arrived: the last
    acknowledgments are exchanged, then both endpoints are silent, and each
    one that lingers closes after ten seconds.  With [BenchmarkRounds] this
    makes a whole run of [main_loop] in order. *)

From S2P Require Import Prelude WrappingIntegers ByteStream StreamReassembler Buffer TCPHeader TCPSegment.
From S2P Require Import TCPConfig StreamSegments TCPReceiver TCPSender TCPState TCPConnection EndToEnd InOrder.
From S2P Require Import TCPBenchmark BenchmarkRounds.
From stdpp Require Import options.

Local Open Scope Z_scope.

Section Finish.
Context (reads : Reads) (S : bytes) (ix iy : WrappingInt32).
Context (Hx : wf_WrappingInt32 ix) (Hy : wf_WrappingInt32 iy) (HS : slen S < 0x80000000).
Context (Hread : ∀ l, end_header reads l ≠ None).
Context (Hroomx : roomy S ix) (Hroomy : roomy [] iy).

(** What [y]'s application has got. *)
Lemma received_all s p :
  bench_inv S ix iy s → inorder S ix (slen S) p (_receiver (y s)) → string_received s = S.
Proof using Type.
  intros [] []. unfold taken in be_taken.
  rewrite (agree_prefix S (string_received s)) by (done || lia). rewrite <- be_taken, io_start. by apply stake_all.
Qed.

(** [x] has nothing more to write. *)
Lemma x_idle_turn s :
  bench_inv S ix iy s → input_ended (_stream (_sender (x s))) = true → x_closed s = true →
  write_input (Z.to_nat (size (bytes_to_send s))) (x s) (bytes_to_send s) = Ok (x s, bytes_to_send s) ∧
  (if (size (bytes_to_send s) =? 0) && negb (x_closed s) then x ← end_input_stream (x s); Ok (x, true)
   else Ok (x s, x_closed s)) = Ok (x s, true).
Proof using Type.
  intros [] He Hcl.
  pose proof (si_eof _ _ (proj1 (ci_sender _ _ _ _ _ be_x)) He) as Hw.
  change (bytes_written (_stream (_sender (x s)))) with (written (x s)) in Hw.
  assert (size (bytes_to_send s) = 0) as Hz by (unfold size; by rewrite be_rest, Hw, sdrop_all).
  rewrite Hz, Hcl. split; [|done]. change (Z.to_nat 0) with O. cbn [write_input]. by rewrite Hz.
Qed.

Lemma closing_replies st p l : Forall (reply S ix iy st p) l → ∃ z, replies S ix iy st p l p z.
Proof using Type.
  induction 1 as [|f l Hf _ [z IH]]; [exists 0; constructor|]. eexists. by econstructor.
Qed.

Lemma xend_no_queue j c : xend S ix iy j c → xend S ix iy j (set_segments_out c []).
Proof using Type. intros [[[]] ? ? ?]. by split; [split|..]. Qed.

(** One more round of acknowledgments. *)
Lemma closing_round j t s :
  closing S ix iy j t s → t < 9000 →
  ∃ s', loop reads false s = Ok s' ∧ closing S ix iy 1 (t + 1000) s' ∧
    (j = 1 → _segments_out (x s') = []).
Proof using Hy Hx Hroomy Hroomx Hread HS.
  intros [] Ht. destruct (x_idle_turn s cl_inv (xe_ended _ _ _ _ _ cl_x) cl_closed) as [H1 H2].
  destruct (y_receives_all reads S ix iy Hx HS Hread Hroomy (slen S) 2 j (slen S + 1) _ 1 _ 0 cl_queue (1 + j) (y s))
    as (y1 & R & z & H3 & Hy1 & Hq1 & Hc1 & _ & HR & _ & Hg); [done|lia|lia|unfold DEFAULT_CAPACITY; lia..|].
  assert (R = []) as -> by (destruct (Hg ltac:(lia)) as [?|?%replies_le]; [done|lia]).
  destruct (loop_defined reads S ix iy Hx Hy HS s (x s) (bytes_to_send s) true Hread cl_inv) as (s' & Hs' & Hinv);
    [by eapply before_exchange_eq|by exists y1|]. exists s'. split; [done|].
  assert (yst S ix iy 2 (slen S) (slen S + 1) y1) as Hy1'.
  { destruct (_segments_out (x s)) eqn:E; [|done]. by inv cl_queue. }
  destruct (loop_stages reads s (x s) (bytes_to_send s) (x s) true y1 s') as (x4 & y5 & rec & H4 & H5 & ->); try done.
  destruct (y_reads S ix iy _ _ _ _ (string_received s) (yst_no_queue _ _ _ _ _ _ _ Hy1')) as (y5' & rec' & H5' & Hy5 & Hq5 & Hs5).
  rewrite H5 in H5'. apply Ok_inj in H5' as [= <- <-]. rewrite Z.min_r in Hy5 by lia.
  rewrite Hq1, app_nil_r in H4. destruct (closing_replies _ _ _ cl_replies) as (zr & HRr).
  destruct (xend_receives_all reads S ix iy Hy HS Hread Hroomx _ _ _ _ _ HRr 1 (set_segments_out (x s) []))
    as (j' & x4' & H4' & Hx4 & (Q & Hq & Ha) & Hj & _); [by apply xend_no_queue|done|done|].
  rewrite H4 in H4'. apply Ok_inj in H4' as <-.
  pose proof (io_range _ _ _ _ _ (xl_recv _ _ _ _ _ (xe_last _ _ _ _ _ Hx4))) as Hr4. rewrite (@slen_nil Z) in Hr4.
  assert (j' = 1) as -> by lia. pose proof (receive_all_time _ _ _ _ H3) as Hty. pose proof (receive_all_time _ _ _ _ H4) as Htx.
  assert (0 <= _time_since_last_segment_received x4 <= t) as Htx'
    by (destruct (_segments_out (y s)); [subst x4; simpl|]; lia).
  assert (0 <= _time_since_last_segment_received y5 <= t) as Hty'.
  { rewrite (read_all_time _ _ _ _ H5). simpl. destruct (_segments_out (x s)); [subst y1|]; lia. }
  split; [apply (closing_ticks S ix iy Hroomy 1 t); try done; try lia; by rewrite Hq|].
  intros ->. rewrite cl_none in H4 by done. apply Ok_inj in H4 as <-.
  destruct (xend_ticks S ix iy _ Hx4) as (_ & E & _); [lia|exact E].
Qed.

(** ** Silence *)

(** [y] has nothing left to do but to linger. *)
Record yend (c : TCPConnection) : Prop := {
  yn_inv : cinv [] S iy ix c;
  yn_drained : TCPSender._segments_out (_sender c) = [];
  yn_recv : inorder S ix (slen S) (slen S + 1) (_receiver c);
  yn_ended : input_ended (_stream (_sender c)) = true;
  yn_flight : TCPSender._outstanding_segments (_sender c) = [];
  yn_cons : 0 <= _consecutive_retransmissions (_sender c) <= 1;
  yn_cfg : rt_timeout (_cfg c) = TIMEOUT_DFLT
}.

Lemma yst_end c : yst S ix iy 2 (slen S) (slen S + 1) c → yend c.
Proof using Type.
  intros []. split; try done. unfold flight in y_flight. rewrite y_next in y_flight.
  destruct (TCPSender._outstanding_segments (_sender c)) as [|q l]; [done|]. destruct y_flight as (_ & ? & ?%contiguous_le). lia.
Qed.

Lemma yend_ticks c :
  yend c → 0 <= _time_since_last_segment_received c < 0x100000000 →
  yend (tick c 1000) ∧ _segments_out (tick c 1000) = _segments_out c ∧
  (9000 <= _time_since_last_segment_received c → dead (tick c 1000)).
Proof using Type.
  intros [] Htm. assert (finished c) as Hfin.
  { split; [|split; [done|]].
    - unfold inbound_stream. rewrite (inorder_ended S ix _ _ _ yn_recv0). lia.
    - unfold bytes_in_flight, TCPSender.bytes_in_flight. by rewrite yn_flight0. }
  pose proof (cinv_tick _ _ _ _ c 1000 yn_inv0) as Hinv.
  destruct (connection_ticks c yn_drained0 yn_cons0) as (s & dup & [] & Hdup & Hcons & Hor). cbn zeta in Hor.
  rewrite u64_small in Hor by (unfold_width; lia). rewrite yn_cfg0 in Hor. rewrite yn_flight0 in Hdup, Hcons.
  assert (dup = []) as -> by (destruct Hdup as [?|(? & ? & ? & _)]; done). rewrite app_nil_r in Hor.
  destruct Hor as [[E Hlt]|(E & _ & Hle)]; rewrite E in *.
  - split; [|split; [done|]]; [split; simpl; try done; congruence || lia|].
    specialize (Hlt Hfin). unfold TIMEOUT_DFLT in Hlt. lia.
  - split; [|by split]. split; simpl; try done; congruence || lia.
Qed.

(** No segment is in flight.  The clocks of both endpoints show at least [m]. *)
Record silent (m : Z) (s : Bench) : Prop := {
  sl_inv : bench_inv S ix iy s;
  sl_x : xend S ix iy 1 (x s);
  sl_y : yend (y s);
  sl_queues : _segments_out (x s) = [] ∧ _segments_out (y s) = [];
  sl_closed : x_closed s = true;
  sl_time : 0 <= m <= _time_since_last_segment_received (x s) ∧ m <= _time_since_last_segment_received (y s);
  sl_bound : _time_since_last_segment_received (x s) <= m + 10000 ∧ _time_since_last_segment_received (y s) <= m + 10000
}.

Lemma set_no_segments c : _segments_out c = [] → set_segments_out c [] = c.
Proof using Type. destruct c. simpl. by intros ->. Qed.

Lemma silent_round m s :
  silent m s → m <= 100000 →
  ∃ s', loop reads false s = Ok s' ∧ silent (m + 1000) s' ∧ (9000 <= m → dead (x s') ∧ dead (y s')).
Proof using Hy Hx Hread HS.
  intros [] Hm. destruct sl_queues0 as [Hqx Hqy].
  destruct (x_idle_turn s sl_inv0 (xe_ended _ _ _ _ _ sl_x0) sl_closed0) as [H1 H2].
  destruct (loop_defined reads S ix iy Hx Hy HS s (x s) (bytes_to_send s) true Hread sl_inv0) as (s' & Hs' & Hinv);
    [by eapply before_exchange_eq|exists (y s); unfold segments_out; by rewrite Hqx|]. exists s'. split; [done|].
  destruct (loop_stages reads s (x s) (bytes_to_send s) (x s) true (y s) s') as (x4 & y5 & rec & H4 & H5 & ->); try done.
  { by rewrite Hqx. }
  rewrite Hqy, set_no_segments in H4 by done. apply Ok_inj in H4 as <-. rewrite set_no_segments in H5 by done.
  assert (y5 = y s) as ->.
  { unfold read_all in H5. destruct (_ <? _) eqn:E; [|by apply Ok_inj in H5 as [= <- _]].
    destruct (yn_recv _ sl_y0). unfold start, buffered in *.
    unfold inbound_stream, buffer_size, TCPReceiver.stream_out, StreamReassembler.stream_out in E. lia. }
  destruct (xend_ticks S ix iy _ sl_x0) as (Hx' & Hqx' & Hdx); [lia|].
  destruct (yend_ticks _ sl_y0) as (Hy' & Hqy' & Hdy); [lia|].
  split; [|intros; split; [apply Hdx|apply Hdy]; lia].
  split; simpl; try done; [by rewrite Hqx', Hqy'|..]; rewrite !tick_time, !u64_small by (unfold_width; lia); lia.
Qed.

(** ** The last loop *)

Definition ended (s : Bench) : Prop :=
  string_received s = S ∧ active (x s) = false ∧ active (y s) = false.

Lemma dead_inactive c : dead c → active c = false.
Proof using Type. intros [Ha Hl]. unfold active. by rewrite Ha, Hl. Qed.

Lemma silent_ended m s :
  silent m s → active (x s) || active (y s) = false → ended s.
Proof using Type.
  intros [] [Hax Hay]%orb_false_elim. split; [|done]. by apply (received_all s (slen S + 1)), yn_recv.
Qed.

(** The clocks reach ten seconds. *)
Lemma silent_rounds n : ∀ m s,
  silent m s → 10000 <= m + 1000 * Z.of_nat n → m <= 20000 → (10000 <= m → dead (x s) ∧ dead (y s)) →
  ∃ s', finish_loop reads n false s = Ok s' ∧ ended s'.
Proof using Hx Hy HS Hread.
  induction n as [|n IH]; intros m s Hs Hm Hm' Hd; cbn [finish_loop].
  all: destruct (active (x s) || active (y s)) eqn:E; [|exists s; split; [done|by apply (silent_ended m)]].
  all: destruct (decide (10000 <= m)) as [Hle|Hlt];
    [destruct (Hd Hle) as [Hdx Hdy]; rewrite !dead_inactive in E by done; discriminate|].
  { lia. }
  destruct (silent_round m s Hs ltac:(lia)) as (s1 & -> & Hs1 & Hd1). cbn [mbind result_bind].
  apply (IH (m + 1000)); [done|lia|lia|intros; apply Hd1; lia].
Qed.

Lemma closing_continues j t s n :
  closing S ix iy j t s →
  finish_loop reads (Datatypes.S n) false s = (s ← loop reads false s; finish_loop reads n false s).
Proof using Type.
  intros []. cbn [finish_loop]. assert (active (y s) = true) as ->; [|by rewrite orb_true_r].
  unfold active. by rewrite (y_active _ _ _ _ _ _ _ cl_y).
Qed.

(** Two rounds of acknowledgments, and ten seconds of silence. *)
Lemma finish_rounds j s n :
  closing S ix iy j 1000 s → (12 <= n)%nat → ∃ s', finish_loop reads n false s = Ok s' ∧ ended s'.
Proof using Hx Hy HS Hread Hroomx Hroomy.
  intros Hs Hn. destruct n as [|[|n]]; [lia|lia|].
  destruct (closing_round j 1000 s Hs ltac:(lia)) as (s1 & H1 & Hs1 & _).
  destruct (closing_round 1 2000 s1 Hs1 ltac:(lia)) as (s2 & H2 & Hs2 & Hq).
  rewrite (closing_continues j 1000), H1 by done. cbn [mbind result_bind].
  rewrite (closing_continues 1 2000), H2 by done. cbn [mbind result_bind].
  apply (silent_rounds n 0); [|lia|lia|lia]. destruct Hs2. split; try done; [by apply yst_end|auto|lia|lia].
Qed.

End Finish.

(** ** Undefined reads *)

(** The reads, made to yield something past the end. *)
Definition yielding (reads : Reads) : Reads :=
  mkReads (rend_index reads) (λ l, Some (default TCPHeader_default (end_header reads l))).

Lemma yielding_reads reads l : end_header (yielding reads) l ≠ None.
Proof. done. Qed.

Section Undefined.
Context (reads : Reads).

Abbreviation stops := (∃ l, end_header reads l = None).

Lemma segment_received_follows c seg :
  follows stops (segment_received reads c seg) (segment_received (yielding reads) c seg).
Proof using Type.
  unfold segment_received. destruct (_ && _); [apply follows_refl|]. apply follows_bind; [apply follows_refl|].
  intros c1. destruct (rst _); [apply follows_refl|]. unfold segment_processed.
  apply follows_bind; [apply follows_refl|]. intros r. apply follows_bind; [|intros; apply follows_refl].
  destruct (ack _); [|apply follows_refl]. rewrite (ack_received_defined (end_header (yielding reads))) by done.
  destruct (ack_received_cases (end_header reads) (_sender (set_receiver c1 r)) (TCPHeader.ackno (header seg)) (win (header seg)))
    as [->|(-> & _ & ?)]; [apply follows_refl|by right].
Qed.

Lemma receive_all_follows segs : ∀ c,
  follows stops (receive_all reads c segs) (receive_all (yielding reads) c segs).
Proof using Type.
  induction segs as [|seg segs IH]; intros c; cbn [receive_all]; [apply follows_refl|].
  apply follows_bind; [apply segment_received_follows|done].
Qed.

Lemma loop_follows reorder s : follows stops (loop reads reorder s) (loop (yielding reads) reorder s).
Proof using Type.
  assert (∀ a b r, follows stops (move_segments reads a b r) (move_segments (yielding reads) a b r)) as Hm.
  { intros a b r. apply follows_bind; [apply receive_all_follows|intros; apply follows_refl]. }
  rewrite !loop_eq. apply follows_bind; [apply follows_refl|]. intros [[x2 b] cl].
  apply follows_bind; [apply Hm|]. intros [x3 y3]. apply follows_bind; [apply Hm|]. intros [y4 x4]. apply follows_refl.
Qed.

Lemma receive_loop_follows reorder n : ∀ s,
  follows stops (receive_loop reads n reorder s) (receive_loop (yielding reads) n reorder s).
Proof using Type.
  induction n as [|n IH]; intros s; cbn [receive_loop]; (case_match; [apply follows_refl|]); [apply follows_refl|].
  apply follows_bind; [apply loop_follows|done].
Qed.

Lemma finish_loop_follows reorder n : ∀ s,
  follows stops (finish_loop reads n reorder s) (finish_loop (yielding reads) n reorder s).
Proof using Type.
  induction n as [|n IH]; intros s; cbn [finish_loop]; (case_match; [|apply follows_refl]); [apply follows_refl|].
  apply follows_bind; [apply loop_follows|done].
Qed.

(** More fuel changes nothing once a loop has ended. *)
Lemma receive_loop_more reorder n m : ∀ s r,
  receive_loop reads n reorder s = r → r ≠ Throw OutOfFuel → (n <= m)%nat → receive_loop reads m reorder s = r.
Proof using Type.
  revert m. induction n as [|n IH]; intros m s r; destruct m as [|m]; cbn [receive_loop]; try lia;
    (case_match; [done|]); [by intros <-..|].
  destruct (loop reads reorder s) as [s1|]; cbn [mbind result_bind]; [|done]. intros. apply IH; [done|done|lia].
Qed.

Lemma finish_loop_more reorder n m : ∀ s r,
  finish_loop reads n reorder s = r → r ≠ Throw OutOfFuel → (n <= m)%nat → finish_loop reads m reorder s = r.
Proof using Type.
  revert m. induction n as [|n IH]; intros m s r; destruct m as [|m]; cbn [finish_loop]; try lia;
    (case_match; [|done]); [by intros <-..|].
  destruct (loop reads reorder s) as [s1|]; cbn [mbind result_bind]; [|done]. intros. apply IH; [done|done|lia].
Qed.

End Undefined.

(** ** Properties *)

(** What a run of the two loops from [s0] on does if no read stops the program. *)
Lemma benchmark_loops (reads : Reads) (S : bytes) (random_x random_y : Z) s0 :
  (∀ l, end_header reads l ≠ None) → slen S < 0x80000000 →
  u32 random_x + slen S + 0x10002 < 0x100000000 → u32 random_y + 0x10002 < 0x100000000 →
  bench_start S random_x random_y = Ok s0 →
  ∃ s1 s, receive_loop reads (length S + 2) false s0 = Ok s1 ∧ string_received s1 = S ∧
    finish_loop reads 12 false s1 = Ok s ∧ ended S s.
Proof.
  intros Hread HS Hx Hy H0. set (ix := WrappingInt32_of random_x). set (iy := WrappingInt32_of random_y).
  pose proof (u32_range random_x) as Hux. pose proof (u32_range random_y) as Huy.
  assert (roomy S ix) as Rx by (split; simpl; unfold_width; lia).
  assert (roomy [] iy) as Ry by (unfold roomy; rewrite (@slen_nil Z); split; simpl; unfold_width; lia).
  destruct (bench_start_syn S random_x random_y HS) as (s0' & H0' & Hinv & Hxs & Hys & Hcl).
  rewrite H0 in H0'. apply Ok_inj in H0' as <-.
  destruct (first_round reads S ix iy Hux Huy HS Hread Rx Ry s0 Hinv Hxs Hys Hcl) as (s1 & H1 & Hb1).
  destruct (receive_rounds reads S ix iy Hux Huy HS Hread Rx Ry (length S + 1) 0 0 1 0 s1 Hb1)
    as (s2 & j & H2 & [_ Hd] & Hc); [unfold slen; lia|].
  destruct (finish_rounds reads S ix iy Hux Huy HS Hread Rx Ry j s2 12 Hc ltac:(lia)) as (s3 & H3 & Hend).
  exists s2, s3. split; [|done]. replace (length S + 2)%nat with (Datatypes.S (length S + 1)) by lia.
  cbn [receive_loop]. unfold inbound_stream. rewrite (ys_recv _ _ _ _ Hys), H1. exact H2.
Qed.

(** C2: everything is delivered, and the benchmark ends.  For every string of less
    than [2^31] bytes and random initial sequence numbers that leave room for it
    below [2^32], the exchange of segments in order ends normally, within as
    many rounds as the string has bytes and two more until [y] has received all
    of it, and twelve more until both connections have closed; with that many
    rounds or more for each of its two loops, [main_loop] returns.  On the way
    the code reads past the end of the outstanding segments.  The result is the
    same whatever header this undefined read yields; if the read stops the
    program instead, there is no result. *)
Theorem benchmark_delivers (reads : Reads) (S : bytes) (random_x random_y : Z) :
  slen S < 0x80000000 →
  u32 random_x + slen S + 0x10002 < 0x100000000 → u32 random_y + 0x10002 < 0x100000000 →
  (∃ s0 s1 s, bench_start S random_x random_y = Ok s0 ∧
     receive_loop reads (length S + 2) false s0 = Ok s1 ∧ finish_loop reads 12 false s1 = Ok s ∧
     (∀ rounds, (length S + 12 <= rounds)%nat → main_loop reads rounds false S random_x random_y = Ok s) ∧
     string_received s = S ∧ active (x s) = false ∧ active (y s) = false) ∨
  ((∀ rounds, (length S + 12 <= rounds)%nat → main_loop reads rounds false S random_x random_y = Throw Undefined) ∧
   ∃ l, end_header reads l = None).
Proof.
  intros HS Hx Hy. destruct (bench_start_syn S random_x random_y HS) as (s0 & H0 & _).
  destruct (benchmark_loops (yielding reads) S random_x random_y s0 (yielding_reads reads) HS Hx Hy H0)
    as (s1 & s & H1 & Hs1 & H2 & Hr & Ha).
  unfold main_loop. rewrite H0. cbn [mbind result_bind].
  destruct (receive_loop_follows reads false (length S + 2) s0) as [E1|[E1 ?]].
  2: { right. split; [|done]. intros rounds Hn. by rewrite (receive_loop_more reads false _ rounds _ _ E1) by (done || lia). }
  rewrite H1 in E1.
  assert (∀ rounds, (length S + 12 <= rounds)%nat →
    (s ← receive_loop reads rounds false s0;
     if negb (bool_decide (string_received s = S)) then Throw RuntimeError else finish_loop reads rounds false s) =
    finish_loop reads rounds false s1) as Hm.
  { intros rounds Hn. rewrite (receive_loop_more reads false _ rounds _ _ E1) by (done || lia). cbn [mbind result_bind].
    by rewrite bool_decide_eq_true_2. }
  destruct (finish_loop_follows reads false 12 s1) as [E2|[E2 ?]].
  - left. rewrite H2 in E2. exists s0, s1, s. split_and!; try done; [|apply Ha..]. intros rounds Hn.
    rewrite Hm by done. apply (finish_loop_more reads false 12); [done|done|lia].
  - right. split; [|done]. intros rounds Hn. rewrite Hm by done. apply (finish_loop_more reads false 12); [done|done|lia].
Qed.

Lemma benchmark_delivers_witness :
  ∃ s, main_loop some_reads 15 false [1; 2; 3] 5 7 = Ok s ∧ string_received s = [1; 2; 3] ∧
    active (x s) = false ∧ active (y s) = false.
Proof.
  destruct (benchmark_delivers some_reads [1; 2; 3] 5 7) as [(s0 & s1 & s & _ & _ & _ & Hm & H)|[_ [l Hl]]];
    [concrete|concrete|concrete| |discriminate Hl].
  exists s. split; [apply Hm; simpl; lia|exact H].
Defined.
