(* ===== verification/NetworkSimulator.v ===== *)
(** * The network simulator (apps/network_simulator.cc)

    A router with seven interfaces and six hosts, joined by Ethernet segments,
    and the traffic the program sends through them.  The generator [rd] is a
    function from the number of the draw to what is drawn; the number of draws
    so far is threaded through.  [unordered_map] is a finite map: the one loop
    over it raises the same exception in any order.  Frames are printed while
    they are carried; the printed text is [summary], and only its exceptions
    matter here. *)

From stdpp Require Import gmap strings.
From S2P Require Import Prelude Buffer Parser StdString IPv4Header IPv4Datagram EthernetHeader EthernetFrame ARPMessage.
From S2P Require Import Address NetworkInterface Router Printing.
From stdpp Require Import options.

Local Open Scope Z_scope.

(** ** Hosts *)

Record Host := mkHost {
  _name : bytes;
  _my_address : Address;
  _interface : AsyncNetworkInterface;
  _next_hop : Address;
  _expecting_to_receive : list IPv4Datagram
}.

Definition host_interface (h : Host) : AsyncNetworkInterface := _interface h.

Definition set_host_interface (h : Host) (i : AsyncNetworkInterface) : Host :=
  mkHost (_name h) (_my_address h) i (_next_hop h) (_expecting_to_receive h).

Definition set_expecting (h : Host) (l : list IPv4Datagram) : Host :=
  mkHost (_name h) (_my_address h) (_interface h) (_next_hop h) l.

(** The serialized forms are compared. *)
Definition same_datagram (x y : IPv4Datagram) : result bool :=
  sx ← IPv4Datagram.serialize x;
  sy ← IPv4Datagram.serialize y;
  Ok (bool_decide (concatenate sx = concatenate sy)).

Fixpoint expecting (l : list IPv4Datagram) (expected : IPv4Datagram) : result bool :=
  match l with
  | [] => Ok false
  | x :: l => b ← same_datagram x expected; if b : bool then Ok true else expecting l expected
  end.

Fixpoint remove_expectation (l : list IPv4Datagram) (expected : IPv4Datagram) : result (list IPv4Datagram) :=
  match l with
  | [] => Ok []
  | x :: l =>
      b ← same_datagram x expected;
      if b : bool then Ok l else (l' ← remove_expectation l expected; Ok (x :: l'))
  end.

Definition expect (h : Host) (expected : IPv4Datagram) : Host :=
  set_expecting h (_expecting_to_receive h ++ [expected]).

(** The loop of [check]. *)
Fixpoint check_received (received expecting_to_receive : list IPv4Datagram) : result (list IPv4Datagram) :=
  match received with
  | [] => Ok expecting_to_receive
  | dgram_received :: received =>
      b ← expecting expecting_to_receive dgram_received;
      if b : bool then
        l ← remove_expectation expecting_to_receive dgram_received;
        check_received received l
      else Throw RuntimeError
  end.

Definition check (h : Host) : result Host :=
  l ← check_received (datagrams_out (_interface h)) (_expecting_to_receive h);
  if bool_decide (l = []) then
    Ok (set_expecting (set_host_interface h (mkAsync (base (_interface h)) [])) l)
  else Throw RuntimeError.

(** ** Carrying frames *)

Definition summary (frame : EthernetFrame) : result bytes :=
  let ret := EthernetHeader_to_string (EthernetFrame.header frame) in
  if type (EthernetFrame.header frame) =? TYPE_IPv4 then
    b ← to_Buffer (EthernetFrame.payload frame);
    '(dgram, res) ← IPv4Datagram.parse IPv4Datagram_default b;
    Ok (if bool_decide (res = NoError) then
          ret ++ lit " " ++ IPv4Header_summary (IPv4Datagram.header dgram) ++
          lit " payload=" ++ [34] ++ concatenate (IPv4Datagram.payload dgram) ++ [34]
        else ret ++ lit " (bad IPv4)")
  else if type (EthernetFrame.header frame) =? TYPE_ARP then
    b ← to_Buffer (EthernetFrame.payload frame);
    '(arp, res) ← ARPMessage.parse ARPMessage_default b;
    Ok (if bool_decide (res = NoError) then ret ++ lit " " ++ ARPMessage_to_string arp
        else ret ++ lit " (bad ARP)")
  else Ok ret.

Definition joined (f : EthernetFrame) : EthernetFrame :=
  mkEthernetFrame (EthernetFrame.header f) (BufferList_of_string (concatenate (EthernetFrame.payload f))).

Fixpoint deliver (to_send : list EthernetFrame) (dst : AsyncNetworkInterface) : result AsyncNetworkInterface :=
  match to_send with
  | [] => Ok dst
  | front :: to_send =>
      _ ← summary (joined front);
      dst ← async_recv_frame dst (joined front);
      deliver to_send dst
  end.

Definition frames_of (i : AsyncNetworkInterface) : list EthernetFrame := frames_out (base i).

(** Pops as many frames from the second queue as the first has. *)
Definition clear (queue1 : list EthernetFrame) (x : AsyncNetworkInterface) : AsyncNetworkInterface :=
  mkAsync (set_frames_out (base x) (drop (length queue1) (frames_of x))) (_datagrams_out x).

Definition exchange_frames (x y : AsyncNetworkInterface) : result (AsyncNetworkInterface * AsyncNetworkInterface) :=
  let x_frames := frames_of x in
  let y_frames := frames_of y in
  y ← deliver x_frames y;
  x ← deliver y_frames x;
  Ok (clear x_frames x, clear y_frames y).

Definition exchange_frames3 (x y z : AsyncNetworkInterface)
    : result (AsyncNetworkInterface * AsyncNetworkInterface * AsyncNetworkInterface) :=
  let x_frames := frames_of x in
  let y_frames := frames_of y in
  let z_frames := frames_of z in
  y ← deliver x_frames y;
  z ← deliver x_frames z;
  x ← deliver y_frames x;
  z ← deliver y_frames z;
  x ← deliver z_frames x;
  y ← deliver z_frames y;
  Ok (clear x_frames x, clear y_frames y, clear z_frames z).

(** ** The network *)

Record Network := mkNetwork {
  _router : Router;
  default_id : Z;
  eth0_id : Z;
  eth1_id : Z;
  eth2_id : Z;
  uun3_id : Z;
  hs4_id : Z;
  mit5_id : Z;
  _hosts : gmap bytes Host
}.

Definition set_router (nw : Network) (r : Router) : Network :=
  mkNetwork r (default_id nw) (eth0_id nw) (eth1_id nw) (eth2_id nw) (uun3_id nw) (hs4_id nw) (mit5_id nw) (_hosts nw).

Definition set_hosts (nw : Network) (m : gmap bytes Host) : Network :=
  mkNetwork (_router nw) (default_id nw) (eth0_id nw) (eth1_id nw) (eth2_id nw) (uun3_id nw) (hs4_id nw) (mit5_id nw) m.

Definition host (nw : Network) (name : bytes) : result Host :=
  match _hosts nw !! name with
  | None => Throw RuntimeError
  | Some h => if bool_decide (_name h = name) then Ok h else Throw RuntimeError
  end.

(** Assignments through the references that [interface] and [host] return. *)
Definition set_port (nw : Network) (id : Z) (i : AsyncNetworkInterface) : Network :=
  set_router nw (set_interface (_router nw) (Z.to_nat id) i).

Definition set_host (nw : Network) (name : bytes) (h : Host) : Network :=
  set_hosts nw (<[name := h]> (_hosts nw)).

(** A segment with an interface of the router and one host. *)
Definition connection (nw : Network) (id : Z) (name : bytes) : result Network :=
  x ← Router.interface (_router nw) id;
  h ← host nw name;
  '(x, y) ← exchange_frames x (host_interface h);
  Ok (set_host (set_port nw id x) name (set_host_interface h y)).

(** A segment with an interface of the router and two hosts. *)
Definition connection3 (nw : Network) (id : Z) (name1 name2 : bytes) : result Network :=
  x ← Router.interface (_router nw) id;
  h1 ← host nw name1;
  h2 ← host nw name2;
  '(x, y, z) ← exchange_frames3 x (host_interface h1) (host_interface h2);
  let nw := set_host (set_port nw id x) name1 (set_host_interface h1 y) in
  Ok (set_host nw name2 (set_host_interface h2 z)).

Definition simulate_physical_connections (nw : Network) : result Network :=
  nw ← connection nw (default_id nw) (lit "default_router");
  nw ← connection nw (eth0_id nw) (lit "applesauce");
  nw ← connection nw (eth2_id nw) (lit "cherrypie");
  nw ← connection nw (hs4_id nw) (lit "hs_router");
  connection3 nw (uun3_id nw) (lit "dm42") (lit "dm43").

Fixpoint check_hosts (l : list (bytes * Host)) (nw : Network) : result Network :=
  match l with
  | [] => Ok nw
  | (name, h) :: l => h ← check h; check_hosts l (set_host nw name h)
  end.

Section Simulator.
Context `{HR : Resolver}.
Context (shift_oob : Z → Z → Z).
(** What the generator draws, by the number of the draw. *)
Context (rd : nat → Z).

Definition draw_address (n : nat) : EthernetAddress := map (λ i, u8 (rd (n + i))) (seq 0 6).

(** The address and the number of draws after it. *)
Definition random_host_ethernet_address (n : nat) : EthernetAddress * nat :=
  (match draw_address n with
   | b :: addr => Z.land (Z.lor b 0x02) 0xfe :: addr
   | [] => []
   end, (n + 6)%nat).

Definition random_router_ethernet_address (n : nat) : EthernetAddress * nat :=
  (0x02 :: 0 :: 0 :: drop 3 (draw_address n), (n + 6)%nat).

(** [Address] from a string, with port 0. *)
Definition addr (str : string) : result Address := Address_of_ip (lit str) 0.

Definition ip (str : string) : result Z := a ← addr str; ipv4_numeric a.

Definition Host_new (name : bytes) (my_address next_hop : Address) (n : nat) : result (Host * nat) :=
  let '(eth, n) := random_host_ethernet_address n in
  i ← NetworkInterface_new eth my_address;
  Ok (mkHost name my_address (AsyncNetworkInterface_of i) next_hop [], n).

Definition random_payload (n : nat) : bytes :=
  lit "random payload: {" ++ StdString.to_string (u32 (rd n)) ++ lit "}".

Definition datagram_to (src dst ttl : Z) (payload : bytes) : IPv4Datagram :=
  let h := with_addresses IPv4Header_default src dst (u16 (hlen IPv4Header_default * 4 + slen payload)) in
  mkIPv4Datagram (with_ttl h ttl) (BufferList_of_string payload).

Definition send_to (h : Host) (destination : Address) (ttl : Z) (n : nat) : result (Host * IPv4Datagram * nat) :=
  src ← ipv4_numeric (_my_address h);
  dst ← ipv4_numeric destination;
  let dgram := datagram_to src dst ttl (random_payload n) in
  b ← send_datagram (base (_interface h)) dgram (_next_hop h);
  _ ← Address.ip (_next_hop h);
  Ok (set_host_interface h (mkAsync b (_datagrams_out (_interface h))), dgram, S n).

(** *** Construction *)

Definition add_port (r : Router) (address : string) (n : nat) : result (Router * Z * nat) :=
  let '(eth, n) := random_router_ethernet_address n in
  a ← addr address;
  i ← NetworkInterface_new eth a;
  let '(r, id) := add_interface r (AsyncNetworkInterface_of i) in
  Ok (r, id, n).

Definition insert_host (m : gmap bytes Host) (name my_address next_hop : string) (n : nat)
    : result (gmap bytes Host * nat) :=
  a ← addr my_address;
  hop ← addr next_hop;
  '(h, n) ← Host_new (lit name) a hop n;
  Ok (<[lit name := h]> m, n).

Definition route_to (nw : Network) (prefix : string) (prefix_length : Z) (next_hop : option Address) (id : Z)
    : result Network :=
  p ← ip prefix;
  Ok (set_router nw (add_route shift_oob (_router nw) p prefix_length next_hop id)).

Definition Network_new (n : nat) : result (Network * nat) :=
  '(r, default_id, n) ← add_port Router_new "171.67.76.46" n;
  '(r, eth0_id, n) ← add_port r "10.0.0.1" n;
  '(r, eth1_id, n) ← add_port r "172.16.0.1" n;
  '(r, eth2_id, n) ← add_port r "192.168.0.1" n;
  '(r, uun3_id, n) ← add_port r "198.178.229.1" n;
  '(r, hs4_id, n) ← add_port r "143.195.0.2" n;
  '(r, mit5_id, n) ← add_port r "128.30.76.255" n;
  '(m, n) ← insert_host ∅ "applesauce" "10.0.0.2" "10.0.0.1" n;
  '(m, n) ← insert_host m "default_router" "171.67.76.1" "0" n;
  '(m, n) ← insert_host m "cherrypie" "192.168.0.2" "192.168.0.1" n;
  '(m, n) ← insert_host m "hs_router" "143.195.0.1" "0" n;
  '(m, n) ← insert_host m "dm42" "198.178.229.42" "198.178.229.1" n;
  '(m, n) ← insert_host m "dm43" "198.178.229.43" "198.178.229.1" n;
  let nw := mkNetwork r default_id eth0_id eth1_id eth2_id uun3_id hs4_id mit5_id m in
  d ← host nw (lit "default_router");
  nw ← route_to nw "0.0.0.0" 0 (Some (_my_address d)) default_id;
  nw ← route_to nw "10.0.0.0" 8 None eth0_id;
  nw ← route_to nw "172.16.0.0" 16 None eth1_id;
  nw ← route_to nw "192.168.0.0" 24 None eth2_id;
  nw ← route_to nw "198.178.229.0" 24 None uun3_id;
  hs ← host nw (lit "hs_router");
  nw ← route_to nw "143.195.0.0" 17 (Some (_my_address hs)) hs4_id;
  nw ← route_to nw "143.195.128.0" 18 (Some (_my_address hs)) hs4_id;
  nw ← route_to nw "143.195.192.0" 19 (Some (_my_address hs)) hs4_id;
  mit ← addr "128.30.0.1";
  nw ← route_to nw "128.30.76.255" 16 (Some mit) mit5_id;
  Ok (nw, n).

(** *** Simulation *)

Definition round (nw : Network) : result Network :=
  r ← route shift_oob (_router nw);
  simulate_physical_connections (set_router nw r).

Fixpoint rounds (n : nat) (nw : Network) : result Network :=
  match n with
  | O => Ok nw
  | S n => nw ← round nw; rounds n nw
  end.

Definition simulate (nw : Network) : result Network :=
  nw ← rounds 256 nw;
  check_hosts (map_to_list (_hosts nw)) nw.

(** One datagram: sent, expected elsewhere with one hop less, and carried. *)
Definition send (nw : Network) (n : nat) (from : bytes) (destination : Address) (ttl : Z)
    : result (Network * nat * IPv4Datagram) :=
  h ← host nw from;
  '(h, dgram, n) ← send_to h destination ttl n;
  Ok (set_host nw from h, n, dgram).

Definition send_expecting (nw : Network) (n : nat) (from : string) (destination : Address) (to : string)
    : result (Network * nat) :=
  '(nw, n, dgram_sent) ← send nw n (lit from) destination 64;
  h ← host nw (lit to);
  nw ← simulate (set_host nw (lit to) (expect h (decrement_ttl dgram_sent)));
  Ok (nw, n).

(** A datagram that nobody is to receive. *)
Definition send_lost (nw : Network) (n : nat) (from : string) (destination : Address) (ttl : Z)
    : result (Network * nat) :=
  '(nw, n, _) ← send nw n (lit from) destination ttl;
  nw ← simulate nw;
  Ok (nw, n).

Definition address_of (nw : Network) (name : string) : result Address := h ← host nw (lit name); Ok (_my_address h).

Definition network_simulator : result (Network * nat) :=
  '(nw, n) ← Network_new 0;
  a ← address_of nw "cherrypie";
  '(nw, n) ← send_expecting nw n "applesauce" a "cherrypie";
  a ← address_of nw "applesauce";
  '(nw, n) ← send_expecting nw n "cherrypie" a "applesauce";
  a ← addr "1.2.3.4";
  '(nw, n) ← send_expecting nw n "applesauce" a "default_router";
  a ← addr "143.195.131.17";
  '(nw, n) ← send_expecting nw n "applesauce" a "hs_router";
  a ← addr "143.195.193.52";
  '(nw, n) ← send_expecting nw n "cherrypie" a "hs_router";
  a ← addr "143.195.223.255";
  '(nw, n) ← send_expecting nw n "cherrypie" a "hs_router";
  a ← addr "143.195.224.0";
  '(nw, n) ← send_expecting nw n "cherrypie" a "default_router";
  a ← address_of nw "dm43";
  '(nw, n) ← send_expecting nw n "dm42" a "dm43";
  a ← addr "1.2.3.4";
  '(nw, n) ← send_lost nw n "applesauce" a 1;
  a ← addr "1.2.3.4";
  send_lost nw n "applesauce" a 0.


Definition main : Z := match network_simulator with Ok _ => EXIT_SUCCESS | Throw _ => EXIT_FAILURE end.

End Simulator.

(** ** Well-formed traffic *)

(** A frame with a datagram that was serialized, or an ARP message. *)
Inductive frame_ok (f : EthernetFrame) : Prop :=
  | frame_ip d l :
      type (EthernetFrame.header f) = TYPE_IPv4 → IPv4Datagram.wf d → IPv4Datagram.serialize d = Ok l →
      concatenate (EthernetFrame.payload f) = concatenate l → frame_ok f
  | frame_arp arp :
      type (EthernetFrame.header f) = TYPE_ARP → ARPMessage.wf arp →
      concatenate (EthernetFrame.payload f) = message_bytes arp → frame_ok f.

Record interface_ok (n : NetworkInterface) : Prop := {
  ok_wf : NetworkInterface.wf n;
  ok_frames : Forall frame_ok (_frames_out n);
  ok_queue : map_Forall (λ _ q, Forall IPv4Datagram.wf q) (_datagram_queue n)
}.

Record port_ok (i : AsyncNetworkInterface) : Prop := {
  ok_base : interface_ok (base i);
  ok_datagrams : Forall IPv4Datagram.wf (_datagrams_out i)
}.

Lemma ip_frame_ok n eth d l : IPv4Datagram.wf d → IPv4Datagram.serialize d = Ok l → frame_ok (ip_frame n eth l).
Proof. intros Hd Hl. by eapply frame_ip. Qed.

Lemma arp_frame_ok n eth arp : ARPMessage.wf arp → frame_ok (arp_frame n eth arp).
Proof.
  intros Ha. eapply frame_arp; [done|done|]. unfold EthernetFrame.payload.
  cbn [arp_frame EthernetFrame._payload]. by rewrite concatenate_one, str_of.
Qed.

Lemma serialized_all q :
  Forall IPv4Datagram.wf q → ∃ ls, Forall2 (λ d l, IPv4Datagram.serialize d = Ok l) q ls.
Proof.
  intros H. induction H as [|d q Hd H [ls IH]]; [by exists []|].
  eexists (_ :: ls). constructor; [by apply serialize_datagram_eq|done].
Qed.

Lemma ip_frames_ok n eth q ls :
  Forall IPv4Datagram.wf q → Forall2 (λ d l, IPv4Datagram.serialize d = Ok l) q ls →
  Forall frame_ok (map (ip_frame n eth) ls).
Proof.
  intros Hq H. induction H as [|d l q ls Hd H IH]; [by constructor|]. apply Forall_cons_1 in Hq as [Hwf Hq].
  constructor; [by eapply ip_frame_ok|by apply IH].
Qed.

(** *** Receiving *)

Lemma parse_ip_payload d l :
  IPv4Datagram.wf d → IPv4Datagram.serialize d = Ok l →
  ∃ d', IPv4Datagram.parse IPv4Datagram_default (Buffer_of (concatenate l)) = Ok (d', NoError) ∧ IPv4Datagram.wf d'.
Proof.
  intros [Hh Hlen] Hl. rewrite serialize_datagram_eq in Hl by done. apply Ok_inj in Hl as <-.
  set (hd := IPv4Datagram._header d) in *.
  destruct (parse_datagram IPv4Datagram_default
    (Buffer_of (concatenate (Buffer_of (head_bytes hd ++ be_bytes 2 (header_cksum hd) ++ tail_bytes hd) :: IPv4Datagram._payload d)))
    hd (header_cksum hd) (concatenate (IPv4Datagram._payload d)) Hh (u16_range _)) as (p & _ & Hp & Hpl & _).
  - apply wf_of. rewrite concatenate_cons, str_of, !slen_app, ipv4_head_bytes_slen, be_bytes_slen,
      ipv4_tail_bytes_slen by (destruct Hh; lia). pose proof (slen_nonneg (concatenate (IPv4Datagram._payload d))).
    destruct Hh. unfold_width. lia.
  - done.
  - by rewrite str_of, concatenate_cons, str_of.
  - eexists. split; [exact Hp|]. split; [apply ipv4_with_cksum_wf; [done|apply u16_range]|].
    cbn [IPv4Datagram._header IPv4Datagram._payload]. rewrite concatenate_one, Hpl. done.
Qed.

Lemma parse_arp_payload arp :
  ARPMessage.wf arp → ARPMessage.parse ARPMessage_default (Buffer_of (message_bytes arp)) = Ok (arp, NoError).
Proof.
  intros Ha. apply (arp_parse_serialized arp _ _ []); [done| |by rewrite str_of, app_nil_r].
  apply wf_of. rewrite message_bytes_slen by done. concrete.
Qed.

Lemma summary_total f : frame_ok f → ∃ s, summary (joined f) = Ok s.
Proof.
  intros [d l Ht Hd Hl Hp|arp Ht Ha Hp]; unfold summary; cbn [EthernetFrame.header EthernetFrame._header joined].
  - fold (EthernetFrame.header f). rewrite Ht. cbn. rewrite Hp.
    destruct (parse_ip_payload d l Hd Hl) as (d' & -> & _). by eexists.
  - fold (EthernetFrame.header f). rewrite Ht. cbn. rewrite Hp, parse_arp_payload by done. by eexists.
Qed.

Lemma reply_ok n h arp : NetworkInterface.wf n → ARPMessage.wf arp → Forall frame_ok (reply_to n h arp).
Proof.
  intros Hn Ha. unfold reply_to. case_match; [|by constructor]. apply Forall_singleton, arp_frame_ok.
  destruct Ha. apply construct_arp_wf; auto.
Qed.

Lemma recv_arp_keeps n h arp :
  interface_ok n → ARPMessage.wf arp → ∃ n', recv_arp n h arp = Ok n' ∧ interface_ok n'.
Proof.
  intros [Hwf Hf Hq] Ha.
  assert (Forall IPv4Datagram.wf (default [] (_datagram_queue n !! sender_ip_address arp))) as Hd.
  { destruct (_ !! _) as [q|] eqn:E; [by apply (Hq _ _ E)|by constructor]. }
  destruct (serialized_all _ Hd) as [ls Hls]. rewrite (recv_arp_eq n h arp ls Hwf Ha Hls).
  eexists. split; [done|]. split; cbn [_frames_out _datagram_queue].
  - by destruct Hwf.
  - rewrite !Forall_app. split_and!; [done|by eapply ip_frames_ok|by apply reply_ok].
  - by apply map_Forall_delete.
Qed.

Lemma recv_frame_keeps i f :
  port_ok i → frame_ok f → ∃ i', async_recv_frame i (joined f) = Ok i' ∧ port_ok i'.
Proof.
  intros [Hi Hd] Hf. unfold async_recv_frame, recv_frame. cbn [EthernetFrame.header EthernetFrame._header joined].
  fold (EthernetFrame.header f). destruct Hf as [d l Ht Hwf Hl Hp|arp Ht Ha Hp]; rewrite Ht; cbn; rewrite Hp.
  - destruct (bool_decide _); [|by exists i; destruct i].
    destruct (parse_ip_payload d l Hwf Hl) as (d' & -> & Hd'). cbn. eexists. split; [done|].
    split; [done|]. apply Forall_app. split; [done|by apply Forall_singleton].
  - rewrite parse_arp_payload by done. cbn.
    destruct (recv_arp_keeps (base i) (EthernetFrame.header f) arp Hi Ha) as (n' & -> & Hn'). cbn.
    eexists. split; [done|]. by split.
Qed.

Lemma deliver_keeps fs : ∀ i, port_ok i → Forall frame_ok fs → ∃ i', deliver fs i = Ok i' ∧ port_ok i'.
Proof.
  induction fs as [|f fs IH]; intros i Hi Hfs; cbn [deliver]; [by exists i|].
  apply Forall_cons_1 in Hfs as [Hf Hfs]. destruct (summary_total f Hf) as [s ->]. cbn [mbind result_bind].
  destruct (recv_frame_keeps i f Hi Hf) as (i' & -> & Hi'). cbn [mbind result_bind]. by apply IH.
Qed.

Lemma clear_keeps q x : port_ok x → port_ok (clear q x).
Proof. intros [[Hwf Hf Hq] Hd]. split; [|done]. split; [by destruct Hwf|by apply Forall_drop|done]. Qed.

Lemma frames_of_ok i : port_ok i → Forall frame_ok (frames_of i).
Proof. by intros [[]]. Qed.

(** One delivery in a sequence of them. *)
Ltac next_delivery :=
  match goal with
  | |- context [deliver ?fs ?i] =>
      destruct (deliver_keeps fs i) as (? & -> & ?); [done|by apply frames_of_ok|cbn [mbind result_bind]]
  end.

Lemma exchange_frames_keeps x y :
  port_ok x → port_ok y → ∃ x' y', exchange_frames x y = Ok (x', y') ∧ port_ok x' ∧ port_ok y'.
Proof. intros Hx Hy. unfold exchange_frames. do 2 next_delivery.
  eexists _, _. split_and!; [done|by apply clear_keeps..].
Qed.

Lemma exchange_frames3_keeps x y z :
  port_ok x → port_ok y → port_ok z →
  ∃ x' y' z', exchange_frames3 x y z = Ok (x', y', z') ∧ port_ok x' ∧ port_ok y' ∧ port_ok z'.
Proof. intros Hx Hy Hz. unfold exchange_frames3. do 6 next_delivery.
  eexists _, _, _. split_and!; [done|by apply clear_keeps..].
Qed.

(** *** Sending *)

Lemma send_datagram_keeps n d a ip n' :
  interface_ok n → IPv4Datagram.wf d → ipv4_numeric a = Ok ip → is_u32 ip →
  send_datagram n d a = Ok n' → interface_ok n'.
Proof.
  intros [Hwf Hf Hq] Hd Hip Hu. unfold send_datagram. rewrite Hip. cbn [mbind result_bind].
  destruct (_cached_ethernet_addresses n !! ip) as [c|].
  - rewrite (send_to_eq n d _ _ (serialize_datagram_eq d Hd)). intros [= <-]. split; [by destruct Hwf| |done].
    apply Forall_app. split; [done|]. apply Forall_singleton. eapply ip_frame_ok; [done|]. by apply serialize_datagram_eq.
  - destruct (_arp_message_timers n !! ip); [by intros [= <-]|].
    intros (n1 & H1 & [= <-])%result_bind_ok.
    assert (∃ f, n1 = set_frames_out n (_frames_out n ++ [f]) ∧ frame_ok f) as (f & -> & Hfo).
    { revert H1. rewrite send_arp_message_eq; [intros [= <-]; eexists; split; [done|apply arp_frame_ok]|];
        apply construct_arp_wf; auto using zero_address_wf. }
    split; [by destruct Hwf| |]; cbn [_frames_out _datagram_queue set_frames_out set_timers set_queue].
    + apply Forall_app. split; [done|by apply Forall_singleton].
    + apply map_Forall_insert_2; [|done]. apply Forall_app. split; [|by apply Forall_singleton].
      destruct (_ !! ip) as [q|] eqn:E; [by apply (Hq _ _ E)|by constructor].
Qed.

(** *** The network *)

Definition ipv4_address (a : Address) : Prop := ∃ ip port, is_u32 ip ∧ is_u16 port ∧ a = Address_in ip port.

Lemma ipv4_address_numeric a : ipv4_address a → ∃ ip, ipv4_numeric a = Ok ip ∧ is_u32 ip.
Proof. intros (ip & port & Hip & _ & ->). exists ip. by rewrite ipv4_numeric_in. Qed.

Record host_ok (name : bytes) (h : Host) : Prop := {
  ok_name : _name h = name;
  ok_interface : port_ok (_interface h);
  ok_expecting : Forall IPv4Datagram.wf (_expecting_to_receive h);
  ok_my_address : ipv4_address (_my_address h);
  ok_next_hop : ipv4_address (_next_hop h)
}.

Definition host_names : list string := ["applesauce"; "default_router"; "cherrypie"; "hs_router"; "dm42"; "dm43"]%string.

Definition ids (nw : Network) : list Z :=
  [default_id nw; eth0_id nw; eth1_id nw; eth2_id nw; uun3_id nw; hs4_id nw; mit5_id nw].

Record network_ok (nw : Network) : Prop := {
  ok_router : router_wf (_router nw);
  ok_ports : Forall port_ok (_interfaces (_router nw));
  ok_ids : Forall (λ id, 0 <= id < slen (_interfaces (_router nw))) (ids nw);
  ok_hosts : map_Forall host_ok (_hosts nw);
  ok_names : Forall (λ name, is_Some (_hosts nw !! lit name)) host_names
}.

Lemma host_found nw name :
  network_ok nw → name ∈ host_names → ∃ h, host nw (lit name) = Ok h ∧ host_ok (lit name) h.
Proof.
  intros Hnw Hn. destruct (proj1 (list.Forall_forall _ _) (ok_names nw Hnw) name Hn) as [h Hh]. exists h.
  pose proof (ok_hosts nw Hnw _ _ Hh) as Hok. unfold host. rewrite Hh, bool_decide_eq_true_2 by apply Hok. done.
Qed.

Lemma set_host_keeps nw name h : network_ok nw → host_ok name h → network_ok (set_host nw name h).
Proof.
  intros [? ? ? ? Hn] Hh. split; try done; cbn [set_host set_hosts _hosts _router].
  - by apply map_Forall_insert_2.
  - eapply Forall_impl; [|exact Hn]. intros n [h' Hl]. destruct (decide (name = lit n)) as [->|].
    + rewrite lookup_insert_eq. by eexists.
    + rewrite lookup_insert_ne by done. by exists h'.
Qed.

Lemma port_found nw id :
  network_ok nw → id ∈ ids nw → ∃ i, Router.interface (_router nw) id = Ok i ∧ port_ok i.
Proof.
  intros Hnw Hid. pose proof (proj1 (list.Forall_forall _ _) (ok_ids nw Hnw) id Hid) as Hr. cbn beta in Hr.
  destruct (lookup_lt_is_Some_2 (_interfaces (_router nw)) (Z.to_nat id)) as [i Hl]; [unfold slen in Hr; lia|].
  exists i. unfold Router.interface. rewrite Hl. split; [done|]. by apply (proj1 (Forall_lookup _ _) (ok_ports nw Hnw) _ _ Hl).
Qed.

Lemma set_port_keeps nw id i : network_ok nw → port_ok i → network_ok (set_port nw id i).
Proof.
  intros [[Hr Hi] Hp Hids Hh Hn] Hport. assert (slen (<[Z.to_nat id:=i]> (_interfaces (_router nw))) = slen (_interfaces (_router nw))) as Hl.
  { unfold slen. by rewrite length_insert. }
  split; cbn [set_port set_router _router _hosts set_interface _interfaces _routes]; try done.
  - split; cbn [set_interface _interfaces _routes]; [by rewrite Hl|]. apply Forall_insert; [done|]. destruct Hport as [[] ]. done.
  - by apply Forall_insert.
  - rewrite Hl. done.
Qed.

Lemma host_interface_keeps name h i : host_ok name h → port_ok i → host_ok name (set_host_interface h i).
Proof. intros [] Hi. by split. Qed.

Lemma connection_keeps nw id name :
  network_ok nw → id ∈ ids nw → name ∈ host_names →
  ∃ nw', connection nw id (lit name) = Ok nw' ∧ network_ok nw' ∧ ids nw' = ids nw.
Proof.
  intros Hnw Hid Hn. destruct (port_found nw id Hnw Hid) as (x & Hx & Hpx).
  destruct (host_found nw name Hnw Hn) as (h & Hh & Hok). unfold connection. rewrite Hx, Hh. cbn [mbind result_bind].
  destruct (exchange_frames_keeps x (host_interface h) Hpx) as (x' & y' & -> & ? & ?); [apply Hok|].
  cbn [mbind result_bind]. eexists. split; [done|]. split; [|done].
  apply set_host_keeps; [by apply set_port_keeps|by apply host_interface_keeps].
Qed.

Lemma connection3_keeps nw id name1 name2 :
  network_ok nw → id ∈ ids nw → name1 ∈ host_names → name2 ∈ host_names →
  ∃ nw', connection3 nw id (lit name1) (lit name2) = Ok nw' ∧ network_ok nw' ∧ ids nw' = ids nw.
Proof.
  intros Hnw Hid Hn1 Hn2. destruct (port_found nw id Hnw Hid) as (x & Hx & Hpx).
  destruct (host_found nw name1 Hnw Hn1) as (h1 & Hh1 & Hok1), (host_found nw name2 Hnw Hn2) as (h2 & Hh2 & Hok2).
  unfold connection3. rewrite Hx, Hh1, Hh2. cbn [mbind result_bind].
  destruct (exchange_frames3_keeps x (host_interface h1) (host_interface h2) Hpx) as (x' & y' & z' & -> & ? & ? & ?);
    [apply Hok1|apply Hok2|]. cbn [mbind result_bind]. eexists. split; [done|]. split; [|done].
  apply set_host_keeps; [|by apply host_interface_keeps].
  apply set_host_keeps; [by apply set_port_keeps|by apply host_interface_keeps].
Qed.

Ltac listed := repeat (first [apply list_elem_of_here | apply list_elem_of_further]).

Lemma connections_keep nw :
  network_ok nw → ∃ nw', simulate_physical_connections nw = Ok nw' ∧ network_ok nw'.
Proof.
  intros H0. unfold simulate_physical_connections.
  destruct (connection_keeps nw (default_id nw) "default_router" H0) as (n1 & -> & H1 & E1); [listed..|].
  cbn [mbind result_bind].
  destruct (connection_keeps n1 (eth0_id n1) "applesauce" H1) as (n2 & -> & H2 & E2); [listed..|]. cbn [mbind result_bind].
  destruct (connection_keeps n2 (eth2_id n2) "cherrypie" H2) as (n3 & -> & H3 & E3); [listed..|]. cbn [mbind result_bind].
  destruct (connection_keeps n3 (hs4_id n3) "hs_router" H3) as (n4 & -> & H4 & E4); [listed..|]. cbn [mbind result_bind].
  destruct (connection3_keeps n4 (uun3_id n4) "dm42" "dm43" H4) as (n5 & -> & H5 & E5); [listed..|]. by exists n5.
Qed.

Lemma route_keeps shift_oob nw :
  network_ok nw → ∃ r, route shift_oob (_router nw) = Ok r ∧ network_ok (set_router nw r).
Proof.
  intros [Hr Hp Hi Hh Hn].
  destruct (route_from_total shift_oob (length (_interfaces (_router nw))) (_router nw) 0 Hr) as (r & Hroute & [Hwf Hrt Hg] & _).
  { unfold queues. by rewrite length_fmap. }
  exists r. split; [done|]. pose proof (Forall2_length Hg) as Hl.
  assert (all_keep interface_ok r) as [Hk _].
  { eapply (route_from_keeps shift_oob interface_ok send_datagram_keeps); [|exact Hroute]. split.
    - eapply Forall_impl; [|exact Hp]. by intros i [].
    - eapply Forall_impl; [|apply Hr]. by intros x []. }
  split; try done; cbn [set_router _router ids default_id eth0_id eth1_id eth2_id uun3_id hs4_id mit5_id].
  - eapply Forall_impl; [|exact Hk]. by intros i [].
  - unfold slen. rewrite <- Hl. exact Hi.
Qed.

Lemma round_keeps shift_oob nw : network_ok nw → ∃ nw', round shift_oob nw = Ok nw' ∧ network_ok nw'.
Proof.
  intros Hnw. destruct (route_keeps shift_oob nw Hnw) as (r & Hr & Hnw'). unfold round. rewrite Hr.
  cbn [mbind result_bind]. by apply connections_keep.
Qed.

Lemma rounds_keep shift_oob k : ∀ nw, network_ok nw → ∃ nw', rounds shift_oob k nw = Ok nw' ∧ network_ok nw'.
Proof.
  induction k as [|k IH]; intros nw Hnw; cbn [rounds]; [by exists nw|].
  destruct (round_keeps shift_oob nw Hnw) as (nw' & -> & Hnw'). cbn [mbind result_bind]. by apply IH.
Qed.

(** ** Checking what a host received *)

(** The bytes of a datagram. *)
Definition wire (d : IPv4Datagram) : bytes :=
  match IPv4Datagram.serialize d with Ok l => concatenate l | Throw _ => [] end.

Lemma same_datagram_eq x y :
  IPv4Datagram.wf x → IPv4Datagram.wf y → same_datagram x y = Ok (bool_decide (wire x = wire y)).
Proof. intros Hx Hy. unfold same_datagram, wire. by rewrite !serialize_datagram_eq. Qed.

Lemma expecting_eq l d :
  Forall IPv4Datagram.wf l → IPv4Datagram.wf d → expecting l d = Ok (bool_decide (wire d ∈ map wire l)).
Proof.
  intros Hl Hd. induction Hl as [|x l Hx Hl IH]; cbn [expecting map].
  - rewrite bool_decide_eq_false_2; [done|]. apply not_elem_of_nil.
  - rewrite same_datagram_eq by done. cbn [mbind result_bind]. destruct (decide (wire x = wire d)) as [E|E].
    + rewrite (bool_decide_eq_true_2 _ E), bool_decide_eq_true_2; [done|]. rewrite E. apply list_elem_of_here.
    + rewrite (bool_decide_eq_false_2 _ E), IH. f_equal. apply bool_decide_ext. rewrite elem_of_cons.
      split; [by right|]. intros [Heq|?]; [by rewrite Heq in E|done].
Qed.

Lemma remove_expectation_eq l d :
  Forall IPv4Datagram.wf l → IPv4Datagram.wf d → wire d ∈ map wire l →
  ∃ l', remove_expectation l d = Ok l' ∧ Forall IPv4Datagram.wf l' ∧ map wire l ≡ₚ wire d :: map wire l'.
Proof.
  intros Hl Hd. induction Hl as [|x l Hx Hl IH]; cbn [remove_expectation map]; [by intros ?%not_elem_of_nil|].
  rewrite same_datagram_eq by done. cbn [mbind result_bind]. intros Hin. destruct (decide (wire x = wire d)) as [E|E].
  - rewrite (bool_decide_eq_true_2 _ E). exists l. by rewrite E.
  - rewrite (bool_decide_eq_false_2 _ E). destruct IH as (l' & -> & Hl' & Hp); [apply elem_of_cons in Hin as [Heq|?]; [by rewrite Heq in E|done]|]. cbn [mbind result_bind].
    exists (x :: l'). split_and!; [done|by constructor|]. cbn [map]. rewrite Hp. apply Permutation_swap.
Qed.

(** Each received datagram is struck off; what is left is what is missing. *)
Lemma check_received_eq received : ∀ l,
  Forall IPv4Datagram.wf received → Forall IPv4Datagram.wf l →
  match check_received received l with
  | Ok l' => Forall IPv4Datagram.wf l' ∧ map wire l ≡ₚ map wire received ++ map wire l'
  | Throw e => e = RuntimeError ∧ ¬ ∃ rest, map wire l ≡ₚ map wire received ++ rest
  end.
Proof.
  induction received as [|d received IH]; intros l Hr Hl; cbn [check_received map]; [done|].
  apply Forall_cons_1 in Hr as [Hd Hr]. rewrite expecting_eq by done. cbn [mbind result_bind].
  case_bool_decide as Hin.
  - destruct (remove_expectation_eq l d Hl Hd Hin) as (l1 & -> & Hl1 & Hp). cbn [mbind result_bind].
    specialize (IH l1 Hr Hl1). destruct (check_received received l1) as [l'|e].
    + destruct IH as [Hl' Hp']. split; [done|]. by rewrite Hp, Hp'.
    + destruct IH as [-> Hno]. split; [done|]. intros [rest Hrest]. apply Hno. exists rest.
      rewrite Hp in Hrest. by apply Permutation_cons_inv in Hrest.
  - split; [done|]. intros [rest Hrest]. apply Hin. rewrite Hrest. apply list_elem_of_here.
Qed.

Lemma check_eq h :
  Forall IPv4Datagram.wf (datagrams_out (_interface h)) → Forall IPv4Datagram.wf (_expecting_to_receive h) →
  match check h with
  | Ok h' => map wire (datagrams_out (_interface h)) ≡ₚ map wire (_expecting_to_receive h) ∧
             h' = set_expecting (set_host_interface h (mkAsync (base (_interface h)) [])) []
  | Throw e => e = RuntimeError ∧ ¬ map wire (datagrams_out (_interface h)) ≡ₚ map wire (_expecting_to_receive h)
  end.
Proof.
  intros Hr Hl. unfold check. pose proof (check_received_eq _ _ Hr Hl) as H.
  destruct (check_received _ _) as [l'|e]; cbn [mbind result_bind].
  - destruct H as [_ Hp]. case_bool_decide as E.
    + subst l'. cbn [map] in Hp. rewrite app_nil_r in Hp. done.
    + split; [done|]. intros Heq. rewrite <- Heq in Hp.
      apply Permutation_length in Hp. rewrite length_app in Hp. destruct l'; [done|]. simpl in Hp. lia.
  - destruct H as [-> Hno]. split; [done|]. intros Heq. apply Hno. exists []. by rewrite app_nil_r.
Qed.

(** The host got what it expected. *)
Definition satisfied (h : Host) : Prop :=
  map wire (datagrams_out (_interface h)) ≡ₚ map wire (_expecting_to_receive h).

(** The host after its check. *)
Definition checked (h : Host) : Host :=
  set_expecting (set_host_interface h (mkAsync (base (_interface h)) [])) [].

Lemma check_verdict name h :
  host_ok name h →
  (satisfied h ∧ check h = Ok (checked h) ∧ host_ok name (checked h)) ∨ (¬ satisfied h ∧ check h = Throw RuntimeError).
Proof.
  intros [Hn [Hb Hd] He Hm Hh]. pose proof (check_eq h Hd He) as H. destruct (check h) as [h'|e].
  - left. destruct H as [Hs ->]. split_and!; [done|done|]. split; [done| |constructor|done|done]. by split; [|constructor].
  - right. by destruct H as [-> Hs].
Qed.

Lemma check_hosts_verdict l : ∀ nw,
  NoDup l.*1 → Forall (λ kv, host_ok kv.1 kv.2) l →
  match check_hosts l nw with
  | Ok nw' =>
      Forall (λ kv, satisfied kv.2 ∧ _hosts nw' !! kv.1 = Some (checked kv.2)) l ∧
      (∀ name, name ∉ l.*1 → _hosts nw' !! name = _hosts nw !! name) ∧ (network_ok nw → network_ok nw')
  | Throw e => e = RuntimeError ∧ Exists (λ kv, ¬ satisfied kv.2) l
  end.
Proof.
  induction l as [|[name h] l IH]; intros nw Hnd Hl; cbn [check_hosts].
  { split_and!; [by constructor|done|done]. }
  rewrite fmap_cons in *. apply list.NoDup_cons in Hnd as [Hni Hnd]. apply Forall_cons_1 in Hl as [Hh Hl]. cbn [fst snd] in *.
  destruct (check_verdict name h Hh) as [(Hs & -> & Hc)|(Hs & ->)]; cbn [mbind result_bind]; [|by split; [|constructor]].
  specialize (IH (set_host nw name (checked h)) Hnd Hl). destruct (check_hosts l _) as [nw'|e].
  - destruct IH as (Hl' & Hrest & Hok). split_and!.
    + constructor; [|done]. split; [done|]. cbn [fst snd]. rewrite Hrest by done. apply lookup_insert_eq.
    + intros name' Hn'. apply not_elem_of_cons in Hn' as [Hne Hn']. rewrite Hrest by done. by apply lookup_insert_ne.
    + intros Hnw. apply Hok. by apply set_host_keeps.
  - destruct IH as [-> He]. split; [done|]. by constructor 2.
Qed.

(** ** Construction and sending *)

Section Construction.
Context {HR : Resolver} {HN : NumberResolver}.
Context (shift_oob : Z → Z → Z) (rd : nat → Z).

Definition resolves (str : string) (ip : Z) : Prop := is_u32 ip ∧ addr str = Ok (Address_in ip 0).

Lemma resolves_quad str ip : is_u32 ip → inet_ntoa (be_bytes 4 ip) = lit str → resolves str ip.
Proof using HN. intros Hip Hs. split; [done|]. unfold addr. rewrite <- Hs. by apply Address_of_ip_eq. Qed.

Lemma resolves_zero : resolves "0" 0.
Proof using HN.
  split; [done|]. unfold addr, Address_of_ip, Address_resolve, make_hints.
  destruct (getaddrinfo_zero 0) as [rest Hrest]; [done|]. change (lit "0") with [48]. rewrite Hrest. apply Address_of_sockaddr_in.
Qed.

Lemma resolves_address str ip : resolves str ip → ∃ a, addr str = Ok a ∧ ipv4_address a.
Proof. intros [Hip ->]. eexists. split; [done|]. by exists ip, 0. Qed.

Lemma draw_address_wf n : wf_address (draw_address rd n).
Proof. split; [done|]. repeat (constructor; [apply u8_range|]). constructor. Qed.

Lemma router_address_wf n : wf_address (random_router_ethernet_address rd n).1.
Proof.
  split; [done|]. do 3 (constructor; [concrete|]). apply Forall_drop. apply (draw_address_wf n).
Qed.

Lemma host_address_wf n : wf_address (random_host_ethernet_address rd n).1.
Proof.
  destruct (draw_address_wf n) as [Hl Hr]. unfold random_host_ethernet_address. cbn [fst].
  destruct (draw_address rd n) as [|b a]; [done|]. apply Forall_cons_1 in Hr as [Hb Hr]. split; [done|].
  constructor; [|done]. change 0xfe with (Z.land 0xfe (Z.ones 8)). rewrite Z.land_assoc, Z.land_ones by done.
  apply u8_range.
Qed.

Lemma new_interface_ok eth ip :
  wf_address eth → is_u32 ip →
  ∃ n, NetworkInterface_new eth (Address_in ip 0) = Ok n ∧ port_ok (AsyncNetworkInterface_of n).
Proof.
  intros He Hip. unfold NetworkInterface_new. rewrite ipv4_numeric_in by done. eexists. split; [done|].
  split; [|constructor]. split; [done|constructor|apply map_Forall_empty].
Qed.

(** A router under construction: [k] interfaces and no routes. *)
Record ports_ok (r : Router) (k : Z) : Prop := {
  ports_no_routes : _routes r = [];
  ports_count : slen (_interfaces r) = k;
  ports_all : Forall port_ok (_interfaces r)
}.

Lemma add_port_keeps r k address ip n :
  resolves address ip → ports_ok r k → k < 100 →
  ∃ r' n', add_port rd r address n = Ok (r', k, n') ∧ ports_ok r' (k + 1).
Proof using HN.
  intros [Hip Ha] [Hr Hk Hp] Hlt. unfold add_port.
  pose proof (router_address_wf n) as He. destruct (random_router_ethernet_address rd n) as [eth n'].
  rewrite Ha. cbn [mbind result_bind]. destruct (new_interface_ok eth ip He Hip) as (i & -> & Hi). cbn [mbind result_bind].
  assert (slen (_interfaces r ++ [AsyncNetworkInterface_of i]) = k + 1) as Hl by (rewrite slen_app, Hk; done).
  pose proof (slen_nonneg (_interfaces r)).
  unfold add_interface. rewrite Hl, u64_small by (unfold_width; lia). replace (k + 1 - 1) with k by lia.
  eexists _, n'. split; [done|]. split; [done|done|]. apply Forall_app. split; [done|by apply Forall_singleton].
Qed.

(** The hosts inserted so far. *)
Record some_hosts (m : gmap bytes Host) (names : list string) : Prop := {
  hosts_all : map_Forall host_ok m;
  hosts_names : Forall (λ name, is_Some (m !! lit name)) names
}.

Lemma insert_host_keeps m names name a ip hop hop_ip n :
  resolves a ip → resolves hop hop_ip → some_hosts m names →
  ∃ m' n', insert_host rd m name a hop n = Ok (m', n') ∧ some_hosts m' (names ++ [name]).
Proof using HN.
  intros [Hip Ha] [Hhop Hb] [Hm Hn]. unfold insert_host, Host_new. rewrite Ha, Hb. cbn [mbind result_bind].
  pose proof (host_address_wf n) as He. destruct (random_host_ethernet_address rd n) as [eth n'].
  destruct (new_interface_ok eth ip He Hip) as (i & -> & Hi). cbn [mbind result_bind]. eexists _, n'. split; [done|]. split.
  - apply map_Forall_insert_2; [|done]. split; [done|done|constructor|by exists ip, 0|by exists hop_ip, 0].
  - apply Forall_app. split; [|apply Forall_singleton; rewrite lookup_insert_eq; by eexists].
    eapply Forall_impl; [|exact Hn]. intros x Hx. cbn beta in *. destruct (decide (lit name = lit x)) as [->|].
    + rewrite lookup_insert_eq. by eexists.
    + by rewrite lookup_insert_ne.
Qed.

Lemma route_to_keeps nw prefix v bits hop id :
  resolves prefix v → network_ok nw → id ∈ ids nw → (∀ a, hop = Some a → ipv4_address a) →
  ∃ nw', route_to shift_oob nw prefix bits hop id = Ok nw' ∧ network_ok nw' ∧ ids nw' = ids nw ∧ _hosts nw' = _hosts nw.
Proof using HN.
  intros [Hip Ha] [[Hr Hi] Hp Hids Hh Hn] Hid Hhop. unfold route_to, ip. rewrite Ha. cbn [mbind result_bind].
  rewrite ipv4_numeric_in by done. cbn [mbind result_bind]. eexists. split; [done|]. split; [|done].
  split; try done. split; [|done]. cbn [set_router _router add_route _routes _interfaces].
  apply Forall_app. split; [done|]. apply Forall_singleton. split; cbn [interface_num next_hop].
  - by apply (proj1 (list.Forall_forall _ _) Hids).
  - intros a Hsome. by apply ipv4_address_numeric, Hhop.
Qed.

(** The steps of the constructor, one at a time. *)
Ltac quad := apply resolves_quad; [concrete|vm_compute; reflexivity].

Ltac next_port ip :=
  match goal with
  | H : ports_ok ?r ?k |- context [add_port rd ?r ?a ?n] =>
      destruct (add_port_keeps r k a ip n) as (? & ? & -> & ?); [quad|exact H|lia|clear H; cbn [mbind result_bind]]
  end.

Ltac next_host ip hop :=
  match goal with
  | H : some_hosts ?m ?l |- context [insert_host rd ?m ?name ?a ?b ?n] =>
      destruct (insert_host_keeps m l name a ip b hop n) as (? & ? & -> & ?);
        [quad|first [apply resolves_zero | quad]|exact H|clear H; cbn [mbind result_bind]]
  end.

Ltac next_route ip :=
  match goal with
  | H : network_ok ?nw, E : ids ?nw = _ |- context [route_to shift_oob ?nw ?p ?b ?hop ?id] =>
      destruct (route_to_keeps nw p ip b hop id) as (? & -> & ? & ? & ?);
        [quad|exact H|rewrite E; listed|by intros ? [= <-]
        |clear H; rewrite E in *; cbn [mbind result_bind]]
  end.

Lemma Network_new_ok n : ∃ nw n', Network_new shift_oob rd n = Ok (nw, n') ∧ network_ok nw.
Proof using HN.
  unfold Network_new.
  assert (ports_ok Router_new 0) by (split; [done|done|constructor]).
  next_port 0xab434c2e. next_port 0x0a000001. next_port 0xac100001. next_port 0xc0a80001.
  next_port 0xc6b2e501. next_port 0x8fc30002. next_port 0x801e4cff.
  assert (some_hosts ∅ []) by (split; [apply map_Forall_empty|constructor]).
  next_host 0x0a000002 0x0a000001. next_host 0xab434c01 0. next_host 0xc0a80002 0xc0a80001.
  next_host 0x8fc30001 0. next_host 0xc6b2e52a 0xc6b2e501. next_host 0xc6b2e52b 0xc6b2e501.
  set (nw := mkNetwork _ _ _ _ _ _ _ _ _).
  assert (network_ok nw) as Hnw.
  { match goal with H : ports_ok _ _, G : some_hosts _ _ |- _ => destruct H as [Hr Hk Hp], G as [Hh Hn] end.
    split; [|done| |done|done].
    - split; cbn [nw _router]; [rewrite Hr; constructor|]. eapply Forall_impl; [|exact Hp]. by intros i [[] ].
    - unfold ids, nw. cbn. rewrite Hk. repeat (constructor; [lia|]). constructor. }
  eassert (ids nw = [_; _; _; _; _; _; _]) as E by (unfold nw; reflexivity). clearbody nw.
  destruct (host_found nw "default_router" Hnw) as (d & -> & Hd); [listed|]. cbn [mbind result_bind].
  apply ok_my_address in Hd. next_route 0x0. next_route 0x0a000000. next_route 0xac100000. next_route 0xc0a80000.
  next_route 0xc6b2e500.
  match goal with H : network_ok ?nw |- _ => destruct (host_found nw "hs_router" H) as (hs & -> & Hhs) end; [listed|].
  cbn [mbind result_bind]. apply ok_my_address in Hhs.
  next_route 0x8fc30000. next_route 0x8fc38000. next_route 0x8fc3c000.
  destruct (resolves_address "128.30.0.1" 0x801e0001) as (mit & -> & Hmit); [quad|]. cbn [mbind result_bind].
  next_route 0x801e4cff. eexists _, _. by split.
Qed.

Lemma random_payload_slen n : 0 <= slen (random_payload rd n) <= 100.
Proof.
  unfold random_payload. rewrite !slen_app. change (slen (lit "random payload: {")) with 17. change (slen (lit "}")) with 1.
  pose proof (to_string_slen (u32 (rd n))). lia.
Qed.

Lemma datagram_to_wf src dst ttl payload :
  is_u32 src → is_u32 dst → is_u8 ttl → slen payload <= 100 → IPv4Datagram.wf (datagram_to src dst ttl payload).
Proof.
  intros Hs Hd Ht Hp. pose proof (slen_nonneg payload).
  assert (is_u16 (u16 (5 * 4 + slen payload))) by apply u16_range. split; [split; try done; concrete|].
  change (u16 (5 * 4 + slen payload) = 4 * 5 + slen (concatenate [Buffer_of payload])).
  rewrite concatenate_one, str_of, u16_small by (unfold_width; lia). lia.
Qed.

Lemma send_keeps nw n name destination t :
  network_ok nw → name ∈ host_names → ipv4_address destination → is_u8 t →
  ∃ nw' n' d, send rd nw n (lit name) destination t = Ok (nw', n', d) ∧ network_ok nw' ∧ IPv4Datagram.wf d ∧
    ttl (IPv4Datagram.header d) = t.
Proof using HN.
  intros Hnw Hn Hdest Ht. destruct (host_found nw name Hnw Hn) as (h & Hh & Hok).
  pose proof Hok as [_ [Hi Hq] _ Hmy Hhop]. unfold send. rewrite Hh. cbn [mbind result_bind]. unfold send_to.
  destruct (ipv4_address_numeric _ Hmy) as (src & -> & Hsrc), (ipv4_address_numeric _ Hdest) as (dst & -> & Hdst).
  destruct (ipv4_address_numeric _ Hhop) as (hop & Ehop & Hhop'). cbn [mbind result_bind].
  set (d := datagram_to src dst t (random_payload rd n)).
  assert (IPv4Datagram.wf d) as Hd by (apply datagram_to_wf; try done; apply random_payload_slen).
  destruct (send_datagram_total (base (_interface h)) d (_next_hop h) hop (ok_wf _ Hi) Hd Ehop Hhop') as (b & Hb & _).
  pose proof (send_datagram_keeps _ _ _ _ _ Hi Hd Ehop Hhop' Hb) as Hb'. rewrite Hb. cbn [mbind result_bind].
  destruct Hhop as (ip & port & Hip & Hport & Ehop2). unfold Address.ip. rewrite Ehop2, ip_port_in by done.
  eexists _, _, d. split; [done|]. split; [|done]. apply set_host_keeps; [done|].
  apply host_interface_keeps; [done|]. by split.
Qed.

Lemma expect_keeps nw name h d :
  network_ok nw → host_ok name h → IPv4Datagram.wf d → network_ok (set_host nw name (expect h d)).
Proof.
  intros Hnw [] Hd. apply set_host_keeps; [done|]. split; try done. cbn [expect set_expecting _expecting_to_receive].
  apply Forall_app. split; [done|by apply Forall_singleton].
Qed.

End Construction.

(** ** Properties *)

(** C17: the network is well typed.  Whatever the generator draws, the network can
    be built; every host can send to any IPv4 address and be told what to
    expect; and a round, routing and carrying frames on every segment, raises
    nothing.  All of this keeps the frames, the waiting and the received
    datagrams well formed. *)
Theorem network_typed {HR : Resolver} (HN : NumberResolver) (shift_oob : Z → Z → Z) (rd : nat → Z) :
  (∀ n, ∃ nw n', Network_new shift_oob rd n = Ok (nw, n') ∧ network_ok nw) ∧
  ∀ nw, network_ok nw →
    (∀ name n destination t, name ∈ host_names → ipv4_address destination → is_u8 t →
       ∃ nw' n' d, send rd nw n (lit name) destination t = Ok (nw', n', d) ∧ network_ok nw' ∧ IPv4Datagram.wf d) ∧
    (∀ name d, name ∈ host_names → IPv4Datagram.wf d →
       ∃ h, host nw (lit name) = Ok h ∧ network_ok (set_host nw (lit name) (expect h d))) ∧
    (∃ nw', round shift_oob nw = Ok nw' ∧ network_ok nw').
Proof.
  split; [apply Network_new_ok|]. intros nw Hnw. split_and!.
  - intros name n destination t Hn Hd Ht.
    destruct (send_keeps rd nw n name destination t Hnw Hn Hd Ht) as (nw' & n' & d & ? & ? & ? & _). by exists nw', n', d.
  - intros name d Hn Hd. destruct (host_found nw name Hnw Hn) as (h & Hh & Hok). exists h.
    split; [done|by apply expect_keeps].
  - by apply round_keeps.
Qed.

Lemma network_typed_witness :
  ∃ nw n', @Network_new number_resolver (λ _ _, 0) (λ i, Z.of_nat i) 0 = Ok (nw, n') ∧ network_ok nw.
Proof. exact (proj1 (@network_typed number_resolver number_resolver_laws (λ _ _, 0) (λ i, Z.of_nat i)) 0%nat). Defined.

(** C16: the verdict of a simulation.  From a well-formed network, [simulate]
    raises nothing during its 256 rounds.  It succeeds exactly if each host has
    received what it expected, as a multiset of serialized datagrams, and then
    every host has nothing left to read or to expect; otherwise it throws a
    [runtime_error]. *)
Theorem simulate_verdict (shift_oob : Z → Z → Z) (nw : Network) :
  network_ok nw →
  ∃ nw1, rounds shift_oob 256 nw = Ok nw1 ∧ network_ok nw1 ∧
    match simulate shift_oob nw with
    | Ok nw' =>
        network_ok nw' ∧
        ∀ name h, _hosts nw1 !! name = Some h → satisfied h ∧ _hosts nw' !! name = Some (checked h)
    | Throw e => e = RuntimeError ∧ ∃ name h, _hosts nw1 !! name = Some h ∧ ¬ satisfied h
    end.
Proof.
  intros Hnw. destruct (rounds_keep shift_oob 256 nw Hnw) as (nw1 & Hr & Hnw1). exists nw1.
  split; [done|]. split; [done|]. unfold simulate. rewrite Hr. cbn [mbind result_bind].
  assert (Forall (λ kv, host_ok kv.1 kv.2) (map_to_list (_hosts nw1))) as Hh.
  { apply list.Forall_forall. intros [name h] Hin%elem_of_map_to_list. by apply (ok_hosts nw1 Hnw1). }
  pose proof (check_hosts_verdict (map_to_list (_hosts nw1)) nw1 (NoDup_fst_map_to_list _) Hh) as H.
  destruct (check_hosts _ _) as [nw'|e].
  - destruct H as (Hl & _ & Hok). split; [by apply Hok|].
    intros name h Hin%elem_of_map_to_list. by apply (proj1 (list.Forall_forall _ _) Hl (name, h)).
  - destruct H as (-> & He). split; [done|].
    apply list.Exists_exists in He as ([name h] & Hin & Hs). exists name, h. by apply elem_of_map_to_list in Hin.
Qed.

Lemma simulate_verdict_witness :
  ∃ nw n' nw1, @Network_new number_resolver (λ _ _, 0) (λ i, Z.of_nat i) 0 = Ok (nw, n') ∧
    rounds (λ _ _, 0) 256 nw = Ok nw1 ∧ network_ok nw1.
Proof.
  destruct (@Network_new_ok number_resolver number_resolver_laws (λ _ _, 0) (λ i, Z.of_nat i) 0) as (nw & n' & E & Hnw).
  destruct (simulate_verdict (λ _ _, 0) nw Hnw) as (nw1 & Hr & Hok & _).
  exists nw, n', nw1. split; [exact E|]. split; [exact Hr|exact Hok].
Defined.

(** The whole program, with draws from a linear generator and shifts as the
    machine does them, ends with success: all ten datagrams arrive where they
    are expected, or expire. *)
Lemma simulator_run :
  @main number_resolver (λ x n, Z.shiftr x (n mod 32)) (λ i, (Z.of_nat i * 7919) mod 65521) = EXIT_SUCCESS.
Proof. vm_compute. reflexivity. Qed.
