(* ===== verification/CString.v ===== *)
(** * Functions of the C library on strings

    What the programs of apps use of [strncmp], [strtol] and [strtof] on the
    strings of the command line, which have no null characters.  Numbers in
    single precision are those of [SpecFloat], with a mantissa of 24 bits. *)

From Stdlib Require Import Floats.SpecFloat.
From stdpp Require Import strings.
From S2P Require Import Prelude StdString.
From stdpp Require Import options.

Local Open Scope Z_scope.

(** [strncmp(a, b, n) == 0]: the first [n] characters agree, up to and
    including the terminating null. *)
Definition strncmp_eq (a b : bytes) (n : Z) : bool :=
  bool_decide (stake n (a ++ [0]) = stake n (b ++ [0])).

(** ** Digits *)

(** The value of a digit, or 36. *)
Definition digit_value (c : Z) : Z :=
  if is_digit c then c - 48
  else if (97 <=? c) && (c <=? 122) then c - 87
  else if (65 <=? c) && (c <=? 90) then c - 55
  else 36.

Fixpoint take_base (base : Z) (s : bytes) : bytes :=
  match s with
  | [] => []
  | c :: s => if digit_value c <? base then c :: take_base base s else []
  end.

Definition base_value (base : Z) (s : bytes) : Z := foldl (λ a c, base * a + digit_value c) 0 s.

Definition has_hex_prefix (s : bytes) : bool :=
  match s with x :: y :: _ => (x =? 48) && ((y =? 120) || (y =? 88)) | _ => false end.

(** ** [strtol] *)

Definition LONG_MAX : Z := 0x7fffffffffffffff.
Definition LONG_MIN : Z := - LONG_MAX - 1.

(** The base and the digits, when the base is left to the string. *)
Definition detect_base (s : bytes) : Z * bytes :=
  if has_hex_prefix s && negb (bool_decide (take_base 16 (drop 2 s) = [])) then (16, take_base 16 (drop 2 s))
  else match s with
       | 48 :: _ => (8, take_base 8 s)
       | _ => (10, take_base 10 s)
       end.

(** [strtol(s, nullptr, 0)]: no digits give 0, a value that is too large or too
    small the nearest [long]. *)
Definition strtol (s : bytes) : Z :=
  let '(sign, s) := read_sign (skip_spaces s) in
  let '(base, ds) := detect_base s in
  Z.max LONG_MIN (Z.min LONG_MAX (sign * base_value base ds)).

(** ** [strtof] *)

Definition float_prec : Z := 24.
Definition float_emax : Z := 128.

(** Digits with an optional point: the number without the point, how many
    digits follow the point, and the rest; nothing if there is no digit. *)
Definition read_mantissa (base : Z) (s : bytes) : option (Z * Z * bytes) :=
  let ip := take_base base s in
  let rest := drop (length ip) s in
  let '(fp, rest) :=
    match rest with
    | 46 :: t => let fp := take_base base t in
                 if bool_decide (ip = []) && bool_decide (fp = []) then ([], rest) else (fp, drop (length fp) t)
    | _ => ([], rest)
    end in
  if bool_decide (ip ++ fp = []) then None else Some (base_value base (ip ++ fp), slen fp, rest).

(** The exponent behind one of the two marks, or 0. *)
Definition read_exponent (mark1 mark2 : Z) (s : bytes) : Z :=
  match s with
  | c :: t =>
      if (c =? mark1) || (c =? mark2) then
        let '(sign, t) := read_sign t in sign * base_value 10 (take_base 10 t)
      else 0
  | [] => 0
  end.

Definition lower (c : Z) : Z := if (65 <=? c) && (c <=? 90) then c + 32 else c.

Definition starts_with_word (word s : bytes) : bool := bool_decide (map lower (take (length word) s) = word).

(** A decimal number, correctly rounded. *)
Definition float_of_decimal (neg : bool) (m e : Z) : spec_float :=
  match m with
  | Zpos p =>
      if 0 <=? e then SFmul float_prec float_emax (S754_finite neg p 0) (S754_finite false (Z.to_pos (10 ^ e)) 0)
      else SFdiv float_prec float_emax (S754_finite neg p 0) (S754_finite false (Z.to_pos (10 ^ (- e))) 0)
  | _ => S754_zero neg
  end.

Definition float_of_binary (neg : bool) (m e : Z) : spec_float :=
  match m with
  | Zpos p => SFmul float_prec float_emax (S754_finite neg p e) (S754_finite false 1 0)
  | _ => S754_zero neg
  end.

Definition strtof (s : bytes) : spec_float :=
  let '(sign, s) := read_sign (skip_spaces s) in
  let neg := sign <? 0 in
  if starts_with_word (lit "inf") s then S754_infinity neg
  else if starts_with_word (lit "nan") s then S754_nan
  else
    match (if has_hex_prefix s then read_mantissa 16 (drop 2 s) else None) with
    | Some (m, f, rest) => float_of_binary neg m (read_exponent 112 80 rest - 4 * f)
    | None =>
        match read_mantissa 10 s with
        | Some (m, f, rest) => float_of_decimal neg m (read_exponent 101 69 rest - f)
        | None => S754_zero false
        end
    end.

(** Conversion to [uint16_t]: truncation; undefined out of range. *)
Definition u16_of_float (x : spec_float) : result Z :=
  match x with
  | S754_zero _ => Ok 0
  | S754_finite neg m e =>
      let t := if 0 <=? e then Zpos m * 2 ^ e else Zpos m / 2 ^ (- e) in
      if neg then (if t =? 0 then Ok 0 else Throw Undefined)
      else if t <=? UINT16_MAX then Ok t else Throw Undefined
  | _ => Throw Undefined
  end.

(** [static_cast<uint16_t>(static_cast<float>(65535) * lossrate)]. *)
Definition loss_rate (s : bytes) : result Z :=
  u16_of_float (SFmul float_prec float_emax (S754_finite false 65535 0) (strtof s)).

(** ** Lemmas *)

Lemma digit_value_digit c : is_digit c = true → digit_value c = c - 48 ∧ 0 <= digit_value c < 10.
Proof. intros Hc. unfold digit_value. rewrite Hc. unfold is_digit in Hc. lia. Qed.

Lemma take_base_digits s : Forall (λ c, is_digit c = true) s → take_base 10 s = s.
Proof.
  intros H. induction H as [|c s Hc H IH]; cbn [take_base]; [done|].
  destruct (digit_value_digit c Hc). destruct (digit_value c <? 10) eqn:E; [by rewrite IH|lia].
Qed.

Lemma base_value_digits s : Forall (λ c, is_digit c = true) s → base_value 10 s = digits_value s.
Proof.
  unfold base_value, digits_value. generalize 0. intros a H. revert a.
  induction H as [|c s Hc H IH]; intros a; cbn [foldl]; [done|]. destruct (digit_value_digit c Hc) as [-> _]. apply IH.
Qed.

(** A positive number is printed without leading zeros. *)
Lemma digits_head fuel n :
  0 < n < 10 ^ Z.of_nat fuel → ∃ c s, digits fuel n = c :: s ∧ c ≠ 48 ∧ is_digit c = true.
Proof.
  revert n. induction fuel as [|fuel IH]; intros n Hn; cbn [digits]; [simpl in Hn; lia|].
  destruct (n <? 10) eqn:E; [exists (48 + n), []; split; [done|unfold is_digit; lia]|].
  rewrite Nat2Z.inj_succ, Z.pow_succ_r in Hn by lia.
  destruct (IH (n / 10)) as (c & s & -> & Hc & Hd). { split; [mlia|]. apply Z.div_lt_upper_bound; lia. }
  by eexists c, _.
Qed.

(** A printed number is read back. *)
Lemma strtol_to_string n : 0 <= n <= LONG_MAX → strtol (StdString.to_string n) = n.
Proof.
  intros Hn. destruct (decide (n = 0)) as [->|Hne]; [done|]. unfold LONG_MAX in Hn.
  assert (n < 10 ^ Z.of_nat 20) by (change (10 ^ Z.of_nat 20) with 100000000000000000000; lia).
  pose proof (digits_digit 20 n ltac:(lia)) as Hd. pose proof (digits_value_digits 20 n ltac:(lia)) as Hv.
  destruct (digits_head 20 n ltac:(lia)) as (c & s & E & Hc & Hcd).
  unfold strtol, StdString.to_string. rewrite E in *. unfold is_digit in Hcd.
  assert (skip_spaces (c :: s) = c :: s) as ->. { cbn [skip_spaces]. unfold is_space. case_match; [lia|done]. }
  assert (read_sign (c :: s) = (1, c :: s)) as ->. { cbn [read_sign]. case_match; [lia|]. case_match; [lia|done]. }
  assert (detect_base (c :: s) = (10, c :: s)) as ->.
  { unfold detect_base. assert (has_hex_prefix (c :: s) = false) as ->.
    { unfold has_hex_prefix. destruct s; [done|]. destruct (c =? 48) eqn:E48; [lia|done]. }
    cbn [andb]. rewrite (take_base_digits _ Hd). clear - Hc. destruct c as [|p|p]; try done.
    do 6 (destruct p as [p|p|]; try done). }
  rewrite (base_value_digits _ Hd), Hv. unfold LONG_MIN, LONG_MAX. lia.
Qed.

(** A loss rate is a 16-bit number, or the conversion is undefined. *)
Lemma loss_rate_cases s : (∃ r, loss_rate s = Ok r ∧ is_u16 r) ∨ loss_rate s = Throw Undefined.
Proof.
  unfold loss_rate, u16_of_float. destruct (SFmul _ _ _ _) as [?|?| |neg m e]; [left; by exists 0|by right|by right|].
  assert (0 <= (if 0 <=? e then Z.pos m * 2 ^ e else Z.pos m / 2 ^ (- e))).
  { destruct (0 <=? e) eqn:E; [pose proof (Z.pow_nonneg 2 e); nia|]. apply Z.div_pos; [lia|]. apply Z.pow_pos_nonneg; lia. }
  cbv zeta. set (t := if 0 <=? e then _ else _) in *. destruct neg.
  - destruct (t =? 0); [left; by exists 0|by right].
  - destruct (t <=? UINT16_MAX) eqn:E; [|by right]. left. exists t. split; [done|]. unfold UINT16_MAX in E. unfold_width. lia.
Qed.
