(* ===== verification/CommandLine.v ===== *)
(** * Command lines of the TCP programs (apps/tcp_udp.cc, tcp_ipv4.cc, tcp_ip_ethernet.cc)

    The three programs read options up to the last two arguments.  [argv] is
    the list of the arguments with the name of the program first; a read behind
    its end is [Undefined].  [exit] is the outcome [ProgramExit], with the usage
    message that precedes it. *)

From stdpp Require Import strings.
From S2P Require Import Prelude StdString CString Address TCPConfig FdAdapter Printing.
From stdpp Require Import options.

Local Open Scope Z_scope.

Definition argc (argv : list bytes) : Z := slen argv.

Definition arg (argv : list bytes) (i : Z) : result bytes :=
  match argv !! Z.to_nat i with
  | Some s => Ok s
  | None => Throw Undefined
  end.

(** Lines of a usage message. *)
Definition lines (l : list bytes) : bytes := concat (map (λ s, s ++ newline) l).

(** A usage message, an error message if there is one, and [endl]. *)
Definition usage_with (text : bytes) (msg : option bytes) : bytes := text ++ default [] msg ++ newline.

(** Print the usage message and exit; [argv[0]] is read for it. *)
Definition usage_exit {A} (show_usage : bytes → option bytes → bytes) (argv : list bytes) (msg : option bytes)
    (status : Z) : result A :=
  argv0 ← arg argv 0; Throw (ProgramExit status (show_usage argv0 msg)).

(** An option with an argument needs three more arguments behind it. *)
Definition check_argc (show_usage : bytes → option bytes → bytes) (argv : list bytes) (curr : Z) (err : bytes)
    : result () :=
  if argc argv <=? curr + 3 then usage_exit show_usage argv (Some err) 1 else Ok ().

Definition unrecognized (a : bytes) : bytes := lit "ERROR: unrecognized option " ++ a.

Definition required_missing : bytes := lit "ERROR: required arguments are missing.".

(** Assignments to the configuration of the adapter. *)
Definition with_loss_rate_up (c : FdAdapterConfig) (r : Z) : FdAdapterConfig :=
  mkFdAdapterConfig (source c) (destination c) (loss_rate_dn c) r.

Definition with_loss_rate_dn (c : FdAdapterConfig) (r : Z) : FdAdapterConfig :=
  mkFdAdapterConfig (source c) (destination c) r (loss_rate_up c).

(** The loop [while (argc - curr > 2)] around the body of each program: the body
    returns the new [curr] and the new values of the variables. *)
Fixpoint option_loop {S} (body : Z → S → result (Z * S)) (argv : list bytes) (fuel : nat) (curr : Z) (s : S)
    : result (Z * S) :=
  if 2 <? argc argv - curr then
    match fuel with
    | O => Throw OutOfFuel
    | Datatypes.S fuel => '(curr, s) ← body curr s; option_loop body argv fuel curr s
    end
  else Ok (curr, s).

(** ** tcp_udp *)

Module TcpUdp.

Definition show_usage (argv0 : bytes) (msg : option bytes) : bytes := usage_with (
  lit "Usage: " ++ argv0 ++ lit " [options] <host> <port>" ++ newline ++ newline ++
  lines [lit "   Option                                                          Default";
         lit "   --                                                              --"; [];
         lit "   -l              Server (listen) mode.                           (client mode)";
         lit "                   In server mode, <host>:<port> is the address to bind."; [];
         lit "   -w <winsz>      Use a window of <winsz> bytes                   " ++ StdString.to_string MAX_PAYLOAD_SIZE; [];
         lit "   -t <tmout>      Set rt_timeout to tmout                         " ++ StdString.to_string TIMEOUT_DFLT; [];
         lit "   -Lu <loss>      Set uplink loss to <rate> (float in 0..1)       (no loss)";
         lit "   -Ld <loss>      Set downlink loss to <rate> (float in 0..1)     (no loss)"; [];
         lit "   -h              Show this message and quit."; []]) msg.

Record Options := mkOptions { c_fsm : TCPConfig; c_filt : FdAdapterConfig; listen : bool }.

Definition option_step (argv : list bytes) (curr : Z) (o : Options) : result (Z * Options) :=
  a ← arg argv curr;
  if strncmp_eq (lit "-l") a 3 then Ok (curr + 1, mkOptions (c_fsm o) (c_filt o) true)
  else if strncmp_eq (lit "-w") a 3 then
    _ ← check_argc show_usage argv curr (lit "ERROR: -w requires one argument.");
    v ← arg argv (curr + 1);
    Ok (curr + 2, mkOptions (with_recv_capacity (c_fsm o) (u64 (strtol v))) (c_filt o) (listen o))
  else if strncmp_eq (lit "-t") a 3 then
    _ ← check_argc show_usage argv curr (lit "ERROR: -t requires one argument.");
    v ← arg argv (curr + 1);
    Ok (curr + 2, mkOptions (with_rt_timeout (c_fsm o) (u16 (strtol v))) (c_filt o) (listen o))
  else if strncmp_eq (lit "-Lu") a 3 then
    _ ← check_argc show_usage argv curr (lit "ERROR: -Lu requires one argument.");
    v ← arg argv (curr + 1);
    r ← loss_rate v;
    Ok (curr + 2, mkOptions (c_fsm o) (with_loss_rate_up (c_filt o) r) (listen o))
  else if strncmp_eq (lit "-Ld") a 3 then
    _ ← check_argc show_usage argv curr (lit "ERROR: -Lu requires one argument.");
    v ← arg argv (curr + 1);
    r ← loss_rate v;
    Ok (curr + 2, mkOptions (c_fsm o) (with_loss_rate_dn (c_filt o) r) (listen o))
  else if strncmp_eq (lit "-h") a 3 then usage_exit show_usage argv None 0
  else usage_exit show_usage argv (Some (unrecognized a)) 1.

Definition get_config `{HR : Resolver} (argv : list bytes) : result Options :=
  c ← FdAdapterConfig_default;
  '(_, o) ← option_loop (option_step argv) argv (length argv) 1 (mkOptions TCPConfig_default c false);
  port ← arg argv (argc argv - 1);
  if listen o then
    s ← Address_of_host (lit "0") port;
    Ok (mkOptions (c_fsm o) (with_source (c_filt o) s) true)
  else
    host ← arg argv (argc argv - 2);
    d ← Address_of_host host port;
    Ok (mkOptions (c_fsm o) (with_destination (c_filt o) d) false).

End TcpUdp.

(** ** tcp_ipv4 *)

Module TcpIPv4.

Definition TUN_DFLT : bytes := lit "tun144".
Definition LOCAL_ADDRESS_DFLT : bytes := lit "169.254.144.9".

Definition show_usage (argv0 : bytes) (msg : option bytes) : bytes := usage_with (
  lit "Usage: " ++ argv0 ++ lit " [options] <host> <port>" ++ newline ++ newline ++
  lines [lit "   Option                                                          Default";
         lit "   --                                                              --"; [];
         lit "   -l              Server (listen) mode.                           (client mode)";
         lit "                   In server mode, <host>:<port> is the address to bind."; [];
         lit "   -a <addr>       Set source address (client mode only)           " ++ LOCAL_ADDRESS_DFLT;
         lit "   -s <port>       Set source port (client mode only)              (random)"; [];
         lit "   -w <winsz>      Use a window of <winsz> bytes                   " ++ StdString.to_string MAX_PAYLOAD_SIZE; [];
         lit "   -t <tmout>      Set rt_timeout to tmout                         " ++ StdString.to_string TIMEOUT_DFLT; [];
         lit "   -d <tundev>     Connect to tun <tundev>                         " ++ TUN_DFLT; [];
         lit "   -Lu <loss>      Set uplink loss to <rate> (float in 0..1)       (no loss)";
         lit "   -Ld <loss>      Set downlink loss to <rate> (float in 0..1)     (no loss)"; [];
         lit "   -h              Show this message."; []]) msg.

Record Options := mkOptions {
  c_fsm : TCPConfig;
  c_filt : FdAdapterConfig;
  listen : bool;
  tundev : option bytes;
  source_address : bytes;
  source_port : bytes
}.

Definition set_fsm (o : Options) (c : TCPConfig) : Options :=
  mkOptions c (c_filt o) (listen o) (tundev o) (source_address o) (source_port o).
Definition set_filt (o : Options) (c : FdAdapterConfig) : Options :=
  mkOptions (c_fsm o) c (listen o) (tundev o) (source_address o) (source_port o).
Definition set_listen (o : Options) : Options :=
  mkOptions (c_fsm o) (c_filt o) true (tundev o) (source_address o) (source_port o).
Definition set_tundev (o : Options) (d : bytes) : Options :=
  mkOptions (c_fsm o) (c_filt o) (listen o) (Some d) (source_address o) (source_port o).
Definition set_source_address (o : Options) (a : bytes) : Options :=
  mkOptions (c_fsm o) (c_filt o) (listen o) (tundev o) a (source_port o).
Definition set_source_port (o : Options) (p : bytes) : Options :=
  mkOptions (c_fsm o) (c_filt o) (listen o) (tundev o) (source_address o) p.

Definition option_step (argv : list bytes) (curr : Z) (o : Options) : result (Z * Options) :=
  a ← arg argv curr;
  if strncmp_eq (lit "-l") a 3 then Ok (curr + 1, set_listen o)
  else if strncmp_eq (lit "-a") a 3 then
    _ ← check_argc show_usage argv curr (lit "ERROR: -a requires one argument.");
    v ← arg argv (curr + 1);
    Ok (curr + 2, set_source_address o v)
  else if strncmp_eq (lit "-s") a 3 then
    _ ← check_argc show_usage argv curr (lit "ERROR: -s requires one argument.");
    v ← arg argv (curr + 1);
    Ok (curr + 2, set_source_port o v)
  else if strncmp_eq (lit "-w") a 3 then
    _ ← check_argc show_usage argv curr (lit "ERROR: -w requires one argument.");
    v ← arg argv (curr + 1);
    Ok (curr + 2, set_fsm o (with_recv_capacity (c_fsm o) (u64 (strtol v))))
  else if strncmp_eq (lit "-t") a 3 then
    _ ← check_argc show_usage argv curr (lit "ERROR: -t requires one argument.");
    v ← arg argv (curr + 1);
    Ok (curr + 2, set_fsm o (with_rt_timeout (c_fsm o) (u16 (strtol v))))
  else if strncmp_eq (lit "-d") a 3 then
    _ ← check_argc show_usage argv curr (lit "ERROR: -t requires one argument.");
    v ← arg argv (curr + 1);
    Ok (curr + 2, set_tundev o v)
  else if strncmp_eq (lit "-Lu") a 3 then
    _ ← check_argc show_usage argv curr (lit "ERROR: -Lu requires one argument.");
    v ← arg argv (curr + 1);
    r ← loss_rate v;
    Ok (curr + 2, set_filt o (with_loss_rate_up (c_filt o) r))
  else if strncmp_eq (lit "-Ld") a 3 then
    _ ← check_argc show_usage argv curr (lit "ERROR: -Lu requires one argument.");
    v ← arg argv (curr + 1);
    r ← loss_rate v;
    Ok (curr + 2, set_filt o (with_loss_rate_dn (c_filt o) r))
  else if strncmp_eq (lit "-h") a 3 then usage_exit show_usage argv None 0
  else usage_exit show_usage argv (Some (unrecognized a)) 1.

(** [random] is what [random_device] draws. *)
Definition initial (c : FdAdapterConfig) (random : Z) : Options :=
  mkOptions TCPConfig_default c false None LOCAL_ADDRESS_DFLT (StdString.to_string (u16 random)).

Definition get_config `{HR : Resolver} (argv : list bytes) (random : Z) : result Options :=
  c ← FdAdapterConfig_default;
  '(curr, o) ← option_loop (option_step argv) argv (length argv) 1 (initial c random);
  if listen o then
    port ← arg argv (curr + 1);
    s ← Address_of_host (lit "0") port;
    p ← Address.port s;
    if p =? 0 then
      usage_exit show_usage argv (Some (lit "ERROR: listen port cannot be zero in server mode.")) 1
    else Ok (set_filt o (with_source (c_filt o) s))
  else
    host ← arg argv curr;
    port ← arg argv (curr + 1);
    d ← Address_of_host host port;
    s ← Address_of_host (source_address o) (source_port o);
    Ok (set_filt o (with_source (with_destination (c_filt o) d) s)).

End TcpIPv4.

(** ** tcp_ip_ethernet *)

Module TcpIPEthernet.

Definition TAP_DFLT : bytes := lit "tap10".
Definition LOCAL_ADDRESS_DFLT : bytes := lit "169.254.10.9".
Definition GATEWAY_DFLT : bytes := lit "169.254.10.1".

Definition show_usage (argv0 : bytes) (msg : option bytes) : bytes := usage_with (
  lit "Usage: " ++ argv0 ++ lit " [options] <host> <port>" ++ newline ++ newline ++
  lines [lit "   Option                                                          Default";
         lit "   --                                                              --"; [];
         lit "   -a <addr>       Set IP source address (client mode only)        " ++ LOCAL_ADDRESS_DFLT;
         lit "   -s <port>       Set TCP source port (client mode only)          (random)"; [];
         lit "   -n <addr>       Set IP next-hop address                         " ++ GATEWAY_DFLT;
         lit "   -w <winsz>      Use a window of <winsz> bytes                   " ++ StdString.to_string MAX_PAYLOAD_SIZE; [];
         lit "   -t <tmout>      Set rt_timeout to tmout                         " ++ StdString.to_string TIMEOUT_DFLT; [];
         lit "   -d <tapdev>     Connect to tap <tapdev>                         " ++ TAP_DFLT; [];
         lit "   -h              Show this message."; []]) msg.

Record Options := mkOptions {
  c_fsm : TCPConfig;
  tapdev : bytes;
  source_address : bytes;
  source_port : bytes;
  next_hop_address : bytes
}.

Definition option_step (argv : list bytes) (curr : Z) (o : Options) : result (Z * Options) :=
  a ← arg argv curr;
  if strncmp_eq (lit "-a") a 3 then
    _ ← check_argc show_usage argv curr (lit "ERROR: -a requires one argument.");
    v ← arg argv (curr + 1);
    Ok (curr + 2, mkOptions (c_fsm o) (tapdev o) v (source_port o) (next_hop_address o))
  else if strncmp_eq (lit "-s") a 3 then
    _ ← check_argc show_usage argv curr (lit "ERROR: -s requires one argument.");
    v ← arg argv (curr + 1);
    Ok (curr + 2, mkOptions (c_fsm o) (tapdev o) (source_address o) v (next_hop_address o))
  else if strncmp_eq (lit "-n") a 3 then
    _ ← check_argc show_usage argv curr (lit "ERROR: -n requires one argument.");
    v ← arg argv (curr + 1);
    Ok (curr + 2, mkOptions (c_fsm o) (tapdev o) (source_address o) (source_port o) v)
  else if strncmp_eq (lit "-w") a 3 then
    _ ← check_argc show_usage argv curr (lit "ERROR: -w requires one argument.");
    v ← arg argv (curr + 1);
    Ok (curr + 2, mkOptions (with_recv_capacity (c_fsm o) (u64 (strtol v))) (tapdev o) (source_address o)
                    (source_port o) (next_hop_address o))
  else if strncmp_eq (lit "-t") a 3 then
    _ ← check_argc show_usage argv curr (lit "ERROR: -t requires one argument.");
    v ← arg argv (curr + 1);
    Ok (curr + 2, mkOptions (with_rt_timeout (c_fsm o) (u16 (strtol v))) (tapdev o) (source_address o)
                    (source_port o) (next_hop_address o))
  else if strncmp_eq (lit "-d") a 3 then
    _ ← check_argc show_usage argv curr (lit "ERROR: -t requires one argument.");
    v ← arg argv (curr + 1);
    Ok (curr + 2, mkOptions (c_fsm o) v (source_address o) (source_port o) (next_hop_address o))
  else if strncmp_eq (lit "-h") a 3 then usage_exit show_usage argv None 0
  else usage_exit show_usage argv (Some (unrecognized a)) 1.

Definition initial (random : Z) : Options :=
  mkOptions TCPConfig_default TAP_DFLT LOCAL_ADDRESS_DFLT (StdString.to_string (u16 random)) GATEWAY_DFLT.

(** The two configurations, the next hop and the device. *)
Definition get_config `{HR : Resolver} (argv : list bytes) (random : Z)
    : result (TCPConfig * FdAdapterConfig * Address * bytes) :=
  c ← FdAdapterConfig_default;
  '(curr, o) ← option_loop (option_step argv) argv (length argv) 1 (initial random);
  host ← arg argv curr;
  port ← arg argv (curr + 1);
  d ← Address_of_host host port;
  s ← Address_of_host (source_address o) (source_port o);
  next_hop ← Address_of_host (next_hop_address o) (lit "0");
  Ok (c_fsm o, with_source (with_destination c d) s, next_hop, tapdev o).

End TcpIPEthernet.

(** ** The loop stays inside of the arguments *)

(** Outcomes that the language defines. *)
Definition defined {A} (m : result A) : Prop :=
  match m with Ok _ => True | Throw e => e ≠ Undefined ∧ e ≠ OutOfFuel end.

Lemma defined_bind {A B} (m : result A) (f : A → result B) :
  defined m → (∀ a, m = Ok a → defined (f a)) → defined (m ≫= f).
Proof. destruct m as [a|e]; intros Hm Hf; [by apply Hf|done]. Qed.

Lemma arg_in_range argv i : 0 <= i < argc argv → ∃ s, arg argv i = Ok s ∧ argv !! Z.to_nat i = Some s.
Proof.
  intros Hi. destruct (lookup_lt_is_Some_2 argv (Z.to_nat i)) as [s Hs]; [unfold argc, slen in Hi; lia|].
  exists s. unfold arg. by rewrite Hs.
Qed.

(** A step that is sound from [curr] on: it moves forward and leaves two
    arguments. *)
Definition step_ok {S} (argv : list bytes) (curr : Z) (m : result (Z * S)) : Prop :=
  match m with Ok (curr', _) => curr < curr' <= argc argv - 2 | Throw e => e ≠ Undefined ∧ e ≠ OutOfFuel end.

Lemma flag_ok {S} argv curr (s : S) : 2 < argc argv - curr → step_ok argv curr (Ok (curr + 1, s)).
Proof. simpl. lia. Qed.

Lemma usage_exit_ok {A} usage argv msg status :
  0 < argc argv → ∃ text, @usage_exit A usage argv msg status = Throw (ProgramExit status text).
Proof.
  intros H. unfold usage_exit. destruct (arg_in_range argv 0) as (s & -> & _); [lia|]. by eexists.
Qed.

Lemma usage_step_ok {S} usage argv curr msg status :
  0 < argc argv → step_ok argv curr (@usage_exit (Z * S) usage argv msg status).
Proof. intros H. by destruct (@usage_exit_ok (Z * S) usage argv msg status H) as (text & ->). Qed.

Lemma value_ok {S} usage err argv curr (f : bytes → result (Z * S)) :
  0 <= curr → 0 < argc argv →
  (∀ v, argv !! Z.to_nat (curr + 1) = Some v →
   match f v with Ok (curr', _) => curr' = curr + 2 | Throw e => e ≠ Undefined ∧ e ≠ OutOfFuel end) →
  step_ok argv curr (_ ← check_argc usage argv curr err; v ← arg argv (curr + 1); f v).
Proof.
  intros Hc Ha Hf. unfold check_argc. destruct (argc argv <=? curr + 3) eqn:E.
  { by destruct (@usage_exit_ok () usage argv (Some err) 1 Ha) as (text & ->). }
  cbn [mbind result_bind].
  destruct (arg_in_range argv (curr + 1)) as (v & -> & Hv); [lia|]. cbn [mbind result_bind].
  specialize (Hf v Hv). destruct (f v) as [[curr' s]|e]; simpl in *; [lia|done].
Qed.

Lemma loop_ok {S} (body : Z → S → result (Z * S)) argv :
  (∀ curr s, 0 <= curr → 2 < argc argv - curr → step_ok argv curr (body curr s)) →
  ∀ fuel curr s, 0 <= curr <= argc argv - 2 → argc argv - curr <= Z.of_nat fuel →
  match option_loop body argv fuel curr s with
  | Ok (curr', _) => curr' = argc argv - 2
  | Throw e => e ≠ Undefined ∧ e ≠ OutOfFuel
  end.
Proof.
  intros Hb. induction fuel as [|fuel IH]; intros curr s Hc Hf; cbn [option_loop];
    (destruct (2 <? argc argv - curr) eqn:E; [|lia]); [lia|].
  pose proof (Hb curr s ltac:(lia) ltac:(lia)) as Hs. destruct (body curr s) as [[curr' s']|e]; [|done].
  cbn [mbind result_bind]. simpl in Hs. apply IH; lia.
Qed.

Lemma loss_ok {S} (v : bytes) curr (f : Z → S) :
  loss_rate v ≠ Throw Undefined →
  match (r ← loss_rate v; Ok (curr + 2, f r)) with
  | Ok (curr', _) => curr' = curr + 2
  | Throw e => e ≠ Undefined ∧ e ≠ OutOfFuel
  end.
Proof.
  intros H. destruct (loss_rate_cases v) as [(r & -> & _)|]; done.
Qed.

(** The arguments behind an option for a loss rate can be converted. *)
Definition losses_convert (argv : list bytes) : Prop :=
  ∀ i a v, argv !! i = Some a → argv !! S i = Some v →
    strncmp_eq (lit "-Lu") a 3 || strncmp_eq (lit "-Ld") a 3 = true → loss_rate v ≠ Throw Undefined.

(** Each case of the chains of comparisons. *)
Ltac option_cases Hloss :=
  repeat match goal with
  | |- step_ok _ _ (if ?b then _ else _) => let E := fresh "Eflag" in destruct b eqn:E
  | |- step_ok _ _ (Ok _) => apply flag_ok; lia
  | |- step_ok _ _ (usage_exit _ _ _ _) => apply usage_step_ok; lia
  | |- step_ok _ _ (mbind _ _) => apply value_ok; [lia|lia|intros v Hget; first [done | apply loss_ok; apply Hloss; [done|apply orb_true_iff; by auto]]]
  end.

Section Bounds.
Context (argv : list bytes).

Lemma TcpUdp_step_ok curr o :
  losses_convert argv → 0 <= curr → 2 < argc argv - curr →
  step_ok argv curr (TcpUdp.option_step argv curr o).
Proof.
  intros Hloss Hc Hl. unfold TcpUdp.option_step. destruct (arg_in_range argv curr) as (a & -> & Ha); [lia|].
  assert (∀ v, argv !! Z.to_nat (curr + 1) = Some v →
    strncmp_eq (lit "-Lu") a 3 || strncmp_eq (lit "-Ld") a 3 = true → loss_rate v ≠ Throw Undefined) as Hv.
  { intros v. rewrite Z2Nat.inj_add, Nat.add_1_r by lia. by apply Hloss. }
  cbn [mbind result_bind]. option_cases Hv.
Qed.

Lemma TcpIPv4_step_ok curr o :
  losses_convert argv → 0 <= curr → 2 < argc argv - curr →
  step_ok argv curr (TcpIPv4.option_step argv curr o).
Proof.
  intros Hloss Hc Hl. unfold TcpIPv4.option_step. destruct (arg_in_range argv curr) as (a & -> & Ha); [lia|].
  assert (∀ v, argv !! Z.to_nat (curr + 1) = Some v →
    strncmp_eq (lit "-Lu") a 3 || strncmp_eq (lit "-Ld") a 3 = true → loss_rate v ≠ Throw Undefined) as Hv.
  { intros v. rewrite Z2Nat.inj_add, Nat.add_1_r by lia. by apply Hloss. }
  cbn [mbind result_bind]. option_cases Hv.
Qed.

Lemma TcpIPEthernet_step_ok curr o :
  0 <= curr → 2 < argc argv - curr → step_ok argv curr (TcpIPEthernet.option_step argv curr o).
Proof.
  intros Hc Hl. unfold TcpIPEthernet.option_step. destruct (arg_in_range argv curr) as (a & -> & _); [lia|].
  cbn [mbind result_bind]. option_cases I.
Qed.

End Bounds.

Section Defined.
Context `{HR : Resolver}.

Lemma Address_resolve_defined node service hints : defined (Address_resolve node service hints).
Proof.
  unfold Address_resolve. destruct (getaddrinfo _ _ _) as [?|[|[a n] l]]; [done|done|].
  unfold Address_of_sockaddr. by case_match.
Qed.

Lemma Address_port_defined a : defined (Address.port a).
Proof.
  unfold Address.port, ip_port. destruct (getnameinfo a) as [?|[ip p]]; [done|].
  unfold stoi. destruct (read_sign _) as [sign s]. by repeat case_match.
Qed.

Lemma FdAdapterConfig_defined : defined FdAdapterConfig_default.
Proof.
  unfold FdAdapterConfig_default. repeat (apply defined_bind; [apply Address_resolve_defined|intros ? _]). done.
Qed.

Lemma loop_then {S B} (body : Z → S → result (Z * S)) argv s (f : Z * S → result B) :
  3 <= argc argv →
  (∀ curr s, 0 <= curr → 2 < argc argv - curr → step_ok argv curr (body curr s)) →
  (∀ s, defined (f (argc argv - 2, s))) →
  defined (option_loop body argv (length argv) 1 s ≫= f).
Proof.
  intros Hc Hb Hf. pose proof (loop_ok body argv Hb (length argv) 1 s ltac:(lia)) as H.
  destruct (option_loop _ _ _ _ _) as [[curr s']|e]; [|by apply H; unfold argc, slen; lia].
  rewrite (H ltac:(unfold argc, slen; lia)). apply Hf.
Qed.

Lemma arg_defined argv i : 0 <= i < argc argv → defined (arg argv i).
Proof. intros Hi. by destruct (arg_in_range argv i Hi) as (s & -> & _). Qed.

End Defined.

(** ** Reading options back *)

(** The options of tcp_ipv4. *)
Inductive cli_option :=
  | Listen
  | SourceAddress (a : bytes)
  | SourcePort (p : bytes)
  | Window (n : Z)
  | Timeout (n : Z)
  | Device (d : bytes)
  | LossUp (text : bytes) (rate : Z)
  | LossDown (text : bytes) (rate : Z).

(** How they are written. *)
Definition render (o : cli_option) : list bytes :=
  match o with
  | Listen => [lit "-l"]
  | SourceAddress a => [lit "-a"; a]
  | SourcePort p => [lit "-s"; p]
  | Window n => [lit "-w"; StdString.to_string n]
  | Timeout n => [lit "-t"; StdString.to_string n]
  | Device d => [lit "-d"; d]
  | LossUp text _ => [lit "-Lu"; text]
  | LossDown text _ => [lit "-Ld"; text]
  end.

(** What they mean. *)
Definition apply_option (s : TcpIPv4.Options) (o : cli_option) : TcpIPv4.Options :=
  match o with
  | Listen => TcpIPv4.set_listen s
  | SourceAddress a => TcpIPv4.set_source_address s a
  | SourcePort p => TcpIPv4.set_source_port s p
  | Window n => TcpIPv4.set_fsm s (with_recv_capacity (TcpIPv4.c_fsm s) n)
  | Timeout n => TcpIPv4.set_fsm s (with_rt_timeout (TcpIPv4.c_fsm s) n)
  | Device d => TcpIPv4.set_tundev s d
  | LossUp _ r => TcpIPv4.set_filt s (with_loss_rate_up (TcpIPv4.c_filt s) r)
  | LossDown _ r => TcpIPv4.set_filt s (with_loss_rate_dn (TcpIPv4.c_filt s) r)
  end.

Definition option_valid (o : cli_option) : Prop :=
  match o with
  | Window n => 0 <= n <= LONG_MAX
  | Timeout n => is_u16 n
  | LossUp text r | LossDown text r => loss_rate text = Ok r
  | _ => True
  end.

Lemma arg_at pre x rest : arg (pre ++ x :: rest) (slen pre) = Ok x.
Proof. unfold arg, slen. rewrite Nat2Z.id, lookup_app_r, Nat.sub_diag by lia. done. Qed.

Lemma arg_after pre x y rest : arg (pre ++ x :: y :: rest) (slen pre + 1) = Ok y.
Proof.
  replace (pre ++ x :: y :: rest) with ((pre ++ [x]) ++ y :: rest) by (by rewrite <- app_assoc).
  replace (slen pre + 1) with (slen (pre ++ [x])) by (rewrite slen_app; done). apply arg_at.
Qed.

Lemma check_argc_at usage err pre (x y : bytes) rest :
  2 <= slen rest → check_argc usage (pre ++ x :: y :: rest) (slen pre) err = Ok ().
Proof.
  intros Hr. unfold check_argc, argc. rewrite slen_app, !slen_cons. case_match; [lia|done].
Qed.

(** The comparisons of literals. *)
Ltac compare_flags :=
  repeat match goal with
  | |- context [strncmp_eq (lit ?a) (lit ?b) 3] =>
      let v := eval vm_compute in (strncmp_eq (lit a) (lit b) 3) in change (strncmp_eq (lit a) (lit b) 3) with v
  end; cbv iota.

(** One option is consumed. *)
Lemma option_step_render pre o rest s :
  option_valid o → 2 <= slen rest →
  TcpIPv4.option_step (pre ++ render o ++ rest) (slen pre) s = Ok (slen (pre ++ render o), apply_option s o).
Proof.
  intros Hv Hr. unfold TcpIPv4.option_step. rewrite slen_app.
  destruct o as [|a|p|n|n|d|text r|text r]; cbn [render app apply_option option_valid] in *; rewrite arg_at;
    cbn [mbind result_bind]; compare_flags; try done;
    rewrite check_argc_at, arg_after by done; cbn [mbind result_bind]; try done.
  - unfold LONG_MAX in Hv. rewrite strtol_to_string, u64_small by (unfold LONG_MAX; unfold_width; lia). done.
  - rewrite strtol_to_string by (unfold LONG_MAX; unfold_width; lia). by rewrite u16_small.
  - by rewrite Hv.
  - by rewrite Hv.
Qed.

Lemma render_nonempty o : 1 <= slen (render o).
Proof. by destruct o. Qed.

Lemma option_loop_render opts : ∀ pre fuel s host port,
  Forall option_valid opts → slen (concat (map render opts)) <= Z.of_nat fuel →
  option_loop (TcpIPv4.option_step (pre ++ concat (map render opts) ++ [host; port]))
    (pre ++ concat (map render opts) ++ [host; port]) fuel (slen pre) s =
  Ok (slen (pre ++ concat (map render opts)), foldl apply_option s opts).
Proof.
  induction opts as [|o opts IH]; intros pre fuel s host port Hv Hf; cbn [map concat foldl].
  - rewrite app_nil_l, app_nil_r. assert (argc (pre ++ [host; port]) = slen pre + 2) as Ha by (unfold argc; by rewrite slen_app).
    destruct fuel; cbn [option_loop]; rewrite Ha; case_match; done || lia.
  - apply Forall_cons_1 in Hv as [Ho Hv]. cbn [map concat] in Hf. rewrite slen_app in Hf. pose proof (render_nonempty o).
    pose proof (slen_nonneg (concat (map render opts))). destruct fuel as [|fuel]; [lia|]. cbn [option_loop].
    rewrite <- !app_assoc. destruct (2 <? _) eqn:E; [|unfold argc in E; rewrite !slen_app in E; change (slen [host; port]) with 2 in E; lia].
    rewrite option_step_render; [|done|rewrite slen_app; change (slen [host; port]) with 2; lia]. cbn [mbind result_bind].
    rewrite (app_assoc pre), IH by (done || lia). by rewrite <- app_assoc.
Qed.

(** ** Properties *)

(** C31: the command line is read inside of its bounds.  With at least two
    arguments, and if every loss rate that is given is one that can be
    converted, the three programs end the reading of their options, in a
    configuration, an exit or an exception, without a read behind the end of
    [argv]. *)
Theorem config_defined `{HR : Resolver} (argv : list bytes) (random : Z) :
  3 <= argc argv → losses_convert argv →
  defined (TcpUdp.get_config argv) ∧ defined (TcpIPv4.get_config argv random) ∧
  defined (TcpIPEthernet.get_config argv random).
Proof.
  intros Hc Hloss.
  assert (∀ i, 0 <= i < argc argv → defined (arg argv i)) as Harg by (intros; by apply arg_defined).
  assert (∀ node service, defined (Address_of_host node service)) as Haddr by (intros; apply Address_resolve_defined).
  split_and!; (apply defined_bind; [apply FdAdapterConfig_defined|intros c _]); apply loop_then; try done.
  - intros. by apply TcpUdp_step_ok.
  - intros o. cbn beta iota. apply defined_bind; [apply Harg; lia|intros port _]. destruct (TcpUdp.listen o).
    + apply defined_bind; [apply Haddr|]. by intros.
    + apply defined_bind; [apply Harg; lia|intros ? _]. apply defined_bind; [apply Haddr|]. by intros.
  - intros. by apply TcpIPv4_step_ok.
  - intros o. cbn beta iota. destruct (TcpIPv4.listen o); (apply defined_bind; [apply Harg; lia|intros ? _]).
    + apply defined_bind; [apply Haddr|intros s _]. apply defined_bind; [apply Address_port_defined|intros p _].
      case_match; [|done]. by destruct (@usage_exit_ok TcpIPv4.Options TcpIPv4.show_usage argv
        (Some (lit "ERROR: listen port cannot be zero in server mode.")) 1 ltac:(lia)) as (text & ->).
    + apply defined_bind; [apply Harg; lia|intros ? _]. by repeat (apply defined_bind; [apply Haddr|intros ? _]).
  - intros. by apply TcpIPEthernet_step_ok.
  - intros o. cbn beta iota. do 2 (apply defined_bind; [apply Harg; lia|intros ? _]).
    by repeat (apply defined_bind; [apply Haddr|intros ? _]).
Qed.

Lemma config_defined_witness :
  defined (@TcpIPv4.get_config number_resolver [lit "tcp_ipv4"; lit "-Lu"; lit "0.25"; lit "10.0.0.1"; lit "80"] 7).
Proof.
  apply (@config_defined number_resolver [lit "tcp_ipv4"; lit "-Lu"; lit "0.25"; lit "10.0.0.1"; lit "80"] 7); [concrete|].
  intros i a v Ha Hv. do 5 (destruct i as [|i]; [injection Ha as <-; first [discriminate Hv | injection Hv as <-; vm_compute; discriminate]|]).
  discriminate Ha.
Defined.

(** C32: options are read back.  A command line of tcp_ipv4 that is written from
    any list of options, with numbers in decimal, is read as these options in
    their order, the last one for a setting counting, and the two arguments
    behind them are the host and the port. *)
Theorem options_read_back `{HR : Resolver} (program : bytes) (opts : list cli_option) (host port : bytes) (random : Z) :
  Forall option_valid opts →
  TcpIPv4.get_config (program :: concat (map render opts) ++ [host; port]) random =
    (c ← FdAdapterConfig_default;
     let o := foldl apply_option (TcpIPv4.initial c random) opts in
     if TcpIPv4.listen o then
       s ← Address_of_host (lit "0") port;
       p ← Address.port s;
       if p =? 0 then
         Throw (ProgramExit 1 (TcpIPv4.show_usage program
           (Some (lit "ERROR: listen port cannot be zero in server mode."))))
       else Ok (TcpIPv4.set_filt o (with_source (TcpIPv4.c_filt o) s))
     else
       d ← Address_of_host host port;
       s ← Address_of_host (TcpIPv4.source_address o) (TcpIPv4.source_port o);
       Ok (TcpIPv4.set_filt o (with_source (with_destination (TcpIPv4.c_filt o) d) s))).
Proof.
  intros Hv. unfold TcpIPv4.get_config. destruct FdAdapterConfig_default as [c|e]; [|done]. cbn [mbind result_bind].
  set (argv := program :: concat (map render opts) ++ [host; port]).
  assert (option_loop (TcpIPv4.option_step argv) argv (length argv) 1 (TcpIPv4.initial c random) =
    Ok (slen ([program] ++ concat (map render opts)), foldl apply_option (TcpIPv4.initial c random) opts)) as ->.
  { apply (option_loop_render opts [program]); [done|]. unfold argv, slen. simpl. rewrite length_app. lia. }
  cbn [mbind result_bind].
  assert (argv = ([program] ++ concat (map render opts)) ++ host :: port :: []) as -> by (by rewrite <- app_assoc).
  rewrite arg_at, arg_after. done.
Qed.

Lemma options_read_back_witness :
  (o ← @TcpIPv4.get_config number_resolver
     [lit "tcp_ipv4"; lit "-w"; lit "4096"; lit "-Ld"; lit "0.5"; lit "-w"; lit "70"; lit "10.0.0.1"; lit "80"] 7;
   Ok (recv_capacity (TcpIPv4.c_fsm o), loss_rate_dn (TcpIPv4.c_filt o), destination (TcpIPv4.c_filt o))) =
  Ok (70, 32767, Address_in 0x0a000001 80).
Proof.
  pose proof (@options_read_back number_resolver (lit "tcp_ipv4") [Window 4096; LossDown (lit "0.5") 32767; Window 70]
    (lit "10.0.0.1") (lit "80") 7) as H.
  change (lit "tcp_ipv4" :: _) with
    [lit "tcp_ipv4"; lit "-w"; lit "4096"; lit "-Ld"; lit "0.5"; lit "-w"; lit "70"; lit "10.0.0.1"; lit "80"] in H.
  rewrite H; [vm_compute; reflexivity|]. repeat constructor; vm_compute; congruence.
Defined.

(** A missing argument of [-Ld] is reported as one of [-Lu]. *)
Lemma missing_loss_misreported `{HR : Resolver} c :
  FdAdapterConfig_default = Ok c →
  TcpUdp.get_config [lit "tcp_udp"; lit "-Ld"; lit "1.2.3.4"; lit "80"] =
  Throw (ProgramExit 1 (TcpUdp.show_usage (lit "tcp_udp") (Some (lit "ERROR: -Lu requires one argument.")))).
Proof. intros Hc. unfold TcpUdp.get_config. rewrite Hc. vm_compute. reflexivity. Qed.
