(* ===== verification/UdpTcpdump.v ===== *)
(** * The packet printer (apps/udp_tcpdump.cc)

    The arguments, what happens to one captured packet, and the program around
    it.  libpcap, which captures and filters, is a class of its calls.  A
    captured packet is the list of its bytes; a read behind its end is
    [Undefined].  The text form of an IPv6 address ([inet_ntop]) is a parameter. *)

From stdpp Require Import strings.
From S2P Require Import Prelude WrappingIntegers StdString CString Buffer Parser TCPHeader TCPSegment Printing CommandLine.
From stdpp Require Import options.

Local Open Scope Z_scope.

(** ** Arguments *)

Definition show_usage (arg0 : bytes) (errmsg : option bytes) : bytes :=
  lit "Usage: " ++ arg0 ++ lit " [-i <intf>] [-F <file>] [-h|--help] <expression>" ++ newline ++ newline ++
  lines [lit "  -i <intf>    only capture packets from <intf> (default: all)"; [];
         lit "  -F <file>    reads in a filter expression from <file>";
         lit "               <expression> is ignored if -F is supplied."; [];
         lit "  -h, --help   show this message"; [];
         lit "  <expression> a filter expression in pcap-filter(7) syntax"] ++
  match errmsg with Some e => newline ++ e | None => [] end ++ newline.

Definition check_arg (argv : list bytes) (curr : Z) (errmsg : bytes) : result () :=
  if argc argv <=? curr + 1 then usage_exit show_usage argv (Some errmsg) 1 else Ok ().

(** The first argument of the filter expression, and the device. *)
Fixpoint parse_arguments_from (argv : list bytes) (fuel : nat) (curr : Z) (dev : option bytes)
    : result (Z * option bytes) :=
  if curr <? argc argv then
    match fuel with
    | O => Throw OutOfFuel
    | S fuel =>
        a ← arg argv curr;
        if strncmp_eq (lit "-i") a 3 then
          _ ← check_arg argv curr (lit "ERROR: -i requires an argument");
          d ← arg argv (curr + 1);
          parse_arguments_from argv fuel (curr + 2) (Some d)
        else if strncmp_eq (lit "-h") a 3 || strncmp_eq (lit "--help") a 7 then usage_exit show_usage argv None 0
        else Ok (curr, dev)
    end
  else Ok (curr, dev).

Definition parse_arguments (argv : list bytes) : result (Z * option bytes) :=
  parse_arguments_from argv (length argv) 1 None.

Definition filter_expression (argv : list bytes) (exp_start : Z) : bytes :=
  concat (map (λ a, a ++ lit " ") (sdrop exp_start argv)).

(** ** IP headers *)

Definition byte_at (data : bytes) (i : Z) : result Z :=
  match data !! Z.to_nat i with
  | Some b => Ok b
  | None => Throw Undefined
  end.

Definition bytes_at (data : bytes) (i n : Z) : result bytes :=
  let s := stake n (sdrop i data) in
  if slen s =? n then Ok s else Throw Undefined.

Section Packets.
(** [inet_ntop] on the 16 bytes of an IPv6 address. *)
Context (inet_ntop6 : bytes → option bytes).

Definition inet4_addr (data : bytes) (i : Z) : result bytes :=
  a ← bytes_at data i 4; Ok (inet_ntoa a).

Definition inet6_addr (data : bytes) (i : Z) : result bytes :=
  a ← bytes_at data i 16; Ok (default (lit "unknown") (inet_ntop6 a)).

(** The loop over the extension headers: where the UDP header starts, or
    nothing. *)
Fixpoint skip_extensions (fuel : nat) (len : Z) (data : bytes) (data_offset nxt : Z) : result (option Z) :=
  if nxt =? 0x11 then Ok (Some data_offset)
  else if negb (nxt =? 0) && negb (nxt =? 43) && negb (nxt =? 60) then Ok None
  else
    match fuel with
    | O => Throw OutOfFuel
    | S fuel =>
        nxt ← byte_at data data_offset;
        l ← byte_at data (data_offset + 1);
        let data_offset := data_offset + 8 * (1 + l) in
        if len <? data_offset + 2 then Ok None
        else skip_extensions fuel len data data_offset nxt
    end.

(** The returned offset is negative for a packet that is not shown; otherwise
    the two addresses have been set. *)
Definition process_ipv4_ipv6 (len : Z) (data : bytes) : result (Z * bytes * bytes) :=
  if len <? 1 then Ok (-1, [], [])
  else
    first ← byte_at data 0;
    let pt := Z.land first 0xf0 in
    if pt =? 0x40 then
      let data_offset := Z.land first 0x0f * 4 in
      if len <? data_offset then Ok (-1, [], [])
      else
        proto ← byte_at data 9;
        if negb (proto =? 0x11) then Ok (-1, [], [])
        else
          src_addr ← inet4_addr data 12;
          dst_addr ← inet4_addr data 16;
          Ok (data_offset + 8, src_addr, dst_addr)
    else if pt =? 0x60 then
      if len <? 42 then Ok (-1, [], [])
      else
        nxt ← byte_at data 6;
        o ← skip_extensions (length data) len data 40 nxt;
        match o with
        | None => Ok (-1, [], [])
        | Some data_offset =>
            src_addr ← inet6_addr data 8;
            dst_addr ← inet6_addr data 24;
            Ok (data_offset + 8, src_addr, dst_addr)
        end
    else Ok (-1, [], []).

(** ** Packets *)

(** The type of the link, as libpcap reports it. *)
Inductive datalink := DLT_RAW | DLT_NULL | DLT_EN10MB | DLT_LINUX_SLL | DLT_LINUX_SLL2 | DLT_OTHER (dlt : Z).

Inductive outcome :=
  | Skipped
  | GivenUp
  | Shown (text : bytes).

Definition be16 (data : bytes) (i : Z) : result Z :=
  a ← byte_at data i;
  b ← byte_at data (i + 1);
  Ok (Z.lor (Z.shiftl a 8) b).

Definition is_ip (pt : Z) : bool := (pt =? 0x0800) || (pt =? 0x86dd).

(** Where the IP header starts: an offset, or what becomes of the packet. *)
Definition ip_offset (dl_type : datalink) (caplen : Z) (pkt_data : bytes) : result (outcome + Z) :=
  match dl_type with
  | DLT_NULL =>
      if caplen <? 4 then Ok (inl Skipped)
      else
        pt ← byte_at pkt_data 3;
        Ok (if negb (pt =? 2) && negb (pt =? 24) && negb (pt =? 28) && negb (pt =? 30) then inl Skipped else inr 4)
  | DLT_EN10MB =>
      if caplen <? 14 then Ok (inl Skipped)
      else pt ← be16 pkt_data 12; Ok (if is_ip pt then inr 14 else inl Skipped)
  | DLT_LINUX_SLL =>
      if caplen <? 16 then Ok (inl Skipped)
      else pt ← be16 pkt_data 14; Ok (if is_ip pt then inr 16 else inl Skipped)
  | DLT_LINUX_SLL2 =>
      if caplen <? 20 then Ok (inl Skipped)
      else pt ← be16 pkt_data 0; Ok (if is_ip pt then inr 20 else inl Skipped)
  | DLT_RAW => Ok (inr 0)
  | DLT_OTHER _ => Ok (inl GivenUp)
  end.

(** The line about a segment. *)
Definition segment_line (src dst : bytes) (seg : TCPSegment) (res : ParseResult) (payload_len : Z) : bytes :=
  let tcp_hdr := TCPSegment.header seg in
  let seqlen := u32 (length_in_sequence_space seg) in
  src ++ lit ":" ++ StdString.to_string (sport tcp_hdr) ++ lit " > " ++ dst ++ lit ":" ++
  StdString.to_string (dport tcp_hdr) ++ newline ++ lit "    Flags [" ++
  (if urg tcp_hdr then lit "U" else []) ++ (if psh tcp_hdr then lit "P" else []) ++
  (if rst tcp_hdr then lit "R" else []) ++ (if syn tcp_hdr then lit "S" else []) ++
  (if fin tcp_hdr then lit "F" else []) ++ (if ack tcp_hdr then lit "." else []) ++
  lit "] cksum 0x" ++ pad 4 (hex_string (TCPHeader.cksum tcp_hdr)) ++
  (if bool_decide (res = NoError) then lit " (correct)" else lit " (incorrect!)") ++
  lit " seq " ++ StdString.to_string (raw_value (seqno tcp_hdr)) ++
  (if 0 <? seqlen then lit ":" ++ StdString.to_string (raw_value (plus_u32 (seqno tcp_hdr) seqlen)) else []) ++
  lit " ack " ++ StdString.to_string (raw_value (ackno tcp_hdr)) ++ lit " win " ++ StdString.to_string (win tcp_hdr) ++
  lit " length " ++ StdString.to_string payload_len ++ newline.

(** The largest size of a string. *)
Definition STRING_MAX : Z := 0x7fffffffffffffff.

(** The body of the loop, for a packet of which [caplen] bytes were captured. *)
Definition handle_packet (dl_type : datalink) (pkt_data : bytes) : result outcome :=
  let caplen := slen pkt_data in
  o ← ip_offset dl_type caplen pkt_data;
  match o with
  | inl out => Ok out
  | inr hdr_off =>
      '(start_off, src, dst) ← process_ipv4_ipv6 (caplen - hdr_off) (sdrop hdr_off pkt_data);
      if start_off <? 0 then Ok Skipped
      else
        let payload_off := u64 (hdr_off + start_off) in
        let payload_len := u64 (caplen - payload_off) in
        if STRING_MAX <? payload_len then Throw LengthError
        else
          let payload := stake payload_len (sdrop payload_off pkt_data) in
          '(seg, res) ← TCPSegment.parse TCPSegment_default (Buffer_of payload) 0;
          let line :=
            if (ParseResult_to_nat BadChecksum <? ParseResult_to_nat res)%nat then
              lit "(did not recognize TCP header) src: " ++ src ++ lit " dst: " ++ dst ++ newline
            else segment_line src dst seg res payload_len in
          dump ← hexdump payload 8;
          Ok (Shown (line ++ dump))
  end.

(** ** The program *)

(** What [pcap_next_ex] returns: 0, 1 with a packet, -1 or -2. *)
Inductive capture := Timeout | Packet (pkt_data : bytes) | ReadError | NoMore.

(** The calls of libpcap; [P] is an open handle, [F] a compiled filter.  A call
    that fails leaves its message for [pcap_geterr]. *)
Class Pcap (P F : Type) := {
  pcap_open_live : option bytes → Z → Z → Z → bytes + P;
  pcap_datalink : P → datalink;
  pcap_datalink_val_to_description : datalink → bytes;
  pcap_compile : P → bytes → Z → Z → P * option F;
  pcap_setfilter : P → F → P * bool;
  pcap_geterr : P → bytes;
  pcap_next_ex : P → P * capture
}.

Definition PCAP_NETMASK_UNKNOWN : Z := 0xffffffff.

Definition supported_datalink (dlt : datalink) : bool := match dlt with DLT_OTHER _ => false | _ => true end.

Section Program.
Context {P F : Type} `{HP : Pcap P F}.

(** The handle, with what has been printed on the way. *)
Definition open_capture (dev : option bytes) : result (P * bytes) :=
  let out := match dev with
             | Some dev => lit "Capturing on interface " ++ dev
             | None => lit "Capturing on all interfaces"
             end in
  match pcap_open_live dev 65535 0 100 with
  | inl errbuf => Throw (ProgramExit 1 (out ++ newline ++ lit "Error initiating capture: " ++ errbuf ++ newline))
  | inr p_hdl =>
      let dlt := pcap_datalink p_hdl in
      if negb (supported_datalink dlt) then
        Throw (ProgramExit 1 (out ++ newline ++ lit "Error: unsupported datalink type " ++
                              pcap_datalink_val_to_description dlt ++ newline))
      else Ok (p_hdl, out ++ lit " (type: " ++ pcap_datalink_val_to_description dlt ++ lit ")" ++ newline)
  end.

Definition set_filter (p_hdl : P) (expression out : bytes) : result (P * bytes) :=
  let out := out ++ lit "Using filter expression: " ++ expression ++ newline in
  let '(p_hdl, compiled) := pcap_compile p_hdl expression 1 PCAP_NETMASK_UNKNOWN in
  match compiled with
  | None => Throw (ProgramExit EXIT_FAILURE
                     (out ++ lit "Error compiling filter expression: " ++ pcap_geterr p_hdl ++ newline))
  | Some p_flt =>
      let '(p_hdl, set) := pcap_setfilter p_hdl p_flt in
      if set : bool then Ok (p_hdl, out)
      else Throw (ProgramExit EXIT_FAILURE
                    (out ++ lit "Error configuring packet filter: " ++ pcap_geterr p_hdl ++ newline))
  end.

(** The loop, for a number of rounds: the handle, what is printed, and a status
    once the program has returned.  After an error of [pcap_next_ex] the message
    is read from the handle that has just been closed. *)
Fixpoint capture_loop (rounds : nat) (dl_type : datalink) (p_hdl : P) (out : bytes) : result (P * bytes * option Z) :=
  match rounds with
  | O => Ok (p_hdl, out, None)
  | S rounds =>
      let '(p_hdl, next) := pcap_next_ex p_hdl in
      match next with
      | Timeout => capture_loop rounds dl_type p_hdl out
      | Packet pkt_data =>
          o ← handle_packet dl_type pkt_data;
          match o with
          | Skipped => capture_loop rounds dl_type p_hdl out
          | GivenUp => Ok (p_hdl, out, Some EXIT_FAILURE)
          | Shown text => capture_loop rounds dl_type p_hdl (out ++ text)
          end
      | ReadError => Throw Undefined
      | NoMore => Ok (p_hdl, out, Some EXIT_SUCCESS)
      end
  end.

Definition udp_tcpdump (rounds : nat) (argv : list bytes) : result (P * bytes * option Z) :=
  '(exp_start, dev) ← parse_arguments argv;
  '(p_hdl, out) ← open_capture dev;
  let dl_type := pcap_datalink p_hdl in
  '(p_hdl, out) ← set_filter p_hdl (filter_expression argv exp_start) out;
  capture_loop rounds dl_type p_hdl out.

End Program.

End Packets.

(** ** Lemmas *)

Lemma byte_at_ok data i : 0 <= i < slen data → ∃ b, byte_at data i = Ok b ∧ data !! Z.to_nat i = Some b.
Proof.
  intros Hi. unfold byte_at. destruct (lookup_lt_is_Some_2 data (Z.to_nat i)) as [b Hb]; [unfold slen in Hi; lia|].
  exists b. by rewrite Hb.
Qed.

(** The loop over extension headers ends, inside of the packet. *)
Lemma skip_extensions_ok data fuel : ∀ off nxt,
  Forall is_u8 data → 0 <= off → off + 2 <= slen data → slen data <= off + 8 * Z.of_nat fuel →
  ∃ o, skip_extensions fuel (slen data) data off nxt = Ok o ∧
    ∀ off', o = Some off' → off <= off' ∧ off' + 2 <= slen data.
Proof.
  induction fuel as [|fuel IH]; intros off nxt Hr H0 Hl Hf; [lia|]. cbn [skip_extensions].
  destruct (nxt =? 0x11); [eexists; split; [done|]; intros ? [= <-]; lia|]. destruct (_ && _ && _); [by eexists|].
  destruct (byte_at_ok data off) as (b & -> & _); [lia|].
  destruct (byte_at_ok data (off + 1)) as (l & -> & Hlk); [lia|]. cbn [mbind result_bind].
  assert (is_u8 l) as Hlr by (by eapply Forall_lookup_1). unfold is_u8 in Hlr.
  destruct (slen data <? _) eqn:E; [by eexists|].
  destruct (IH (off + 8 * (1 + l)) b Hr) as (o & -> & Ho); [lia|lia|lia|]. eexists. split; [done|].
  intros off' Ho'. specialize (Ho off' Ho'). lia.
Qed.

(** ** What packets hold *)

(** The bytes of an address. *)
Definition excerpt (data : bytes) (i n : Z) : bytes := stake n (sdrop i data).

(** A packet of a link type, and the length of the link's header before an IP
    packet. *)
Definition ip_type (pkt : bytes) (i : nat) : Prop :=
  (pkt !! i = Some 0x08 ∧ pkt !! S i = Some 0x00) ∨ (pkt !! i = Some 0x86 ∧ pkt !! S i = Some 0xdd).

Inductive ip_packet (pkt : bytes) : datalink → Z → Prop :=
| packet_raw : ip_packet pkt DLT_RAW 0
| packet_null family : 4 <= slen pkt → pkt !! 3%nat = Some family → family ∈ [2; 24; 28; 30] → ip_packet pkt DLT_NULL 4
| packet_ethernet : 14 <= slen pkt → ip_type pkt 12 → ip_packet pkt DLT_EN10MB 14
| packet_sll : 16 <= slen pkt → ip_type pkt 14 → ip_packet pkt DLT_LINUX_SLL 16
| packet_sll2 : 20 <= slen pkt → ip_type pkt 0 → ip_packet pkt DLT_LINUX_SLL2 20.

(** The extension headers of IPv6 from [off] on, the first of them of type [nxt],
    lead to a UDP header; each has its length in its second byte. *)
Inductive extensions (ip : bytes) : Z → Z → Z → Prop :=
| extensions_udp off : extensions ip off 0x11 off
| extensions_next off nxt nxt' l off' :
    nxt ∈ [0; 43; 60] → ip !! Z.to_nat off = Some nxt' → ip !! Z.to_nat (off + 1) = Some l →
    off + 8 * (1 + l) + 2 <= slen ip → extensions ip (off + 8 * (1 + l)) nxt' off' → extensions ip off nxt off'.

Section Headers.
Context (inet_ntop6 : bytes → option bytes).

(** The UDP header of an IP packet is at [off]; its addresses. *)
Inductive udp_header (ip : bytes) : Z → bytes → bytes → Prop :=
| udp_ipv4 b :
    ip !! 0%nat = Some b → Z.land b 0xf0 = 0x40 → 20 <= slen ip → Z.land b 0x0f * 4 <= slen ip → ip !! 9%nat = Some 0x11 →
    udp_header ip (Z.land b 0x0f * 4) (inet_ntoa (excerpt ip 12 4)) (inet_ntoa (excerpt ip 16 4))
| udp_ipv6 b nxt off :
    ip !! 0%nat = Some b → Z.land b 0xf0 = 0x60 → 42 <= slen ip → ip !! 6%nat = Some nxt → extensions ip 40 nxt off →
    udp_header ip off (default (lit "unknown") (inet_ntop6 (excerpt ip 8 16)))
      (default (lit "unknown") (inet_ntop6 (excerpt ip 24 16))).

(** An IPv4 packet that is shorter than its fixed header, where the length in its
    first byte does not tell, and that is taken for a UDP packet or ends before
    its protocol. *)
Definition unreadable (ip : bytes) : Prop :=
  ∃ b, ip !! 0%nat = Some b ∧ Z.land b 0xf0 = 0x40 ∧ Z.land b 0x0f * 4 <= slen ip < 20 ∧
    (ip !! 9%nat = None ∨ ip !! 9%nat = Some 0x11).

(** What is printed for the payload of a UDP datagram. *)
Definition payload_text (src dst payload text : bytes) : Prop :=
  ∃ seg res, TCPSegment.parse TCPSegment_default (Buffer_of payload) 0 = Ok (seg, res) ∧
    text = (if (ParseResult_to_nat BadChecksum <? ParseResult_to_nat res)%nat then
              lit "(did not recognize TCP header) src: " ++ src ++ lit " dst: " ++ dst ++ newline
            else segment_line src dst seg res (slen payload)) ++ hexdump_rows payload 8.
End Headers.

Lemma byte_at_eq data i b : data !! Z.to_nat i = Some b → byte_at data i = Ok b.
Proof. unfold byte_at. by intros ->. Qed.

Lemma byte_at_inv data i b : byte_at data i = Ok b → data !! Z.to_nat i = Some b.
Proof. unfold byte_at. case_match; [|done]. by intros <-%Ok_inj. Qed.

Lemma bytes_at_eq data i n : 0 <= i → 0 <= n → i + n <= slen data → bytes_at data i n = Ok (excerpt data i n).
Proof.
  intros Hi Hn Hl. unfold bytes_at, excerpt. assert (slen (stake n (sdrop i data)) = n) as ->; [|by rewrite Z.eqb_refl].
  rewrite slen_stake, slen_sdrop by lia. lia.
Qed.

Lemma lookup_byte (data : bytes) i : 0 <= i < slen data → ∃ b, data !! Z.to_nat i = Some b.
Proof. intros Hi. apply lookup_lt_is_Some_2. unfold slen in Hi. lia. Qed.

Lemma extension_type nxt : nxt ∈ [0; 43; 60] ↔ negb (nxt =? 0) && negb (nxt =? 43) && negb (nxt =? 60) = false.
Proof.
  rewrite !elem_of_cons, elem_of_nil. destruct (nxt =? 0) eqn:E1, (nxt =? 43) eqn:E2, (nxt =? 60) eqn:E3; simpl; split; intros; try done; lia.
Qed.

(** The loop finds the UDP header, if there is one. *)
Lemma extensions_found ip off nxt off' : extensions ip off nxt off' → ∀ fuel,
  Forall is_u8 ip → 0 <= off → off + 2 <= slen ip → slen ip <= off + 8 * Z.of_nat fuel →
  skip_extensions fuel (slen ip) ip off nxt = Ok (Some off').
Proof.
  induction 1 as [off|off nxt nxt' l off' Hn Hb Hl Hlen Hx IH]; intros fuel Hr H0 Hoff Hf; (destruct fuel as [|fuel]; [lia|]); [done|].
  cbn [skip_extensions]. destruct (nxt =? 0x11) eqn:E.
  { apply Z.eqb_eq in E as ->. rewrite !elem_of_cons, elem_of_nil in Hn. lia. }
  apply extension_type in Hn. rewrite Hn, (byte_at_eq _ _ _ Hb), (byte_at_eq _ _ _ Hl). cbn [mbind result_bind].
  assert (is_u8 l) as Hlr by (by eapply Forall_lookup_1). unfold is_u8 in Hlr.
  destruct (slen ip <? _) eqn:E2; [lia|]. apply IH; [done|lia..].
Qed.

Lemma found_extensions ip fuel : ∀ off nxt off',
  skip_extensions fuel (slen ip) ip off nxt = Ok (Some off') → extensions ip off nxt off'.
Proof.
  induction fuel as [|fuel IH]; intros off nxt off'; cbn [skip_extensions];
    (destruct (nxt =? 0x11) eqn:E; [apply Z.eqb_eq in E as ->; intros [= ->]; constructor|]);
    (destruct (_ && _ && _) eqn:En; [done|]); [done|].
  intros (nxt' & H1 & (l & H2 & H3)%result_bind_ok)%result_bind_ok. destruct (slen ip <? _) eqn:E2; [done|].
  eapply extensions_next; [by apply extension_type|by apply byte_at_inv|by apply byte_at_inv|lia|by apply IH].
Qed.

Section PacketLemmas.
Context (inet_ntop6 : bytes → option bytes).
Abbreviation process := (process_ipv4_ipv6 inet_ntop6).

Lemma process_udp ip off src dst :
  Forall is_u8 ip → udp_header inet_ntop6 ip off src dst → process (slen ip) ip = Ok (off + 8, src, dst).
Proof using Type.
  intros Hr [b Hb Hv Hl Hh Hp|b nxt o Hb Hv Hl Hn Hx]; unfold process_ipv4_ipv6;
    (destruct (slen ip <? 1) eqn:E1; [lia|]); rewrite (byte_at_eq ip 0 b Hb); cbn [mbind result_bind]; rewrite Hv.
  - cbv zeta. change (0x40 =? 0x40) with true. cbn iota. destruct (slen ip <? Z.land b 0x0f * 4) eqn:E2; [lia|].
    rewrite (byte_at_eq ip 9 0x11 Hp). cbn [mbind result_bind]. unfold inet4_addr.
    rewrite !bytes_at_eq by lia. done.
  - change (0x60 =? 0x40) with false. change (0x60 =? 0x60) with true. cbn iota. destruct (slen ip <? 42) eqn:E2; [lia|].
    rewrite (byte_at_eq ip 6 nxt Hn). cbn [mbind result_bind].
    rewrite (extensions_found _ _ _ _ Hx) by (done || lia || (unfold slen; lia)). cbn [mbind result_bind]. unfold inet6_addr.
    rewrite !bytes_at_eq by lia. done.
Qed.

Lemma process_unreadable ip : unreadable ip → process (slen ip) ip = Throw Undefined.
Proof using Type.
  intros (b & Hb & Hv & Hl & Hp). unfold process_ipv4_ipv6.
  destruct (slen ip <? 1) eqn:E1; [destruct ip; [done|rewrite slen_cons in E1; slia]|].
  rewrite (byte_at_eq ip 0 b Hb). cbn [mbind result_bind]. rewrite Hv. change (0x40 =? 0x40) with true. cbn iota. cbv zeta.
  destruct (slen ip <? Z.land b 0x0f * 4) eqn:E2; [lia|]. unfold byte_at at 1. change (Z.to_nat 9) with 9%nat.
  destruct Hp as [-> | ->]; [done|]. cbn [mbind result_bind]. change (negb (0x11 =? 0x11)) with false. cbn iota.
  unfold inet4_addr. destruct (bytes_at ip 12 4) as [a|e] eqn:E; cbn [mbind result_bind].
  - unfold bytes_at. assert ((slen (stake 4 (sdrop 16 ip)) =? 4) = false) as ->; [|done].
    apply Z.eqb_neq. rewrite slen_stake, slen_sdrop by lia. lia.
  - unfold bytes_at in E. cbv zeta in E. destruct (slen _ =? 4); congruence.
Qed.

Lemma udp_header_range ip off src dst :
  Forall is_u8 ip → udp_header inet_ntop6 ip off src dst → 0 <= off <= slen ip.
Proof using Type.
  intros Hr [b Hb Hv Hl Hh Hp|b nxt o Hb Hv Hl Hn Hx].
  - assert (0 <= Z.land b 15) by (apply Z.land_nonneg; lia). lia.
  - destruct (skip_extensions_ok ip (length ip) 40 nxt Hr) as (r & Ho & Hb2); [lia|lia|unfold slen; lia|].
    rewrite (extensions_found _ _ _ _ Hx) in Ho by (done || lia || (unfold slen; lia)). injection Ho as <-.
    specialize (Hb2 o eq_refl). lia.
Qed.

(** There is no other outcome than these and a negative offset. *)
Lemma process_cases ip :
  Forall is_u8 ip →
  process (slen ip) ip = Ok (-1, [], []) ∨ unreadable ip ∨ ∃ off src dst, udp_header inet_ntop6 ip off src dst.
Proof using Type.
  intros Hr. unfold process_ipv4_ipv6. destruct (slen ip <? 1) eqn:E1; [by left|].
  destruct (lookup_byte ip 0) as [b Hb]; [lia|]. rewrite (byte_at_eq ip 0 b Hb). cbn [mbind result_bind]. cbv zeta.
  destruct (Z.land b 0xf0 =? 0x40) eqn:E4; [apply Z.eqb_eq in E4|destruct (Z.land b 0xf0 =? 0x60) eqn:E6; [apply Z.eqb_eq in E6|by left]].
  - destruct (slen ip <? Z.land b 0x0f * 4) eqn:E2; [by left|]. destruct (ip !! 9%nat) as [p|] eqn:Hp.
    + rewrite (byte_at_eq ip 9 p Hp). cbn [mbind result_bind]. destruct (p =? 0x11) eqn:E; [|by left].
      apply Z.eqb_eq in E as ->. right. destruct (decide (20 <= slen ip)); [right|left].
      * eexists _, _, _. apply (udp_ipv4 _ ip b); [done|done|lia|lia|done].
      * exists b. split_and!; [done|done|lia|lia|by right].
    + right. left. exists b. apply lookup_ge_None_1 in Hp as Hlen. unfold slen in *. split_and!; [done|done|lia|lia|by left].
  - destruct (slen ip <? 42) eqn:E2; [by left|]. destruct (lookup_byte ip 6) as [nxt Hn]; [lia|].
    rewrite (byte_at_eq ip 6 nxt Hn). cbn [mbind result_bind].
    destruct (skip_extensions_ok ip (length ip) 40 nxt Hr) as (o & Ho & _); [lia|lia|unfold slen; lia|]. rewrite Ho.
    cbn [mbind result_bind]. destruct o as [off|]; [|by left]. right. right. apply found_extensions in Ho.
    eexists off, _, _. apply (udp_ipv6 _ ip b nxt); [done|done|lia|done|done].
Qed.

Lemma two_bytes a b : is_u8 b → Z.lor (Z.shiftl a 8) b = a * 256 + b.
Proof using Type.
  intros Hb. unfold_width. assert (Z.land (Z.shiftl a 8) b = 0) as H0.
  { apply Z.bits_inj'. intros n Hn. rewrite Z.land_spec, Z.bits_0. destruct (decide (n < 8)).
    - by rewrite Z.shiftl_spec_low.
    - rewrite (Z.bits_above_log2 b); [apply andb_false_r|lia|].
      destruct (decide (b = 0)) as [->|]; [change (Z.log2 0) with 0; lia|]. apply Z.log2_lt_pow2; [lia|].
      assert (2 ^ 8 <= 2 ^ n) by (apply Z.pow_le_mono_r; lia). lia. }
  pose proof (Z.add_lor_land (Z.shiftl a 8) b). rewrite Z.shiftl_mul_pow2 in * by lia. lia.
Qed.

Lemma be16_type pkt i : 0 <= i → i + 2 <= slen pkt → Forall is_u8 pkt →
  ∃ v, be16 pkt i = Ok v ∧ (is_ip v = true ↔ ip_type pkt (Z.to_nat i)).
Proof using Type.
  intros Hi Hl Hr. destruct (lookup_byte pkt i) as [a Ha]; [lia|]. destruct (lookup_byte pkt (i + 1)) as [b Hb]; [lia|].
  unfold be16. rewrite (byte_at_eq _ _ _ Ha), (byte_at_eq _ _ _ Hb). eexists. split; [done|].
  assert (is_u8 a) as Ha' by (by eapply Forall_lookup_1). assert (is_u8 b) as Hb' by (by eapply Forall_lookup_1).
  rewrite two_bytes by done. unfold is_ip, ip_type. replace (S (Z.to_nat i)) with (Z.to_nat (i + 1)) by lia. rewrite Ha, Hb. unfold_width.
  split.
  - intros [E|E]%orb_true_iff; [left|right]; split; f_equal; lia.
  - intros [[[= ->] [= ->]]|[[= ->] [= ->]]]; done.
Qed.

(** The link's header. *)
Lemma ip_offset_cases dl pkt :
  Forall is_u8 pkt →
  (∃ n, dl = DLT_OTHER n ∧ ip_offset dl (slen pkt) pkt = Ok (inl GivenUp)) ∨
  (∃ hdr, ip_packet pkt dl hdr ∧ ip_offset dl (slen pkt) pkt = Ok (inr hdr)) ∨
  ((∀ hdr, ¬ ip_packet pkt dl hdr) ∧ ip_offset dl (slen pkt) pkt = Ok (inl Skipped)).
Proof using Type.
  intros Hr. assert (∀ off i (c : datalink), 0 <= i → i + 2 <= off →
    (∀ hdr, ip_packet pkt c hdr ↔ hdr = off ∧ off <= slen pkt ∧ ip_type pkt (Z.to_nat i)) → 
    let r := if slen pkt <? off then Ok (inl Skipped) else pt ← be16 pkt i; Ok (if is_ip pt then inr off else inl Skipped) in
    (∃ hdr, ip_packet pkt c hdr ∧ r = Ok (inr hdr)) ∨ ((∀ hdr, ¬ ip_packet pkt c hdr) ∧ r = Ok (inl Skipped))) as Hlink.
  { intros off i c Hi Hoff Hc r. unfold r. destruct (slen pkt <? off) eqn:E.
    { right. split; [|done]. intros hdr (_ & ? & _)%Hc. lia. }
    destruct (be16_type pkt i) as (v & -> & Hv); [lia|lia|done|]. cbn [mbind result_bind]. destruct (is_ip v).
    - left. exists off. split; [|done]. apply Hc. split_and!; [done|lia|by apply Hv].
    - right. split; [|done]. intros hdr (_ & _ & ?%Hv)%Hc. done. }
  destruct dl as [| | | | |n].
  - right. left. exists 0. split; [constructor|done].
  - right. cbn [ip_offset]. destruct (slen pkt <? 4) eqn:E; [right; split; [|done]; intros hdr H; inv H; lia|].
    destruct (lookup_byte pkt 3) as [f Hf]; [lia|]. rewrite (byte_at_eq pkt 3 f Hf). cbn [mbind result_bind].
    change (Z.to_nat 3) with 3%nat in Hf.
    destruct (negb (f =? 2) && negb (f =? 24) && negb (f =? 28) && negb (f =? 30)) eqn:Ef; [right|left].
    + split; [|done]. intros hdr H. inversion H as [|f' _ Hf' Hin| | |]; subst. rewrite Hf in Hf'. injection Hf' as <-.
      rewrite !elem_of_cons, elem_of_nil in Hin. lia.
    + exists 4. split; [|done]. eapply packet_null; [lia|done|]. rewrite !elem_of_cons.
      destruct (f =? 2) eqn:?, (f =? 24) eqn:?, (f =? 28) eqn:?, (f =? 30) eqn:?; simpl in Ef; try done; lia.
  - right. apply (Hlink 14 12 DLT_EN10MB); [lia|lia|]. intros hdr. split; [intros H; by inv H|intros (-> & ? & ?); by constructor].
  - right. apply (Hlink 16 14 DLT_LINUX_SLL); [lia|lia|]. intros hdr. split; [intros H; by inv H|intros (-> & ? & ?); by constructor].
  - right. apply (Hlink 20 0 DLT_LINUX_SLL2); [lia|lia|]. intros hdr. split; [intros H; by inv H|intros (-> & ? & ?); by constructor].
  - left. by exists n.
Qed.

Lemma ip_packet_unique pkt dl hdr hdr' : ip_packet pkt dl hdr → ip_packet pkt dl hdr' → hdr = hdr'.
Proof using Type. intros H H'. by inv H; inv H'. Qed.

Lemma ip_packet_range pkt dl hdr : ip_packet pkt dl hdr → 0 <= hdr <= slen pkt.
Proof using Type. pose proof (slen_nonneg pkt). intros Hp. inv Hp; lia. Qed.

Lemma ip_offset_eq dl pkt hdr :
  Forall is_u8 pkt → ip_packet pkt dl hdr →
  ip_offset dl (slen pkt) pkt = Ok (inr hdr) ∧ slen pkt - hdr = slen (sdrop hdr pkt) ∧ Forall is_u8 (sdrop hdr pkt).
Proof using Type.
  intros Hr Hp. pose proof (ip_packet_range _ _ _ Hp). rewrite slen_sdrop by lia. split_and!; [|lia|by apply Forall_drop].
  destruct (ip_offset_cases dl pkt Hr) as [(n & -> & _)|[(hdr' & Hp' & ->)|[Hno _]]].
  - by inv Hp.
  - by rewrite (ip_packet_unique _ _ _ _ Hp Hp').
  - by destruct (Hno hdr).
Qed.

(** A UDP header was found. *)
Lemma handle_udp dl pkt hdr off src dst :
  Forall is_u8 pkt → slen pkt <= 65535 → ip_packet pkt dl hdr → udp_header inet_ntop6 (sdrop hdr pkt) off src dst →
  (slen pkt < hdr + off + 8 ∧ handle_packet inet_ntop6 dl pkt = Throw LengthError) ∨
  (hdr + off + 8 <= slen pkt ∧ ∃ text, handle_packet inet_ntop6 dl pkt = Ok (Shown text) ∧
     payload_text src dst (sdrop (hdr + off + 8) pkt) text).
Proof using Type.
  intros Hr Hl Hp Hu. destruct (ip_offset_eq _ _ _ Hr Hp) as (Ho & Hsl & Hr'). pose proof (ip_packet_range _ _ _ Hp).
  pose proof (udp_header_range _ _ _ _ Hr' Hu) as Hoff. unfold handle_packet. rewrite Ho. cbn [mbind result_bind].
  rewrite Hsl, (process_udp _ _ _ _ Hr' Hu). cbn [mbind result_bind]. destruct (off + 8 <? 0) eqn:E; [lia|]. cbv zeta.
  rewrite (u64_small (hdr + (off + 8))), Z.add_assoc by (unfold_width; lia).
  destruct (decide (slen pkt < hdr + off + 8)) as [Hc|Hc]; [left|right]; (split; [lia|]).
  - assert (u64 (slen pkt - (hdr + off + 8)) = slen pkt - (hdr + off + 8) + 2 ^ 64) as ->
      by (unfold u64; symmetry; apply Z.mod_unique with (-1); unfold_width; lia).
    unfold STRING_MAX. destruct (0x7fffffffffffffff <? _) eqn:E2; [done|lia].
  - rewrite u64_small by (unfold_width; lia). unfold STRING_MAX. destruct (0x7fffffffffffffff <? _) eqn:E2; [lia|].
    set (payload := sdrop (hdr + off + 8) pkt).
    assert (slen payload = slen pkt - (hdr + off + 8)) as Hpl by (unfold payload; rewrite slen_sdrop; lia).
    rewrite <- Hpl, stake_all by lia. assert (Forall is_u8 payload) as Hb by (by apply Forall_drop).
    destruct (segment_parse_ok TCPSegment_default (Buffer_of payload) 0) as (seg & res & Hparse).
    { apply wf_of. unfold_width. lia. }
    { by rewrite str_of. }
    rewrite Hparse. cbn [mbind result_bind]. rewrite hexdump_ok by (done || lia). eexists. split; [done|]. by exists seg, res.
Qed.

End PacketLemmas.

Section ProgramLemmas.
Context (inet_ntop6 : bytes → option bytes) {P F : Type} `{HP : Pcap P F}.

Lemma supported_not_given_up dl pkt : supported_datalink dl = true → handle_packet inet_ntop6 dl pkt ≠ Ok GivenUp.
Proof using Type.
  intros Hs. unfold handle_packet. destruct (ip_offset dl (slen pkt) pkt) as [[out|hdr]|] eqn:E; [| |done].
  - intros [= ->]. destruct dl; cbn [ip_offset] in E; repeat case_match; try done;
      apply result_bind_ok in E as (? & _ & E); repeat case_match; done.
  - cbn [mbind result_bind]. intros ([[start src] dst] & _ & H)%result_bind_ok. destruct (start <? 0); [done|].
    destruct (STRING_MAX <? _); [done|]. by apply result_bind_ok in H as ([seg res] & _ & (dump & _ & H)%result_bind_ok).
Qed.

Lemma capture_loop_status rounds : ∀ dl (p : P) out p' out' status,
  supported_datalink dl = true → capture_loop inet_ntop6 rounds dl p out = Ok (p', out', Some status) →
  status = EXIT_SUCCESS ∧ out `prefix_of` out'.
Proof using Type.
  induction rounds as [|rounds IH]; intros dl p out p' out' status Hs; cbn [capture_loop]; [done|].
  destruct (pcap_next_ex p) as [p1 [|pkt| |]]; [by apply IH| |done|by intros [= <- <- <-]].
  intros (o & Hh & H)%result_bind_ok. destruct o as [| |text]; [by eapply IH| |].
  - by apply supported_not_given_up in Hh.
  - apply IH in H as [? Hp]; [|done]. split; [done|]. etrans; [by apply prefix_app_r|done].
Qed.

(** The branch for a mysterious link type is never taken: such a link has been
    refused when it was opened. *)
Lemma tcpdump_succeeds rounds argv (p : P) out status :
  udp_tcpdump inet_ntop6 rounds argv = Ok (p, out, Some status) → status = EXIT_SUCCESS.
Proof using Type.
  unfold udp_tcpdump. intros ([start dev] & _ & ([p1 out1] & H1 & ([p2 out2] & _ & H)%result_bind_ok)%result_bind_ok)%result_bind_ok.
  eapply capture_loop_status; [|exact H]. unfold open_capture in H1. destruct (pcap_open_live _ _ _ _) as [|h]; [done|].
  destruct (negb (supported_datalink _)) eqn:E; [done|]. injection H1 as <- _. by apply negb_false_iff.
Qed.

End ProgramLemmas.

(** ** Properties *)

(** C30: what becomes of a captured packet of at most 65535 bytes.  If its link
    header announces an IP packet with a UDP header behind it (for IPv6, behind
    extension headers), the program prints the line for the segment in the UDP
    payload and the payload in rows; but if the packet ends inside of the UDP
    header, it ends with a [length_error].  An IPv4 packet that is shorter than
    its fixed header may be read behind its end.  With a link type that is not
    supported the program gives up, and all other packets are skipped.  In
    particular the loop over IPv6 extension headers always ends and stays inside
    of the packet. *)
Theorem packet_handled (inet_ntop6 : bytes → option bytes) (dl_type : datalink) (pkt_data : bytes) :
  Forall is_u8 pkt_data → slen pkt_data <= 65535 →
  (∀ hdr_off off src dst,
     ip_packet pkt_data dl_type hdr_off → udp_header inet_ntop6 (sdrop hdr_off pkt_data) off src dst →
     (slen pkt_data < hdr_off + off + 8 ∧ handle_packet inet_ntop6 dl_type pkt_data = Throw LengthError) ∨
     (hdr_off + off + 8 <= slen pkt_data ∧ ∃ text, handle_packet inet_ntop6 dl_type pkt_data = Ok (Shown text) ∧
        payload_text src dst (sdrop (hdr_off + off + 8) pkt_data) text)) ∧
  (∀ hdr_off, ip_packet pkt_data dl_type hdr_off → unreadable (sdrop hdr_off pkt_data) →
     handle_packet inet_ntop6 dl_type pkt_data = Throw Undefined) ∧
  (∀ dlt, dl_type = DLT_OTHER dlt → handle_packet inet_ntop6 dl_type pkt_data = Ok GivenUp) ∧
  ((∀ dlt, dl_type ≠ DLT_OTHER dlt) →
   (∀ hdr_off, ip_packet pkt_data dl_type hdr_off → ¬ unreadable (sdrop hdr_off pkt_data) ∧
      ∀ off src dst, ¬ udp_header inet_ntop6 (sdrop hdr_off pkt_data) off src dst) →
   handle_packet inet_ntop6 dl_type pkt_data = Ok Skipped).
Proof.
  intros Hr Hl. split_and!.
  - intros hdr off src dst Hp Hu. by apply handle_udp.
  - intros hdr Hp Hu. destruct (ip_offset_eq _ _ _ Hr Hp) as (Ho & Hsl & _). unfold handle_packet. rewrite Ho.
    cbn [mbind result_bind]. by rewrite Hsl, (process_unreadable _ _ Hu).
  - by intros dlt ->.
  - intros Hd Hno. destruct (ip_offset_cases dl_type pkt_data Hr) as [(n & -> & _)|[(hdr & Hp & _)|[_ Ho]]].
    + by destruct (Hd n).
    + destruct (Hno hdr Hp) as [Hn1 Hn2]. destruct (ip_offset_eq _ _ _ Hr Hp) as (Ho & Hsl & Hr').
      unfold handle_packet. rewrite Ho. cbn [mbind result_bind]. rewrite Hsl.
      by destruct (process_cases inet_ntop6 _ Hr') as [->|[?|(off & src & dst & ?)]]; [|done|destruct (Hn2 off src dst)].
    + unfold handle_packet. by rewrite Ho.
Qed.

(** An Ethernet frame with an IPv4 header, a UDP header and a TCP segment whose
    checksum is wrong. *)
Definition sample_packet : bytes :=
  replicate 12 0 ++ [8; 0] ++ [0x45] ++ replicate 8 0 ++ [0x11; 0; 0; 10; 0; 0; 1; 10; 0; 0; 2] ++ replicate 8 0 ++
  [0x05; 0xa0; 0; 80] ++ replicate 16 0.

(** An IPv4 packet of five bytes that claims a header of four. *)
Definition cut_packet : bytes := replicate 12 0 ++ [8; 0] ++ [0x41; 0; 0; 0; 0].

Lemma packet_handled_witness :
  (∃ text, handle_packet (λ _, None) DLT_EN10MB sample_packet = Ok (Shown text) ∧
     payload_text (lit "10.0.0.1") (lit "10.0.0.2") (sdrop 42 sample_packet) text) ∧
  handle_packet (λ _, None) DLT_EN10MB cut_packet = Throw Undefined.
Proof.
  assert (Forall is_u8 sample_packet) as Hs by (repeat (constructor; [concrete|]); constructor).
  assert (Forall is_u8 cut_packet) as Hc by (repeat (constructor; [concrete|]); constructor). split.
  - destruct (packet_handled (λ _, None) DLT_EN10MB sample_packet Hs ltac:(concrete)) as [H _].
    destruct (H 14 20 (lit "10.0.0.1") (lit "10.0.0.2")) as [[Hlt _]|[_ Ht]].
    + constructor; [concrete|]. left. split; reflexivity.
    + apply (udp_ipv4 (λ _, None) (sdrop 14 sample_packet) 0x45); first [reflexivity|concrete].
    + vm_compute in Hlt. discriminate Hlt.
    + exact Ht.
  - destruct (packet_handled (λ _, None) DLT_EN10MB cut_packet Hc ltac:(concrete)) as (_ & H & _).
    apply (H 14).
    + constructor; [concrete|]. left. split; reflexivity.
    + exists 0x41. split; [reflexivity|]. split; [reflexivity|]. split; [concrete|]. left. reflexivity.
Defined.

(** A segment with a wrong checksum is shown with the ports and numbers of a
    header that was never read: [TCPSegment::parse] returns before it parses
    the header.  The source port of the packet below is 1440. *)
Lemma bad_checksum_shows_default :
  ∃ text, handle_packet (λ _, None) DLT_EN10MB sample_packet = Ok (Shown text) ∧
    take 24 text = lit "10.0.0.1:0 > 10.0.0.2:0" ++ newline.
Proof. eexists. split; vm_compute; reflexivity. Qed.

(** A packet that ends inside of its UDP header ends the program. *)
Lemma short_udp_ends_program :
  handle_packet (λ _, None) DLT_EN10MB (take 36 sample_packet) = Throw LengthError.
Proof. vm_compute. reflexivity. Qed.
