(* ===== verification/Programs.v ===== *)
(** * The programs of apps that are built from the sockets

    tun.cc prints the packets of a TUN device, tcp_native.cc copies between a
    kernel TCP socket and the standard streams, webget.cc fetches a page.  tcp_udp.cc,
    tcp_ipv4.cc and tcp_ip_ethernet.cc build a socket and start to open a
    connection; how the process goes on is the model of TCPProcess.  What
    random generators draw is an argument. *)

From stdpp Require Import gmap strings.
From S2P Require Import Prelude StreamReassembler StdString CString Buffer Parser TCPHeader TCPSegment IPv4Header IPv4Datagram.
From S2P Require Import Address FileDescriptor EventLoop Socket Tun TCPConfig FdAdapter TCPOverIP TunTapAdapter.
From S2P Require Import TCPSpongeSocket AdapterDevices FullStackSocket BidirectionalStreamCopy SocketPair TCPProcess Printing CommandLine.
From S2P Require TCPConnection.
From stdpp Require Import options.

Local Open Scope Z_scope.

Definition crlf : bytes := [13; 10].

(** ** tun *)

(** What is printed for one packet. *)
Definition tun_packet (buffer : bytes) : result bytes :=
  dump ← hexdump buffer 0;
  let out := newline ++ newline ++ lit "***" ++ newline ++ lit "*** Got packet:" ++ newline ++ lit "***" ++ newline ++
             dump ++ lit "attempting to parse as ipv4 datagram... " in
  '(ip_dgram, res) ← IPv4Datagram.parse IPv4Datagram_default (Buffer_of buffer);
  if negb (bool_decide (res = NoError)) then Ok (out ++ lit "failed." ++ newline)
  else
    let h := IPv4Datagram.header ip_dgram in
    let out := out ++ lit "success! totlen=" ++ StdString.to_string (len h) ++ lit ", IPv4 header contents:" ++ newline ++
               IPv4Header_to_string h in
    if negb (proto h =? PROTO_TCP) then Ok (out ++ newline ++ lit "Not TCP, skipping." ++ newline)
    else
      let out := out ++ newline ++ lit "Attempting to parse as a TCP segment... " in
      b ← to_Buffer (IPv4Datagram.payload ip_dgram);
      '(tcp_seg, res) ← TCPSegment.parse TCPSegment_default b (pseudo_cksum h);
      if negb (bool_decide (res = NoError)) then Ok (out ++ lit "failed." ++ newline)
      else
        Ok (out ++ lit "success! payload len=" ++ StdString.to_string (size (TCPSegment.payload tcp_seg)) ++
            lit ", TCP header contents:" ++ newline ++ TCPHeader_to_string (TCPSegment.header tcp_seg) ++ newline).

Section Programs.
Context {K : Type} `{HK : Kernel K} `{HR : Resolver}.
Context (reads : TCPConnection.Reads).

(** The endless loop, for a number of rounds. *)
Fixpoint tun_loop (rounds : nat) (k : K) (tun : FDWrapper) (out : bytes) : result (K * FDWrapper * bytes) :=
  match rounds with
  | O => Ok (k, tun, out)
  | S rounds =>
      '(k, tun, buffer) ← FileDescriptor.read k tun SIZE_MAX;
      text ← tun_packet buffer;
      tun_loop rounds k tun (out ++ text)
  end.

Definition tun_main (rounds : nat) (k : K) : result (K * FDWrapper * bytes) :=
  '(k, tun) ← TunFD_new k (lit "tun144");
  tun_loop rounds k tun [].

Definition tun_status (rounds : nat) (k : K) : option Z := exit_status (tun_main rounds k).

(** ** tcp_native *)

Definition tcp_native_server (argv : list bytes) : bool :=
  match argv !! 1%nat with Some a => strncmp_eq (lit "-l") a 3 | None => false end.

Definition tcp_native_usage (argv0 : bytes) : bytes :=
  lit "Usage: " ++ argv0 ++ lit " [-l] <host> <port>" ++ newline ++ newline ++
  lit "  -l specifies listen mode; <host>:<port> is the listening address." ++ newline.

Definition BACKLOG_DFLT : Z := 16.

(** The socket that is connected or accepted; the listening socket is destroyed. *)
Definition tcp_native_socket (k : K) (argv : list bytes) : result (K * FDWrapper) :=
  if tcp_native_server argv then
    '(k, listening_socket) ← TCPSocket_new k;
    k ← set_reuseaddr k listening_socket;
    host ← arg argv 2;
    port ← arg argv 3;
    a ← Address_of_host host port;
    k ← Socket.bind k listening_socket a;
    k ← Socket.listen k listening_socket BACKLOG_DFLT;
    '(k, listening_socket, s) ← Socket.accept k listening_socket;
    Ok (destruct_wrapper k listening_socket, s)
  else
    '(k, connecting_socket) ← TCPSocket_new k;
    host ← arg argv 1;
    port ← arg argv 2;
    a ← Address_of_host host port;
    k ← Socket.connect k connecting_socket a;
    Ok (k, connecting_socket).

Definition tcp_native (rounds : nat) (k : K) (argv : list bytes) : result (K * Copy * bool) :=
  if (argc argv <? 3) || (tcp_native_server argv && (argc argv <? 4)) then
    usage_exit (λ argv0 _, tcp_native_usage argv0) argv None EXIT_FAILURE
  else
    '(k, socket) ← tcp_native_socket k argv;
    bidirectional_stream_copy rounds k socket.

Definition tcp_native_status (rounds : nat) (k : K) (argv : list bytes) : option Z :=
  exit_status (tcp_native rounds k argv).

(** ** webget *)

Fixpoint write_strings (k : K) (socket : FDWrapper) (l : list bytes) : result (K * FDWrapper) :=
  match l with
  | [] => Ok (k, socket)
  | s :: l =>
      '(k, socket, _) ← FileDescriptor.write k socket (BufferViewList_of_string s) true;
      write_strings k socket l
  end.

Definition request (path : bytes) : list bytes :=
  [lit "GET " ++ path ++ lit " HTTP/1.1" ++ crlf;
   lit "Host: cs144.keithw.org" ++ crlf;
   lit "Connection: close" ++ crlf ++ crlf].

(** The loop that reads until the end of the stream and prints. *)
Fixpoint read_response (fuel : nat) (k : K) (socket : FDWrapper) (out : bytes) : result (K * FDWrapper * bytes) :=
  if eof socket then Ok (k, socket, out)
  else
    match fuel with
    | O => Throw OutOfFuel
    | S fuel =>
        '(k, socket, response) ← FileDescriptor.read k socket SIZE_MAX;
        read_response fuel k socket (out ++ response)
    end.

Definition fetch (fuel : nat) (k : K) (socket : FDWrapper) (path : bytes) : result (K * FDWrapper * bytes) :=
  '(k, socket) ← write_strings k socket (request path);
  read_response fuel k socket [].

(** From [connect] on, the thread of the connection acts through the kernel. *)
Definition get_URL (fuel : nat) (k : K) (host path : bytes) (random : nat → Z) (random_port random_isn : Z)
    (aborts : list bool) : result (K * bytes) :=
  address ← Address_of_host host (lit "http");
  st ← FullStackSocket_new k random;
  '(_, (k, socket), ended) ← FullStackSocket_connect reads st address random_port random_isn aborts;
  if negb ended then Throw OutOfFuel
  else
    '(k, owner, out) ← fetch fuel k (_owner socket) path;
    '(k, _) ← wait_until_closed k (set_owner socket owner);
    Ok (k, out).

Definition webget_usage (argv0 : bytes) : bytes :=
  lit "Usage: " ++ argv0 ++ lit " HOST PATH" ++ newline ++
  [9] ++ lit "Example: " ++ argv0 ++ lit " stanford.edu /class/cs144" ++ newline.

(** The status that a shell reports after [abort]. *)
Definition SIGABRT_STATUS : Z := 134.

Definition webget (fuel : nat) (k : K) (argv : list bytes) (random : nat → Z) (random_port random_isn : Z)
    (aborts : list bool) : result (K * bytes) :=
  if argc argv <=? 0 then Throw (ProgramExit SIGABRT_STATUS [])
  else if negb (argc argv =? 3) then usage_exit (λ argv0 _, webget_usage argv0) argv None EXIT_FAILURE
  else
    host ← arg argv 1;
    path ← arg argv 2;
    get_URL fuel k host path random random_port random_isn aborts.

Definition webget_status (fuel : nat) (k : K) (argv : list bytes) (random : nat → Z) (random_port random_isn : Z)
    (aborts : list bool) : option Z :=
  exit_status (webget fuel k argv random random_port random_isn aborts).

(** ** tcp_udp, tcp_ipv4 and tcp_ip_ethernet *)

(** A program that builds its socket, has begun to open its connection, and
    goes on as a process. *)
Definition started {A} (begun : result (K * Thread K A)) : result (K * Process K A) :=
  '(k, th) ← begun; Ok (k, mkProcess th Connecting).

Section Lossy.
(** The generator of [LossyFdAdapter], and one draw from it. *)
Context {mt19937 : Type} (draw : mt19937 → Z * mt19937).

#[local] Instance lossy_udp : FdAdapter (@LossyFdAdapter mt19937 TCPOverUDPSocketAdapter) received_datagram :=
  lossy_adapter draw.
#[local] Instance lossy_tun : FdAdapter (@LossyFdAdapter mt19937 TCPOverIPv4OverTunFdAdapter) bytes :=
  lossy_adapter draw.

Definition tcp_udp (k : K) (argv : list bytes) (rand : mt19937) (random_isn : Z) :=
  if argc argv <? 3 then usage_exit TcpUdp.show_usage argv (Some required_missing) 1
  else
    o ← TcpUdp.get_config argv;
    '(k, udp_sock) ← UDPSocket_new k;
    k ← (if TcpUdp.listen o then Socket.bind k udp_sock (source (TcpUdp.c_filt o)) else Ok k);
    a ← udp_plugged udp_sock;
    st ← TCPSpongeSocket_of k (lossy_plugged rand a);
    started (if TcpUdp.listen o then listen_begin reads st (TcpUdp.c_fsm o) (TcpUdp.c_filt o) random_isn
             else connect_begin reads st (TcpUdp.c_fsm o) (TcpUdp.c_filt o) random_isn).

Definition tcp_ipv4 (k : K) (argv : list bytes) (rand : mt19937) (random_port random_isn : Z) :=
  if argc argv <? 3 then usage_exit TcpIPv4.show_usage argv (Some required_missing) EXIT_FAILURE
  else
    o ← TcpIPv4.get_config argv random_port;
    '(k, tun) ← TunFD_new k (default TcpIPv4.TUN_DFLT (TcpIPv4.tundev o));
    a ← tun_plugged tun;
    st ← TCPSpongeSocket_of k (lossy_plugged rand a);
    started (if TcpIPv4.listen o then listen_begin reads st (TcpIPv4.c_fsm o) (TcpIPv4.c_filt o) random_isn
             else connect_begin reads st (TcpIPv4.c_fsm o) (TcpIPv4.c_filt o) random_isn).

End Lossy.

Definition tcp_ip_ethernet (k : K) (argv : list bytes) (random : nat → Z) (random_port random_isn : Z) :=
  if argc argv <? 3 then usage_exit TcpIPEthernet.show_usage argv (Some required_missing) EXIT_FAILURE
  else
    '(c_fsm, c_filt, next_hop, tap_dev_name) ← TcpIPEthernet.get_config argv random_port;
    '(k, tap) ← TapFD_new k tap_dev_name;
    '(k, a) ← eth_plugged k tap (random_private_ethernet_address random) (source c_filt) next_hop;
    st ← TCPSpongeSocket_of k a;
    started (connect_begin reads st c_fsm c_filt random_isn).

End Programs.

(** ** A stream socket as its owner sees it *)

(** A connected socket in blocking mode: the peer sends [S], of which [taken]
    bytes have been read; [sent] is what has been written. *)
Class StreamSocket (K : Type) `{HK : Kernel K} (n : Z) (S : bytes) := {
  sent : K → bytes;
  taken : K → Z;
  socket_writev k iov :
    ∃ k' m, sys_writev k n iov = (k', inr m) ∧ 0 <= m <= slen (concat (map fst iov)) ∧
      (concat (map fst iov) ≠ [] → 0 < m) ∧ sent k' = sent k ++ stake m (concat (map fst iov)) ∧ taken k' = taken k;
  socket_read k len : 0 < len →
    ∃ k' data, sys_read k n len = (k', inr data) ∧ slen data <= len ∧
      data = stake (slen data) (sdrop (taken k) S) ∧ taken k' = taken k + slen data ∧
      (data = [] → taken k = slen S) ∧ sent k' = sent k
}.

Section Fetch.
Context {K : Type} `{HK : Kernel K} (n : Z) (S : bytes) `{HS : !StreamSocket K n S}.

#[local] Instance socket_blocks : BlockingOutput K n.
Proof using Type*.
  refine {| output := sent |}. intros k iov. destruct (socket_writev k iov) as (k' & m & ? & ? & ? & ? & _). by exists k', m.
Defined.

Lemma write_string_sends k w s :
  fd_num w = n → is_u64 (slen s) →
  ∃ k' w' m, FileDescriptor.write k w (BufferViewList_of_string s) true = Ok (k', w', m) ∧
    sent k' = sent k ++ s ∧ taken k' = taken k ∧ fd_num w' = n ∧ eof w' = eof w.
Proof using Type*.
  intros Hw Hs. assert (concat (BufferViewList_of_string s) = s) as Hc by apply app_nil_r.
  destruct (write_loop_all n (Datatypes.S (Z.to_nat (slen s))) k w (BufferViewList_of_string s) 0) as (k' & w' & Hl & Ho & _);
    rewrite ?Hc; [done|lia|done|slia|]. rewrite Hc in *.
  assert (FileDescriptor.write k w (BufferViewList_of_string s) true = Ok (k', w', 0 + slen s)) as Hwr.
  { unfold FileDescriptor.write. by rewrite view_size_eq, Hc by (by rewrite Hc). }
  destruct (write_keeps n taken k w (BufferViewList_of_string s) true k' w' (0 + slen s)) as (Ht & Hw' & He); [|done|done|].
  { intros k1 iov k2 r Hr. destruct (socket_writev k1 iov) as (k3 & m & Hr' & _ & _ & _ & Ht). congruence. }
  by exists k', w', (0 + slen s).
Qed.

Lemma write_strings_send l : ∀ k w,
  fd_num w = n → Forall (λ s, is_u64 (slen s)) l →
  ∃ k' w', write_strings k w l = Ok (k', w') ∧ sent k' = sent k ++ concat l ∧ taken k' = taken k ∧
    fd_num w' = n ∧ eof w' = eof w.
Proof using Type*.
  induction l as [|s l IH]; intros k w Hw Hl; cbn [write_strings concat].
  { exists k, w. by rewrite app_nil_r. }
  apply Forall_cons_1 in Hl as [Hs Hl]. destruct (write_string_sends k w s Hw Hs) as (k1 & w1 & m & -> & H1 & T1 & W1 & E1).
  cbn [mbind result_bind]. destruct (IH k1 w1 W1 Hl) as (k2 & w2 & -> & H2 & T2 & W2 & E2). exists k2, w2.
  split_and!; [done|by rewrite H2, H1, <- app_assoc|congruence|done|congruence].
Qed.

Lemma read_response_all fuel : ∀ k w out,
  fd_num w = n → eof w = false → 0 <= taken k <= slen S → slen S - taken k < Z.of_nat fuel →
  ∃ k' w', read_response fuel k w out = Ok (k', w', out ++ sdrop (taken k) S) ∧ sent k' = sent k ∧ eof w' = true.
Proof using Type*.
  induction fuel as [|fuel IH]; intros k w out Hw He Ht Hf; [lia|]. cbn [read_response]. rewrite He.
  unfold FileDescriptor.read at 1. rewrite Hw.
  assert (Z.min BUFFER_SIZE SIZE_MAX = BUFFER_SIZE) as -> by done.
  destruct (socket_read k BUFFER_SIZE) as (k1 & data & -> & Hl & Hd & Ht1 & Hend & Hs1); [done|].
  cbn [SystemCall mbind result_bind]. destruct (BUFFER_SIZE <? slen data) eqn:E; [lia|]. cbn [mbind result_bind].
  change (0 <? SIZE_MAX) with true. cbn [andb]. pose proof (slen_nonneg data). destruct (slen data =? 0) eqn:E0.
  - assert (data = []) as -> by (apply slen_zero_nil; lia). specialize (Hend eq_refl).
    exists k1, (register_read (set_eof w)). rewrite sdrop_all by lia. destruct fuel; done.
  - assert (slen data <= slen S - taken k) as Hle.
    { rewrite Hd, slen_stake, slen_sdrop by lia. lia. }
    destruct (IH k1 (register_read w) (out ++ data)) as (k' & w' & -> & Hs & Hw'); [done|done|lia|lia|].
    exists k', w'. split; [|split; [congruence|done]]. do 2 f_equal.
    rewrite <- app_assoc. f_equal. rewrite Ht1, <- sdrop_sdrop by lia. rewrite Hd at 1. apply stake_sdrop.
Qed.

End Fetch.

(** ** Properties *)

(** C29: webget asks for the page and prints all of it.  On a connected socket,
    however the kernel cuts the stream into pieces, [fetch] ends, has written the
    three lines of the request, and has printed exactly what the server sent up
    to the end of its stream. *)
Theorem fetch_complete {K : Type} {HK : Kernel K} (n : Z) (S : bytes) {HS : StreamSocket K n S}
    (k : K) (w : FDWrapper) (path : bytes) (fuel : nat) :
  fd_num w = n → eof w = false → taken k = 0 → slen path < 0x100000000 → slen S < Z.of_nat fuel →
  ∃ k' w', fetch fuel k w path = Ok (k', w', S) ∧ sent k' = sent k ++ concat (request path) ∧ eof w' = true.
Proof.
  intros Hw He Ht Hp Hf. unfold fetch. pose proof (slen_nonneg path). pose proof (slen_nonneg S).
  destruct (write_strings_send n S (request path) k w Hw) as (k1 & w1 & -> & H1 & T1 & W1 & E1).
  { unfold request. constructor; [|constructor; [concrete|constructor; [concrete|constructor]]]. rewrite !slen_app.
    change (slen (lit "GET ")) with 4. change (slen (lit " HTTP/1.1")) with 9. change (slen crlf) with 2. unfold_width. lia. }
  cbn [mbind result_bind].
  destruct (read_response_all n S fuel k1 w1 []) as (k2 & w2 & -> & H2 & E2); [done|congruence|lia|lia|].
  exists k2, w2. split; [|split; [congruence|done]]. by rewrite T1, Ht, sdrop_0.
Qed.

(** A server that sends a page, at most three bytes at a time, to the one
    descriptor there is. *)
Definition page_kernel (page : bytes) : Kernel (bytes * nat) := {|
  sys_read k _ len := let data := take_from page k.2 (Z.to_nat (Z.min len 3)) in ((k.1, (k.2 + length data)%nat), inr data);
  sys_writev k _ iov := let s := concat (map fst iov) in ((k.1 ++ stake 2 s, k.2), inr (Z.min 2 (slen s)));
  sys_close k _ := (k, inr 0);
  sys_getfl k _ := (k, inr 0);
  sys_setfl k _ _ := (k, inr 0);
  sys_poll k _ _ := (k, inr (0, []));
  sys_socket k _ _ := (k, inl 1);
  sys_getsockopt k _ _ := (k, inl 1);
  sys_setsockopt k _ _ _ := (k, inl 1);
  sys_name k _ _ := (k, inl 1);
  sys_bind k _ _ := (k, inl 1);
  sys_connect k _ _ := (k, inl 1);
  sys_listen k _ _ := (k, inl 1);
  sys_accept k _ := (k, inl 1);
  sys_shutdown k _ _ := (k, inr 0);
  sys_recvfrom k _ _ := (k, inl 1);
  sys_sendmsg k _ _ _ := (k, inl 1);
  sys_socketpair k _ _ := (k, inl 1);
  sys_open k _ _ := (k, inl 1);
  sys_ioctl k _ _ _ := (k, inl 1);
  sys_clock k := (k, 0)
|}.

#[export] Instance page_socket page n : @StreamSocket (bytes * nat) (page_kernel page) n page.
Proof.
  refine {| sent := fst; taken := λ k, consumed_to page k.2 |}.
  - intros k iov. cbn. do 2 eexists. split; [done|]. pose proof (slen_nonneg (concat (map fst iov))).
    split; [lia|]. split; [|split; [|done]].
    + intros Hne. destruct (decide (slen (concat (map fst iov)) = 0)) as [Hz|]; [|lia]. by apply slen_zero_nil in Hz.
    + cbn. f_equal. destruct (decide (2 <= slen (concat (map fst iov)))); [f_equal; lia|]. rewrite !stake_all by lia. done.
  - intros [out pos] len Hlen. cbn. do 2 eexists. split; [done|]. cbn [fst snd].
    destruct (take_from_spec page pos (Z.to_nat (Z.min len 3))) as (H1 & H2 & H3).
    split_and!; [|done|done|intros Hnil; apply H3; [done|lia]|done].
    unfold take_from, slen. rewrite length_take. lia.
Defined.

Lemma fetch_complete_witness :
  ∃ k' w', @fetch (bytes * nat) (page_kernel (lit "200 OK")) 7 ([], 0%nat) (mkFDWrapper 5 false false 0 0) (lit "/") =
      Ok (k', w', lit "200 OK") ∧
    @sent _ _ 5 _ (page_socket (lit "200 OK") 5) k' = concat (request (lit "/")) ∧ eof w' = true.
Proof.
  apply (@fetch_complete (bytes * nat) (page_kernel (lit "200 OK")) 5 (lit "200 OK") (page_socket (lit "200 OK") 5)
    ([], 0%nat) (mkFDWrapper 5 false false 0 0) (lit "/") 7); concrete.
Defined.

(** The TUN printer survives every packet.  Whatever bytes the device
    delivers, the packet is printed, with its header or with the report that it
    was not recognized, and no exception is raised. *)
Theorem tun_survives (buffer : bytes) :
  Forall is_u8 buffer → slen buffer <= BUFFER_SIZE → ∃ text, tun_packet buffer = Ok text.
Proof.
  intros Hr Hl. unfold BUFFER_SIZE in Hl. unfold tun_packet. rewrite hexdump_ok by (done || lia). cbn [mbind result_bind].
  assert (Buffer.wf (Buffer_of buffer)) as Hwf by (apply wf_of; slia).
  destruct (datagram_parse_ok IPv4Datagram_default (Buffer_of buffer) Hwf) as (d & r & pl & -> & Hpl & Hwfp & Hrp).
  { by rewrite str_of. }
  cbn [mbind result_bind]. destruct (negb (bool_decide _)); [by eexists|]. destruct (negb (_ =? _)); [by eexists|].
  unfold IPv4Datagram.payload. rewrite Hpl. cbn [to_Buffer mbind result_bind].
  destruct (segment_parse_ok TCPSegment_default pl (pseudo_cksum (IPv4Datagram.header d)) Hwfp Hrp) as (seg & res & ->).
  cbn [mbind result_bind]. destruct (negb _); by eexists.
Qed.

Lemma tun_survives_witness : ∃ text, tun_packet [0x45; 0; 0; 7; 255] = Ok text.
Proof. apply (tun_survives [0x45; 0; 0; 7; 255]); [repeat constructor; vm_compute; congruence|concrete]. Defined.
